(** * ashred: the overlapped shred pipeline of [ashred.c]

    A shallow embedding of [src/ashred.c] and the properties of its
    buffer-slot pipeline.  The C functions become state-passing Rocq
    functions over one machine state: the operating system behind the
    system calls is an arbitrary transition function [os] on an
    arbitrary [World], every call the program makes is appended,
    together with its answer, to a [trace], and the two loops that the
    C code may spin in for ever (the dispatch loop and the busy wait of
    the drain phase) take fuel.  The program never checks what [malloc]
    returns: where it stores through a pointer that is [NULL], the
    process is killed and the function does not return.

    Integer model (LP64, as on the FreeBSD target of the program):
    [size_t] is 64 bit unsigned, [off_t] and [ssize_t] are 64 bit signed,
    a mixed [size_t]/[off_t] expression is evaluated at [size_t]. *)

From Stdlib Require Import ZArith Lia List String.
From stdpp Require Import base tactics list.

Local Open Scope Z_scope.

(** ** Machine integers *)

Definition two64 : Z := 2 ^ 64.
Definition two63 : Z := 2 ^ 63.

(** Conversion to [size_t]. *)
Definition to_size_t (z : Z) : Z := z mod two64.

(** Conversion to [off_t] and to [ssize_t] (two's complement). *)
Definition to_off_t (z : Z) : Z := (z + two63) mod two64 - two63.
Definition to_ssize_t (z : Z) : Z := (z + two63) mod two64 - two63.

(** ** Data *)

(** The fields of [struct aiocb] that the program touches. *)
Record aiocb := mk_aiocb {
  aio_fildes : Z;
  aio_offset : Z;
  aio_buf : Z;
  aio_nbytes : Z;
  sigev_notify : Z
}.

Definition aiocb_zero : aiocb := mk_aiocb 0 0 0 0 0.

Definition with_fildes (fd : Z) (cb : aiocb) : aiocb :=
  mk_aiocb fd (aio_offset cb) (aio_buf cb) (aio_nbytes cb) (sigev_notify cb).
Definition with_offset (o : Z) (cb : aiocb) : aiocb :=
  mk_aiocb (aio_fildes cb) o (aio_buf cb) (aio_nbytes cb) (sigev_notify cb).
Definition with_nbytes (n : Z) (cb : aiocb) : aiocb :=
  mk_aiocb (aio_fildes cb) (aio_offset cb) (aio_buf cb) n (sigev_notify cb).

(** The format strings of the [printf] calls. *)
Inductive message :=
| MsgShredFileFailed       (* "%s failed with error %d: %s. Exiting.\n" *)
| MsgCantOpenUrandom       (* "Can't open /dev/urandom, error %s\n" *)
| MsgFailedInitialRead     (* "Failed initial read" *)
| MsgSummary               (* "%zd bytes in %g seconds = %g bytes/s\n" *)
| MsgWriteError            (* "Write error: %s\n" *)
| MsgWriteCompletionError  (* "Write completion error: %s\n" *)
| MsgReadError             (* "Read error: %s\n" *)
| MsgSuspendFailed         (* "Suspend failed (%d): %s\n" *)
| MsgFinalWriteCompletionError (* "Final write completion error: %s\n" *)
| MsgFlushFailed.          (* "Failed to flush writes, error %d: %s\n" *)

(** The calls the program makes into libc and the kernel.  A call on a
    slot carries the slot index [i] (the pointer [bl + i]) and the
    control block as it is in memory at the call. *)
Inductive syscall :=
| SysOpen (path : string) (flags : Z)
| SysClose (fd : Z)
| SysMalloc (size : Z)
| SysFree (ptr : Z)
| SysRead (i : nat) (cb : aiocb)   (* read(bl[i].aio_fildes, bl[i].aio_buf, bl[i].aio_nbytes) *)
| SysFstat (fd : Z)
| SysIoctl (fd : Z) (request : Z)
| SysGettimeofday
| SysAioWrite (i : nat) (cb : aiocb)
| SysAioError (i : nat) (cb : aiocb)
| SysAioReturn (i : nat) (cb : aiocb)
| SysAioSuspend (list : Z) (nent : nat)
| SysFsync (fd : Z)
| SysPrintf (m : message) (args : list Z).

(** The answer to a call.  [Ok v]: the call returned [v] and left
    [errno] alone.  [Fail e]: the call returned -1 and set [errno] to [e].
    [OkStat size chr]: the call returned 0 and stored a [struct stat] with
    [st_size = size], for which [S_ISCHR(st_mode)] is [chr].
    [OkSize size]: the call returned 0 and stored [size] through its
    [off_t*] argument. *)
Inductive resp :=
| Ok (v : Z)
| Fail (e : Z)
| OkStat (size : Z) (chr : bool)
| OkSize (size : Z).

Definition ret_of (r : resp) : Z :=
  match r with
  | Ok v => v
  | Fail _ => -1
  | OkStat _ _ => 0
  | OkSize _ => 0
  end.

Definition event : Type := syscall * resp.

(** Control after a statement of a loop body. *)
Inductive ctl :=
| Continue              (* go on with the next iteration *)
| Break                 (* [break] *)
| Return (v : Z)        (* [return v] from the enclosing function *)
| Diverge.              (* the fuel is used up *)

(** [for (int i = i0; i < i0 + n; ++i) body], where the body may
    [continue], [break] or [return]. *)
Fixpoint for_loop {St : Type} (body : nat -> St -> ctl * St)
    (n i : nat) (s : St) : ctl * St :=
  match n with
  | O => (Continue, s)
  | S n' =>
      let '(c, s') := body i s in
      match c with
      | Continue => for_loop body n' (S i) s'
      | _ => (c, s')
      end
  end.

(** The machine state: the world behind the system calls, [errno], the
    calls made so far, the array [bl] of control blocks, and the locals
    [off], [total] and [nread] of [shred_from]. *)
Record state (World : Type) := mk_state {
  world : World;
  errno : Z;
  trace : list event;
  bl : list aiocb;
  off : Z;
  total : Z;
  nread : Z
}.
Arguments mk_state {World}.
Arguments world {World}.
Arguments errno {World}.
Arguments trace {World}.
Arguments bl {World}.
Arguments off {World}.
Arguments total {World}.
Arguments nread {World}.

Section Program.

Context {World : Type}.

(** The operating system: any transition function. *)
Variable os : syscall -> World -> resp * World.

(** Constants of the system headers. *)
Variable EINPROGRESS : Z.
Variable SIGEV_NONE : Z.
Variable O_RDONLY : Z.
Variable O_DIRECT : Z.
Variable O_WRONLY : Z.
Variable DIOCGMEDIASIZE : Z.
Variable sizeof_aiocb : Z.
Variable sizeof_ptr : Z.

Local Abbreviation state := (state World).

Definition set_errno (e : Z) (s : state) : state :=
  mk_state (world s) e (trace s) (bl s) (off s) (total s) (nread s).
Definition set_bl (l : list aiocb) (s : state) : state :=
  mk_state (world s) (errno s) (trace s) l (off s) (total s) (nread s).
Definition set_off (o : Z) (s : state) : state :=
  mk_state (world s) (errno s) (trace s) (bl s) o (total s) (nread s).
Definition set_total (t : Z) (s : state) : state :=
  mk_state (world s) (errno s) (trace s) (bl s) (off s) t (nread s).
Definition set_nread (n : Z) (s : state) : state :=
  mk_state (world s) (errno s) (trace s) (bl s) (off s) (total s) n.

(** [bl[i] = cb]. *)
Definition store (i : nat) (cb : aiocb) (s : state) : state :=
  set_bl (<[i := cb]> (bl s)) s.

(** One call: the world answers, a failure sets [errno], the call is
    logged. *)
Definition call (c : syscall) (s : state) : resp * state :=
  let '(r, w) := os c (world s) in
  (r, mk_state w (match r with Fail e => e | _ => errno s end)
        (trace s ++ [(c, r)]) (bl s) (off s) (total s) (nread s)).

Definition printf (m : message) (args : list Z) (s : state) : state :=
  snd (call (SysPrintf m args) s).

(** The pointer returned by [malloc]; [NULL] when it fails. *)
Definition ptr_of (r : resp) : Z :=
  match r with Ok p => p | _ => 0 end.

(** ** [get_bl_list_from_array] and [free_bl_list] *)

(** [get_bl_list_from_array(bl, nbl)].  The result of [malloc] is not
    checked: the loop [list[i] = bl + i] stores through it.  When it is
    [NULL] and [nbl > 0], the first store kills the process and the call
    does not return, [None]. *)
Definition get_bl_list_from_array (nbl : nat) (s : state)
    : option Z * state :=
  let '(r, s) := call (SysMalloc (Z.of_nat nbl * sizeof_ptr)) s in
  if (ptr_of r =? 0) && (0 <? Z.of_nat nbl) then (None, s)
  else (Some (ptr_of r), s).

Definition free_bl_list (bl_list : Z) (s : state) : state :=
  snd (call (SysFree bl_list) s).

(** ** [shred_from] *)

Section ShredFrom.

Variables (rfd wfd : Z) (len : Z) (bl_list : Z).

(** The assignment of the next byte range to a slot in the reading role:
    [aio_fildes = wfd; aio_offset = off;
     if (aio_nbytes + off >= len) aio_nbytes = len - off;]. *)
Definition assign (cb : aiocb) (off : Z) : aiocb :=
  let cb := with_offset off (with_fildes wfd cb) in
  if to_size_t (aio_nbytes cb + off) >=? len
  then with_nbytes (to_size_t (len - off)) cb
  else cb.

(** The body of the [for] loop inside the dispatch loop, at slot [i]. *)
Definition for_body (i : nat) (s : state) : ctl * state :=
  match bl s !! i with
  | None => (Continue, s)
  | Some cb =>
      if aio_fildes cb =? rfd then
        let cb := assign cb (off s) in
        let s := store i cb s in
        let '(r, s) := call (SysAioWrite i cb) s in
        if ret_of r <? 0 then
          let s := printf MsgWriteError [errno s] s in
          let s := free_bl_list bl_list s in
          (Return (-1), s)
        else
          let s := set_off (to_off_t (off s + aio_nbytes cb)) s in
          if to_size_t (off s) >=? len then (Break, s) else (Continue, s)
      else if aio_fildes cb =? wfd then
        let '(r, s) := call (SysAioError i cb) s in
        if EINPROGRESS =? ret_of r then (Continue, s)
        else
          let '(r, s) := call (SysAioReturn i cb) s in
          let bcnt := ret_of r in
          if bcnt <? 0 then
            let s := printf MsgWriteCompletionError [errno s] s in
            let s := free_bl_list bl_list s in
            (Return (-1), s)
          else
            let s := set_total (to_size_t (total s + bcnt)) s in
            let cb := with_fildes rfd cb in
            let s := store i cb s in
            let '(r, s) := call (SysRead i cb) s in
            if ret_of r <? 0 then
              let s := printf MsgReadError [errno s] s in
              let s := free_bl_list bl_list s in
              (Return (-1), s)
            else (Continue, set_nread (nread s + 1) s)
      else (Continue, s)
  end.

(** [while (off < len) { ... }]: one unit of fuel per round. *)
Fixpoint main_loop (fuel : nat) (s : state) : ctl * state :=
  if to_size_t (off s) <? len then
    match fuel with
    | O => (Diverge, s)
    | S fuel' =>
        let s := set_nread 0 s in
        let '(c, s) := for_loop for_body (length (bl s)) 0 s in
        match c with
        | Return v => (Return v, s)
        | Diverge => (Diverge, s)
        | _ =>
            let '(err, s) :=
              if nread s =? 0 then
                let '(r, s) := call (SysAioSuspend bl_list (length (bl s))) s in
                (ret_of r, s)
              else (0, s) in
            if err <? 0 then
              let s := printf MsgSuspendFailed [errno s; errno s] s in
              let s := free_bl_list bl_list s in
              (Return (-1), s)
            else main_loop fuel' s
        end
    end
  else (Continue, s).

(** [while (EINPROGRESS == aio_error(bl + i));]: one unit of fuel per
    call of [aio_error]. *)
Fixpoint busy_wait (fuel : nat) (i : nat) (cb : aiocb) (s : state)
    : ctl * state :=
  match fuel with
  | O => (Diverge, s)
  | S fuel' =>
      let '(r, s) := call (SysAioError i cb) s in
      if EINPROGRESS =? ret_of r then busy_wait fuel' i cb s
      else (Continue, s)
  end.

(** The body of the [for] loop of the drain phase. *)
Definition drain_body (fuel : nat) (i : nat) (s : state) : ctl * state :=
  match bl s !! i with
  | None => (Continue, s)
  | Some cb =>
      if negb (aio_fildes cb =? wfd) then (Continue, s)
      else
        let '(c, s) := busy_wait fuel i cb s in
        match c with
        | Continue =>
            let '(r, s) := call (SysAioReturn i cb) s in
            let bcnt := ret_of r in
            if bcnt <? 0 then
              let s := printf MsgFinalWriteCompletionError [errno s] s in
              (Return (-1), s)
            else (Continue, set_total (to_size_t (total s + bcnt)) s)
        | _ => (c, s)
        end
  end.

End ShredFrom.

(** The end of [shred_from]: [fsync(wfd)], and the value returned. *)
Definition flush (wfd : Z) (s : state) : option Z * state :=
  let '(r, s) := call (SysFsync wfd) s in
  let err := ret_of r in
  if negb (err =? 0) then
    let s := printf MsgFlushFailed [err; err] s in
    let s := set_errno err s in
    (Some (-1), s)
  else (Some (to_ssize_t (total s)), s).

(** [shred_from(rfd, wfd, bl, nbl, len)], with [bl] the array of the
    state and [nbl] its number of elements.  [None]: the call does not
    return, because the fuel is used up or because the process was killed
    in [get_bl_list_from_array]. *)
Definition shred_from (rfd wfd : Z) (len : Z) (fuel : nat) (s : state)
    : option Z * state :=
  let s := set_total 0 (set_off 0 s) in
  let '(p, s) := get_bl_list_from_array (length (bl s)) s in
  match p with
  | None => (None, s)
  | Some bl_list =>
      let '(c, s) := main_loop rfd wfd len bl_list fuel s in
      match c with
      | Return v => (Some v, s)
      | Diverge => (None, s)
      | _ =>
          let s := free_bl_list bl_list s in
          let '(c, s) := for_loop (drain_body wfd fuel) (length (bl s)) 0 s in
          match c with
          | Return v => (Some v, s)
          | Diverge => (None, s)
          | _ => flush wfd s
          end
      end
  end.

(** ** [get_size] *)

(** [get_size(fd, &size)]: the pair of the returned error code and of
    [*size] afterwards.  [struct stat info = { 0 }] stays zero when
    [fstat] stores nothing. *)
Definition get_size (fd : Z) (size : Z) (s : state) : (Z * Z) * state :=
  let '(r, s) := call (SysFstat fd) s in
  let err := ret_of r in
  if negb (err =? 0) then ((err, size), s)
  else
    let '(st_size, ischr) :=
      match r with OkStat sz chr => (sz, chr) | _ => (0, false) end in
    let total_size := st_size in
    if ischr then
      let '(r, s) := call (SysIoctl fd DIOCGMEDIASIZE) s in
      let err := ret_of r in
      if negb (err =? 0) then ((err, size), s)
      else
        let total_size :=
          match r with OkSize sz => sz | _ => total_size end in
        ((0, total_size), s)
    else ((0, total_size), s).

(** ** [bl_init] and [shred] *)

(** [bl_init(bl + i, rfd, buf_size)]. *)
Definition bl_init (i : nat) (rfd buf_size : Z) (s : state) : state :=
  let s := store i aiocb_zero s in
  let s := store i (mk_aiocb rfd 0 0 0 0) s in
  let '(r, s) := call (SysMalloc buf_size) s in
  let s := store i (mk_aiocb rfd 0 (ptr_of r) 0 0) s in
  let s := store i (mk_aiocb rfd 0 (ptr_of r) buf_size 0) s in
  store i (mk_aiocb rfd 0 (ptr_of r) buf_size SIGEV_NONE) s.

Definition blcnt : nat := 8.
Definition buf_size : Z := 128 * 1024.

(** The body of the priming loop of [shred]. *)
Definition prime_body (randfd : Z) (i : nat) (s : state) : ctl * state :=
  let s := bl_init i randfd buf_size s in
  match bl s !! i with
  | None => (Continue, s)
  | Some cb =>
      let '(r, s) := call (SysRead i cb) s in
      if ret_of r <? 0 then
        let s := printf MsgFailedInitialRead [] s in
        (Return (errno s), s)
      else (Continue, s)
  end.

(** The body of the loop of [shred] that frees the buffers. *)
Definition free_body (i : nat) (s : state) : ctl * state :=
  match bl s !! i with
  | None => (Continue, s)
  | Some cb => (Continue, snd (call (SysFree (aio_buf cb)) s))
  end.

(** [shred(fd)].  The array [bl] is fresh memory: [bl_init] overwrites
    every element before it is read.  The result of its [malloc] is not
    checked: when it is [NULL], the [memset] of the first [bl_init] stores
    through it, the process is killed and the call does not return,
    [None].  The elapsed time and the throughput of the summary line are
    floating point and are left out. *)
Definition shred (fd : Z) (fuel : nat) (s : state) : option Z * state :=
  let '(r, s) := call (SysOpen "/dev/urandom" (Z.lor O_RDONLY O_DIRECT)) s in
  let randfd := ret_of r in
  if randfd <? 0 then
    let s := printf MsgCantOpenUrandom [errno s] s in
    (Some (errno s), s)
  else
    let '(ra, s) := call (SysMalloc (Z.of_nat blcnt * sizeof_aiocb)) s in
    let s := set_bl (replicate blcnt aiocb_zero) s in
    let '(_, s) := call SysGettimeofday s in
    if ptr_of ra =? 0 then (None, s)
    else
      let '(c, s) := for_loop (prime_body randfd) blcnt 0 s in
      match c with
      | Return v => (Some v, s)
      | Diverge => (None, s)
      | _ =>
          let total_size := 0 in
          let '((err, total_size), s) := get_size fd total_size s in
          if negb (err =? 0) then (Some err, s)
          else
            let '(o, s) :=
              shred_from randfd fd (to_size_t total_size) fuel s in
            match o with
            | None => (None, s)
            | Some bytes_written =>
                if bytes_written <? 0 then (Some (errno s), s)
                else
                  let '(_, s) := call (SysClose randfd) s in
                  let '(_, s) := for_loop free_body blcnt 0 s in
                  let '(_, s) := call SysGettimeofday s in
                  let s := printf MsgSummary [bytes_written] s in
                  (Some 0, s)
            end
      end.

(** ** [shred_file] *)

(** [shred_file(filename)]; the message shows [res] and [strerror(res)].
    [None]: [shred] does not return. *)
Definition shred_file (filename : string) (fuel : nat) (s : state)
    : option Z * state :=
  let '(r, s) := call (SysOpen filename O_WRONLY) s in
  let fd := ret_of r in
  if fd =? -1 then (Some (errno s), s)
  else
    let '(o, s) := shred fd fuel s in
    match o with
    | None => (None, s)
    | Some res =>
        let '(_, s) := call (SysClose fd) s in
        let s :=
          if negb (res =? 0) then printf MsgShredFileFailed [res; res] s
          else s in
        (Some res, s)
    end.

(** ** [main] *)

(** The line that [main] writes to [stderr]. *)
Definition usage : string :=
  String.append "Please specify a file/device to shred"
    (String (Ascii.ascii_of_nat 10) EmptyString).

(** [main(argc, argv)], where [argc] is the number of elements of [argv]:
    the lines written to [stderr], the value returned and the state.
    [fprintf(stderr, ...)] is the last thing its branch does, so that
    what it does to [errno] is not seen. *)
Definition main (argv : list string) (fuel : nat) (s : state)
    : list string * (option Z * state) :=
  let argc := Z.of_nat (length argv) in
  if negb (argc =? 2) then ([usage], (Some (-1), s))
  else
    ([], shred_file (nth 1 argv EmptyString) fuel s).

End Program.

(** ** Example operating systems *)

Module Examples.

(** An operating system on which every call succeeds at once: a write
    has finished when it is first polled and reports its full length,
    [malloc] returns fresh pointers, the random source opens as
    descriptor 3 and any other path as descriptor 4, the target is a
    regular file of [size] bytes. *)
Definition prompt_os (size : Z) (c : syscall) (w : Z) : resp * Z :=
  match c with
  | SysOpen path _ =>
      (Ok (if String.eqb path "/dev/urandom" then 3 else 4), w)
  | SysMalloc _ => (Ok (1048576 * (w + 1)), w + 1)
  | SysRead _ cb => (Ok (Z.max 0 (aio_nbytes cb)), w)
  | SysFstat _ => (OkStat size false, w)
  | SysAioReturn _ cb => (Ok (Z.max 0 (aio_nbytes cb)), w)
  | _ => (Ok 0, w)
  end.

Definition init_state {World : Type} (w : World) (l : list aiocb) : state World :=
  mk_state w 0 [] l 0 0 0.

(** A pool of [n] primed slots of capacity [c]. *)
Definition pool (rfd : Z) (c : Z) (n : nat) : list aiocb :=
  map (fun i => mk_aiocb rfd 0 (4096 * Z.of_nat (S i)) c 0) (seq 0 n).

(** As [prompt_os], but every write completes one byte short. *)
Definition short_write_os (size : Z) (c : syscall) (w : Z) : resp * Z :=
  match c with
  | SysAioReturn _ cb => (Ok (aio_nbytes cb - 1), w)
  | _ => prompt_os size c w
  end.

(** As [prompt_os], but [fsync] fails with [EIO]. *)
Definition EIO : Z := 5.
Definition flush_fail_os (size : Z) (c : syscall) (w : Z) : resp * Z :=
  match c with
  | SysFsync _ => (Fail EIO, w)
  | _ => prompt_os size c w
  end.

(** As [prompt_os], but the write at offset [at_off] fails with [EIO] at
    its completion. *)
Definition completion_fail_os (size at_off : Z) (c : syscall) (w : Z)
    : resp * Z :=
  match c with
  | SysAioReturn _ cb =>
      if aio_offset cb =? at_off then (Fail EIO, w)
      else (Ok (aio_nbytes cb), w)
  | _ => prompt_os size c w
  end.

(** As [prompt_os], but the calls picked by [bad], which sees the number
    of allocations made so far, fail with [EIO]. *)
Definition failing_os (size : Z) (bad : syscall -> Z -> bool)
    (c : syscall) (w : Z) : resp * Z :=
  if bad c w then (Fail EIO, w) else prompt_os size c w.

Definition bad_priming_read (c : syscall) (w : Z) : bool :=
  match c with SysRead _ _ => w <? 10 | _ => false end.
Definition bad_refill_read (c : syscall) (w : Z) : bool :=
  match c with SysRead _ _ => 10 <=? w | _ => false end.
Definition bad_dispatch (c : syscall) (w : Z) : bool :=
  match c with SysAioWrite _ _ => true | _ => false end.
Definition bad_completion (c : syscall) (w : Z) : bool :=
  match c with SysAioReturn _ _ => true | _ => false end.
Definition bad_suspend (c : syscall) (w : Z) : bool :=
  match c with SysAioSuspend _ _ => true | _ => false end.
Definition bad_flush (c : syscall) (w : Z) : bool :=
  match c with SysFsync _ => true | _ => false end.
Definition bad_fstat (c : syscall) (w : Z) : bool :=
  match c with SysFstat _ => true | _ => false end.

(** The calls of a trace that release a resource. *)
Definition releases (tr : list event) : list syscall :=
  List.filter
    (fun c => match c with SysClose _ | SysFree _ => true | _ => false end)
    (map fst tr).

(** The calls of a trace that acquire a resource, with what they
    returned. *)
Definition acquires (tr : list event) : list Z :=
  omap (fun ev : event =>
          match ev with
          | (SysOpen _ _, r) => Some (ret_of r)
          | (SysMalloc _, r) => Some (ret_of r)
          | _ => None
          end) tr.

(** The constants of the FreeBSD headers. *)
Definition EINPROGRESS_bsd : Z := 36.
Definition sizeof_ptr_bsd : Z := 8.
Definition sizeof_aiocb_bsd : Z := 160.
Definition O_RDONLY_bsd : Z := 0.
Definition O_WRONLY_bsd : Z := 1.
Definition O_DIRECT_bsd : Z := 65536.
Definition SIGEV_NONE_bsd : Z := 0.
Definition DIOCGMEDIASIZE_bsd : Z := 1074291841.

(** [shred_from] on a pool of [n] slots of [c] bytes, random source 3,
    target 4 of [len] bytes. *)
Definition run_from (os : syscall -> Z -> resp * Z) (n : nat) (c len : Z)
    (fuel : nat) : option Z * state Z :=
  shred_from os EINPROGRESS_bsd sizeof_ptr_bsd 3 4 len fuel
    (init_state 0 (pool 3 c n)).

(** [shred] on the target 4. *)
Definition run_shred (os : syscall -> Z -> resp * Z) (fuel : nat)
    : option Z * state Z :=
  shred os EINPROGRESS_bsd SIGEV_NONE_bsd O_RDONLY_bsd O_DIRECT_bsd
    DIOCGMEDIASIZE_bsd sizeof_aiocb_bsd sizeof_ptr_bsd 4 fuel
    (init_state 0 []).

(** [shred_file] on the path [/dev/da0]. *)
Definition run_shred_file (os : syscall -> Z -> resp * Z) (fuel : nat)
    : option Z * state Z :=
  shred_file os EINPROGRESS_bsd SIGEV_NONE_bsd O_RDONLY_bsd O_DIRECT_bsd
    O_WRONLY_bsd DIOCGMEDIASIZE_bsd sizeof_aiocb_bsd sizeof_ptr_bsd
    "/dev/da0" fuel (init_state 0 []).

(** As [prompt_os], with a count of allocations that is never negative. *)
Definition steady_os (size : Z) (c : syscall) (w : Z) : resp * Z :=
  prompt_os size c (Z.abs w).

(** As [steady_os], but the target is a character device whose [st_size]
    is 0 and whose media size is [size]. *)
Definition device_os (size : Z) (c : syscall) (w : Z) : resp * Z :=
  match c with
  | SysFstat _ => (OkStat 0 true, w)
  | SysIoctl _ _ => (OkSize size, w)
  | _ => steady_os size c w
  end.

(** [main] with the arguments [argv]. *)
Definition run_main (os : syscall -> Z -> resp * Z) (argv : list string)
    (fuel : nat) : list string * (option Z * state Z) :=
  main os EINPROGRESS_bsd SIGEV_NONE_bsd O_RDONLY_bsd O_DIRECT_bsd
    O_WRONLY_bsd DIOCGMEDIASIZE_bsd sizeof_aiocb_bsd sizeof_ptr_bsd
    argv fuel (init_state 0 []).

End Examples.


(** ** Vocabulary of the properties *)

(** [s'] is [s] after the calls [evs], with the array and the locals as
    given. *)
Definition upd {World : Type} (s s' : state World) (evs : list event)
    (l : list aiocb) (o t n : Z) : Prop :=
  trace s' = trace s ++ evs /\ bl s' = l /\ off s' = o /\ total s' = t /\
  nread s' = n.

(** [s'] is [s] after the calls [evs], array and locals untouched. *)
Definition same_frame {World : Type} (s s' : state World)
    (evs : list event) : Prop :=
  upd s s' evs (bl s) (off s) (total s) (nread s).

(** The two calls that end an error path of the dispatch loop. *)
Definition cleanup (m : message) (bl_list : Z) (evs : list event) : Prop :=
  exists a r1 r2, evs = [(SysPrintf m a, r1); (SysFree bl_list, r2)].

(** The polls of a write that is still in progress. *)
Definition polls (i : nat) (cb : aiocb) (rs : list resp) : list event :=
  map (fun r => (SysAioError i cb, r)) rs.

(** The byte ranges handed to [aio_write], in the order of the calls:
    pairs of an offset and a length. *)
Definition dispatched (tr : list event) : list (Z * Z) :=
  omap (fun ev : event =>
          match ev with
          | (SysAioWrite _ cb, _) => Some (aio_offset cb, aio_nbytes cb)
          | _ => None
          end) tr.

(** The completions collected by [aio_return], in the order of the
    calls: pairs of the length that was asked for and of the byte count
    that was reported. *)
Definition completions (tr : list event) : list (Z * Z) :=
  omap (fun ev : event =>
          match ev with
          | (SysAioReturn _ cb, r) => Some (aio_nbytes cb, ret_of r)
          | _ => None
          end) tr.

Definition sum_list (l : list Z) : Z := foldr Z.add 0 l.

(** Sum of the lengths asked for, sum of the counts reported. *)
Definition requested (tr : list event) : Z := sum_list (map fst (completions tr)).
Definition confirmed (tr : list event) : Z := sum_list (map snd (completions tr)).

(** [tiles a rs b]: the ranges [rs] are non-empty, each starts where the
    one before ends, the first at [a], and the last ends at [b]. *)
Fixpoint tiles (a : Z) (rs : list (Z * Z)) (b : Z) : Prop :=
  match rs with
  | [] => a = b
  | (o, n) :: rs' => o = a /\ 0 < n /\ tiles (o + n) rs' b
  end.

(** The life of the write of a slot, as the calls show it. *)
Inductive slot_status :=
| Idle         (* no write outstanding: the buffer belongs to the program *)
| InFlight     (* [aio_write] accepted the buffer, no completion seen yet *)
| Finished.    (* [aio_error] has shown the completion, not yet collected *)

(** The protocol of the slots: a write is submitted on an idle slot only,
    a slot is polled only while its write is outstanding, a completion is
    collected only after a poll has shown it, and [read] fills the buffer
    of an idle slot only.  [None]: the call breaks the protocol. *)
Definition protocol_step (EINPROGRESS : Z) (st : list slot_status)
    (ev : event) : option (list slot_status) :=
  match ev with
  | (SysAioWrite i _, r) =>
      match st !! i with
      | Some Idle => Some (if ret_of r <? 0 then st else <[i := InFlight]> st)
      | _ => None
      end
  | (SysAioError i _, r) =>
      match st !! i with
      | Some InFlight =>
          Some (if EINPROGRESS =? ret_of r then st else <[i := Finished]> st)
      | _ => None
      end
  | (SysAioReturn i _, _) =>
      match st !! i with
      | Some Finished => Some (<[i := Idle]> st)
      | _ => None
      end
  | (SysRead i _, _) =>
      match st !! i with
      | Some Idle => Some st
      | _ => None
      end
  | _ => Some st
  end.

Fixpoint protocol (EINPROGRESS : Z) (st : list slot_status)
    (tr : list event) : option (list slot_status) :=
  match tr with
  | [] => Some st
  | ev :: tr' =>
      match protocol_step EINPROGRESS st ev with
      | Some st' => protocol EINPROGRESS st' tr'
      | None => None
      end
  end.

(** The status that the role field [aio_fildes] stands for. *)
Definition role (wfd : Z) (cb : aiocb) : slot_status :=
  if aio_fildes cb =? wfd then InFlight else Idle.

(** The bytes of the write that the role field says is outstanding. *)
Definition weight (wfd : Z) (cb : aiocb) : Z :=
  if aio_fildes cb =? wfd then aio_nbytes cb else 0.

(** A completion that reports an error. *)
Definition failed_completion (ev : event) : Prop :=
  match ev with
  | (SysAioReturn _ _, r) => ret_of r < 0
  | _ => False
  end.

(** A call that submits a write. *)
Definition is_dispatch (ev : event) : Prop :=
  match ev with
  | (SysAioWrite _ _, _) => True
  | _ => False
  end.

(** A call that is neither on a slot nor a read. *)
Definition neutral (ev : event) : Prop :=
  match ev with
  | (SysAioWrite _ _, _) | (SysAioError _ _, _) | (SysAioReturn _ _, _)
  | (SysRead _ _, _) => False
  | _ => True
  end.

Section Steps.

Context {World : Type}.
Variables (EINPROGRESS : Z) (rfd wfd len bl_list : Z).

Local Abbreviation state := (state World).

(** What one pass of the body of the dispatch loop does at slot [i]. *)
Inductive for_body_step (i : nat) (s : state) : ctl -> state -> Prop :=
| fb_none :
    bl s !! i = None -> for_body_step i s Continue s
| fb_other cb :
    bl s !! i = Some cb -> aio_fildes cb <> rfd -> aio_fildes cb <> wfd ->
    for_body_step i s Continue s
| fb_dispatch cb r c s' :
    bl s !! i = Some cb -> aio_fildes cb = rfd -> 0 <= ret_of r ->
    upd s s' [(SysAioWrite i (assign wfd len cb (off s)), r)]
      (<[i := assign wfd len cb (off s)]> (bl s))
      (to_off_t (off s + aio_nbytes (assign wfd len cb (off s))))
      (total s) (nread s) ->
    c = (if to_size_t (off s') >=? len then Break else Continue) ->
    for_body_step i s c s'
| fb_dispatch_fail cb r tl s' :
    bl s !! i = Some cb -> aio_fildes cb = rfd -> ret_of r < 0 ->
    cleanup MsgWriteError bl_list tl ->
    upd s s' ((SysAioWrite i (assign wfd len cb (off s)), r) :: tl)
      (<[i := assign wfd len cb (off s)]> (bl s)) (off s) (total s) (nread s) ->
    for_body_step i s (Return (-1)) s'
| fb_in_progress cb r s' :
    bl s !! i = Some cb -> aio_fildes cb <> rfd -> aio_fildes cb = wfd ->
    ret_of r = EINPROGRESS ->
    same_frame s s' [(SysAioError i cb, r)] ->
    for_body_step i s Continue s'
| fb_completion_fail cb r r2 tl s' :
    bl s !! i = Some cb -> aio_fildes cb <> rfd -> aio_fildes cb = wfd ->
    ret_of r <> EINPROGRESS -> ret_of r2 < 0 ->
    cleanup MsgWriteCompletionError bl_list tl ->
    same_frame s s' ((SysAioError i cb, r) :: (SysAioReturn i cb, r2) :: tl) ->
    for_body_step i s (Return (-1)) s'
| fb_read_fail cb r r2 r3 tl s' :
    bl s !! i = Some cb -> aio_fildes cb <> rfd -> aio_fildes cb = wfd ->
    ret_of r <> EINPROGRESS -> 0 <= ret_of r2 -> ret_of r3 < 0 ->
    cleanup MsgReadError bl_list tl ->
    upd s s' ((SysAioError i cb, r) :: (SysAioReturn i cb, r2) ::
              (SysRead i (with_fildes rfd cb), r3) :: tl)
      (<[i := with_fildes rfd cb]> (bl s)) (off s)
      (to_size_t (total s + ret_of r2)) (nread s) ->
    for_body_step i s (Return (-1)) s'
| fb_refill cb r r2 r3 s' :
    bl s !! i = Some cb -> aio_fildes cb <> rfd -> aio_fildes cb = wfd ->
    ret_of r <> EINPROGRESS -> 0 <= ret_of r2 -> 0 <= ret_of r3 ->
    upd s s' [(SysAioError i cb, r); (SysAioReturn i cb, r2);
              (SysRead i (with_fildes rfd cb), r3)]
      (<[i := with_fildes rfd cb]> (bl s)) (off s)
      (to_size_t (total s + ret_of r2)) (nread s + 1) ->
    for_body_step i s Continue s'.

(** What one pass of the body of the drain loop does at slot [i]. *)
Inductive drain_step (i : nat) (s : state) : ctl -> state -> Prop :=
| dr_none :
    bl s !! i = None -> drain_step i s Continue s
| dr_skip cb :
    bl s !! i = Some cb -> aio_fildes cb <> wfd -> drain_step i s Continue s
| dr_diverge cb rs s' :
    bl s !! i = Some cb -> aio_fildes cb = wfd ->
    Forall (fun r => ret_of r = EINPROGRESS) rs ->
    same_frame s s' (polls i cb rs) ->
    drain_step i s Diverge s'
| dr_fail cb rs r r2 a r3 s' :
    bl s !! i = Some cb -> aio_fildes cb = wfd ->
    Forall (fun r => ret_of r = EINPROGRESS) rs ->
    ret_of r <> EINPROGRESS -> ret_of r2 < 0 ->
    same_frame s s'
      (polls i cb rs ++ [(SysAioError i cb, r); (SysAioReturn i cb, r2);
                         (SysPrintf MsgFinalWriteCompletionError a, r3)]) ->
    drain_step i s (Return (-1)) s'
| dr_collect cb rs r r2 s' :
    bl s !! i = Some cb -> aio_fildes cb = wfd ->
    Forall (fun r => ret_of r = EINPROGRESS) rs ->
    ret_of r <> EINPROGRESS -> 0 <= ret_of r2 ->
    upd s s' (polls i cb rs ++ [(SysAioError i cb, r); (SysAioReturn i cb, r2)])
      (bl s) (off s) (to_size_t (total s + ret_of r2)) (nread s) ->
    drain_step i s Continue s'.

End Steps.

(** Calls on the slot [j]. *)
Definition submits (j : nat) (ev : event) : Prop :=
  match ev with
  | (SysAioWrite i _, _) => i = j
  | _ => False
  end.

Definition collects (j : nat) (ev : event) : Prop :=
  match ev with
  | (SysAioReturn i _, _) => i = j
  | _ => False
  end.

(** ** Short reads *)

(** The answer [r] to the call [c], where the byte count of a [read] that
    did not fail is replaced by the count [g c v]. *)
Definition shorten_resp (g : syscall -> Z -> Z) (c : syscall) (r : resp)
    : resp :=
  match c, r with
  | SysRead _ _, Ok v => if 0 <=? v then Ok (g c v) else r
  | _, _ => r
  end.

(** The operating system [os] with its reads shortened by [g]. *)
Definition shorten {World : Type} (g : syscall -> Z -> Z)
    (os : syscall -> World -> resp * World) (c : syscall) (w : World)
    : resp * World :=
  let '(r, w') := os c w in (shorten_resp g c r, w').

Definition shorten_trace (g : syscall -> Z -> Z) (tr : list event)
    : list event :=
  map (fun ev : event => (fst ev, shorten_resp g (fst ev) (snd ev))) tr.

Definition shorten_state {World : Type} (g : syscall -> Z -> Z)
    (s : state World) : state World :=
  mk_state (world s) (errno s) (shorten_trace g (trace s)) (bl s) (off s)
    (total s) (nread s).

(** The messages that report an error of the random source, and the reads
    that returned a negative value. *)
Definition read_error_message (ev : event) : bool :=
  match ev with
  | (SysPrintf MsgReadError _, _) | (SysPrintf MsgFailedInitialRead _, _) =>
      true
  | _ => false
  end.

Definition negative_read (ev : event) : bool :=
  match ev with
  | (SysRead _ _, r) => ret_of r <? 0
  | _ => false
  end.

Definition count (p : event -> bool) (tr : list event) : nat :=
  length (List.filter p tr).

(** No more messages about the random source than reads that returned a
    negative value. *)
Definition balanced (tr : list event) : Prop :=
  (count read_error_message tr <= count negative_read tr)%nat.

(** The trace of [s'] is that of [s] and then calls that are balanced. *)
Definition grows {World : Type} (s s' : state World) : Prop :=
  exists new, trace s' = trace s ++ new /\ balanced new.

(** ** Operating systems that answer at once *)

(** An answer that lets the pipeline go on: the write is accepted, the
    poll shows it complete, the completion and the read report a byte
    count, the wait returns. *)
Definition responsive (EINPROGRESS : Z) (c : syscall) (r : resp) : Prop :=
  match c with
  | SysAioWrite _ _ => 0 <= ret_of r
  | SysAioError _ _ => ret_of r <> EINPROGRESS
  | SysAioReturn _ _ => 0 <= ret_of r
  | SysRead _ _ => 0 <= ret_of r
  | SysAioSuspend _ _ => 0 <= ret_of r
  | _ => True
  end.

Definition responsive_os {World : Type} (EINPROGRESS : Z)
    (os : syscall -> World -> resp * World) : Prop :=
  forall c w, responsive EINPROGRESS c (fst (os c w)).

(** The list of [shred_from] is allocated: in the state [s], [malloc]
    does not answer [NULL] when it is asked for the list of the pool. *)
Definition list_allocated {World : Type}
    (os : syscall -> World -> resp * World) (sizeof_ptr : Z)
    (s : state World) : Prop :=
  ptr_of (fst (os (SysMalloc (Z.of_nat (length (bl s)) * sizeof_ptr))
                 (world s))) <> 0.

(** A slot in the reading role. *)
Definition reader (rfd : Z) (cb : aiocb) : Prop := aio_fildes cb = rfd.

(** What is left to do at the head of the dispatch loop: twice the bytes
    that are not handed out yet, and one more round when every slot is
    waiting for its write. *)
Definition rounds_left {World : Type} (rfd len : Z) (s : state World) : Z :=
  2 * (len - off s) +
  (if existsb (fun cb => aio_fildes cb =? rfd) (bl s) then 0 else 1).

(** ** Invariants of a run of [shred_from] *)

(** The calls after a completion that reported an error: the message and,
    inside the dispatch loop, the release of the list. *)
Definition error_tail (tl : list event) : Prop :=
  (exists p, cleanup MsgWriteCompletionError p tl) \/
  (exists a r, tl = [(SysPrintf MsgFinalWriteCompletionError a, r)]).

(** The calls [evs] stop right after the first completion that reports
    an error. *)
Definition aborted (evs : list event) : Prop :=
  exists pre ev tl, evs = pre ++ ev :: tl /\
    Forall (fun ev => ~ failed_completion ev) pre /\
    failed_completion ev /\ error_tail tl.

(** A call on a slot is made in the role that the control block shows:
    writes, polls and collections on a block that points at the target,
    reads on a block that points at the random source. *)
Definition in_role (rfd wfd : Z) (ev : event) : Prop :=
  match ev with
  | (SysAioWrite _ cb, _) | (SysAioError _ cb, _) | (SysAioReturn _ cb, _) =>
      aio_fildes cb = wfd
  | (SysRead _ cb, _) => aio_fildes cb = rfd
  | _ => True
  end.

(** A call on the slot [i] names the buffer that the slot had at the
    start, [bufs0 !! i]. *)
Definition own_buffer (bufs0 : list Z) (ev : event) : Prop :=
  match ev with
  | (SysAioWrite i cb, _) | (SysAioError i cb, _) | (SysAioReturn i cb, _)
  | (SysRead i cb, _) => bufs0 !! i = Some (aio_buf cb)
  | _ => True
  end.

(** The status list [st] is what the role fields of [l] say, where the
    writes of the slots below [k] have been collected. *)
Definition tracks (wfd : Z) (k : nat) (st : list slot_status)
    (l : list aiocb) : Prop :=
  length st = length l /\
  forall j cb, l !! j = Some cb ->
    st !! j = Some (if (j <? k)%nat then Idle else role wfd cb).

(** The pool as [shred] hands it over: every slot in the reading role,
    with a buffer of [C] bytes. *)
Definition primed (rfd C : Z) (l : list aiocb) : Prop :=
  Forall (fun cb => aio_fildes cb = rfd /\ aio_nbytes cb = C) l.

(** A run that returned [v] through the last [return] of [shred_from]. *)
Definition succeeded (len : Z) (evs : list event) (v : Z) : Prop :=
  Forall (fun ev => ~ failed_completion ev) evs /\
  tiles 0 (dispatched evs) len /\
  requested evs = len /\
  v = to_ssize_t (to_size_t (confirmed evs)).

Section Invariants.

Context {World : Type}.
Variables (EINPROGRESS rfd wfd len C : Z) (N : nat) (t0 : list event).
Variable bufs0 : list Z.

(** What holds of the state [s] and of the calls [evs] made since the
    start of [shred_from], wherever the run stands or has stopped. *)
Record weak (s : state World) (evs : list event) : Prop := {
  wk_trace : trace s = t0 ++ evs;
  wk_len : length (bl s) = N;
  wk_roles :
    Forall (fun cb => aio_fildes cb = rfd \/ aio_fildes cb = wfd) (bl s);
  wk_ranges : exists e, e <= len /\ tiles 0 (dispatched evs) e;
  wk_lens :
    Forall (fun r => snd r = Z.min C (len - fst r)) (dispatched evs);
  wk_proto : is_Some (protocol EINPROGRESS (replicate N Idle) evs);
  wk_in_role : Forall (in_role rfd wfd) evs;
  wk_fail : Forall (fun ev => ~ failed_completion ev) evs \/ aborted evs;
  wk_bufs : map aio_buf (bl s) = bufs0;
  wk_own : Forall (own_buffer bufs0) evs
}.

(** What holds in addition while the run goes on: at the head of the
    dispatch loop and between two slots of its [for] loop ([k = 0]), and
    in the drain loop before slot [k]. *)
Record strong (k : nat) (s : state World) (evs : list event) : Prop := {
  st_off : 0 <= off s <= len;
  st_cap :
    off s < len ->
    Forall (fun cb => aio_nbytes cb = C) (bl s) /\ (off s = 0 \/ C < len);
  st_tiles : tiles 0 (dispatched evs) (off s);
  st_proto :
    exists st, protocol EINPROGRESS (replicate N Idle) evs = Some st /\
      tracks wfd k st (bl s);
  st_acct :
    requested evs + sum_list (map (weight wfd) (drop k (bl s))) = off s;
  st_total : total s = to_size_t (confirmed evs);
  st_nofail : Forall (fun ev => ~ failed_completion ev) evs
}.

Definition inv (k : nat) (s : state World) : Prop :=
  exists evs, weak s evs /\ strong k s evs.

Definition stopped (s : state World) : Prop := exists evs, weak s evs.

End Invariants.

(** What holds before slot [i] in a round of the dispatch loop that
    started in [s0], on an operating system that answers at once: the
    slots from [i] on are as they were; the cursor has moved on when a
    slot below [i] was a reader; otherwise it has not moved and the slots
    below [i] have all become readers. *)
Definition round_inv {World : Type} (EINPROGRESS rfd wfd len C : Z) (N : nat)
    (t0 : list event) (bufs0 : list Z) (s0 : state World) (i : nat) (s : state World) : Prop :=
  inv EINPROGRESS rfd wfd len C N t0 bufs0 0 s /\ off s < len /\
  drop i (bl s) = drop i (bl s0) /\ off s0 <= off s /\
  (Exists (reader rfd) (take i (bl s0)) -> off s0 < off s) /\
  (~ Exists (reader rfd) (take i (bl s0)) ->
     off s = off s0 /\ Forall (reader rfd) (take i (bl s))).

(** ** More vocabulary: the calls of a run by their kind *)

Definition is_free (ev : event) : Prop :=
  match ev with (SysFree _, _) => True | _ => False end.

Definition is_suspend (ev : event) : Prop :=
  match ev with (SysAioSuspend _ _, _) => True | _ => False end.

Definition is_fsync (ev : event) : Prop :=
  match ev with (SysFsync _, _) => True | _ => False end.

Definition is_printf (ev : event) : Prop :=
  match ev with (SysPrintf _ _, _) => True | _ => False end.

(** A call that asks for the size of the target. *)
Definition is_size_call (ev : event) : Prop :=
  match ev with
  | (SysFstat _, _) | (SysIoctl _ _, _) => True
  | _ => False
  end.

(** A wait names the list [p]. *)
Definition waits_on (p : Z) (ev : event) : Prop :=
  match ev with
  | (SysAioSuspend l _, _) => l = p
  | _ => True
  end.

(** A call of the dispatch loop after which the loop goes on: a call on a
    slot that did not fail, or a wait on the list [p] that returned. *)
Definition loop_call (p : Z) (ev : event) : Prop :=
  match ev with
  | (SysAioWrite _ _, r) | (SysAioReturn _ _, r) | (SysRead _ _, r) =>
      0 <= ret_of r
  | (SysAioError _ _, _) => True
  | (SysAioSuspend l _, r) => l = p /\ 0 <= ret_of r
  | _ => False
  end.

(** A call of the drain loop after which the loop goes on. *)
Definition drain_call (ev : event) : Prop :=
  match ev with
  | (SysAioError _ _, _) => True
  | (SysAioReturn _ _, r) => 0 <= ret_of r
  | _ => False
  end.

(** The call [c], answered [r], failed, and [m] with the arguments [a] is
    the message that [shred_from] prints for it: the arguments are the
    [errno] that the call has set. *)
Definition reports (c : syscall) (r : resp) (m : message) (a : list Z)
    : Prop :=
  ret_of r < 0 /\
  match c, m with
  | SysAioWrite _ _, MsgWriteError
  | SysAioReturn _ _, MsgWriteCompletionError
  | SysAioReturn _ _, MsgFinalWriteCompletionError
  | SysRead _ _, MsgReadError => forall e, r = Fail e -> a = [e]
  | SysAioSuspend _ _, MsgSuspendFailed => forall e, r = Fail e -> a = [e; e]
  | _, _ => False
  end.

(** The calls of a round of the dispatch loop that finds an error: the
    calls before it, the call that failed (on the list [p] when it is a
    wait), its message, and the release of the list [p]. *)
Definition failed_round (p : Z) (evs : list event) : Prop :=
  exists body c r m a r1 r2,
    evs = body ++ [(c, r); (SysPrintf m a, r1); (SysFree p, r2)] /\
    Forall (loop_call p) body /\ reports c r m a /\ waits_on p (c, r) /\
    m <> MsgFinalWriteCompletionError.

(** The calls of a pass of the drain loop that finds an error. *)
Definition failed_drain (evs : list event) : Prop :=
  exists pre i cb r a r1,
    evs = pre ++ [(SysAioReturn i cb, r);
                  (SysPrintf MsgFinalWriteCompletionError a, r1)] /\
    Forall drain_call pre /\
    reports (SysAioReturn i cb) r MsgFinalWriteCompletionError a.

(** The calls of a run of [shred_from] after the allocation of the list
    [p], by the way the run ends: killed at the first store through a
    list that is [NULL], out of fuel in the dispatch loop, an error in the
    dispatch loop, out of fuel in the drain loop, an error in the drain
    loop, an error of the flush, the last [return]. *)
Inductive run_shape (wfd p : Z) : option Z -> list event -> Prop :=
| run_killed :
    p = 0 -> run_shape wfd p None []
| run_fuel_dispatch body :
    Forall (loop_call p) body ->
    run_shape wfd p None body
| run_fail_dispatch evs :
    failed_round p evs ->
    run_shape wfd p (Some (-1)) evs
| run_fuel_drain body r2 drain :
    Forall (loop_call p) body -> Forall drain_call drain ->
    run_shape wfd p None (body ++ (SysFree p, r2) :: drain)
| run_fail_drain body r2 drain :
    Forall (loop_call p) body -> failed_drain drain ->
    run_shape wfd p (Some (-1)) (body ++ (SysFree p, r2) :: drain)
| run_fail_flush body r2 drain r r3 :
    Forall (loop_call p) body -> Forall drain_call drain ->
    ret_of r <> 0 ->
    run_shape wfd p (Some (-1))
      (body ++ (SysFree p, r2) :: drain ++
       [(SysFsync wfd, r);
        (SysPrintf MsgFlushFailed [ret_of r; ret_of r], r3)])
| run_done body r2 drain r v :
    Forall (loop_call p) body -> Forall drain_call drain ->
    ret_of r = 0 ->
    run_shape wfd p (Some v)
      (body ++ (SysFree p, r2) :: drain ++ [(SysFsync wfd, r)]).

(** The answer of the event is one that [os] gives to its call. *)
Definition answered {World : Type} (os : syscall -> World -> resp * World)
    (ev : event) : Prop :=
  exists w, fst (os (fst ev) w) = snd ev.

(** The convention of [errno]: a call that returns a negative value has
    set [errno], and [errno] is never set to 0. *)
Definition errno_convention {World : Type}
    (os : syscall -> World -> resp * World) : Prop :=
  forall c w,
    match fst (os c w) with
    | Fail e => e <> 0
    | r => 0 <= ret_of r
    end.

(** An operating system on which nothing fails and nothing is slow: the
    calls succeed, [malloc] does not return [NULL], a write has completed
    when it is polled and reports no more than its length, and the sizes
    that are reported lie between 0 and [M]. *)
Definition faultless {World : Type} (EINPROGRESS M : Z)
    (os : syscall -> World -> resp * World) : Prop :=
  forall c w,
    let r := fst (os c w) in
    match c with
    | SysOpen _ _ | SysRead _ _ | SysAioWrite _ _ | SysAioSuspend _ _ =>
        0 <= ret_of r
    | SysAioError _ _ => ret_of r <> EINPROGRESS
    | SysAioReturn _ cb => 0 <= ret_of r <= Z.max 0 (aio_nbytes cb)
    | SysFstat _ =>
        ret_of r = 0 /\ forall n chr, r = OkStat n chr -> 0 <= n <= M
    | SysIoctl _ _ =>
        ret_of r = 0 /\ forall n, r = OkSize n -> 0 <= n <= M
    | SysFsync _ => ret_of r = 0
    | SysMalloc _ => ptr_of r <> 0
    | _ => True
    end.

(** The descriptors that the [open] calls returned, in the order of the
    calls. *)
Definition opened (tr : list event) : list Z :=
  omap (fun ev : event =>
          match ev with
          | (SysOpen _ _, r) => Some (ret_of r)
          | _ => None
          end) tr.

(** The pointers that the [malloc] calls returned. *)
Definition allocated (tr : list event) : list Z :=
  omap (fun ev : event =>
          match ev with
          | (SysMalloc _, r) => Some (ptr_of r)
          | _ => None
          end) tr.

(** The sizes that [fstat] and [ioctl] stored, and the size of the target
    as [get_size] sees it: the last of them, 0 when nothing was stored. *)
Definition sizes (tr : list event) : list Z :=
  omap (fun ev : event =>
          match ev with
          | (SysFstat _, OkStat n _) => Some n
          | (SysIoctl _ _, OkSize n) => Some n
          | _ => None
          end) tr.

Definition target_size (tr : list event) : Z := default 0 (last (sizes tr)).

(** The [k]th piece of a target of [len] bytes that is cut into pieces of
    [C] bytes, and the number of the pieces. *)
Definition chunk (C len : Z) (k : nat) : Z * Z :=
  (Z.of_nat k * C, Z.min C (len - Z.of_nat k * C)).

Definition chunks (C len : Z) : nat := Z.to_nat ((len + C - 1) / C).

(** Every byte range has been written and collected: the ranges handed
    to [aio_write] tile [0, len), no completion reported an error, the
    lengths of the collected writes sum to [len], and every slot is
    idle. *)
Definition settled (EINPROGRESS : Z) (N : nat) (len : Z)
    (evs : list event) : Prop :=
  tiles 0 (dispatched evs) len /\
  Forall (fun ev => ~ failed_completion ev) evs /\
  requested evs = len /\
  protocol EINPROGRESS (replicate N Idle) evs = Some (replicate N Idle).

(** A control block whose length is not negative, and a call on such a
    block. *)
Definition sized (cb : aiocb) : Prop := 0 <= aio_nbytes cb.

Definition on_sized (ev : event) : Prop :=
  match ev with
  | (SysAioWrite _ cb, _) | (SysAioError _ cb, _) | (SysAioReturn _ cb, _)
  | (SysRead _ cb, _) => sized cb
  | _ => True
  end.

(** The calls of the priming loop of [shred] for the slots from [i] on,
    with the answers [rs] of [malloc] and of [read] for each slot. *)
Definition slot_of (randfd SIGEV_NONE : Z) (rm : resp) : aiocb :=
  mk_aiocb randfd 0 (ptr_of rm) buf_size SIGEV_NONE.

Fixpoint priming (randfd SIGEV_NONE : Z) (i : nat) (rs : list (resp * resp))
    : list event :=
  match rs with
  | [] => []
  | (rm, rr) :: rs' =>
      (SysMalloc buf_size, rm) ::
      (SysRead i (slot_of randfd SIGEV_NONE rm), rr) ::
      priming randfd SIGEV_NONE (S i) rs'
  end.

(** From [s] to [s'] the slots have kept their buffers, and when the
    lengths of the blocks of [s] are not negative, so are those of [s']
    and of the blocks of the calls made in between. *)
Definition pool_kept {World : Type} (s s' : state World) : Prop :=
  map aio_buf (bl s') = map aio_buf (bl s) /\
  (Forall sized (bl s) ->
   Forall sized (bl s') /\
   exists evs, trace s' = trace s ++ evs /\ Forall on_sized evs).

(** The message [m] with the arguments [a] is the one that [shred_from]
    prints when the call [c], answered [r], has failed: as in [reports],
    and for [fsync] the message of the flush, whose arguments are the
    value that [fsync] returned. *)
Definition announces (wfd : Z) (c : syscall) (r : resp) (m : message)
    (a : list Z) : Prop :=
  match c with
  | SysFsync fd =>
      fd = wfd /\ m = MsgFlushFailed /\ ret_of r <> 0 /\
      a = [ret_of r; ret_of r]
  | _ => reports c r m a
  end.

(** The waits on the list [p] of an empty pool, with their answers. *)
Definition waits (p : Z) (rs : list resp) : list event :=
  map (fun r => (SysAioSuspend p 0, r)) rs.

(** A call that asks for the size of [fd]: [fstat], or [ioctl] with the
    request [req]. *)
Definition asks_size (fd req : Z) (ev : event) : Prop :=
  match ev with
  | (SysFstat f, _) => f = fd
  | (SysIoctl f q, _) => f = fd /\ q = req
  | _ => False
  end.

(** A call that [shred_from] makes after it has allocated its list. *)
Definition pipeline_call (ev : event) : Prop :=
  match ev with
  | (SysAioWrite _ _, _) | (SysAioError _ _, _) | (SysAioReturn _ _, _)
  | (SysRead _ _, _) | (SysAioSuspend _ _, _) | (SysFree _, _)
  | (SysFsync _, _) => True
  | (SysPrintf m _, _) => m <> MsgSummary
  | _ => False
  end.

(** The release of the buffers of the blocks [l], with the answers
    [rs]. *)
Definition frees (l : list aiocb) (rs : list resp) : list event :=
  zip_with (fun cb r => (SysFree (aio_buf cb), r)) l rs.

(** The byte ranges of the writes that [aio_return] has collected, in the
    order of the calls: pairs of an offset and a length. *)
Definition collected (tr : list event) : list (Z * Z) :=
  omap (fun ev : event =>
          match ev with
          | (SysAioReturn _ cb, _) => Some (aio_offset cb, aio_nbytes cb)
          | _ => None
          end) tr.

(** Every range handed to [aio_write] in [evs] has been collected, or it
    is the range of a slot of [l] from [k] on that is in the writing
    role. *)
Definition accounted (wfd : Z) (k : nat) (l : list aiocb)
    (evs : list event) : Prop :=
  forall r, In r (dispatched evs) ->
    In r (collected evs) \/
    exists i cb, (k <= i)%nat /\ l !! i = Some cb /\ aio_fildes cb = wfd /\
      (aio_offset cb, aio_nbytes cb) = r.

(** The state [s] of a run that started with the trace [t0] accounts for
    its writes. *)
Definition keeps_account {World : Type} (wfd : Z) (t0 : list event)
    (k : nat) (s : state World) : Prop :=
  exists evs, trace s = t0 ++ evs /\ accounted wfd k (bl s) evs.

(** ** The runs of [shred] *)

Section ShredRuns.

Context {World : Type}.
Variable os : syscall -> World -> resp * World.
Variables (EINPROGRESS SIGEV_NONE O_RDONLY O_DIRECT DIOCGMEDIASIZE : Z).
Variables (sizeof_aiocb sizeof_ptr : Z).

(** The calls of [shred] before it asks for the size of the target: the
    random source is opened and answers [r0], the array is allocated, the
    clock is read, and the slots are primed with the answers [rs]. *)
Definition prologue (r0 ra rg : resp) (rs : list (resp * resp))
    : list event :=
  (SysOpen "/dev/urandom" (Z.lor O_RDONLY O_DIRECT), r0) ::
  (SysMalloc (Z.of_nat blcnt * sizeof_aiocb), ra) ::
  (SysGettimeofday, rg) ::
  priming (ret_of r0) SIGEV_NONE 0 rs.

(** The calls of [shred] after [shred_from] has returned [v]: the random
    source is closed, the buffers of the blocks [l] are released, the
    clock is read and the summary is printed. *)
Definition epilogue (randfd v : Z) (l : list aiocb) (rc : resp)
    (rfs : list resp) (rg rp : resp) : list event :=
  (SysClose randfd, rc) :: frees l rfs ++
  [(SysGettimeofday, rg); (SysPrintf MsgSummary [v], rp)].

(** What [shred] does with the result [o'] of [shred_from], which has
    left the state [s4]. *)
Inductive shred_end (randfd : Z) (s4 : state World)
    : option Z -> option Z -> state World -> Prop :=
| end_fuel : shred_end randfd s4 None None s4
| end_failed v :
    v < 0 -> shred_end randfd s4 (Some v) (Some (errno s4)) s4
| end_done v rc rfs rg rp s' :
    0 <= v -> length rfs = length (bl s4) ->
    trace s' = trace s4 ++ epilogue randfd v (bl s4) rc rfs rg rp ->
    Forall (answered os) (epilogue randfd v (bl s4) rc rfs rg rp) ->
    shred_end randfd s4 (Some v) (Some 0) s'.

(** The runs of [shred(fd)] from the state [s], by the place where they
    end: the random source does not open; the array is [NULL] and the
    process is killed when the first slot is set up; a priming read
    fails; the size of the target cannot be read; [shred_from] is called
    on the primed pool with the size that was read, by [fstat] alone or,
    for a character device, by [fstat] and [ioctl]. *)
Inductive shred_run (fd : Z) (fuel : nat) (s : state World)
    : option Z -> state World -> Prop :=
| shred_no_source r0 a rp s' :
    ret_of r0 < 0 -> (forall e, r0 = Fail e -> a = [e]) ->
    trace s' =
      trace s ++
      [(SysOpen "/dev/urandom" (Z.lor O_RDONLY O_DIRECT), r0);
       (SysPrintf MsgCantOpenUrandom a, rp)] ->
    Forall (answered os)
      [(SysOpen "/dev/urandom" (Z.lor O_RDONLY O_DIRECT), r0);
       (SysPrintf MsgCantOpenUrandom a, rp)] ->
    (errno_convention os -> errno s' <> 0) ->
    shred_run fd fuel s (Some (errno s')) s'
| shred_killed r0 ra rg s' :
    0 <= ret_of r0 -> ptr_of ra = 0 ->
    trace s' = trace s ++ prologue r0 ra rg [] ->
    Forall (answered os) (prologue r0 ra rg []) ->
    shred_run fd fuel s None s'
| shred_priming_failed r0 ra rg rs rm rr rp s' :
    0 <= ret_of r0 -> ptr_of ra <> 0 -> (length rs < blcnt)%nat ->
    Forall (fun x => 0 <= ret_of (snd x)) rs -> ret_of rr < 0 ->
    trace s' =
      trace s ++ prologue r0 ra rg (rs ++ [(rm, rr)]) ++
      [(SysPrintf MsgFailedInitialRead [], rp)] ->
    Forall (answered os)
      (prologue r0 ra rg (rs ++ [(rm, rr)]) ++
       [(SysPrintf MsgFailedInitialRead [], rp)]) ->
    (errno_convention os -> errno s' <> 0) ->
    shred_run fd fuel s (Some (errno s')) s'
| shred_size_failed r0 ra rg rs gs c r s' :
    0 <= ret_of r0 -> ptr_of ra <> 0 -> length rs = blcnt ->
    Forall (fun x => 0 <= ret_of (snd x)) rs ->
    Forall (asks_size fd DIOCGMEDIASIZE) gs ->
    last gs = Some (c, r) -> ret_of r <> 0 ->
    trace s' = trace s ++ prologue r0 ra rg rs ++ gs ->
    Forall (answered os) (prologue r0 ra rg rs ++ gs) ->
    shred_run fd fuel s (Some (ret_of r)) s'
| shred_ran r0 ra rg rs gs s3 o' s4 o s' :
    0 <= ret_of r0 -> ptr_of ra <> 0 -> length rs = blcnt ->
    Forall (fun x => 0 <= ret_of (snd x)) rs ->
    Forall (asks_size fd DIOCGMEDIASIZE) gs ->
    (exists r, gs = [(SysFstat fd, r)] /\ forall m, r <> OkStat m true) \/
    (exists m r, gs = [(SysFstat fd, OkStat m true);
                       (SysIoctl fd DIOCGMEDIASIZE, r)]) ->
    Forall (fun ev => ret_of (snd ev) = 0) gs ->
    trace s3 = trace s ++ prologue r0 ra rg rs ++ gs ->
    Forall (answered os) (prologue r0 ra rg rs ++ gs) ->
    bl s3 = map (fun x => slot_of (ret_of r0) SIGEV_NONE (fst x)) rs ->
    shred_from os EINPROGRESS sizeof_ptr (ret_of r0) fd
      (to_size_t (target_size gs)) fuel s3 = (o', s4) ->
    shred_end (ret_of r0) s4 o' o s' ->
    shred_run fd fuel s o s'.

End ShredRuns.

(** ** The bodies of the loops and their step relations *)

Section StepLemmas.

Context {World : Type}.
Variable os : syscall -> World -> resp * World.
Variables (EINPROGRESS sizeof_ptr : Z).
Variables (rfd wfd len bl_list : Z).

Local Abbreviation state := (state World).

Lemma call_upd c (s : state) r s' :
  call os c s = (r, s') -> same_frame s s' [(c, r)].
Proof.
  unfold call. destruct (os c (world s)) as [r0 w].
  intros [= <- <-]. repeat split.
Qed.

Lemma call_answer c (s : state) r s' :
  call os c s = (r, s') -> r = fst (os c (world s)).
Proof.
  unfold call. destruct (os c (world s)) as [r0 w]. now intros [= <- <-].
Qed.

Lemma call_errno c (s : state) r s' :
  call os c s = (r, s') ->
  errno s' = match r with Fail e => e | _ => errno s end.
Proof.
  unfold call. destruct (os c (world s)) as [r0 w].
  now intros [= <- <-].
Qed.

Lemma printf_upd m a (s : state) :
  exists r, same_frame s (printf os m a s) [(SysPrintf m a, r)].
Proof.
  unfold printf. destruct (call os (SysPrintf m a) s) as [r s'] eqn:E.
  exists r. exact (call_upd _ _ _ _ E).
Qed.

Lemma free_bl_list_upd p (s : state) :
  exists r, same_frame s (free_bl_list os p s) [(SysFree p, r)].
Proof.
  unfold free_bl_list. destruct (call os (SysFree p) s) as [r s'] eqn:E.
  exists r. exact (call_upd _ _ _ _ E).
Qed.

Lemma cleanup_upd m a (s : state) :
  exists tl, cleanup m bl_list tl /\
    same_frame s (free_bl_list os bl_list (printf os m a s)) tl.
Proof.
  destruct (printf_upd m a s) as (r1 & H1).
  destruct (free_bl_list_upd bl_list (printf os m a s)) as (r2 & H2).
  exists [(SysPrintf m a, r1); (SysFree bl_list, r2)]. split.
  - now exists a, r1, r2.
  - unfold same_frame, upd in *.
    destruct H1 as (-> & -> & -> & -> & ->) in H2.
    destruct H2 as (-> & -> & -> & -> & ->).
    rewrite <- app_assoc. repeat split.
Qed.

Lemma upd_store i cb (s s' : state) evs l o t n :
  upd (store i cb s) s' evs l o t n -> trace s' = trace s ++ evs /\
  bl s' = l /\ off s' = o /\ total s' = t /\ nread s' = n.
Proof. exact id. Qed.

(** Closes a goal [upd s s' evs l o t n] from the equations that the calls
    in between have left. *)
Ltac solve_upd :=
  repeat match goal with x := _ |- _ => subst x end;
  unfold same_frame, upd in *; simpl in *; repeat split;
  [ repeat match goal with H : trace _ = _ |- _ => rewrite H; clear H end;
    rewrite ?app_nil_r, <- ?app_assoc; reflexivity
  | congruence .. ].

Lemma for_body_sound i (s : state) c s' :
  for_body os EINPROGRESS rfd wfd len bl_list i s = (c, s') ->
  for_body_step EINPROGRESS rfd wfd len bl_list i s c s'.
Proof.
  unfold for_body.
  destruct (bl s !! i) as [cb|] eqn:Hi; [|intros [= <- <-]; now constructor].
  destruct (Z.eqb_spec (aio_fildes cb) rfd) as [Hr|Hr].
  - set (cb' := assign wfd len cb (off s)).
    destruct (call os (SysAioWrite i cb') (store i cb' s)) as [r s1] eqn:E1.
    apply call_upd in E1. destruct E1 as (T1 & B1 & O1 & N1 & R1). simpl in *.
    destruct (Z.ltb_spec (ret_of r) 0) as [Hlt|Hge].
    + intros [= <- <-].
      destruct (cleanup_upd MsgWriteError [errno s1] s1)
        as (tl & Hc & T2 & B2 & O2 & N2 & R2).
      eapply fb_dispatch_fail with (r := r) (tl := tl); eauto.
      solve_upd.
    + intros H.
      assert (Hs' : s' = set_off (to_off_t (off s1 + aio_nbytes cb')) s1).
      { destruct (_ >=? _); now inversion H. }
      eapply fb_dispatch with (r := r); eauto.
      * subst s'. solve_upd.
      * subst s'. destruct (_ >=? _); now inversion H.
  - destruct (Z.eqb_spec (aio_fildes cb) wfd) as [Hw|Hw];
      [|intros [= <- <-]; eapply fb_other; eauto].
    destruct (call os (SysAioError i cb) s) as [r s1] eqn:E1.
    apply call_upd in E1.
    destruct (Z.eqb_spec EINPROGRESS (ret_of r)) as [He|He].
    { intros [= <- <-]. eapply fb_in_progress with (r := r); eauto. }
    destruct E1 as (T1 & B1 & O1 & N1 & R1).
    destruct (call os (SysAioReturn i cb) s1) as [r2 s2] eqn:E2.
    apply call_upd in E2. destruct E2 as (T2 & B2 & O2 & N2 & R2).
    destruct (Z.ltb_spec (ret_of r2) 0) as [Hlt|Hge].
    { intros [= <- <-].
      destruct (cleanup_upd MsgWriteCompletionError [errno s2] s2)
        as (tl & Hc & T3 & B3 & O3 & N3 & R3).
      eapply fb_completion_fail with (r := r) (r2 := r2) (tl := tl); eauto.
      solve_upd. }
    set (cb' := with_fildes rfd cb).
    set (s3 := store i cb' (set_total _ s2)).
    destruct (call os (SysRead i cb') s3) as [r3 s4] eqn:E3.
    apply call_upd in E3. destruct E3 as (T3 & B3 & O3 & N3 & R3).
    subst s3. simpl in *.
    destruct (Z.ltb_spec (ret_of r3) 0) as [Hlt3|Hge3].
    { intros [= <- <-].
      destruct (cleanup_upd MsgReadError [errno s4] s4)
        as (tl & Hc & T4 & B4 & O4 & N4 & R4).
      eapply fb_read_fail with (r := r) (r2 := r2) (r3 := r3) (tl := tl); eauto.
      solve_upd. }
    intros [= <- <-].
    eapply fb_refill with (r := r) (r2 := r2) (r3 := r3); eauto.
    solve_upd.
Qed.

Lemma busy_wait_sound fuel i cb (s : state) c s' :
  busy_wait os EINPROGRESS fuel i cb s = (c, s') ->
  exists rs, Forall (fun r => ret_of r = EINPROGRESS) rs /\
    ((c = Diverge /\ same_frame s s' (polls i cb rs)) \/
     (c = Continue /\ exists r, ret_of r <> EINPROGRESS /\
        same_frame s s' (polls i cb rs ++ [(SysAioError i cb, r)]))).
Proof.
  revert s. induction fuel as [|fuel IH]; intros s; simpl.
  - intros [= <- <-]. exists []. split; [constructor|]. left. split; [done|].
    unfold polls; simpl. solve_upd.
  - destruct (call os (SysAioError i cb) s) as [r s1] eqn:E1.
    apply call_upd in E1. destruct E1 as (T1 & B1 & O1 & N1 & R1).
    destruct (Z.eqb_spec EINPROGRESS (ret_of r)) as [He|He].
    + intros H. destruct (IH _ H) as (rs & Hrs & Hc).
      exists (r :: rs). split; [constructor; auto|].
      destruct Hc as [(-> & T2 & B2 & O2 & N2 & R2)
                     |(-> & r' & Hr' & T2 & B2 & O2 & N2 & R2)].
      * left. split; [done|]. unfold polls in *. solve_upd.
      * right. split; [done|]. exists r'. split; [done|].
        unfold polls in *. solve_upd.
    + intros [= <- <-]. exists []. split; [constructor|]. right.
      split; [done|]. exists r. split; [congruence|]. solve_upd.
Qed.

Lemma drain_body_sound fuel i (s : state) c s' :
  drain_body os EINPROGRESS wfd fuel i s = (c, s') ->
  drain_step EINPROGRESS wfd i s c s'.
Proof.
  unfold drain_body.
  destruct (bl s !! i) as [cb|] eqn:Hi; [|intros [= <- <-]; now constructor].
  destruct (Z.eqb_spec (aio_fildes cb) wfd) as [Hw|Hw]; simpl;
    [|intros [= <- <-]; eapply dr_skip; eauto].
  destruct (busy_wait os EINPROGRESS fuel i cb s) as [c1 s1] eqn:E1.
  apply busy_wait_sound in E1. destruct E1 as (rs & Hrs & Hc).
  destruct Hc as [(-> & H1)|(-> & r & Hr & T1 & B1 & O1 & N1 & R1)].
  { intros [= <- <-]. eapply dr_diverge; eauto. }
  destruct (call os (SysAioReturn i cb) s1) as [r2 s2] eqn:E2.
  apply call_upd in E2. destruct E2 as (T2 & B2 & O2 & N2 & R2).
  destruct (Z.ltb_spec (ret_of r2) 0) as [Hlt|Hge].
  - intros [= <- <-].
    destruct (printf_upd MsgFinalWriteCompletionError [errno s2] s2)
      as (r3 & T3 & B3 & O3 & N3 & R3).
    eapply dr_fail with (rs := rs) (r := r) (r2 := r2) (r3 := r3); eauto.
    solve_upd.
  - intros [= <- <-].
    eapply dr_collect with (rs := rs) (r := r) (r2 := r2); eauto.
    solve_upd.
Qed.

End StepLemmas.

(** ** Lists of events, ranges and statuses *)

Lemma sum_list_app l1 l2 : sum_list (l1 ++ l2) = sum_list l1 + sum_list l2.
Proof. induction l1 as [|x l1 IH]; simpl; lia. Qed.

Lemma sum_list_insert {A} (f : A -> Z) (l : list A) i x y :
  l !! i = Some x ->
  sum_list (map f (<[i := y]> l)) = sum_list (map f l) - f x + f y.
Proof.
  revert i. induction l as [|a l IH]; intros [|i]; simpl; try done.
  - intros [= ->]. lia.
  - intros H. rewrite (IH _ H). lia.
Qed.

Lemma dispatched_app tr1 tr2 :
  dispatched (tr1 ++ tr2) = dispatched tr1 ++ dispatched tr2.
Proof. apply omap_app. Qed.

Lemma completions_app tr1 tr2 :
  completions (tr1 ++ tr2) = completions tr1 ++ completions tr2.
Proof. apply omap_app. Qed.

Lemma requested_app tr1 tr2 :
  requested (tr1 ++ tr2) = requested tr1 + requested tr2.
Proof.
  unfold requested. now rewrite completions_app, map_app, sum_list_app.
Qed.

Lemma confirmed_app tr1 tr2 :
  confirmed (tr1 ++ tr2) = confirmed tr1 + confirmed tr2.
Proof.
  unfold confirmed. now rewrite completions_app, map_app, sum_list_app.
Qed.

Lemma dispatched_neutral tr : Forall neutral tr -> dispatched tr = [].
Proof.
  induction 1 as [|[c r] tr H _ IH]; [done|].
  change ((c, r) :: tr) with ([(c, r)] ++ tr).
  rewrite dispatched_app, IH. now destruct c.
Qed.

Lemma completions_neutral tr : Forall neutral tr -> completions tr = [].
Proof.
  induction 1 as [|[c r] tr H _ IH]; [done|].
  change ((c, r) :: tr) with ([(c, r)] ++ tr).
  rewrite completions_app, IH. now destruct c.
Qed.

Lemma not_failed_neutral tr :
  Forall neutral tr -> Forall (fun ev => ~ failed_completion ev) tr.
Proof.
  intros H. eapply Forall_impl; [exact H|]. intros [c r]. now destruct c.
Qed.

Lemma protocol_app E st tr1 tr2 :
  protocol E st (tr1 ++ tr2) =
  match protocol E st tr1 with
  | Some st' => protocol E st' tr2
  | None => None
  end.
Proof.
  revert st. induction tr1 as [|ev tr1 IH]; intros st; simpl; [done|].
  destruct (protocol_step E st ev); [apply IH|done].
Qed.

Lemma protocol_neutral E st tr :
  Forall neutral tr -> protocol E st tr = Some st.
Proof.
  induction 1 as [|[c r] tr H _ IH]; [done|].
  simpl. now destruct c.
Qed.

Lemma protocol_polls E st i cb rs :
  st !! i = Some InFlight ->
  Forall (fun r => ret_of r = E) rs ->
  protocol E st (polls i cb rs) = Some st.
Proof.
  intros Hi. induction 1 as [|r rs Hr _ IH]; [done|].
  simpl. rewrite Hi, Hr, Z.eqb_refl. exact IH.
Qed.

Lemma tiles_app a rs b rs' c :
  tiles a rs b -> tiles b rs' c -> tiles a (rs ++ rs') c.
Proof.
  revert a. induction rs as [|[o n] rs IH]; intros a; simpl.
  - now intros ->.
  - intros (-> & Hn & Ht) H'. auto.
Qed.

Lemma tiles_le a rs b : tiles a rs b -> a <= b.
Proof.
  revert a. induction rs as [|[o n] rs IH]; intros a; simpl.
  - lia.
  - intros (-> & Hn & Ht). apply IH in Ht. lia.
Qed.

Lemma tiles_sum a rs b : tiles a rs b -> a + sum_list (map snd rs) = b.
Proof.
  revert a. induction rs as [|[o n] rs IH]; intros a; simpl.
  - lia.
  - intros (-> & Hn & Ht). apply IH in Ht. lia.
Qed.

Lemma map_lookup_Some {A B} (f : A -> B) (l : list A) i x :
  l !! i = Some x -> map f l !! i = Some (f x).
Proof.
  revert i. induction l as [|a l IH]; intros [|i]; simpl; try done.
  - now intros [= ->].
  - apply IH.
Qed.

Lemma map_insert_same {A B} (f : A -> B) (l : list A) i x y :
  l !! i = Some x -> f y = f x -> map f (<[i := y]> l) = map f l.
Proof.
  revert i. induction l as [|a l IH]; intros [|i]; simpl; try done.
  - intros [= ->] ->. done.
  - intros H1 H2. f_equal. now apply IH.
Qed.

Lemma own_neutral bufs tl :
  Forall neutral tl -> Forall (own_buffer bufs) tl.
Proof.
  intros H. eapply Forall_impl; [exact H|]. intros [c r]. now destruct c.
Qed.

Lemma own_polls bufs i cb rs :
  bufs !! i = Some (aio_buf cb) -> Forall (own_buffer bufs) (polls i cb rs).
Proof. intros H. induction rs as [|r rs IH]; constructor; [exact H|exact IH]. Qed.

Lemma cleanup_neutral m p tl : cleanup m p tl -> Forall neutral tl.
Proof. intros (a & r1 & r2 & ->). now repeat constructor. Qed.

(** Machine integers that do not wrap. *)

Lemma to_size_t_id z : 0 <= z < two64 -> to_size_t z = z.
Proof. intros H. unfold to_size_t. now apply Z.mod_small. Qed.

Lemma to_off_t_id z : 0 <= z < two63 -> to_off_t z = z.
Proof.
  unfold to_off_t, two63, two64. intros H.
  rewrite Z.mod_small; lia.
Qed.

Lemma to_ssize_t_id z : 0 <= z < two63 -> to_ssize_t z = z.
Proof. apply to_off_t_id. Qed.

Lemma to_size_t_add z b : to_size_t (to_size_t z + b) = to_size_t (z + b).
Proof. unfold to_size_t. apply Zplus_mod_idemp_l. Qed.

(** ** The invariants are kept *)

Lemma tracks_lookup wfd k st l j cb :
  tracks wfd k st l -> l !! j = Some cb -> (k <= j)%nat ->
  st !! j = Some (role wfd cb).
Proof.
  intros [_ H] Hj Hk. rewrite (H _ _ Hj).
  destruct (Nat.ltb_spec j k); [lia|done].
Qed.

Lemma tracks_insert wfd k st l i cb :
  tracks wfd k st l -> (k <= i)%nat ->
  tracks wfd k (<[i := role wfd cb]> st) (<[i := cb]> l).
Proof.
  intros [Hl H] Hk. split; [now rewrite !length_insert|].
  intros j cb' Hj. destruct (decide (i = j)) as [->|Hne].
  - assert (j < length l)%nat as Hlt.
    { apply lookup_lt_Some in Hj. now rewrite length_insert in Hj. }
    rewrite list_lookup_insert_eq in Hj by done. injection Hj as <-.
    rewrite list_lookup_insert_eq by lia.
    destruct (Nat.ltb_spec j k); [lia|done].
  - rewrite list_lookup_insert_ne in Hj by done.
    rewrite list_lookup_insert_ne by done. now apply H.
Qed.

Lemma tracks_collected wfd k st l :
  tracks wfd k st l -> tracks wfd (S k) (<[k := Idle]> st) l.
Proof.
  intros [Hl H]. split; [now rewrite length_insert|].
  intros j cb Hj. destruct (decide (k = j)) as [->|Hne].
  - rewrite list_lookup_insert_eq
      by (apply lookup_lt_Some in Hj; lia).
    destruct (Nat.ltb_spec j (S j)); [done|lia].
  - rewrite list_lookup_insert_ne by done. rewrite (H _ _ Hj).
    destruct (Nat.ltb_spec j k), (Nat.ltb_spec j (S k)); try done; lia.
Qed.

Lemma tracks_skipped wfd k st l cb :
  tracks wfd k st l -> l !! k = Some cb -> role wfd cb = Idle ->
  tracks wfd (S k) st l.
Proof.
  intros [Hl H] Hk Hr. split; [done|].
  intros j cb' Hj. rewrite (H _ _ Hj).
  destruct (Nat.ltb_spec j k), (Nat.ltb_spec j (S k)); try done; try lia.
  assert (j = k) as -> by lia. congruence.
Qed.

Lemma tracks_past wfd k st l :
  tracks wfd k st l -> (length l <= k)%nat -> tracks wfd (S k) st l.
Proof.
  intros [Hl H] Hk. split; [done|].
  intros j cb' Hj. rewrite (H _ _ Hj).
  apply lookup_lt_Some in Hj.
  destruct (Nat.ltb_spec j k), (Nat.ltb_spec j (S k)); try done; lia.
Qed.

Lemma protocol_collect E st i cb cb' r r2 tl :
  st !! i = Some InFlight -> ret_of r <> E ->
  protocol E st ((SysAioError i cb, r) :: (SysAioReturn i cb', r2) :: tl) =
  protocol E (<[i := Idle]> st) tl.
Proof.
  intros Hi Hr. simpl. rewrite Hi.
  destruct (Z.eqb_spec E (ret_of r)) as [He|_]; [congruence|].
  rewrite list_lookup_insert_eq by (apply lookup_lt_Some in Hi; lia).
  now rewrite list_insert_insert_eq.
Qed.

Lemma role_writing wfd cb : aio_fildes cb = wfd -> role wfd cb = InFlight.
Proof. unfold role. intros ->. now rewrite Z.eqb_refl. Qed.

Lemma role_reading wfd cb : aio_fildes cb <> wfd -> role wfd cb = Idle.
Proof. unfold role. intros H. now destruct (Z.eqb_spec (aio_fildes cb) wfd). Qed.

Lemma weight_writing wfd cb :
  aio_fildes cb = wfd -> weight wfd cb = aio_nbytes cb.
Proof. unfold weight. intros ->. now rewrite Z.eqb_refl. Qed.

Lemma weight_reading wfd cb : aio_fildes cb <> wfd -> weight wfd cb = 0.
Proof.
  unfold weight. intros H. now destruct (Z.eqb_spec (aio_fildes cb) wfd).
Qed.

Lemma assign_spec wfd len C cb o :
  0 <= len < two63 -> 1 <= C < two64 ->
  aio_nbytes cb = C -> 0 <= o < len -> (o = 0 \/ C < len) ->
  assign wfd len cb o =
  mk_aiocb wfd o (aio_buf cb) (Z.min C (len - o)) (sigev_notify cb).
Proof.
  unfold two63, two64. intros Hlen HC Hn Ho Hw. unfold assign. simpl.
  rewrite Hn. rewrite (to_size_t_id (C + o)) by (unfold two64; lia).
  destruct (Z.geb_spec (C + o) len) as [Hge|Hlt].
  - rewrite to_size_t_id by (unfold two64; lia).
    unfold with_nbytes, with_offset, with_fildes. simpl.
    f_equal. lia.
  - unfold with_offset, with_fildes. simpl. f_equal. lia.
Qed.

Lemma dispatched_polls i cb rs : dispatched (polls i cb rs) = [].
Proof. induction rs as [|r rs IH]; [done|exact IH]. Qed.

Lemma completions_polls i cb rs : completions (polls i cb rs) = [].
Proof. induction rs as [|r rs IH]; [done|exact IH]. Qed.

Lemma not_failed_polls i cb rs :
  Forall (fun ev => ~ failed_completion ev) (polls i cb rs).
Proof. induction rs as [|r rs IH]; constructor; [simpl; tauto|exact IH]. Qed.

Lemma in_role_polls rfd wfd i cb rs :
  aio_fildes cb = wfd -> Forall (in_role rfd wfd) (polls i cb rs).
Proof. intros H. induction rs as [|r rs IH]; constructor; [exact H|exact IH]. Qed.

Lemma error_tail_neutral tl : error_tail tl -> Forall neutral tl.
Proof.
  intros [(p & H)|(a & r & ->)].
  - eapply cleanup_neutral; eauto.
  - now repeat constructor.
Qed.

(** The rule of the [for] loop: [I i] holds before slot [i], [Q] when the
    loop is left early. *)
Lemma for_loop_rule {St : Type} (body : nat -> St -> ctl * St) (N : nat)
    (I : nat -> St -> Prop) (Q : ctl -> St -> Prop) :
  (forall i s c s', (i < N)%nat -> I i s -> body i s = (c, s') ->
     match c with Continue => I (S i) s' | _ => Q c s' end) ->
  forall n i s c s', (i + n = N)%nat -> I i s ->
    for_loop body n i s = (c, s') ->
    match c with Continue => I N s' | _ => Q c s' end.
Proof.
  intros Hbody n. induction n as [|n IH]; intros i s c s' Hn Hi; simpl.
  - intros [= <- <-]. now replace N with i by lia.
  - destruct (body i s) as [c1 s1] eqn:E1.
    pose proof (Hbody i s c1 s1 ltac:(lia) Hi E1) as H1.
    destruct c1; try (intros [= <- <-]; exact H1).
    apply IH; [lia|exact H1].
Qed.

Section KeepInvariants.

Context {World : Type}.
Variables (EINPROGRESS rfd wfd len C bl_list : Z) (N : nat) (t0 : list event).
Variable bufs0 : list Z.
Hypothesis Hfd : rfd <> wfd.
Hypothesis Hlen : 0 <= len < two63.
Hypothesis HC : 1 <= C < two64.

Local Abbreviation state := (state World).
Local Abbreviation weak := (weak EINPROGRESS rfd wfd len C N t0 bufs0).
Local Abbreviation strong := (strong EINPROGRESS wfd len C N).
Local Abbreviation inv := (inv EINPROGRESS rfd wfd len C N t0 bufs0).
Local Abbreviation stopped := (stopped EINPROGRESS rfd wfd len C N t0 bufs0).

Lemma in_role_neutral tl : Forall neutral tl -> Forall (in_role rfd wfd) tl.
Proof.
  intros H. eapply Forall_impl; [exact H|]. intros [c r]. now destruct c.
Qed.

Lemma aborted_neutral evs tl :
  Forall (fun ev => ~ failed_completion ev) evs \/ aborted evs ->
  Forall neutral tl ->
  Forall (fun ev => ~ failed_completion ev) (evs ++ tl) \/ aborted evs.
Proof.
  intros [H|H] Htl; [left|now right].
  apply Forall_app. split; [done|]. now apply not_failed_neutral.
Qed.

(** Calls that are not on a slot keep what holds overall. *)
Lemma weak_neutral (s s' : state) evs tl :
  weak s evs -> same_frame s s' tl -> Forall neutral tl ->
  Forall (fun ev => ~ failed_completion ev) evs ->
  weak s' (evs ++ tl).
Proof.
  intros [] (T & B & O & Tt & R) Htl Hnf. constructor.
  - rewrite T, wk_trace0. now rewrite <- ?app_assoc.
  - now rewrite B.
  - now rewrite B.
  - now rewrite dispatched_app, (dispatched_neutral tl), app_nil_r.
  - now rewrite dispatched_app, (dispatched_neutral tl), app_nil_r.
  - rewrite protocol_app. destruct wk_proto0 as [st ->].
    now rewrite protocol_neutral.
  - apply Forall_app. split; [done|]. now apply in_role_neutral.
  - left. apply Forall_app. split; [done|]. now apply not_failed_neutral.
  - now rewrite B.
  - apply Forall_app. split; [done|]. now apply own_neutral.
Qed.

Lemma strong_neutral k (s s' : state) evs tl :
  strong k s evs -> same_frame s s' tl -> Forall neutral tl ->
  strong k s' (evs ++ tl).
Proof.
  intros [] (T & B & O & Tt & R) Htl. constructor.
  - now rewrite O.
  - now rewrite O, B.
  - now rewrite O, dispatched_app, (dispatched_neutral tl), app_nil_r.
  - destruct st_proto0 as (st & Hp & Ht). exists st. rewrite B. split; [|done].
    now rewrite protocol_app, Hp, protocol_neutral.
  - rewrite B, O, requested_app. unfold requested at 2.
    rewrite (completions_neutral tl) by done. simpl. lia.
  - rewrite Tt, st_total0, confirmed_app. unfold confirmed at 3.
    rewrite (completions_neutral tl) by done. simpl. f_equal. lia.
  - apply Forall_app. split; [done|]. now apply not_failed_neutral.
Qed.

Lemma inv_neutral k (s s' : state) tl :
  inv k s -> same_frame s s' tl -> Forall neutral tl -> inv k s'.
Proof.
  intros (evs & Hw & Hs) Hf Htl. exists (evs ++ tl). split.
  - eapply weak_neutral; eauto. apply Hs.
  - eapply strong_neutral; eauto.
Qed.

Lemma inv_stopped k (s : state) : inv k s -> stopped s.
Proof. intros (evs & Hw & _). now exists evs. Qed.

(** A slot in the reading role is handed the next range. *)
Lemma inv_dispatch i (s s' : state) cb r :
  inv 0 s -> off s < len -> bl s !! i = Some cb -> aio_fildes cb = rfd ->
  0 <= ret_of r ->
  upd s s' [(SysAioWrite i (assign wfd len cb (off s)), r)]
    (<[i := assign wfd len cb (off s)]> (bl s))
    (to_off_t (off s + aio_nbytes (assign wfd len cb (off s))))
    (total s) (nread s) ->
  inv 0 s' /\ off s' = off s + Z.min C (len - off s).
Proof.
  intros (evs & Hw & Hs) Hlt Hi Hr Hge.
  destruct Hw, Hs.
  destruct (st_cap0 Hlt) as [Hcap Hnw].
  assert (aio_nbytes cb = C) as Hn.
  { rewrite Forall_lookup in Hcap. eapply Hcap; eauto. }
  rewrite (assign_spec wfd len C) by (auto; lia).
  set (n := Z.min C (len - off s)).
  set (cb' := mk_aiocb wfd (off s) (aio_buf cb) n (sigev_notify cb)).
  simpl. rewrite to_off_t_id by (unfold two63 in *; lia).
  intros (T & B & O & Tt & R).
  split; [|done].
  exists (evs ++ [(SysAioWrite i cb', r)]). split; constructor.
  - rewrite T, wk_trace0. now rewrite <- ?app_assoc.
  - now rewrite B, length_insert.
  - rewrite B. apply Forall_insert; [done|]. now right.
  - exists (off s + n). split; [lia|].
    rewrite dispatched_app. eapply tiles_app; [done|]. simpl. lia.
  - rewrite dispatched_app. apply Forall_app. split; [done|].
    constructor; [|constructor]. done.
  - destruct st_proto0 as (st & Hp & Ht).
    rewrite protocol_app, Hp. simpl.
    rewrite (tracks_lookup _ _ _ _ _ _ Ht Hi) by lia.
    rewrite role_reading by congruence. eauto.
  - apply Forall_app. split; [done|]. now repeat constructor.
  - left. apply Forall_app. split; [done|].
    constructor; [|constructor]. simpl. tauto.
  - rewrite B. now rewrite (map_insert_same _ _ _ _ _ Hi).
  - apply Forall_app. split; [done|]. constructor; [|constructor]. simpl.
    rewrite <- wk_bufs0. apply (map_lookup_Some aio_buf _ _ _ Hi).
  - rewrite O. lia.
  - rewrite O, B. intros Hlt'. split; [|right; lia].
    apply Forall_insert; [done|]. simpl. lia.
  - rewrite O, dispatched_app. eapply tiles_app; [done|]. simpl. lia.
  - destruct st_proto0 as (st & Hp & Ht).
    exists (<[i := InFlight]> st). split.
    + rewrite protocol_app, Hp. simpl.
      rewrite (tracks_lookup _ _ _ _ _ _ Ht Hi) by lia.
      rewrite role_reading by congruence.
      now destruct (Z.ltb_spec (ret_of r) 0); [lia|].
    + rewrite B. rewrite <- (role_writing wfd cb') by done.
      apply tracks_insert; [done|lia].
  - rewrite B, O, requested_app. rewrite drop_0 in *.
    rewrite (sum_list_insert _ _ _ _ _ Hi).
    rewrite (weight_reading wfd cb) by congruence.
    rewrite (weight_writing wfd cb') by done.
    unfold requested at 2. simpl. lia.
  - rewrite Tt, st_total0, confirmed_app. unfold confirmed at 3. simpl.
    f_equal. lia.
  - apply Forall_app. split; [done|].
    constructor; [|constructor]. simpl. tauto.
Qed.

(** The submission of the write fails: the run stops. *)
Lemma stopped_dispatch_fail i (s s' : state) cb r m tl :
  inv 0 s -> off s < len -> bl s !! i = Some cb -> aio_fildes cb = rfd ->
  ret_of r < 0 -> cleanup m bl_list tl ->
  upd s s' ((SysAioWrite i (assign wfd len cb (off s)), r) :: tl)
    (<[i := assign wfd len cb (off s)]> (bl s)) (off s) (total s) (nread s) ->
  stopped s'.
Proof.
  intros (evs & Hw & Hs) Hlt Hi Hr Hneg Hc.
  destruct Hw, Hs.
  destruct (st_cap0 Hlt) as [Hcap Hnw].
  assert (aio_nbytes cb = C) as Hn.
  { rewrite Forall_lookup in Hcap. eapply Hcap; eauto. }
  rewrite (assign_spec wfd len C) by (auto; lia).
  set (n := Z.min C (len - off s)).
  set (cb' := mk_aiocb wfd (off s) (aio_buf cb) n (sigev_notify cb)).
  intros (T & B & O & Tt & R).
  apply cleanup_neutral in Hc.
  change ((SysAioWrite i cb', r) :: tl) with ([(SysAioWrite i cb', r)] ++ tl) in T.
  exists (evs ++ [(SysAioWrite i cb', r)] ++ tl). constructor.
  - rewrite T, wk_trace0. now rewrite <- ?app_assoc.
  - now rewrite B, length_insert.
  - rewrite B. apply Forall_insert; [done|]. now right.
  - exists (off s + n). split; [lia|].
    rewrite !dispatched_app, (dispatched_neutral tl), app_nil_r by done.
    eapply tiles_app; [done|]. simpl. lia.
  - rewrite !dispatched_app, (dispatched_neutral tl), app_nil_r by done.
    apply Forall_app. split; [done|]. now repeat constructor.
  - destruct st_proto0 as (st & Hp & Ht).
    rewrite !protocol_app, Hp. simpl.
    rewrite (tracks_lookup _ _ _ _ _ _ Ht Hi) by lia.
    rewrite role_reading by congruence.
    rewrite protocol_neutral by done. eauto.
  - rewrite !Forall_app. split_and!; [done|now repeat constructor|].
    now apply in_role_neutral.
  - left. rewrite !Forall_app. split_and!; [done| |now apply not_failed_neutral].
    constructor; [|constructor]. simpl. tauto.
  - rewrite B. now rewrite (map_insert_same _ _ _ _ _ Hi).
  - rewrite !Forall_app. split_and!; [done| |now apply own_neutral].
    constructor; [|constructor]. simpl.
    rewrite <- wk_bufs0. apply (map_lookup_Some aio_buf _ _ _ Hi).
Qed.

(** Polls of a write that is still in progress change nothing. *)
Lemma inv_polls k i (s s' : state) cb rs :
  inv k s -> (k <= i)%nat -> bl s !! i = Some cb -> aio_fildes cb = wfd ->
  Forall (fun r => ret_of r = EINPROGRESS) rs ->
  same_frame s s' (polls i cb rs) ->
  inv k s'.
Proof.
  intros (evs & Hw & Hs) Hk Hi Hwr Hrs (T & B & O & Tt & R).
  destruct Hw, Hs. destruct st_proto0 as (st & Hp & Ht).
  assert (protocol EINPROGRESS (replicate N Idle) (evs ++ polls i cb rs)
          = Some st) as Hp'.
  { rewrite protocol_app, Hp. apply protocol_polls; [|done].
    rewrite (tracks_lookup _ _ _ _ _ _ Ht Hi) by done.
    now rewrite role_writing. }
  exists (evs ++ polls i cb rs). split; constructor.
  - rewrite T, wk_trace0. now rewrite <- ?app_assoc.
  - now rewrite B.
  - now rewrite B.
  - now rewrite dispatched_app, dispatched_polls, app_nil_r.
  - now rewrite dispatched_app, dispatched_polls, app_nil_r.
  - rewrite Hp'. eauto.
  - apply Forall_app. split; [done|]. now apply in_role_polls.
  - left. apply Forall_app. split; [done|]. apply not_failed_polls.
  - now rewrite B.
  - apply Forall_app. split; [done|]. apply own_polls.
    rewrite <- wk_bufs0. apply (map_lookup_Some aio_buf _ _ _ Hi).
  - now rewrite O.
  - now rewrite O, B.
  - now rewrite O, dispatched_app, dispatched_polls, app_nil_r.
  - exists st. now rewrite B.
  - rewrite B, O, requested_app. unfold requested at 2.
    rewrite completions_polls. simpl. lia.
  - rewrite Tt, st_total0, confirmed_app. unfold confirmed at 3.
    rewrite completions_polls. simpl. f_equal. lia.
  - apply Forall_app. split; [done|]. apply not_failed_polls.
Qed.

(** A completion reports an error: the run stops right after it. *)
Lemma stopped_completion_fail k i (s s' : state) cb rs r r2 tl :
  inv k s -> (k <= i)%nat -> bl s !! i = Some cb -> aio_fildes cb = wfd ->
  Forall (fun r => ret_of r = EINPROGRESS) rs ->
  ret_of r <> EINPROGRESS -> ret_of r2 < 0 -> error_tail tl ->
  same_frame s s'
    (polls i cb rs ++ (SysAioError i cb, r) :: (SysAioReturn i cb, r2) :: tl) ->
  stopped s'.
Proof.
  intros (evs & Hw & Hs) Hk Hi Hwr Hrs Hr Hr2 Htl (T & B & O & Tt & R).
  destruct Hw, Hs. destruct st_proto0 as (st & Hp & Ht).
  pose proof (error_tail_neutral _ Htl) as Hn.
  assert (st !! i = Some InFlight) as Hst.
  { rewrite (tracks_lookup _ _ _ _ _ _ Ht Hi) by done. now rewrite role_writing. }
  set (new := polls i cb rs ++
              (SysAioError i cb, r) :: (SysAioReturn i cb, r2) :: tl) in *.
  assert (dispatched new = []) as Hd.
  { unfold new. rewrite dispatched_app, dispatched_polls.
    change (dispatched tl = []). now apply dispatched_neutral. }
  exists (evs ++ new). constructor.
  - rewrite T, wk_trace0. now rewrite <- ?app_assoc.
  - now rewrite B.
  - now rewrite B.
  - now rewrite dispatched_app, Hd, app_nil_r.
  - now rewrite dispatched_app, Hd, app_nil_r.
  - unfold new.
    rewrite protocol_app, Hp, protocol_app, (protocol_polls _ _ _ _ _ Hst Hrs).
    rewrite (protocol_collect _ _ _ _ _ _ _ _ Hst Hr).
    rewrite protocol_neutral by done. eauto.
  - unfold new. rewrite !Forall_app. split_and!; [done|now apply in_role_polls|].
    constructor; [done|]. constructor; [done|]. now apply in_role_neutral.
  - right. exists (evs ++ polls i cb rs ++ [(SysAioError i cb, r)]),
      (SysAioReturn i cb, r2), tl.
    split_and!; [|  |done|done].
    + unfold new. now rewrite <- !app_assoc.
    + rewrite !Forall_app. split_and!; [done|apply not_failed_polls|].
      constructor; [|constructor]. simpl. tauto.
  - now rewrite B.
  - assert (bufs0 !! i = Some (aio_buf cb)) as Hown.
    { rewrite <- wk_bufs0. apply (map_lookup_Some aio_buf _ _ _ Hi). }
    unfold new. rewrite !Forall_app. split_and!; [done|now apply own_polls|].
    constructor; [done|]. constructor; [done|]. now apply own_neutral.
Qed.

(** A completion is collected in the dispatch loop and the slot goes back
    to the reading role; the read that refills it may fail. *)
Lemma weak_refill i (s s' : state) evs cb r r2 r3 tl o t n :
  weak s evs -> strong 0 s evs -> bl s !! i = Some cb ->
  aio_fildes cb = wfd -> ret_of r <> EINPROGRESS -> 0 <= ret_of r2 ->
  Forall neutral tl ->
  upd s s' ((SysAioError i cb, r) :: (SysAioReturn i cb, r2) ::
            (SysRead i (with_fildes rfd cb), r3) :: tl)
    (<[i := with_fildes rfd cb]> (bl s)) o t n ->
  weak s' (evs ++ (SysAioError i cb, r) :: (SysAioReturn i cb, r2) ::
           (SysRead i (with_fildes rfd cb), r3) :: tl).
Proof.
  intros Hw Hs Hi Hwr Hr Hr2 Hn (T & B & O & Tt & R).
  destruct Hw, Hs. destruct st_proto0 as (st & Hp & Ht).
  assert (st !! i = Some InFlight) as Hst.
  { rewrite (tracks_lookup _ _ _ _ _ _ Ht Hi) by lia. now rewrite role_writing. }
  set (new := (SysAioError i cb, r) :: (SysAioReturn i cb, r2) ::
              (SysRead i (with_fildes rfd cb), r3) :: tl) in *.
  assert (dispatched new = []) as Hd.
  { change (dispatched tl = []). now apply dispatched_neutral. }
  constructor.
  - rewrite T, wk_trace0. now rewrite <- ?app_assoc.
  - now rewrite B, length_insert.
  - rewrite B. apply Forall_insert; [done|]. now left.
  - now rewrite dispatched_app, Hd, app_nil_r.
  - now rewrite dispatched_app, Hd, app_nil_r.
  - unfold new. rewrite protocol_app, Hp.
    rewrite (protocol_collect _ _ _ _ _ _ _ _ Hst Hr). simpl.
    rewrite list_lookup_insert_eq by (apply lookup_lt_Some in Hst; lia).
    rewrite protocol_neutral by done. eauto.
  - unfold new. rewrite !Forall_app. split; [done|].
    repeat (constructor; [done|]). now apply in_role_neutral.
  - left. rewrite Forall_app. split; [done|].
    constructor; [simpl; tauto|]. constructor; [simpl; lia|].
    constructor; [simpl; tauto|]. now apply not_failed_neutral.
  - rewrite B. now rewrite (map_insert_same _ _ _ _ _ Hi).
  - assert (bufs0 !! i = Some (aio_buf cb)) as Hown.
    { rewrite <- wk_bufs0. apply (map_lookup_Some aio_buf _ _ _ Hi). }
    unfold new. rewrite Forall_app. split; [done|].
    repeat (constructor; [done|]). now apply own_neutral.
Qed.

Lemma stopped_read_fail i (s s' : state) cb r r2 r3 m tl :
  inv 0 s -> bl s !! i = Some cb -> aio_fildes cb = wfd ->
  ret_of r <> EINPROGRESS -> 0 <= ret_of r2 -> cleanup m bl_list tl ->
  upd s s' ((SysAioError i cb, r) :: (SysAioReturn i cb, r2) ::
            (SysRead i (with_fildes rfd cb), r3) :: tl)
    (<[i := with_fildes rfd cb]> (bl s)) (off s)
    (to_size_t (total s + ret_of r2)) (nread s) ->
  stopped s'.
Proof.
  intros (evs & Hw & Hs) Hi Hwr Hr Hr2 Hc Hu.
  eexists. eapply (weak_refill i s s' evs cb r r2 r3 tl); eauto.
  eapply cleanup_neutral; eauto.
Qed.

Lemma inv_refill i (s s' : state) cb r r2 r3 :
  inv 0 s -> bl s !! i = Some cb -> aio_fildes cb = wfd ->
  ret_of r <> EINPROGRESS -> 0 <= ret_of r2 ->
  upd s s' [(SysAioError i cb, r); (SysAioReturn i cb, r2);
            (SysRead i (with_fildes rfd cb), r3)]
    (<[i := with_fildes rfd cb]> (bl s)) (off s)
    (to_size_t (total s + ret_of r2)) (nread s + 1) ->
  inv 0 s' /\ off s' = off s.
Proof.
  intros (evs & Hw & Hs) Hi Hwr Hr Hr2 Hu.
  pose proof (weak_refill _ _ _ _ _ _ _ _ _ _ _ _ Hw Hs Hi Hwr Hr Hr2
                (Forall_nil_2 _) Hu) as Hw'.
  destruct Hu as (T & B & O & Tt & R). split; [|done].
  eexists. split; [exact Hw'|].
  destruct Hw, Hs. destruct st_proto0 as (st & Hp & Ht).
  assert (st !! i = Some InFlight) as Hst.
  { rewrite (tracks_lookup _ _ _ _ _ _ Ht Hi) by lia. now rewrite role_writing. }
  constructor.
  - now rewrite O.
  - rewrite O, B. intros Hlt. destruct (st_cap0 Hlt) as [Hcap Hnw].
    split; [|done]. apply Forall_insert; [done|]. simpl.
    rewrite Forall_lookup in Hcap. eapply Hcap; eauto.
  - now rewrite O, dispatched_app, app_nil_r.
  - exists (<[i := Idle]> st). split.
    + rewrite protocol_app, Hp.
      rewrite (protocol_collect _ _ _ _ _ _ _ _ Hst Hr). simpl.
      now rewrite list_lookup_insert_eq by (apply lookup_lt_Some in Hst; lia).
    + rewrite B. rewrite <- (role_reading wfd (with_fildes rfd cb)) by done.
      apply tracks_insert; [done|lia].
  - rewrite B, O, requested_app. rewrite drop_0 in *.
    rewrite (sum_list_insert _ _ _ _ _ Hi).
    rewrite (weight_reading wfd (with_fildes rfd cb)) by done.
    rewrite (weight_writing wfd cb) by done.
    unfold requested at 2. simpl. lia.
  - rewrite Tt, st_total0, confirmed_app. unfold confirmed at 3. simpl.
    rewrite to_size_t_add. f_equal. lia.
  - rewrite Forall_app. split; [done|].
    constructor; [simpl; tauto|]. constructor; [simpl; lia|].
    constructor; [simpl; tauto|]. constructor.
Qed.

(** A completion is collected in the drain loop. *)
Lemma inv_collect k (s s' : state) cb rs r r2 :
  inv k s -> bl s !! k = Some cb -> aio_fildes cb = wfd ->
  Forall (fun r => ret_of r = EINPROGRESS) rs ->
  ret_of r <> EINPROGRESS -> 0 <= ret_of r2 ->
  upd s s' (polls k cb rs ++ [(SysAioError k cb, r); (SysAioReturn k cb, r2)])
    (bl s) (off s) (to_size_t (total s + ret_of r2)) (nread s) ->
  inv (S k) s'.
Proof.
  intros (evs & Hw & Hs) Hi Hwr Hrs Hr Hr2 (T & B & O & Tt & R).
  destruct Hw, Hs. destruct st_proto0 as (st & Hp & Ht).
  assert (st !! k = Some InFlight) as Hst.
  { rewrite (tracks_lookup _ _ _ _ _ _ Ht Hi) by lia. now rewrite role_writing. }
  set (new := polls k cb rs ++
              [(SysAioError k cb, r); (SysAioReturn k cb, r2)]) in *.
  assert (dispatched new = []) as Hd.
  { unfold new. now rewrite dispatched_app, dispatched_polls. }
  assert (completions new = [(aio_nbytes cb, ret_of r2)]) as Hcm.
  { unfold new. now rewrite completions_app, completions_polls. }
  assert (protocol EINPROGRESS (replicate N Idle) (evs ++ new)
          = Some (<[k := Idle]> st)) as Hp'.
  { unfold new.
    rewrite protocol_app, Hp, protocol_app, (protocol_polls _ _ _ _ _ Hst Hrs).
    now rewrite (protocol_collect _ _ _ _ _ _ _ _ Hst Hr). }
  assert (Forall (fun ev => ~ failed_completion ev) (evs ++ new)) as Hnf.
  { unfold new. rewrite !Forall_app. split_and!; [done|apply not_failed_polls|].
    constructor; [simpl; tauto|]. constructor; [simpl; lia|constructor]. }
  exists (evs ++ new). split; constructor.
  - rewrite T, wk_trace0. now rewrite <- ?app_assoc.
  - now rewrite B.
  - now rewrite B.
  - now rewrite dispatched_app, Hd, app_nil_r.
  - now rewrite dispatched_app, Hd, app_nil_r.
  - rewrite Hp'. eauto.
  - unfold new. rewrite !Forall_app. split_and!; [done|now apply in_role_polls|].
    now repeat constructor.
  - now left.
  - now rewrite B.
  - assert (bufs0 !! k = Some (aio_buf cb)) as Hown.
    { rewrite <- wk_bufs0. apply (map_lookup_Some aio_buf _ _ _ Hi). }
    unfold new. rewrite !Forall_app. split_and!; [done|now apply own_polls|].
    now repeat constructor.
  - now rewrite O.
  - now rewrite O, B.
  - now rewrite O, dispatched_app, Hd, app_nil_r.
  - exists (<[k := Idle]> st). split; [done|]. rewrite B.
    now apply tracks_collected.
  - rewrite B, O, requested_app. unfold requested at 2. rewrite Hcm. simpl.
    rewrite (drop_S _ _ _ Hi) in st_acct0. simpl in st_acct0.
    rewrite (weight_writing wfd cb) in st_acct0 by done. lia.
  - rewrite Tt, st_total0, confirmed_app. unfold confirmed at 3. rewrite Hcm.
    simpl. rewrite to_size_t_add. f_equal. lia.
  - done.
Qed.

(** The drain loop passes over a slot in the reading role. *)
Lemma inv_skip k (s : state) :
  inv k s ->
  (forall cb, bl s !! k = Some cb -> aio_fildes cb <> wfd) ->
  inv (S k) s.
Proof.
  intros (evs & Hw & Hs) Hk. exists evs. split; [done|].
  destruct Hs. destruct st_proto0 as (st & Hp & Ht). constructor; try done.
  - exists st. split; [done|].
    destruct (bl s !! k) as [cb|] eqn:Hi.
    + eapply tracks_skipped; eauto. apply role_reading. eauto.
    + apply tracks_past; [done|]. now apply lookup_ge_None.
  - destruct (bl s !! k) as [cb|] eqn:Hi.
    + rewrite (drop_S _ _ _ Hi) in st_acct0. simpl in st_acct0.
      rewrite (weight_reading wfd cb) in st_acct0 by eauto. lia.
    + apply lookup_ge_None in Hi.
      rewrite drop_ge in st_acct0 by done. rewrite drop_ge by lia. done.
Qed.

Lemma inv_ext k (s s' : state) :
  inv k s -> trace s' = trace s -> bl s' = bl s -> off s' = off s ->
  total s' = total s -> inv k s'.
Proof.
  intros (evs & [] & []) T B O Tt. exists evs.
  split; constructor; rewrite ?T, ?B, ?O, ?Tt; done.
Qed.

End KeepInvariants.

(** ** The loops of [shred_from] *)

Section Loops.

Context {World : Type}.
Variable os : syscall -> World -> resp * World.
Variables (EINPROGRESS sizeof_ptr : Z).
Variables (rfd wfd len C bl_list : Z) (N : nat) (t0 : list event).
Variable bufs0 : list Z.
Hypothesis Hfd : rfd <> wfd.
Hypothesis Hlen : 0 <= len < two63.
Hypothesis HC : 1 <= C < two64.

Local Abbreviation state := (state World).
Local Abbreviation inv := (inv EINPROGRESS rfd wfd len C N t0 bufs0).
Local Abbreviation stopped := (stopped EINPROGRESS rfd wfd len C N t0 bufs0).

(** One pass of the body of the dispatch loop. *)
Lemma for_body_inv i (s : state) c s' :
  inv 0 s -> off s < len ->
  for_body os EINPROGRESS rfd wfd len bl_list i s = (c, s') ->
  match c with
  | Continue => inv 0 s' /\ off s' < len
  | Break => inv 0 s' /\ off s' = len
  | Return v => v = -1 /\ stopped s'
  | Diverge => False
  end.
Proof.
  intros Hinv Hlt H. apply for_body_sound in H.
  destruct H as [Hi|cb Hi Hr Hw|cb r c s' Hi Hr Hge Hu ->
                |cb r tl s' Hi Hr Hneg Hc Hu|cb r s' Hi Hr Hw He Hu
                |cb r r2 tl s' Hi Hr Hw He Hneg Hc Hu
                |cb r r2 r3 tl s' Hi Hr Hw He Hge Hneg Hc Hu
                |cb r r2 r3 s' Hi Hr Hw He Hge Hge3 Hu].
  - done.
  - done.
  - assert (inv 0 s' /\ off s' = off s + Z.min C (len - off s))
      as [Hinv' Ho] by (eapply inv_dispatch; eauto).
    assert (0 <= off s' <= len) as Hb.
    { destruct Hinv' as (evs & _ & []). done. }
    rewrite to_size_t_id by (unfold two63, two64 in *; lia).
    destruct (Z.geb_spec (off s') len); split; try done; lia.
  - split; [done|].
    eapply stopped_dispatch_fail; eauto.
  - split; [|destruct Hu as (_ & _ & -> & _); done].
    eapply inv_polls with (i := i) (rs := [r]); eauto; lia.
  - split; [done|].
    eapply stopped_completion_fail
      with (k := 0%nat) (i := i) (rs := []) (tl := tl);
      eauto; [lia|]. left. eauto.
  - split; [done|].
    eapply stopped_read_fail with (r2 := r2) (r3 := r3) (tl := tl); eauto.
  - assert (inv 0 s' /\ off s' = off s) as [Hinv' Ho]
      by (eapply inv_refill with (r2 := r2) (r3 := r3); eauto).
    split; [done|lia].
Qed.

Lemma inv_bounds k (s : state) : inv k s -> 0 <= off s <= len.
Proof. intros (evs & _ & []). done. Qed.

Lemma inv_length k (s : state) : inv k s -> length (bl s) = N.
Proof. intros (evs & [] & _). done. Qed.

(** The [for] loop of one round of the dispatch loop. *)
Lemma for_loop_inv (s : state) c s' :
  inv 0 s -> off s < len ->
  for_loop (for_body os EINPROGRESS rfd wfd len bl_list) (length (bl s)) 0 s
    = (c, s') ->
  match c with
  | Continue => inv 0 s' /\ off s' < len
  | Break => inv 0 s' /\ off s' = len
  | Return v => v = -1 /\ stopped s'
  | Diverge => False
  end.
Proof.
  intros Hinv Hlt H.
  pose proof (for_loop_rule (for_body os EINPROGRESS rfd wfd len bl_list)
    (length (bl s)) (fun _ s => inv 0 s /\ off s < len)
    (fun c s' => match c with
                 | Break => inv 0 s' /\ off s' = len
                 | Return v => v = -1 /\ stopped s'
                 | _ => False
                 end)) as Hrule.
  specialize (Hrule ltac:(
    intros i s1 c1 s1' _ [Hi1 Hl1] E1;
    pose proof (for_body_inv _ _ _ _ Hi1 Hl1 E1) as H1;
    destruct c1; exact H1)).
  specialize (Hrule (length (bl s)) 0%nat s c s' eq_refl (conj Hinv Hlt) H).
  now destruct c.
Qed.

(** The dispatch loop: it is left with the cursor at [len], or by an
    error, or the fuel runs out. *)
Lemma main_loop_inv fuel (s : state) c s' :
  inv 0 s ->
  main_loop os EINPROGRESS rfd wfd len bl_list fuel s = (c, s') ->
  match c with
  | Continue => inv 0 s' /\ off s' = len
  | Break => False
  | Return v => v = -1 /\ stopped s'
  | Diverge => inv 0 s'
  end.
Proof.
  revert s. induction fuel as [|fuel IH]; intros s Hinv;
    pose proof (inv_bounds _ _ Hinv) as Hb; simpl;
    rewrite to_size_t_id by (unfold two63, two64 in *; lia);
    (destruct (Z.ltb_spec (off s) len) as [Hlt|Hge];
     [|intros [= <- <-]; split; [done|lia]]).
  - now intros [= <- <-].
  - assert (inv 0 (set_nread 0 s)) as Hinv1 by (eapply inv_ext; eauto).
    destruct (for_loop _ _ _ (set_nread 0 s)) as [c1 s1] eqn:E1.
    apply (for_loop_inv (set_nread 0 s)) in E1; [|done|done].
    assert (inv 0 s1 ->
      (let '(err, s) :=
         if nread s1 =? 0
         then let '(r, s) :=
                call os (SysAioSuspend bl_list (length (bl s1))) s1 in
              (ret_of r, s)
         else (0, s1) in
       if err <? 0
       then (Return (-1),
             free_bl_list os bl_list
               (printf os MsgSuspendFailed [errno s; errno s] s))
       else main_loop os EINPROGRESS rfd wfd len bl_list fuel s) = (c, s') ->
      match c with
      | Continue => inv 0 s' /\ off s' = len
      | Break => False
      | Return v => v = -1 /\ stopped s'
      | Diverge => inv 0 s'
      end) as Hrest.
    { intros Hinv1' H.
      assert (exists err s2, inv 0 s2 /\
        (if err <? 0
         then (Return (-1),
               free_bl_list os bl_list
                 (printf os MsgSuspendFailed [errno s2; errno s2] s2))
         else main_loop os EINPROGRESS rfd wfd len bl_list fuel s2)
        = (c, s')) as (err & s2 & Hinv2 & H2).
      { destruct (nread s1 =? 0).
        - destruct (call os _ s1) as [r s2] eqn:E2.
          exists (ret_of r), s2. split; [|done].
          apply call_upd in E2. eapply inv_neutral; eauto.
          now repeat constructor.
        - now exists 0, s1. }
      destruct (err <? 0).
      - injection H2 as <- <-. split; [done|].
        destruct (cleanup_upd os bl_list MsgSuspendFailed
                    [errno s2; errno s2] s2) as (tl & Hc & Hf).
        eapply inv_stopped, inv_neutral; eauto.
        eapply cleanup_neutral; eauto.
      - eapply IH; eauto. }
    destruct c1 as [| |v|]; try done.
    + intros H. eapply Hrest; eauto. apply E1.
    + intros H. eapply Hrest; eauto. apply E1.
    + now intros [= <- <-].
Qed.

(** One pass of the body of the drain loop. *)
Lemma drain_body_inv fuel i (s : state) c s' :
  inv i s ->
  drain_body os EINPROGRESS wfd fuel i s = (c, s') ->
  match c with
  | Continue => inv (S i) s' /\ off s' = off s
  | Break => False
  | Return v => v = -1 /\ stopped s'
  | Diverge => inv i s'
  end.
Proof.
  intros Hinv H. apply drain_body_sound in H.
  destruct H as [Hi|cb Hi Hw|cb rs s' Hi Hw Hrs Hu
                |cb rs r r2 a r3 s' Hi Hw Hrs He Hneg Hu
                |cb rs r r2 s' Hi Hw Hrs He Hge Hu].
  - split; [|done]. eapply inv_skip; eauto. intros cb. congruence.
  - split; [|done]. eapply inv_skip; eauto. intros cb'. congruence.
  - eapply inv_polls with (i := i); eauto.
  - split; [done|].
    eapply stopped_completion_fail
      with (k := i) (i := i) (rs := rs)
           (tl := [(SysPrintf MsgFinalWriteCompletionError a, r3)]); eauto.
    right. eauto.
  - split; [|destruct Hu as (_ & _ & -> & _); done].
    eapply inv_collect with (rs := rs) (r := r) (r2 := r2); eauto.
Qed.

(** The drain loop. *)
Lemma drain_loop_inv fuel (s : state) c s' :
  inv 0 s -> off s = len ->
  for_loop (drain_body os EINPROGRESS wfd fuel) (length (bl s)) 0 s = (c, s') ->
  match c with
  | Continue => inv (length (bl s)) s' /\ off s' = len
  | Break => False
  | Return v => v = -1 /\ stopped s'
  | Diverge => exists k, inv k s'
  end.
Proof.
  intros Hinv Ho H.
  pose proof (for_loop_rule (drain_body os EINPROGRESS wfd fuel)
    (length (bl s)) (fun i s => inv i s /\ off s = len)
    (fun c s' => match c with
                 | Return v => v = -1 /\ stopped s'
                 | Diverge => exists k, inv k s'
                 | _ => False
                 end)) as Hrule.
  specialize (Hrule ltac:(
    intros i s1 c1 s1' _ [Hi1 Hl1] E1;
    pose proof (drain_body_inv _ _ _ _ _ Hi1 E1) as H1;
    destruct c1; [split; [apply H1|destruct H1 as [_ ->]; exact Hl1]
                 |exact H1|exact H1|eauto])).
  specialize (Hrule (length (bl s)) 0%nat s c s' eq_refl (conj Hinv Ho) H).
  now destruct c.
Qed.

End Loops.

(** ** A run of [shred_from] *)

Section Run.

Context {World : Type}.
Variable os : syscall -> World -> resp * World.
Variables (EINPROGRESS sizeof_ptr : Z).
Variables (rfd wfd len C : Z).
Hypothesis Hfd : rfd <> wfd.
Hypothesis Hlen : 0 <= len < two63.
Hypothesis HC : 1 <= C < two64.

Local Abbreviation state := (state World).

Lemma primed_weight l : primed rfd C l -> sum_list (map (weight wfd) l) = 0.
Proof.
  induction 1 as [|cb l [Hr _] _ IH]; [done|]. simpl.
  rewrite weight_reading by congruence. lia.
Qed.

Lemma inv_start (s : state) :
  primed rfd C (bl s) ->
  inv EINPROGRESS rfd wfd len C (length (bl s)) (trace s)
    (map aio_buf (bl s)) 0
    (set_total 0 (set_off 0 s)).
Proof.
  intros Hp. exists []. split; constructor; simpl.
  - now rewrite app_nil_r.
  - done.
  - eapply Forall_impl; [exact Hp|]. intros cb [H _]. now left.
  - exists 0. split; [lia|done].
  - constructor.
  - eauto.
  - constructor.
  - left. constructor.
  - done.
  - constructor.
  - lia.
  - intros _. split; [|now left].
    eapply Forall_impl; [exact Hp|]. now intros cb [_ H].
  - done.
  - exists (replicate (length (bl s)) Idle). split; [done|]. split.
    + now rewrite length_replicate.
    + intros j cb Hj. rewrite lookup_replicate_2
        by (apply lookup_lt_Some in Hj; done).
      rewrite role_reading; [done|].
      unfold primed in Hp.
      rewrite Forall_lookup in Hp. destruct (Hp _ _ Hj). congruence.
  - rewrite drop_0, primed_weight by done. done.
  - done.
  - constructor.
Qed.

(** The summary of a run: what holds of the calls it made, whatever the
    operating system answered and however much fuel it had. *)
Lemma shred_from_run fuel (s : state) o s' :
  primed rfd C (bl s) ->
  shred_from os EINPROGRESS sizeof_ptr rfd wfd len fuel s = (o, s') ->
  exists evs,
    weak EINPROGRESS rfd wfd len C (length (bl s)) (trace s)
      (map aio_buf (bl s)) s' evs /\
    match o with
    | None => Forall (fun ev => ~ failed_completion ev) evs
    | Some v => v = -1 \/ succeeded len evs v
    end.
Proof.
  intros Hp. unfold shred_from, get_bl_list_from_array.
  pose proof (inv_start s Hp) as H0.
  set (s0 := set_total 0 (set_off 0 s)) in *.
  change (length (bl s0)) with (length (bl s)).
  destruct (call os _ s0) as [r1 s1] eqn:E1.
  apply call_upd in E1.
  assert (inv EINPROGRESS rfd wfd len C (length (bl s)) (trace s)
    (map aio_buf (bl s)) 0 s1) as H1.
  { eapply inv_neutral; eauto. now repeat constructor. }
  destruct (_ && _); cbv beta iota.
  { intros [= <- <-]. destruct H1 as (evs & Hw & Hs). exists evs.
    split; [done|]. apply Hs. }
  destruct (main_loop _ _ _ _ _ _ _ s1) as [c2 s2] eqn:E2.
  eapply main_loop_inv in E2; eauto.
  destruct c2 as [| |v|]; [|done| |].
  2:{ intros [= <- <-]. destruct E2 as [-> (evs & Hw)]. exists evs. auto. }
  2:{ intros [= <- <-]. destruct E2 as (evs & Hw & Hs). exists evs.
      split; [done|]. apply Hs. }
  destruct E2 as [H2 Ho2].
  destruct (free_bl_list_upd os (ptr_of r1) s2) as (r3 & E3).
  set (s3 := free_bl_list os (ptr_of r1) s2) in *.
  assert (inv EINPROGRESS rfd wfd len C (length (bl s)) (trace s)
    (map aio_buf (bl s)) 0 s3) as H3.
  { eapply inv_neutral; eauto. now repeat constructor. }
  assert (off s3 = len) as Ho3 by (destruct E3 as (_ & _ & -> & _); done).
  destruct (for_loop _ _ _ s3) as [c4 s4] eqn:E4.
  eapply drain_loop_inv in E4; eauto.
  destruct c4 as [| |v|]; [|done| |].
  2:{ intros [= <- <-]. destruct E4 as [-> (evs & Hw)]. exists evs. auto. }
  2:{ intros [= <- <-]. destruct E4 as (k & evs & Hw & Hs). exists evs.
      split; [done|]. apply Hs. }
  destruct E4 as [H4 Ho4].
  rewrite (inv_length _ _ _ _ _ _ _ _ _ _ H3) in H4. unfold flush.
  destruct (call os (SysFsync wfd) s4) as [r5 s5] eqn:E5.
  apply call_upd in E5.
  assert (inv EINPROGRESS rfd wfd len C (length (bl s)) (trace s)
            (map aio_buf (bl s)) (length (bl s)) s5) as H5.
  { eapply inv_neutral; eauto. now repeat constructor. }
  destruct (negb (ret_of r5 =? 0)).
  - intros [= <- <-].
    destruct (printf_upd os MsgFlushFailed [ret_of r5; ret_of r5] s5)
      as (r6 & E6).
    set (s6 := printf os MsgFlushFailed [ret_of r5; ret_of r5] s5) in *.
    assert (inv EINPROGRESS rfd wfd len C (length (bl s)) (trace s)
              (map aio_buf (bl s)) (length (bl s)) s6) as H6.
    { eapply inv_neutral; eauto. now repeat constructor. }
    assert (inv EINPROGRESS rfd wfd len C (length (bl s)) (trace s)
              (map aio_buf (bl s)) (length (bl s))
              (set_errno (ret_of r5) s6)) as H7.
    { eapply inv_ext; eauto. }
    destruct H7 as (evs & Hw & _). exists evs. auto.
  - intros [= <- <-]. destruct H5 as (evs & Hw & Hs). exists evs.
    split; [done|]. right. destruct Hs. destruct Hw.
    assert (off s5 = len) as Ho5 by (destruct E5 as (_ & _ & -> & _); done).
    rewrite drop_ge in st_acct0 by lia. simpl in st_acct0.
    repeat split; try done.
    + now rewrite <- Ho5.
    + lia.
    + now rewrite st_total0.
Qed.

End Run.

(** ** Ranges that tile an interval *)

Lemma tiles_within a rs b :
  tiles a rs b ->
  Forall (fun r => a <= fst r /\ 0 < snd r /\ fst r + snd r <= b) rs.
Proof.
  revert a. induction rs as [|[o n] rs IH]; intros a; simpl; [constructor|].
  intros (-> & Hn & Ht). constructor.
  - simpl. apply tiles_le in Ht. lia.
  - eapply Forall_impl; [apply IH, Ht|]. simpl. lia.
Qed.

Lemma tiles_ordered a rs b i j r r' :
  tiles a rs b -> (i < j)%nat -> rs !! i = Some r -> rs !! j = Some r' ->
  fst r + snd r <= fst r'.
Proof.
  revert a i j. induction rs as [|[o n] rs IH]; intros a i j; simpl; [done|].
  intros (-> & Hn & Ht) Hij. destruct j as [|j]; [lia|].
  destruct i as [|i]; simpl.
  - intros [= <-] Hj. apply tiles_within in Ht.
    rewrite Forall_lookup in Ht. apply Ht in Hj. simpl. lia.
  - apply IH with (a := a + n); [done|lia].
Qed.

Lemma tiles_last C len a rs o n :
  0 < C -> a mod C = 0 -> tiles a rs len ->
  Forall (fun r => snd r = Z.min C (len - fst r)) rs ->
  last rs = Some (o, n) ->
  n = if len mod C =? 0 then C else len mod C.
Proof.
  intros HC. revert a.
  induction rs as [|[o1 n1] rs IH]; intros a Ha; simpl; [done|].
  intros (-> & Hn & Ht) Hl. apply Forall_cons in Hl as [H1 Hl]. simpl in H1.
  destruct rs as [|[o2 n2] rs].
  - simpl in *. intros [= -> ->]. subst len.
    assert (n <= C) as Hle by lia.
    rewrite Z.add_mod, Ha, Z.add_0_l, Z.mod_mod by lia.
    destruct (Z.eq_dec n C) as [->|Hne].
    + now rewrite Z.mod_same by lia.
    + rewrite Z.mod_small by lia.
      destruct (Z.eqb_spec n 0); [lia|done].
  - intros Hlast. apply (IH (a + n1)); [|done|done|done].
    pose proof (tiles_le _ _ _ Ht) as Hle.
    simpl in Ht. destruct Ht as (-> & Hn2 & Ht). apply tiles_le in Ht.
    assert (n1 = C) as -> by lia.
    rewrite Z.add_mod, Ha, Z.mod_same by lia. done.
Qed.


(** ** Runs on an operating system that answers at once *)

Lemma existsb_reader rfd (l : list aiocb) :
  existsb (fun cb => aio_fildes cb =? rfd) l = true <-> Exists (reader rfd) l.
Proof.
  rewrite existsb_exists, Exists_exists. unfold reader.
  split; intros (cb & Hin & H); exists cb.
  - split; [now apply list_elem_of_In|]. now apply Z.eqb_eq.
  - split; [now apply list_elem_of_In|]. now apply Z.eqb_eq.
Qed.

Section Responsive.

Context {World : Type}.
Variable os : syscall -> World -> resp * World.
Variables (EINPROGRESS sizeof_ptr : Z).
Variables (rfd wfd len C bl_list : Z) (N : nat) (t0 : list event).
Variable bufs0 : list Z.
Hypothesis Hfd : rfd <> wfd.
Hypothesis Hlen : 0 <= len < two63.
Hypothesis HC : 1 <= C < two64.
Hypothesis Hos : responsive_os EINPROGRESS os.

Local Abbreviation state := (state World).
Local Abbreviation inv := (inv EINPROGRESS rfd wfd len C N t0 bufs0).

Lemma call_responsive c (s : state) r s' :
  call os c s = (r, s') -> responsive EINPROGRESS c r.
Proof.
  unfold call. pose proof (Hos c (world s)) as H.
  destruct (os c (world s)) as [r0 w]. now intros [= <- <-].
Qed.

(** One pass of the body of the dispatch loop: a reader is handed a
    range, a writer is collected and refilled. *)
Lemma for_body_prompt i (s : state) c s' cb :
  for_body os EINPROGRESS rfd wfd len bl_list i s = (c, s') ->
  bl s !! i = Some cb ->
  (aio_fildes cb = rfd ->
     bl s' = <[i := assign wfd len cb (off s)]> (bl s) /\
     off s' = to_off_t (off s + aio_nbytes (assign wfd len cb (off s))) /\
     c <> Diverge /\ forall v, c <> Return v) /\
  (aio_fildes cb = wfd ->
     bl s' = <[i := with_fildes rfd cb]> (bl s) /\ off s' = off s /\
     c = Continue).
Proof.
  unfold for_body. intros H Hi. rewrite Hi in H.
  destruct (Z.eqb_spec (aio_fildes cb) rfd) as [Hr|Hr].
  - split; [intros _|congruence].
    destruct (call os _ _) as [r s1] eqn:E1.
    pose proof (call_responsive _ _ _ _ E1) as Hresp. simpl in Hresp.
    apply call_upd in E1. destruct E1 as (T1 & B1 & O1 & N1 & R1).
    simpl in *.
    destruct (Z.ltb_spec (ret_of r) 0) as [|_]; [lia|].
    destruct (_ >=? _); injection H as <- <-; simpl; rewrite B1, O1; done.
  - split; [congruence|intros Hw].
    destruct (Z.eqb_spec (aio_fildes cb) wfd) as [_|]; [|done].
    destruct (call os _ s) as [r s1] eqn:E1.
    pose proof (call_responsive _ _ _ _ E1) as Hresp. simpl in Hresp.
    apply call_upd in E1. destruct E1 as (T1 & B1 & O1 & N1 & R1).
    destruct (Z.eqb_spec EINPROGRESS (ret_of r)) as [|_]; [congruence|].
    destruct (call os _ s1) as [r2 s2] eqn:E2.
    pose proof (call_responsive _ _ _ _ E2) as Hresp2. simpl in Hresp2.
    apply call_upd in E2. destruct E2 as (T2 & B2 & O2 & N2 & R2).
    destruct (Z.ltb_spec (ret_of r2) 0) as [|_]; [lia|].
    destruct (call os _ _) as [r3 s3] eqn:E3.
    pose proof (call_responsive _ _ _ _ E3) as Hresp3. simpl in Hresp3.
    apply call_upd in E3. destruct E3 as (T3 & B3 & O3 & N3 & R3).
    simpl in *.
    destruct (Z.ltb_spec (ret_of r3) 0) as [|_]; [lia|].
    injection H as <- <-. simpl. rewrite B3, O3, B2, O2, B1, O1. done.
Qed.

Local Abbreviation round_inv := (round_inv EINPROGRESS rfd wfd len C N t0 bufs0).

Lemma round_step (s0 : state) i (s : state) c s' :
  (i < N)%nat -> round_inv s0 i s ->
  for_body os EINPROGRESS rfd wfd len bl_list i s = (c, s') ->
  match c with
  | Continue => round_inv s0 (S i) s'
  | Break => inv 0 s' /\ off s' = len
  | _ => False
  end.
Proof.
  intros Hi (Hinv & Hlt & Hdrop & Hle & Hex & Hnex) H.
  assert (match c with
          | Continue => inv 0 s' /\ off s' < len
          | Break => inv 0 s' /\ off s' = len
          | Return v =>
              v = -1 /\ stopped EINPROGRESS rfd wfd len C N t0 bufs0 s'
          | Diverge => False
          end) as Hstep by (eapply for_body_inv; eauto).
  assert (length (bl s) = N) as HN by (eapply inv_length; eauto).
  destruct (lookup_lt_is_Some_2 (bl s) i ltac:(lia)) as [cb Hcb].
  assert (bl s0 !! i = Some cb) as Hcb0.
  { rewrite <- (Nat.add_0_r i), <- lookup_drop, <- Hdrop, lookup_drop.
    now rewrite Nat.add_0_r. }
  assert (drop (S i) (bl s) = drop (S i) (bl s0)) as Hdrop'.
  { replace (S i) with (i + 1)%nat by lia. rewrite <- !drop_drop. now f_equal. }
  destruct (for_body_prompt i s c s' cb H Hcb) as [Hrd Hwr].
  assert (aio_fildes cb = rfd \/ aio_fildes cb = wfd) as [Hr|Hw].
  { destruct Hinv as (evs & [] & _).
    rewrite Forall_lookup in wk_roles0. eauto. }
  - destruct (Hrd Hr) as (B & O & Hnd & Hnr).
    assert (off s < off s') as Hgt.
    { destruct Hinv as (evs & _ & []).
      destruct (st_cap0 Hlt) as [Hcap Hnw].
      rewrite Forall_lookup in Hcap. specialize (Hcap _ _ Hcb).
      rewrite (assign_spec wfd len C) in O by (auto; lia). simpl in O.
      rewrite to_off_t_id in O by (unfold two63 in *; lia). lia. }
    destruct c as [| |v|]; [|done|now destruct (Hnr v)|done].
    destruct Hstep as [Hinv' Hlt'].
    split_and!; try done.
    + rewrite B, drop_insert_lt by lia. done.
    + lia.
    + intros _. lia.
    + intros Hn. exfalso. apply Hn.
      rewrite (take_S_r _ _ _ Hcb0). apply Exists_app. right.
      now constructor.
  - destruct (Hwr Hw) as (B & O & ->).
    destruct Hstep as [Hinv' Hlt'].
    assert (~ reader rfd cb) as Hnrd by (unfold reader; congruence).
    split_and!; try done.
    + rewrite B, drop_insert_lt by lia. done.
    + lia.
    + rewrite (take_S_r _ _ _ Hcb0), Exists_app.
      intros [He|He]; [specialize (Hex He); lia|].
      apply Exists_cons in He as [?|He]; [done|]. now apply Exists_nil in He.
    + rewrite (take_S_r _ _ _ Hcb0), Exists_app.
      intros Hn. destruct Hnex as [Ho Hall]; [tauto|].
      split; [lia|].
      rewrite (take_S_r _ i (with_fildes rfd cb))
        by (rewrite B; apply list_lookup_insert_eq; lia).
      rewrite B, take_insert_ge by lia.
      apply Forall_app. split; [done|]. now repeat constructor.
Qed.

Local Abbreviation remaining := (rounds_left rfd len).

(** One round of the dispatch loop brings the end nearer. *)
Lemma round_progress (s : state) c s' :
  (0 < N)%nat -> inv 0 s -> off s < len ->
  for_loop (for_body os EINPROGRESS rfd wfd len bl_list)
    (length (bl (set_nread 0 s))) 0 (set_nread 0 s) = (c, s') ->
  (c = Continue \/ c = Break) /\ inv 0 s' /\
  0 <= remaining s' < remaining s.
Proof.
  intros HN Hinv Hlt H.
  assert (length (bl s) = N) as Hl by (eapply inv_length; eauto).
  set (s1 := set_nread 0 s) in *.
  assert (inv 0 s1) as Hinv1 by (eapply inv_ext; eauto).
  pose proof (for_loop_rule (for_body os EINPROGRESS rfd wfd len bl_list)
    N (round_inv s1)
    (fun c s' => match c with
                 | Break => inv 0 s' /\ off s' = len
                 | _ => False
                 end)) as Hrule.
  specialize (Hrule ltac:(
    intros i s2 c2 s2' Hi HJ E;
    pose proof (round_step s1 i s2 c2 s2' Hi HJ E) as H2;
    destruct c2; exact H2)).
  change (length (bl s1)) with (length (bl s)) in H. rewrite Hl in H.
  assert (round_inv s1 0 s1) as H0.
  { split_and!; try done; try lia.
    simpl. intros He. now apply Exists_nil in He. }
  specialize (Hrule N 0%nat s1 c s' eq_refl H0 H).
  unfold rounds_left.
  destruct c as [| |v|]; try done.
  - destruct Hrule as (Hinv' & Hlt' & _ & Hle & Hex & Hnex).
    split; [now left|]. split; [done|].
    pose proof (inv_bounds _ _ _ _ _ _ _ _ _ _ Hinv') as Hb'.
    assert (length (bl s') = N) as Hl' by (eapply inv_length; eauto).
    rewrite take_ge in Hex, Hnex by (simpl; lia).
    rewrite take_ge in Hnex by lia. simpl in *.
    destruct (existsb _ (bl s)) eqn:Eb.
    + apply existsb_reader in Eb. specialize (Hex Eb).
      destruct (existsb _ (bl s')); lia.
    + assert (~ Exists (reader rfd) (bl s)) as Hn.
      { intros He. apply existsb_reader in He. congruence. }
      destruct (Hnex Hn) as [Ho Hall].
      assert (existsb (fun cb => aio_fildes cb =? rfd) (bl s') = true) as ->.
      { apply existsb_reader. destruct (bl s') as [|cb l]; [simpl in Hl'; lia|].
        apply Forall_cons in Hall as [Hcb _]. now constructor. }
      lia.
  - destruct Hrule as [Hinv' Ho]. split; [now right|]. split; [done|].
    simpl in *. destruct (existsb _ (bl s')), (existsb _ (bl s)); lia.
Qed.

(** With enough fuel the dispatch loop is left with the cursor at
    [len]. *)
Lemma main_loop_returns fuel (s : state) :
  (0 < N)%nat -> inv 0 s -> (Z.to_nat (remaining s) <= fuel)%nat ->
  exists s',
    main_loop os EINPROGRESS rfd wfd len bl_list fuel s = (Continue, s').
Proof.
  intros HN. revert s. induction fuel as [|fuel IH]; intros s Hinv Hfuel;
    pose proof (inv_bounds _ _ _ _ _ _ _ _ _ _ Hinv) as Hb; simpl;
    rewrite to_size_t_id by (unfold two63, two64 in *; lia);
    (destruct (Z.ltb_spec (off s) len) as [Hlt|Hge]; [|eauto]).
  - exfalso. unfold rounds_left in Hfuel.
    destruct (existsb _ (bl s)); lia.
  - destruct (for_loop _ _ _ (set_nread 0 s)) as [c1 s1] eqn:E1.
    destruct (round_progress s c1 s1 HN Hinv Hlt E1) as (Hc & Hinv1 & Hm).
    assert (forall s2, bl s2 = bl s1 -> off s2 = off s1 -> inv 0 s2 ->
            exists s', main_loop os EINPROGRESS rfd wfd len bl_list fuel s2
                       = (Continue, s')) as Hnext.
    { intros s2 B O Hinv2. apply IH; [done|].
      unfold rounds_left in *. rewrite B, O. lia. }
    assert (exists s',
      (let '(err, s2) :=
         if nread s1 =? 0
         then let '(r, s2) :=
                call os (SysAioSuspend bl_list (length (bl s1))) s1 in
              (ret_of r, s2)
         else (0, s1) in
       if err <? 0
       then (Return (-1),
             free_bl_list os bl_list
               (printf os MsgSuspendFailed [errno s2; errno s2] s2))
       else main_loop os EINPROGRESS rfd wfd len bl_list fuel s2)
      = (Continue, s')) as Hsusp.
    { destruct (nread s1 =? 0).
      - destruct (call os _ s1) as [r s2] eqn:E2.
        pose proof (call_responsive _ _ _ _ E2) as Hr. simpl in Hr.
        apply call_upd in E2.
        destruct (Z.ltb_spec (ret_of r) 0) as [|_]; [lia|].
        destruct E2 as (T2 & B2 & O2 & N2 & R2).
        apply Hnext; try done.
        eapply inv_neutral
          with (s := s1) (tl := [(SysAioSuspend bl_list (length (bl s1)), r)]);
          [done|repeat split; done|now repeat constructor].
      - simpl. now apply Hnext. }
    destruct Hc as [-> | ->]; exact Hsusp.
Qed.

Lemma drain_body_prompt fuel i (s : state) c s' :
  drain_body os EINPROGRESS wfd (S fuel) i s = (c, s') -> c = Continue.
Proof.
  unfold drain_body. destruct (bl s !! i) as [cb|]; [|now intros [= <- _]].
  destruct (negb (aio_fildes cb =? wfd)); [now intros [= <- _]|]. simpl.
  destruct (call os _ s) as [r s1] eqn:E1.
  pose proof (call_responsive _ _ _ _ E1) as Hr. simpl in Hr.
  destruct (Z.eqb_spec EINPROGRESS (ret_of r)) as [|_]; [congruence|].
  destruct (call os _ s1) as [r2 s2] eqn:E2.
  pose proof (call_responsive _ _ _ _ E2) as Hr2. simpl in Hr2.
  destruct (Z.ltb_spec (ret_of r2) 0) as [|_]; [lia|]. now intros [= <- _].
Qed.

Lemma drain_loop_prompt fuel n i (s : state) c s' :
  for_loop (drain_body os EINPROGRESS wfd (S fuel)) n i s = (c, s') ->
  c = Continue.
Proof.
  revert i s. induction n as [|n IH]; intros i s; simpl.
  - now intros [= <- _].
  - destruct (drain_body _ _ _ _ i s) as [c1 s1] eqn:E1.
    apply drain_body_prompt in E1. subst c1. apply IH.
Qed.

Lemma flush_neutral (s : state) o s' :
  flush os wfd s = (o, s') ->
  (exists v, o = Some v) /\
  exists new, same_frame s (set_errno (errno s) s') new /\ Forall neutral new.
Proof.
  unfold flush. destruct (call os _ s) as [r s1] eqn:E1.
  apply call_upd in E1. destruct E1 as (T1 & B1 & O1 & N1 & R1).
  destruct (negb (ret_of r =? 0)); intros [= <- <-].
  - split; [eauto|].
    destruct (printf_upd os MsgFlushFailed [ret_of r; ret_of r] s1)
      as (r2 & T2 & B2 & O2 & N2 & R2).
    exists [(SysFsync wfd, r); (SysPrintf MsgFlushFailed [ret_of r; ret_of r], r2)].
    split; [|now repeat constructor].
    repeat split; simpl; try congruence.
    rewrite T2, T1. now rewrite <- app_assoc.
  - split; [eauto|]. exists [(SysFsync wfd, r)].
    split; [|now repeat constructor]. repeat split; simpl; congruence.
Qed.

End Responsive.

Section Completion.

Context {World : Type}.
Variable os : syscall -> World -> resp * World.
Variables (EINPROGRESS sizeof_ptr : Z).
Variables (rfd wfd len C : Z).
Hypothesis Hfd : rfd <> wfd.
Hypothesis Hlen : 0 <= len < two63.
Hypothesis HC : 1 <= C < two64.
Hypothesis Hos : responsive_os EINPROGRESS os.

(** On an operating system that answers at once, a run on a pool that is
    not empty and whose list is allocated returns when it has two units
    of fuel for every byte of the target, and by then the whole of
    [0, len) has been handed out and collected. *)
Lemma responsive_run fuel (s : state World) :
  primed rfd C (bl s) -> bl s <> [] -> list_allocated os sizeof_ptr s ->
  (1 <= fuel)%nat -> (Z.to_nat (2 * len) <= fuel)%nat ->
  exists v s' evs,
    shred_from os EINPROGRESS sizeof_ptr rfd wfd len fuel s = (Some v, s') /\
    trace s' = trace s ++ evs /\
    tiles 0 (dispatched evs) len /\ requested evs = len.
Proof.
  intros Hp Hne Hm Hf1 Hf2. unfold shred_from, get_bl_list_from_array.
  pose proof (inv_start EINPROGRESS rfd wfd len C Hfd Hlen s Hp) as H0.
  set (s0 := set_total 0 (set_off 0 s)) in *.
  change (length (bl s0)) with (length (bl s)).
  destruct (call os _ s0) as [r1 s1] eqn:E1.
  pose proof (call_answer os _ _ _ _ E1) as A1. simpl in A1.
  assert ((ptr_of r1 =? 0) = false) as -> by (apply Z.eqb_neq; now rewrite A1).
  cbn [andb]. cbv beta iota. clear A1. apply call_upd in E1.
  assert (inv EINPROGRESS rfd wfd len C (length (bl s)) (trace s)
    (map aio_buf (bl s)) 0 s1) as H1.
  { eapply inv_neutral; eauto. now repeat constructor. }
  assert (0 < length (bl s))%nat as HN.
  { destruct (bl s); [done|simpl; lia]. }
  destruct (main_loop_returns os EINPROGRESS rfd wfd len C (ptr_of r1)
              (length (bl s)) (trace s) (map aio_buf (bl s))
              Hfd Hlen HC Hos fuel s1 HN H1)
    as (s2 & E2).
  { unfold rounds_left. destruct E1 as (_ & -> & -> & _). simpl.
    assert (existsb (fun cb => aio_fildes cb =? rfd) (bl s) = true) as ->.
    { apply existsb_reader. destruct (bl s) as [|cb l]; [done|].
      apply Forall_cons in Hp as [[Hr _] _]. now constructor. }
    lia. }
  rewrite E2. eapply main_loop_inv in E2; eauto. destruct E2 as [H2 Ho2].
  destruct (free_bl_list_upd os (ptr_of r1) s2) as (r3 & E3).
  set (s3 := free_bl_list os (ptr_of r1) s2) in *.
  assert (inv EINPROGRESS rfd wfd len C (length (bl s)) (trace s)
    (map aio_buf (bl s)) 0 s3) as H3.
  { eapply inv_neutral; eauto. now repeat constructor. }
  assert (off s3 = len) as Ho3 by (destruct E3 as (_ & _ & -> & _); done).
  destruct (for_loop _ _ _ s3) as [c4 s4] eqn:E4.
  destruct fuel as [|fuel]; [lia|].
  pose proof (drain_loop_prompt os EINPROGRESS wfd Hos _ _ _ _ _ _ E4) as ->.
  eapply drain_loop_inv in E4; eauto. destruct E4 as [H4 Ho4].
  rewrite (inv_length _ _ _ _ _ _ _ _ _ _ H3) in H4.
  destruct (flush os wfd s4) as [o s5] eqn:E5.
  destruct (flush_neutral os wfd s4 o s5 E5) as ((v & ->) & new & Hf & Hn).
  destruct H4 as (evs & Hw & Hs). destruct Hw, Hs.
  destruct Hf as (T5 & _). simpl in T5.
  exists v, s5, (evs ++ new). split_and!.
  - reflexivity.
  - rewrite T5, wk_trace0. now rewrite app_assoc.
  - rewrite dispatched_app, (dispatched_neutral new), app_nil_r by done.
    now rewrite <- Ho4.
  - rewrite requested_app. unfold requested at 2.
    rewrite (completions_neutral new) by done. simpl.
    rewrite drop_ge in st_acct0 by lia. simpl in st_acct0. lia.
Qed.

End Completion.

(** ** The byte ranges of the dispatch loop *)

Section Ranges.

Context {World : Type}.
Variable os : syscall -> World -> resp * World.
Variables (EINPROGRESS sizeof_ptr : Z).

(** C2.  Whatever the operating system answers and however long the run
    lasts, the byte ranges handed to [aio_write] tile an initial segment of
    the target: the first starts at 0, each starts where the one before
    ends, none is empty, none leaves [0, len), two ranges never overlap
    (so none is handed out twice), and their lengths sum to at most [len].
    When the run returns through the last [return] of [shred_from], they
    tile [0, len) and their lengths sum to [len] exactly.  And the run
    does get there: on a pool of at least one slot, when [malloc] has not
    answered [NULL] for the list of the pool (the process is killed
    otherwise) and the operating system answers at once, two units of
    fuel for each byte of the target are enough for the run to return
    with [0, len) tiled. *)
Theorem dispatch_partitions_target rfd wfd len C (s : state World) :
  rfd <> wfd -> 0 <= len < two63 -> 1 <= C < two64 ->
  primed rfd C (bl s) ->
  (forall fuel o s',
     shred_from os EINPROGRESS sizeof_ptr rfd wfd len fuel s = (o, s') ->
     exists evs, trace s' = trace s ++ evs /\
       let rs := dispatched evs in
       (exists e, e <= len /\ tiles 0 rs e) /\
       Forall (fun r => 0 <= fst r /\ 0 < snd r /\ fst r + snd r <= len) rs /\
       (forall i j r r', (i < j)%nat ->
          rs !! i = Some r -> rs !! j = Some r' -> fst r + snd r <= fst r') /\
       sum_list (map snd rs) <= len /\
       (forall v, o = Some v -> v <> -1 ->
          tiles 0 rs len /\ sum_list (map snd rs) = len)) /\
  (responsive_os EINPROGRESS os -> bl s <> [] ->
   list_allocated os sizeof_ptr s ->
   forall fuel, (1 <= fuel)%nat -> (Z.to_nat (2 * len) <= fuel)%nat ->
     exists v s' evs,
       shred_from os EINPROGRESS sizeof_ptr rfd wfd len fuel s = (Some v, s') /\
       trace s' = trace s ++ evs /\
       tiles 0 (dispatched evs) len /\
       sum_list (map snd (dispatched evs)) = len).
Proof.
  intros Hfd Hlen HC Hp. split.
  - intros fuel o s' H.
    destruct (shred_from_run os EINPROGRESS sizeof_ptr rfd wfd len C
                Hfd Hlen HC fuel s o s' Hp H) as (evs & Hw & Ho).
    exists evs. destruct Hw. split; [done|]. simpl.
    destruct wk_ranges0 as (e & He & Ht).
    split_and!.
    + eauto.
    + eapply Forall_impl; [apply (tiles_within _ _ _ Ht)|]. simpl. lia.
    + intros i j r r'. now apply (tiles_ordered _ _ _ _ _ _ _ Ht).
    + apply tiles_sum in Ht. lia.
    + intros v -> Hv. destruct Ho as [?|(_ & Ht' & _)]; [done|].
      split; [done|]. apply tiles_sum in Ht'. lia.
  - intros Hos Hne Hm fuel Hf1 Hf2.
    destruct (responsive_run os EINPROGRESS sizeof_ptr rfd wfd len C
                Hfd Hlen HC Hos fuel s Hp Hne Hm Hf1 Hf2)
      as (v & s' & evs & H & T & Ht & _).
    exists v, s', evs. split_and!; try done.
    apply tiles_sum in Ht. lia.
Qed.

End Ranges.

Lemma primed_pool rfd c n : primed rfd c (Examples.pool rfd c n).
Proof.
  unfold primed, Examples.pool. apply Forall_forall.
  intros cb Hin. apply list_elem_of_In, in_map_iff in Hin.
  destruct Hin as (i & <- & _). done.
Qed.

(** The run of the scenario: two slots of four bytes, a target of ten
    bytes, an operating system that completes every write at once. *)
Local Abbreviation scenario :=
  (shred_from (Examples.prompt_os 10) Examples.EINPROGRESS_bsd
     Examples.sizeof_ptr_bsd 3 4 10 20
     (Examples.init_state 0 (Examples.pool 3 4 2))).

Lemma prompt_os_responsive size :
  responsive_os Examples.EINPROGRESS_bsd (Examples.prompt_os size).
Proof.
  intros c w. destruct c; simpl; try done; lia.
Qed.

Lemma dispatch_partitions_target_witness :
  fst scenario = Some 10 /\
  responsive_os Examples.EINPROGRESS_bsd (Examples.prompt_os 10) /\
  list_allocated (Examples.prompt_os 10) Examples.sizeof_ptr_bsd
    (Examples.init_state 0 (Examples.pool 3 4 2)) /\
  (forall fuel o s',
     shred_from (Examples.prompt_os 10) Examples.EINPROGRESS_bsd
       Examples.sizeof_ptr_bsd 3 4 10 fuel
       (Examples.init_state 0 (Examples.pool 3 4 2)) = (o, s') ->
     exists evs,
       trace s' = trace (Examples.init_state 0 (Examples.pool 3 4 2)) ++ evs /\
       let rs := dispatched evs in
       (exists e, e <= 10 /\ tiles 0 rs e) /\
       Forall (fun r => 0 <= fst r /\ 0 < snd r /\ fst r + snd r <= 10) rs /\
       (forall i j r r', (i < j)%nat ->
          rs !! i = Some r -> rs !! j = Some r' -> fst r + snd r <= fst r') /\
       sum_list (map snd rs) <= 10 /\
       (forall v, o = Some v -> v <> -1 ->
          tiles 0 rs 10 /\ sum_list (map snd rs) = 10)) /\
  (responsive_os Examples.EINPROGRESS_bsd (Examples.prompt_os 10) ->
   bl (Examples.init_state 0 (Examples.pool 3 4 2)) <> [] ->
   list_allocated (Examples.prompt_os 10) Examples.sizeof_ptr_bsd
     (Examples.init_state 0 (Examples.pool 3 4 2)) ->
   forall fuel, (1 <= fuel)%nat -> (Z.to_nat (2 * 10) <= fuel)%nat ->
     exists v s' evs,
       shred_from (Examples.prompt_os 10) Examples.EINPROGRESS_bsd
         Examples.sizeof_ptr_bsd 3 4 10 fuel
         (Examples.init_state 0 (Examples.pool 3 4 2)) = (Some v, s') /\
       trace s' = trace (Examples.init_state 0 (Examples.pool 3 4 2)) ++ evs /\
       tiles 0 (dispatched evs) 10 /\
       sum_list (map snd (dispatched evs)) = 10).
Proof.
  split; [vm_compute; reflexivity|].
  split; [apply prompt_os_responsive|].
  split; [vm_compute; discriminate|].
  assert (3 <> 4) as H1 by lia.
  assert (0 <= 10 < two63) as H2 by (unfold two63; lia).
  assert (1 <= 4 < two64) as H3 by (unfold two64; lia).
  exact (dispatch_partitions_target (Examples.prompt_os 10)
           Examples.EINPROGRESS_bsd Examples.sizeof_ptr_bsd 3 4 10 4
           (Examples.init_state 0 (Examples.pool 3 4 2))
           H1 H2 H3 (primed_pool 3 4 2)).
Defined.

Lemma tiles_scenario rs :
  tiles 0 rs 10 ->
  Forall (fun r => snd r = Z.min 4 (10 - fst r)) rs ->
  rs = [(0, 4); (4, 4); (8, 2)].
Proof.
  intros Ht Hl.
  destruct rs as [|[o1 n1] rs]; simpl in Ht; [lia|].
  destruct Ht as (-> & _ & Ht).
  apply Forall_cons in Hl as [H1 Hl]. simpl in H1. subst n1.
  destruct rs as [|[o2 n2] rs]; simpl in Ht; [lia|].
  destruct Ht as (-> & _ & Ht).
  apply Forall_cons in Hl as [H2 Hl]. simpl in H2. subst n2.
  destruct rs as [|[o3 n3] rs]; simpl in Ht; [lia|].
  destruct Ht as (-> & _ & Ht).
  apply Forall_cons in Hl as [H3 Hl]. simpl in H3. subst n3.
  destruct rs as [|[o4 n4] rs]; simpl in Ht; [done|].
  destruct Ht as (-> & Hn4 & Ht). apply tiles_le in Ht. lia.
Qed.

Lemma sum_full (cs : list (Z * Z)) :
  Forall (fun c => snd c = fst c) cs ->
  sum_list (map snd cs) = sum_list (map fst cs).
Proof. induction 1 as [|[a b] cs H _ IH]; simpl in *; lia. Qed.

Lemma sum_bounded (cs : list (Z * Z)) :
  Forall (fun c => 0 <= snd c <= fst c) cs ->
  0 <= sum_list (map snd cs) <= sum_list (map fst cs).
Proof. induction 1 as [|[a b] cs H _ IH]; simpl in *; lia. Qed.

Section Lengths.

Context {World : Type}.
Variable os : syscall -> World -> resp * World.
Variables (EINPROGRESS sizeof_ptr : Z).

(** C3.  Every range handed to [aio_write] has the length
    [min (C, len - offset)].  In a run that returns through the last
    [return], the last range has length [len mod C], or [C] when [C]
    divides [len].  For [C = 4] and [len = 10] such a run hands out
    exactly [0,4), [4,8), [8,10), and it returns 10 when every completion
    reports the length it was asked for. *)
Theorem dispatch_lengths rfd wfd len C fuel (s : state World) o s' :
  rfd <> wfd -> 0 <= len < two63 -> 1 <= C < two64 ->
  primed rfd C (bl s) ->
  shred_from os EINPROGRESS sizeof_ptr rfd wfd len fuel s = (o, s') ->
  exists evs, trace s' = trace s ++ evs /\
    Forall (fun r => snd r = Z.min C (len - fst r)) (dispatched evs) /\
    (forall v a n, o = Some v -> v <> -1 ->
       last (dispatched evs) = Some (a, n) ->
       n = if len mod C =? 0 then C else len mod C) /\
    (C = 4 -> len = 10 -> forall v, o = Some v -> v <> -1 ->
       dispatched evs = [(0, 4); (4, 4); (8, 2)] /\
       (Forall (fun c => snd c = fst c) (completions evs) -> v = 10)).
Proof.
  intros Hfd Hlen HC Hp H.
  destruct (shred_from_run os EINPROGRESS sizeof_ptr rfd wfd len C
              Hfd Hlen HC fuel s o s' Hp H) as (evs & Hw & Ho).
  exists evs. destruct Hw. split; [done|]. split_and!.
  - done.
  - intros v a n -> Hv Hlast.
    destruct Ho as [?|(_ & Ht & _)]; [done|].
    eapply (tiles_last C len 0); eauto. lia.
  - intros -> -> v -> Hv.
    destruct Ho as [?|(_ & Ht & Hrq & ->)]; [done|]. split.
    + now apply tiles_scenario.
    + intros Hfull. unfold confirmed. rewrite (sum_full _ Hfull).
      unfold requested in Hrq. rewrite Hrq. reflexivity.
Qed.

End Lengths.

Lemma dispatch_lengths_witness :
  fst scenario = Some 10 /\
  exists evs,
    trace (snd scenario) =
      trace (Examples.init_state 0 (Examples.pool 3 4 2)) ++ evs /\
    Forall (fun r => snd r = Z.min 4 (10 - fst r)) (dispatched evs) /\
    (forall v a n, fst scenario = Some v -> v <> -1 ->
       last (dispatched evs) = Some (a, n) ->
       n = if 10 mod 4 =? 0 then 4 else 10 mod 4) /\
    (4 = 4 -> 10 = 10 -> forall v, fst scenario = Some v -> v <> -1 ->
       dispatched evs = [(0, 4); (4, 4); (8, 2)] /\
       (Forall (fun c => snd c = fst c) (completions evs) -> v = 10)).
Proof.
  split; [vm_compute; reflexivity|].
  assert (3 <> 4) as H1 by lia.
  assert (0 <= 10 < two63) as H2 by (unfold two63; lia).
  assert (1 <= 4 < two64) as H3 by (unfold two64; lia).
  exact (dispatch_lengths (Examples.prompt_os 10)
           Examples.EINPROGRESS_bsd Examples.sizeof_ptr_bsd 3 4 10 4 20
           (Examples.init_state 0 (Examples.pool 3 4 2))
           (fst scenario) (snd scenario) H1 H2 H3 (primed_pool 3 4 2)
           (surjective_pairing scenario)).
Defined.

(** ** The value returned *)

Section Total.

Context {World : Type}.
Variable os : syscall -> World -> resp * World.
Variables (EINPROGRESS sizeof_ptr : Z).

(** C1, amended.  In a run that returns a value [v >= 0], the lengths
    asked of the collected writes sum to [len]; [v] is the sum of the byte
    counts that the completions reported, provided none reports more than
    was asked for; and [v] is [len] provided every completion reports
    exactly what was asked for.  The total grows at [aio_return] only. *)
Theorem returned_total rfd wfd len C fuel (s : state World) v s' :
  rfd <> wfd -> 0 <= len < two63 -> 1 <= C < two64 ->
  primed rfd C (bl s) ->
  shred_from os EINPROGRESS sizeof_ptr rfd wfd len fuel s = (Some v, s') ->
  0 <= v ->
  exists evs, trace s' = trace s ++ evs /\
    requested evs = len /\
    (Forall (fun c => 0 <= snd c <= fst c) (completions evs) ->
       v = confirmed evs) /\
    (Forall (fun c => snd c = fst c) (completions evs) -> v = len).
Proof.
  intros Hfd Hlen HC Hp H Hv.
  destruct (shred_from_run os EINPROGRESS sizeof_ptr rfd wfd len C
              Hfd Hlen HC fuel s (Some v) s' Hp H) as (evs & Hw & Ho).
  exists evs. destruct Hw. split; [done|].
  destruct Ho as [?|(_ & _ & Hrq & ->)]; [lia|]. split_and!.
  - done.
  - intros Hb. apply sum_bounded in Hb. fold (confirmed evs) in Hb.
    fold (requested evs) in Hb.
    rewrite to_size_t_id, to_ssize_t_id;
      unfold two63, two64 in *; lia.
  - intros Hfull. apply sum_full in Hfull. fold (confirmed evs) in Hfull.
    fold (requested evs) in Hfull.
    rewrite Hfull, Hrq, to_size_t_id, to_ssize_t_id;
      unfold two63, two64 in *; lia.
Qed.

End Total.

Lemma returned_total_witness :
  exists evs,
    trace (snd scenario) =
      trace (Examples.init_state 0 (Examples.pool 3 4 2)) ++ evs /\
    requested evs = 10 /\
    (Forall (fun c => 0 <= snd c <= fst c) (completions evs) ->
       10 = confirmed evs) /\
    (Forall (fun c => snd c = fst c) (completions evs) -> 10 = 10).
Proof.
  assert (3 <> 4) as H1 by lia.
  assert (0 <= 10 < two63) as H2 by (unfold two63; lia).
  assert (1 <= 4 < two64) as H3 by (unfold two64; lia).
  assert (scenario = (Some 10, snd scenario)) as H4
    by (vm_compute; reflexivity).
  assert (0 <= 10) as H5 by lia.
  exact (returned_total (Examples.prompt_os 10)
           Examples.EINPROGRESS_bsd Examples.sizeof_ptr_bsd 3 4 10 4 20
           (Examples.init_state 0 (Examples.pool 3 4 2))
           10 (snd scenario) H1 H2 H3 (primed_pool 3 4 2) H4 H5).
Defined.

(** C1 as it is stated fails: on a target of four bytes whose only write
    completes one byte short, the run returns 3. *)
Lemma returned_total_short_write :
  let r := Examples.run_from (Examples.short_write_os 4) 2 4 4 20 in
  fst r = Some 3 /\ completions (trace (snd r)) = [(4, 3)] /\ 3 <> 4.
Proof. vm_compute. repeat split; discriminate. Qed.

(** ** The protocol of the slots *)

Lemma protocol_split E st0 pre ev post st :
  protocol E st0 (pre ++ ev :: post) = Some st ->
  exists st1 st2, protocol E st0 pre = Some st1 /\
    protocol_step E st1 ev = Some st2.
Proof.
  rewrite protocol_app.
  destruct (protocol E st0 pre) as [st1|]; [|done]. simpl.
  destruct (protocol_step E st1 ev) as [st2|] eqn:E2; [|done]. eauto.
Qed.

(** A slot whose write was never submitted stays idle and is never
    collected. *)
Lemma protocol_never_submitted E j evs st0 st :
  protocol E st0 evs = Some st -> st0 !! j = Some Idle ->
  Forall (fun ev => ~ submits j ev) evs ->
  st !! j = Some Idle /\ Forall (fun ev => ~ collects j ev) evs.
Proof.
  revert st0. induction evs as [|[c r] evs IH]; intros st0; cbn [protocol].
  - intros [= <-] Hj _. split; [done|constructor].
  - destruct (protocol_step E st0 (c, r)) as [st1|] eqn:E1; [|done].
    intros Hp Hj Hns. apply Forall_cons in Hns as [Hn Hns].
    assert (st1 !! j = Some Idle /\ ~ collects j (c, r)) as [Hj1 Hnc].
    { destruct c; simpl in *; try (injection E1 as <-; split; [done|tauto]).
      - destruct (st0 !! i) as [[| |]|] eqn:Hi; try done.
        injection E1 as <-.
        split; [|tauto]. now destruct (st0 !! i).
      - destruct (st0 !! i) as [[| |]|] eqn:Hi; try done.
        injection E1 as <-. split; [|tauto].
        destruct (ret_of r <? 0); [done|].
        rewrite list_lookup_insert_ne; [done|]. exact Hn.
      - destruct (st0 !! i) as [[| |]|] eqn:Hi; try done.
        injection E1 as <-. split; [|tauto].
        destruct (E =? ret_of r); [done|].
        rewrite list_lookup_insert_ne; [done|]. congruence.
      - destruct (st0 !! i) as [[| |]|] eqn:Hi; try done.
        injection E1 as <-.
        assert (i <> j) by congruence.
        split; [|done]. now rewrite list_lookup_insert_ne. }
    destruct (IH _ Hp Hj1 Hns) as [Hst Hc].
    split; [done|]. now constructor.
Qed.

Section Protocol.

Context {World : Type}.
Variable os : syscall -> World -> resp * World.
Variables (EINPROGRESS sizeof_ptr : Z).

(** C5.  The calls of a run keep to the protocol of the slots.  So at
    every [read] into the buffer of a slot, the slot is idle: no write of
    it has been submitted that has not been seen complete by [aio_error]
    and collected by [aio_return]; and at every [aio_write] of a slot the
    slot is idle as well.  A slot keeps its buffer: every call on slot [i]
    names the buffer that slot [i] had when the run started, so that with
    one buffer for each slot, what holds of the slot holds of the buffer.
    The status that the calls give and the role field agree (invariant
    [st_proto]), which is how the code keeps it. *)
Theorem no_refill_while_outstanding rfd wfd len C fuel (s : state World) o s' :
  rfd <> wfd -> 0 <= len < two63 -> 1 <= C < two64 ->
  primed rfd C (bl s) ->
  shred_from os EINPROGRESS sizeof_ptr rfd wfd len fuel s = (o, s') ->
  exists evs, trace s' = trace s ++ evs /\
    is_Some (protocol EINPROGRESS (replicate (length (bl s)) Idle) evs) /\
    Forall (own_buffer (map aio_buf (bl s))) evs /\
    map aio_buf (bl s') = map aio_buf (bl s) /\
    (forall pre i cb r post, evs = pre ++ (SysRead i cb, r) :: post ->
       aio_fildes cb = rfd /\
       exists st,
         protocol EINPROGRESS (replicate (length (bl s)) Idle) pre = Some st /\
         st !! i = Some Idle) /\
    (forall pre i cb r post, evs = pre ++ (SysAioWrite i cb, r) :: post ->
       aio_fildes cb = wfd /\
       exists st,
         protocol EINPROGRESS (replicate (length (bl s)) Idle) pre = Some st /\
         st !! i = Some Idle).
Proof.
  intros Hfd Hlen HC Hp H.
  destruct (shred_from_run os EINPROGRESS sizeof_ptr rfd wfd len C
              Hfd Hlen HC fuel s o s' Hp H) as (evs & Hw & Ho).
  exists evs. destruct Hw. split; [done|]. split; [done|].
  split; [done|]. split; [done|].
  destruct wk_proto0 as [st Hst].
  split; intros pre i cb r post ->.
  - split.
    { rewrite Forall_app in wk_in_role0. destruct wk_in_role0 as [_ Hr].
      apply Forall_cons in Hr as [Hr _]. exact Hr. }
    destruct (protocol_split _ _ _ _ _ _ Hst) as (st1 & st2 & Hpre & Hstep).
    exists st1. split; [done|]. simpl in Hstep.
    now destruct (st1 !! i) as [[| |]|].
  - split.
    { rewrite Forall_app in wk_in_role0. destruct wk_in_role0 as [_ Hr].
      apply Forall_cons in Hr as [Hr _]. exact Hr. }
    destruct (protocol_split _ _ _ _ _ _ Hst) as (st1 & st2 & Hpre & Hstep).
    exists st1. split; [done|]. simpl in Hstep.
    now destruct (st1 !! i) as [[| |]|].
Qed.

(** C10.  After a run every control block points at the random source
    or at the target, and at one of them only.  Every call on a slot is
    made in the role that the block shows: a completion is polled and
    collected on a block that points at the target only.  The drain loop
    passes over a slot that does not point at the target.  A slot whose
    write was never submitted is never collected, so it adds nothing to
    the value returned, which is the sum of what was collected. *)
Theorem roles_and_drain rfd wfd len C fuel (s : state World) o s' :
  rfd <> wfd -> 0 <= len < two63 -> 1 <= C < two64 ->
  primed rfd C (bl s) ->
  shred_from os EINPROGRESS sizeof_ptr rfd wfd len fuel s = (o, s') ->
  exists evs, trace s' = trace s ++ evs /\
    Forall (fun cb => (aio_fildes cb = rfd /\ aio_fildes cb <> wfd) \/
                      (aio_fildes cb = wfd /\ aio_fildes cb <> rfd)) (bl s') /\
    Forall (in_role rfd wfd) evs /\
    (forall fuel' i (s1 : state World) cb,
       bl s1 !! i = Some cb -> aio_fildes cb <> wfd ->
       drain_body os EINPROGRESS wfd fuel' i s1 = (Continue, s1)) /\
    (forall j, (j < length (bl s))%nat ->
       Forall (fun ev => ~ submits j ev) evs ->
       Forall (fun ev => ~ collects j ev) evs) /\
    (forall v, o = Some v -> v <> -1 ->
       v = to_ssize_t (to_size_t (confirmed evs))).
Proof.
  intros Hfd Hlen HC Hp H.
  destruct (shred_from_run os EINPROGRESS sizeof_ptr rfd wfd len C
              Hfd Hlen HC fuel s o s' Hp H) as (evs & Hw & Ho).
  exists evs. destruct Hw. split; [done|]. split_and!.
  - eapply Forall_impl; [exact wk_roles0|]. intros cb [Hr|Hr].
    + left. split; [done|congruence].
    + right. split; [done|congruence].
  - done.
  - intros fuel' i s1 cb Hi Hne. unfold drain_body. rewrite Hi.
    now destruct (Z.eqb_spec (aio_fildes cb) wfd).
  - intros j Hlt Hns. destruct wk_proto0 as [st Hst].
    eapply protocol_never_submitted; eauto.
    now apply lookup_replicate_2.
  - intros v -> Hv. destruct Ho as [?|(_ & _ & _ & ->)]; done.
Qed.

End Protocol.

Lemma no_refill_while_outstanding_witness :
  fst scenario = Some 10 /\
  exists evs,
    trace (snd scenario) =
      trace (Examples.init_state 0 (Examples.pool 3 4 2)) ++ evs /\
    is_Some (protocol Examples.EINPROGRESS_bsd
               (replicate
                  (length (bl (Examples.init_state 0 (Examples.pool 3 4 2))))
                  Idle) evs) /\
    Forall (own_buffer
              (map aio_buf (bl (Examples.init_state 0 (Examples.pool 3 4 2)))))
      evs /\
    map aio_buf (bl (snd scenario)) =
      map aio_buf (bl (Examples.init_state 0 (Examples.pool 3 4 2))) /\
    (forall pre i cb r post, evs = pre ++ (SysRead i cb, r) :: post ->
       aio_fildes cb = 3 /\
       exists st,
         protocol Examples.EINPROGRESS_bsd
           (replicate
              (length (bl (Examples.init_state 0 (Examples.pool 3 4 2))))
              Idle) pre = Some st /\
         st !! i = Some Idle) /\
    (forall pre i cb r post, evs = pre ++ (SysAioWrite i cb, r) :: post ->
       aio_fildes cb = 4 /\
       exists st,
         protocol Examples.EINPROGRESS_bsd
           (replicate
              (length (bl (Examples.init_state 0 (Examples.pool 3 4 2))))
              Idle) pre = Some st /\
         st !! i = Some Idle).
Proof.
  split; [vm_compute; reflexivity|].
  assert (3 <> 4) as H1 by lia.
  assert (0 <= 10 < two63) as H2 by (unfold two63; lia).
  assert (1 <= 4 < two64) as H3 by (unfold two64; lia).
  exact (no_refill_while_outstanding (Examples.prompt_os 10)
           Examples.EINPROGRESS_bsd Examples.sizeof_ptr_bsd 3 4 10 4 20
           (Examples.init_state 0 (Examples.pool 3 4 2))
           (fst scenario) (snd scenario) H1 H2 H3 (primed_pool 3 4 2)
           (surjective_pairing scenario)).
Defined.

(** A target of four bytes on two slots of four bytes: the second slot
    is never handed a range. *)
Local Abbreviation small_scenario :=
  (shred_from (Examples.prompt_os 4) Examples.EINPROGRESS_bsd
     Examples.sizeof_ptr_bsd 3 4 4 20
     (Examples.init_state 0 (Examples.pool 3 4 2))).

Lemma roles_and_drain_witness :
  fst small_scenario = Some 4 /\
  Forall (fun ev => ~ submits 1 ev) (trace (snd small_scenario)) /\
  exists evs,
    trace (snd small_scenario) =
      trace (Examples.init_state 0 (Examples.pool 3 4 2)) ++ evs /\
    Forall (fun cb => (aio_fildes cb = 3 /\ aio_fildes cb <> 4) \/
                      (aio_fildes cb = 4 /\ aio_fildes cb <> 3))
      (bl (snd small_scenario)) /\
    Forall (in_role 3 4) evs /\
    (forall fuel' i (s1 : state Z) cb,
       bl s1 !! i = Some cb -> aio_fildes cb <> 4 ->
       drain_body (Examples.prompt_os 4) Examples.EINPROGRESS_bsd 4 fuel' i s1
       = (Continue, s1)) /\
    (forall j,
       (j < length (bl (Examples.init_state 0 (Examples.pool 3 4 2))))%nat ->
       Forall (fun ev => ~ submits j ev) evs ->
       Forall (fun ev => ~ collects j ev) evs) /\
    (forall v, fst small_scenario = Some v -> v <> -1 ->
       v = to_ssize_t (to_size_t (confirmed evs))).
Proof.
  split; [vm_compute; reflexivity|].
  split.
  { vm_compute.
    repeat (apply Forall_cons_2; [intros H; first [exact H|discriminate H]|]).
    apply Forall_nil_2. }
  assert (3 <> 4) as H1 by lia.
  assert (0 <= 4 < two63) as H2 by (unfold two63; lia).
  assert (1 <= 4 < two64) as H3 by (unfold two64; lia).
  exact (roles_and_drain (Examples.prompt_os 4)
           Examples.EINPROGRESS_bsd Examples.sizeof_ptr_bsd 3 4 4 4 20
           (Examples.init_state 0 (Examples.pool 3 4 2))
           (fst small_scenario) (snd small_scenario)
           H1 H2 H3 (primed_pool 3 4 2)
           (surjective_pairing small_scenario)).
Defined.

(** ** The empty target *)

Section EmptyTarget.

Context {World : Type}.
Variable os : syscall -> World -> resp * World.
Variables (EINPROGRESS sizeof_ptr : Z).

Lemma drain_nothing wfd fuel n i (s : state World) :
  Forall (fun cb => aio_fildes cb <> wfd) (bl s) ->
  for_loop (drain_body os EINPROGRESS wfd fuel) n i s = (Continue, s).
Proof.
  intros Hall. revert i. induction n as [|n IH]; intros i; simpl; [done|].
  assert (drain_body os EINPROGRESS wfd fuel i s = (Continue, s)) as ->.
  { unfold drain_body. destruct (bl s !! i) as [cb|] eqn:Hi; [|done].
    rewrite Forall_lookup in Hall. specialize (Hall _ _ Hi).
    now destruct (Z.eqb_spec (aio_fildes cb) wfd). }
  apply IH.
Qed.

(** C8.  On a target of length 0, with no slot in the writing role, a run
    whose list is allocated (or whose pool has no slot, so that nothing
    is stored in the list) makes three calls whatever its fuel: it
    allocates the list, releases it and flushes the target.  No round of
    the dispatch loop runs, no write is submitted, nothing is collected,
    and the run returns 0 when the flush succeeds. *)
Theorem empty_target rfd wfd fuel (s : state World) o s' :
  Forall (fun cb => aio_fildes cb <> wfd) (bl s) ->
  bl s = [] \/ list_allocated os sizeof_ptr s ->
  shred_from os EINPROGRESS sizeof_ptr rfd wfd 0 fuel s = (o, s') ->
  exists r1 r2 r3 tl,
    trace s' =
      trace s ++
      (SysMalloc (Z.of_nat (length (bl s)) * sizeof_ptr), r1) ::
      (SysFree (ptr_of r1), r2) :: (SysFsync wfd, r3) :: tl /\
    bl s' = bl s /\ total s' = 0 /\
    (ret_of r3 = 0 -> tl = [] /\ o = Some 0).
Proof.
  intros Hall Hm. unfold shred_from, get_bl_list_from_array.
  set (s0 := set_total 0 (set_off 0 s)).
  destruct (call os _ s0) as [r1 s1] eqn:E1.
  pose proof (call_answer os _ _ _ _ E1) as A1. simpl in A1.
  assert ((ptr_of r1 =? 0) && (0 <? Z.of_nat (length (bl s0))) = false)
    as ->.
  { destruct Hm as [Hm|Hm].
    - simpl. rewrite Hm. apply andb_false_r.
    - apply andb_false_iff. left. apply Z.eqb_neq. now rewrite A1. }
  cbv beta iota. clear A1. apply call_upd in E1.
  destruct E1 as (T1 & B1 & O1 & N1 & R1). simpl in *.
  assert (main_loop os EINPROGRESS rfd wfd 0 (ptr_of r1) fuel s1
          = (Continue, s1)) as ->.
  { destruct fuel; simpl; rewrite O1; reflexivity. }
  destruct (free_bl_list_upd os (ptr_of r1) s1)
    as (r2 & T2 & B2 & O2 & N2 & R2).
  set (s2 := free_bl_list os (ptr_of r1) s1) in *.
  rewrite drain_nothing by (rewrite B2, B1; exact Hall).
  unfold flush.
  destruct (call os (SysFsync wfd) s2) as [r3 s3] eqn:E3. apply call_upd in E3.
  destruct E3 as (T3 & B3 & O3 & N3 & R3).
  destruct (Z.eqb_spec (ret_of r3) 0) as [Hz|Hnz]; simpl; intros [= <- <-].
  - exists r1, r2, r3, []. split_and!.
    + rewrite T3, T2, T1. now rewrite <- !app_assoc.
    + congruence.
    + congruence.
    + intros _. split; [done|]. rewrite N3, N2, N1. reflexivity.
  - destruct (printf_upd os MsgFlushFailed [ret_of r3; ret_of r3] s3)
      as (r4 & T4 & B4 & O4 & N4 & R4).
    exists r1, r2, r3, [(SysPrintf MsgFlushFailed [ret_of r3; ret_of r3], r4)].
    simpl. split_and!.
    + rewrite T4, T3, T2, T1. now rewrite <- !app_assoc.
    + congruence.
    + congruence.
    + done.
Qed.

End EmptyTarget.

Local Abbreviation empty_scenario :=
  (shred_from (Examples.prompt_os 0) Examples.EINPROGRESS_bsd
     Examples.sizeof_ptr_bsd 3 4 0 0
     (Examples.init_state 0 (Examples.pool 3 4 2))).

Lemma empty_target_witness :
  fst empty_scenario = Some 0 /\
  exists r1 r2 r3 tl,
    trace (snd empty_scenario) =
      trace (Examples.init_state 0 (Examples.pool 3 4 2)) ++
      (SysMalloc
         (Z.of_nat (length (bl (Examples.init_state 0 (Examples.pool 3 4 2))))
          * Examples.sizeof_ptr_bsd), r1) ::
      (SysFree (ptr_of r1), r2) :: (SysFsync 4, r3) :: tl /\
    bl (snd empty_scenario) = bl (Examples.init_state 0 (Examples.pool 3 4 2)) /\
    total (snd empty_scenario) = 0 /\
    (ret_of r3 = 0 -> tl = [] /\ fst empty_scenario = Some 0).
Proof.
  split; [vm_compute; reflexivity|].
  assert (Forall (fun cb => aio_fildes cb <> 4)
            (bl (Examples.init_state 0 (Examples.pool 3 4 2)))) as H1.
  { repeat (apply Forall_cons_2; [simpl; lia|]). apply Forall_nil_2. }
  assert (list_allocated (Examples.prompt_os 0) Examples.sizeof_ptr_bsd
            (Examples.init_state 0 (Examples.pool 3 4 2))) as H2
    by (vm_compute; discriminate).
  exact (empty_target (Examples.prompt_os 0)
           Examples.EINPROGRESS_bsd Examples.sizeof_ptr_bsd 3 4 0
           (Examples.init_state 0 (Examples.pool 3 4 2))
           (fst empty_scenario) (snd empty_scenario) H1 (or_intror H2)
           (surjective_pairing empty_scenario)).
Defined.

(** ** The flush and the error code *)

Section Flush.

Context {World : Type}.
Variable os : syscall -> World -> resp * World.

(** When [fsync] fails it returns -1 and leaves the cause in [errno];
    [flush] then prints -1 as the error and overwrites [errno] with -1. *)
Lemma flush_overwrites_errno wfd (s : state World) e w :
  os (SysFsync wfd) (world s) = (Fail e, w) ->
  exists s' r,
    flush os wfd s = (Some (-1), s') /\ errno s' = -1 /\
    trace s' = trace s ++ [(SysFsync wfd, Fail e);
                           (SysPrintf MsgFlushFailed [-1; -1], r)].
Proof.
  intros Hos. unfold flush.
  destruct (call os (SysFsync wfd) s) as [r1 s1] eqn:E1.
  assert (r1 = Fail e) as ->.
  { unfold call in E1. rewrite Hos in E1. now injection E1. }
  apply call_upd in E1. destruct E1 as (T1 & _). simpl.
  destruct (printf_upd os MsgFlushFailed [-1; -1] s1) as (r & T2 & _).
  eexists _, r. split; [reflexivity|]. split; [reflexivity|].
  simpl. rewrite T2, T1. now rewrite <- app_assoc.
Qed.

End Flush.

(** C6, at the failing input: the scenario with an [fsync] that fails
    with [EIO].  The run does return -1, and [shred] and [shred_file]
    with it, but the cause is gone: [errno] is -1 afterwards, and the
    messages and the value that [shred] returns carry -1 instead of
    [EIO]. *)
Theorem flush_error_cause_lost :
  let r := Examples.run_from (Examples.flush_fail_os 10) 2 4 10 20 in
  let r' := Examples.run_shred (Examples.flush_fail_os 300000) 20 in
  let r'' := Examples.run_shred_file (Examples.flush_fail_os 300000) 20 in
  fst r = Some (-1) /\
  In (SysFsync 4, Fail Examples.EIO) (trace (snd r)) /\
  last (trace (snd r)) = Some (SysPrintf MsgFlushFailed [-1; -1], Ok 0) /\
  errno (snd r) = -1 /\ errno (snd r) <> Examples.EIO /\
  fst r' = Some (-1) /\ errno (snd r') = -1 /\
  fst r'' = Some (-1) /\
  last (trace (snd r'')) = Some (SysPrintf MsgShredFileFailed [-1; -1], Ok 0).
Proof.
  vm_compute. split_and!; try reflexivity; try discriminate.
  do 15 right. left. reflexivity.
Qed.

(** ** Resources on the error paths *)

(** C7, at failing inputs, one for each error after the random source is
    open.  [shred] has then opened descriptor 3 and allocated the array
    and up to eight buffers, and it returns without closing the one or
    freeing the others: the only release is that of the list of
    [shred_from], on the errors of its dispatch loop.  The last line is
    the run without error, which closes the descriptor and frees the eight
    buffers. *)
Theorem error_paths_release_nothing :
  let run bad := Examples.run_shred (Examples.failing_os 2000000 bad) 20 in
  let leaked bad rel :=
    fst (run bad) <> Some 0 /\
    hd 0 (Examples.acquires (trace (snd (run bad)))) = 3 /\
    Examples.releases (trace (snd (run bad))) = rel in
  leaked Examples.bad_fstat [] /\
  leaked Examples.bad_priming_read [] /\
  leaked Examples.bad_refill_read [SysFree 10485760] /\
  leaked Examples.bad_dispatch [SysFree 10485760] /\
  leaked Examples.bad_completion [SysFree 10485760] /\
  leaked Examples.bad_suspend [SysFree 10485760] /\
  leaked Examples.bad_flush [SysFree 10485760] /\
  Examples.releases (trace (snd (run (fun _ _ => false)))) =
    [SysFree 10485760; SysClose 3; SysFree 2097152; SysFree 3145728;
     SysFree 4194304; SysFree 5242880; SysFree 6291456; SysFree 7340032;
     SysFree 8388608; SysFree 9437184].
Proof.
  vm_compute. split_and!; try reflexivity; discriminate.
Qed.

(** ** Reads that return fewer bytes than asked for *)

Section ShortReads.

Context {World : Type}.
Variable os : syscall -> World -> resp * World.
Variable g : syscall -> Z -> Z.
Hypothesis Hg : forall c v, 0 <= v -> 0 <= g c v.
Variables (EINPROGRESS SIGEV_NONE O_RDONLY O_DIRECT : Z).
Variables (DIOCGMEDIASIZE sizeof_aiocb sizeof_ptr : Z).

Local Abbreviation state := (state World).
Local Abbreviation os' := (shorten g os).
Local Abbreviation sh := (shorten_state g).

Lemma shorten_resp_sign c r :
  (ret_of (shorten_resp g c r) <? 0) = (ret_of r <? 0).
Proof.
  destruct c, r; simpl; try reflexivity.
  destruct (Z.leb_spec 0 v) as [Hv|Hv]; simpl; [|reflexivity].
  specialize (Hg (SysRead i cb) v Hv).
  destruct (Z.ltb_spec (g (SysRead i cb) v) 0), (Z.ltb_spec v 0); lia.
Qed.

Lemma shorten_resp_errno c r (e : Z) :
  match shorten_resp g c r with Fail e' => e' | _ => e end =
  match r with Fail e' => e' | _ => e end.
Proof.
  destruct c, r; simpl; try reflexivity. now destruct (0 <=? v).
Qed.

Lemma call_sh c (s : state) :
  call os' c (sh s) =
  let '(r, s') := call os c s in (shorten_resp g c r, sh s').
Proof.
  unfold call, shorten, shorten_state. simpl.
  destruct (os c (world s)) as [r w]. simpl.
  rewrite shorten_resp_errno. unfold shorten_trace. now rewrite map_app.
Qed.

Lemma printf_sh m a (s : state) : printf os' m a (sh s) = sh (printf os m a s).
Proof.
  unfold printf. rewrite call_sh. now destruct (call os _ s).
Qed.

Lemma free_bl_list_sh p (s : state) :
  free_bl_list os' p (sh s) = sh (free_bl_list os p s).
Proof.
  unfold free_bl_list. rewrite call_sh. now destruct (call os _ s).
Qed.

Lemma store_sh i cb (s : state) : store i cb (sh s) = sh (store i cb s).
Proof. reflexivity. Qed.

Lemma set_off_sh o (s : state) : set_off o (sh s) = sh (set_off o s).
Proof. reflexivity. Qed.

Lemma set_total_sh t (s : state) : set_total t (sh s) = sh (set_total t s).
Proof. reflexivity. Qed.

Lemma set_nread_sh n (s : state) : set_nread n (sh s) = sh (set_nread n s).
Proof. reflexivity. Qed.

Lemma set_errno_sh e (s : state) : set_errno e (sh s) = sh (set_errno e s).
Proof. reflexivity. Qed.

Lemma set_bl_sh l (s : state) : set_bl l (sh s) = sh (set_bl l s).
Proof. reflexivity. Qed.

Lemma bl_sh (s : state) : bl (sh s) = bl s.
Proof. reflexivity. Qed.

Lemma off_sh (s : state) : off (sh s) = off s.
Proof. reflexivity. Qed.

Lemma total_sh (s : state) : total (sh s) = total s.
Proof. reflexivity. Qed.

Lemma nread_sh (s : state) : nread (sh s) = nread s.
Proof. reflexivity. Qed.

Lemma errno_sh (s : state) : errno (sh s) = errno s.
Proof. reflexivity. Qed.

(** Moves the shortening of the state outwards, past one statement. *)
Ltac sh_step :=
  repeat first
    [ rewrite bl_sh | rewrite off_sh | rewrite total_sh | rewrite nread_sh
    | rewrite errno_sh | rewrite store_sh | rewrite set_off_sh
    | rewrite set_total_sh | rewrite set_nread_sh | rewrite set_errno_sh
    | rewrite set_bl_sh | rewrite printf_sh | rewrite free_bl_list_sh
    | rewrite call_sh ].

Lemma for_body_sh rfd wfd len bl_list i (s : state) :
  for_body os' EINPROGRESS rfd wfd len bl_list i (sh s) =
  let '(c, s') := for_body os EINPROGRESS rfd wfd len bl_list i s in
  (c, sh s').
Proof.
  unfold for_body. sh_step.
  destruct (bl s !! i) as [cb|]; [|reflexivity].
  destruct (aio_fildes cb =? rfd).
  - sh_step. destruct (call os _ _) as [r s1]. cbn [shorten_resp].
    destruct (ret_of r <? 0); sh_step; [reflexivity|].
    now destruct (_ >=? _).
  - destruct (aio_fildes cb =? wfd); [|reflexivity].
    sh_step. destruct (call os _ s) as [r s1]. cbn [shorten_resp].
    destruct (EINPROGRESS =? ret_of r); [reflexivity|].
    sh_step. destruct (call os _ s1) as [r2 s2]. cbn [shorten_resp].
    destruct (ret_of r2 <? 0); sh_step; [reflexivity|].
    destruct (call os _ _) as [r3 s3].
    rewrite shorten_resp_sign.
    destruct (ret_of r3 <? 0); sh_step; reflexivity.
Qed.

Lemma for_loop_sh (body body' : nat -> state -> ctl * state) :
  (forall i s, body' i (sh s) = let '(c, s') := body i s in (c, sh s')) ->
  forall n i s,
    for_loop body' n i (sh s) =
    let '(c, s') := for_loop body n i s in (c, sh s').
Proof.
  intros Hb n. induction n as [|n IH]; intros i s; simpl; [reflexivity|].
  rewrite Hb. destruct (body i s) as [c s1].
  destruct c; try reflexivity. apply IH.
Qed.

Lemma main_loop_sh rfd wfd len bl_list fuel (s : state) :
  main_loop os' EINPROGRESS rfd wfd len bl_list fuel (sh s) =
  let '(c, s') := main_loop os EINPROGRESS rfd wfd len bl_list fuel s in
  (c, sh s').
Proof.
  revert s. induction fuel as [|fuel IH]; intros s; simpl; sh_step;
    (destruct (to_size_t (off s) <? len); [|reflexivity]); [reflexivity|].
  rewrite (for_loop_sh _ _ (for_body_sh rfd wfd len bl_list)).
  destruct (for_loop _ _ _ (set_nread 0 s)) as [c s1].
  destruct c; try reflexivity; sh_step.
  - destruct (nread s1 =? 0).
    + sh_step. destruct (call os _ s1) as [r s2]. cbn [shorten_resp].
      destruct (ret_of r <? 0); sh_step; [reflexivity|apply IH].
    + destruct (0 <? 0); sh_step; [reflexivity|apply IH].
  - destruct (nread s1 =? 0).
    + sh_step. destruct (call os _ s1) as [r s2]. cbn [shorten_resp].
      destruct (ret_of r <? 0); sh_step; [reflexivity|apply IH].
    + destruct (0 <? 0); sh_step; [reflexivity|apply IH].
Qed.

Lemma busy_wait_sh fuel i cb (s : state) :
  busy_wait os' EINPROGRESS fuel i cb (sh s) =
  let '(c, s') := busy_wait os EINPROGRESS fuel i cb s in (c, sh s').
Proof.
  revert s. induction fuel as [|fuel IH]; intros s; simpl; [reflexivity|].
  sh_step. destruct (call os _ s) as [r s1]. cbn [shorten_resp].
  destruct (EINPROGRESS =? ret_of r); [apply IH|reflexivity].
Qed.

Lemma drain_body_sh wfd fuel i (s : state) :
  drain_body os' EINPROGRESS wfd fuel i (sh s) =
  let '(c, s') := drain_body os EINPROGRESS wfd fuel i s in (c, sh s').
Proof.
  unfold drain_body. sh_step.
  destruct (bl s !! i) as [cb|]; [|reflexivity].
  destruct (negb (aio_fildes cb =? wfd)); [reflexivity|].
  rewrite busy_wait_sh. destruct (busy_wait os _ _ _ _ s) as [c s1].
  destruct c; try reflexivity.
  sh_step. destruct (call os _ s1) as [r s2]. cbn [shorten_resp].
  destruct (ret_of r <? 0); sh_step; reflexivity.
Qed.

Lemma flush_sh wfd (s : state) :
  flush os' wfd (sh s) = let '(o, s') := flush os wfd s in (o, sh s').
Proof.
  unfold flush. sh_step. destruct (call os _ s) as [r s1].
  cbn [shorten_resp]. destruct (negb (ret_of r =? 0)); sh_step; reflexivity.
Qed.

Lemma shred_from_sh rfd wfd len fuel (s : state) :
  shred_from os' EINPROGRESS sizeof_ptr rfd wfd len fuel (sh s) =
  let '(o, s') := shred_from os EINPROGRESS sizeof_ptr rfd wfd len fuel s in
  (o, sh s').
Proof.
  unfold shred_from, get_bl_list_from_array. sh_step.
  destruct (call os _ _) as [r s1]. cbn [shorten_resp].
  destruct (_ && _); [reflexivity|].
  rewrite main_loop_sh. destruct (main_loop os _ _ _ _ _ _ s1) as [c s2].
  destruct c; try reflexivity; sh_step.
  - rewrite (for_loop_sh _ _ (drain_body_sh wfd fuel)).
    destruct (for_loop _ _ _ (free_bl_list os (ptr_of r) s2)) as [c s3].
    destruct c; try reflexivity; apply flush_sh.
  - rewrite (for_loop_sh _ _ (drain_body_sh wfd fuel)).
    destruct (for_loop _ _ _ (free_bl_list os (ptr_of r) s2)) as [c s3].
    destruct c; try reflexivity; apply flush_sh.
Qed.

Lemma get_size_sh fd size (s : state) :
  get_size os' DIOCGMEDIASIZE fd size (sh s) =
  let '(x, s') := get_size os DIOCGMEDIASIZE fd size s in (x, sh s').
Proof.
  unfold get_size. sh_step. destruct (call os _ s) as [r s1].
  cbn [shorten_resp]. destruct (negb (ret_of r =? 0)); [reflexivity|].
  destruct (match r with OkStat sz chr => (sz, chr) | _ => (0, false) end)
    as [st_size ischr].
  destruct ischr; [|reflexivity].
  sh_step. destruct (call os _ s1) as [r2 s2]. cbn [shorten_resp].
  destruct (negb (ret_of r2 =? 0)); reflexivity.
Qed.

Lemma bl_init_sh i rfd sz (s : state) :
  bl_init os' SIGEV_NONE i rfd sz (sh s) = sh (bl_init os SIGEV_NONE i rfd sz s).
Proof.
  unfold bl_init. sh_step. destruct (call os _ _) as [r s1].
  cbn [shorten_resp]. sh_step. reflexivity.
Qed.

Lemma prime_body_sh randfd i (s : state) :
  prime_body os' SIGEV_NONE randfd i (sh s) =
  let '(c, s') := prime_body os SIGEV_NONE randfd i s in (c, sh s').
Proof.
  unfold prime_body. rewrite bl_init_sh. sh_step.
  destruct (bl (bl_init os SIGEV_NONE i randfd buf_size s) !! i) as [cb|];
    [|reflexivity].
  sh_step. destruct (call os _ _) as [r s1]. rewrite shorten_resp_sign.
  destruct (ret_of r <? 0); sh_step; reflexivity.
Qed.

Lemma free_body_sh i (s : state) :
  free_body os' i (sh s) = let '(c, s') := free_body os i s in (c, sh s').
Proof.
  unfold free_body. sh_step. destruct (bl s !! i) as [cb|]; [|reflexivity].
  sh_step. now destruct (call os _ s).
Qed.

Lemma shred_sh fd fuel (s : state) :
  shred os' EINPROGRESS SIGEV_NONE O_RDONLY O_DIRECT DIOCGMEDIASIZE
    sizeof_aiocb sizeof_ptr fd fuel (sh s) =
  let '(o, s') :=
    shred os EINPROGRESS SIGEV_NONE O_RDONLY O_DIRECT DIOCGMEDIASIZE
      sizeof_aiocb sizeof_ptr fd fuel s in
  (o, sh s').
Proof.
  unfold shred. sh_step. destruct (call os _ s) as [r s1].
  cbn [shorten_resp]. destruct (ret_of r <? 0); sh_step; [reflexivity|].
  destruct (call os _ s1) as [r2 s2]. cbn [shorten_resp]. sh_step.
  destruct (call os _ _) as [r3 s3]. cbn [shorten_resp].
  destruct (ptr_of r2 =? 0); [reflexivity|].
  rewrite (for_loop_sh _ _ (prime_body_sh (ret_of r))).
  destruct (for_loop _ _ _ s3) as [c s4].
  destruct c; try reflexivity;
    (rewrite get_size_sh;
     destruct (get_size os _ _ _ s4) as [[err total_size] s5];
     destruct (negb (err =? 0)); [reflexivity|];
     rewrite shred_from_sh;
     destruct (shred_from os _ _ _ _ _ _ s5) as [o s6];
     destruct o as [v|]; [|reflexivity];
     sh_step; destruct (v <? 0); [reflexivity|];
     sh_step; destruct (call os _ s6) as [r7 s7];
     rewrite (for_loop_sh _ _ free_body_sh);
     destruct (for_loop _ _ _ s7) as [c8 s8];
     sh_step; destruct (call os _ s8) as [r9 s9]; sh_step; reflexivity).
Qed.

End ShortReads.

(** ** Messages about the random source *)

Lemma count_app p tr1 tr2 :
  count p (tr1 ++ tr2) = (count p tr1 + count p tr2)%nat.
Proof. unfold count. now rewrite List.filter_app, length_app. Qed.

Lemma balanced_app tr1 tr2 :
  balanced tr1 -> balanced tr2 -> balanced (tr1 ++ tr2).
Proof. unfold balanced. rewrite !count_app. lia. Qed.

Lemma balanced_quiet tr :
  Forall (fun ev => read_error_message ev = false) tr -> balanced tr.
Proof.
  unfold balanced, count. induction 1 as [|ev tr H _ IH]; simpl; [lia|].
  rewrite H. destruct (negative_read ev); simpl; lia.
Qed.

Lemma balanced_polls i cb rs : balanced (polls i cb rs).
Proof.
  apply balanced_quiet. induction rs as [|r rs IH]; constructor; [done|exact IH].
Qed.

Lemma balanced_cleanup m p tl :
  cleanup m p tl -> m <> MsgReadError -> m <> MsgFailedInitialRead ->
  balanced tl.
Proof.
  intros (a & r1 & r2 & ->) H1 H2. apply balanced_quiet.
  repeat constructor. now destruct m.
Qed.

Section ReadErrors.

Context {World : Type}.
Variable os : syscall -> World -> resp * World.
Variables (EINPROGRESS SIGEV_NONE O_RDONLY O_DIRECT : Z).
Variables (DIOCGMEDIASIZE sizeof_aiocb sizeof_ptr : Z).

Local Abbreviation state := (state World).

Lemma grows_refl (s : state) : grows s s.
Proof.
  exists []. split; [now rewrite app_nil_r|].
  unfold balanced, count. simpl. lia.
Qed.

Lemma grows_trans (s1 s2 s3 : state) : grows s1 s2 -> grows s2 s3 -> grows s1 s3.
Proof.
  intros (n1 & T1 & B1) (n2 & T2 & B2). exists (n1 ++ n2). split.
  - rewrite T2, T1. now rewrite app_assoc.
  - now apply balanced_app.
Qed.

Lemma grows_upd (s s' : state) new l o t n :
  upd s s' new l o t n -> balanced new -> grows s s'.
Proof. intros (T & _) Hb. now exists new. Qed.

Lemma grows_ext (s s' s'' : state) :
  grows s s' -> trace s'' = trace s' -> grows s s''.
Proof. intros (new & T & B) H. exists new. now rewrite H. Qed.

Lemma call_grows c (s : state) r s' :
  call os c s = (r, s') -> read_error_message (c, r) = false -> grows s s'.
Proof.
  intros H Hq. apply call_upd in H. eapply grows_upd; [exact H|].
  apply balanced_quiet. now repeat constructor.
Qed.

Lemma printf_grows m a (s : state) :
  m <> MsgReadError -> m <> MsgFailedInitialRead ->
  grows s (printf os m a s).
Proof.
  intros H1 H2. destruct (printf_upd os m a s) as (r & Hu).
  eapply grows_upd; [exact Hu|]. apply balanced_quiet.
  repeat constructor. now destruct m.
Qed.

Lemma for_body_grows rfd wfd len bl_list i (s : state) c s' :
  for_body os EINPROGRESS rfd wfd len bl_list i s = (c, s') -> grows s s'.
Proof.
  intros H. apply for_body_sound in H.
  destruct H as [Hi|cb Hi Hr Hw|cb r c s' Hi Hr Hge Hu ->
                |cb r tl s' Hi Hr Hneg Hc Hu|cb r s' Hi Hr Hw He Hu
                |cb r r2 tl s' Hi Hr Hw He Hneg Hc Hu
                |cb r r2 r3 tl s' Hi Hr Hw He Hge Hneg Hc Hu
                |cb r r2 r3 s' Hi Hr Hw He Hge Hge3 Hu];
    try apply grows_refl; (eapply grows_upd; [exact Hu|]).
  - apply balanced_quiet. now repeat constructor.
  - apply (balanced_app [_]); [apply balanced_quiet; now repeat constructor|].
    eapply balanced_cleanup; eauto; done.
  - apply balanced_quiet. now repeat constructor.
  - apply (balanced_app [_; _]); [apply balanced_quiet; now repeat constructor|].
    eapply balanced_cleanup; eauto; done.
  - destruct Hc as (a & r4 & r5 & ->). unfold balanced, count. simpl.
    destruct (Z.ltb_spec (ret_of r3) 0); [simpl; lia|lia].
  - apply balanced_quiet. now repeat constructor.
Qed.

Lemma for_loop_grows (body : nat -> state -> ctl * state) :
  (forall i s c s', body i s = (c, s') -> grows s s') ->
  forall n i s c s', for_loop body n i s = (c, s') -> grows s s'.
Proof.
  intros Hb n. induction n as [|n IH]; intros i s c s'; simpl.
  - intros [= <- <-]. apply grows_refl.
  - destruct (body i s) as [c1 s1] eqn:E1. apply Hb in E1.
    destruct c1; try (intros [= <- <-]; exact E1).
    intros H. eapply grows_trans; [exact E1|]. eapply IH; eauto.
Qed.

Lemma main_loop_grows rfd wfd len bl_list fuel (s : state) c s' :
  main_loop os EINPROGRESS rfd wfd len bl_list fuel s = (c, s') -> grows s s'.
Proof.
  revert s. induction fuel as [|fuel IH]; intros s; simpl;
    (destruct (to_size_t (off s) <? len); [|intros [= <- <-]; apply grows_refl]).
  - intros [= <- <-]. apply grows_refl.
  - destruct (for_loop _ _ _ (set_nread 0 s)) as [c1 s1] eqn:E1.
    apply (for_loop_grows _ (for_body_grows rfd wfd len bl_list)) in E1.
    assert (grows s s1) as G1 by exact E1.
    assert (forall s2 err, grows s s2 ->
      (if err <? 0
       then (Return (-1),
             free_bl_list os bl_list
               (printf os MsgSuspendFailed [errno s2; errno s2] s2))
       else main_loop os EINPROGRESS rfd wfd len bl_list fuel s2) = (c, s') ->
      grows s s') as Hrest.
    { intros s2 err G2. destruct (err <? 0).
      - intros [= <- <-]. eapply grows_trans; [exact G2|].
        destruct (cleanup_upd os bl_list MsgSuspendFailed
                    [errno s2; errno s2] s2) as (tl & Hc & Hu).
        eapply grows_upd; [exact Hu|]. eapply balanced_cleanup; eauto; done.
      - intros H. eapply grows_trans; [exact G2|]. eapply IH; eauto. }
    assert ((let '(err, s2) :=
               if nread s1 =? 0
               then let '(r, s2) :=
                      call os (SysAioSuspend bl_list (length (bl s1))) s1 in
                    (ret_of r, s2)
               else (0, s1) in
             if err <? 0
             then (Return (-1),
                   free_bl_list os bl_list
                     (printf os MsgSuspendFailed [errno s2; errno s2] s2))
             else main_loop os EINPROGRESS rfd wfd len bl_list fuel s2)
            = (c, s') -> grows s s') as Hsusp.
    { destruct (nread s1 =? 0).
      - destruct (call os _ s1) as [r s2] eqn:E2.
        apply call_grows in E2; [|done].
        apply Hrest. eapply grows_trans; eauto.
      - now apply Hrest. }
    destruct c1; try (intros [= <- <-]; exact G1); exact Hsusp.
Qed.

Lemma drain_body_grows wfd fuel i (s : state) c s' :
  drain_body os EINPROGRESS wfd fuel i s = (c, s') -> grows s s'.
Proof.
  intros H. apply drain_body_sound in H.
  destruct H as [Hi|cb Hi Hw|cb rs s' Hi Hw Hrs Hu
                |cb rs r r2 a r3 s' Hi Hw Hrs He Hneg Hu
                |cb rs r r2 s' Hi Hw Hrs He Hge Hu];
    try apply grows_refl; (eapply grows_upd; [exact Hu|]).
  - apply balanced_polls.
  - apply balanced_app; [apply balanced_polls|].
    apply balanced_quiet. now repeat constructor.
  - apply balanced_app; [apply balanced_polls|].
    apply balanced_quiet. now repeat constructor.
Qed.

Lemma flush_grows wfd (s : state) o s' :
  flush os wfd s = (o, s') -> grows s s'.
Proof.
  unfold flush. destruct (call os _ s) as [r s1] eqn:E1.
  apply call_grows in E1; [|done].
  destruct (negb (ret_of r =? 0)); intros [= <- <-]; [|done].
  eapply grows_trans; [exact E1|].
  eapply grows_ext
    with (s' := printf os MsgFlushFailed [ret_of r; ret_of r] s1);
    [apply printf_grows; done|reflexivity].
Qed.

Lemma shred_from_grows rfd wfd len fuel (s : state) o s' :
  shred_from os EINPROGRESS sizeof_ptr rfd wfd len fuel s = (o, s') ->
  grows s s'.
Proof.
  unfold shred_from, get_bl_list_from_array.
  destruct (call os _ _) as [r s1] eqn:E1. apply call_grows in E1; [|done].
  assert (grows s s1) as G1 by (destruct E1 as (new & T & B); now exists new).
  destruct (_ && _); cbv beta iota; [intros [= <- <-]; exact G1|].
  destruct (main_loop _ _ _ _ _ _ _ s1) as [c s2] eqn:E2.
  apply main_loop_grows in E2.
  assert (grows s s2) as G2 by (eapply grows_trans; eauto).
  assert (forall x,
    (let '(c0, s4) :=
       for_loop (drain_body os EINPROGRESS wfd fuel)
         (length (bl (free_bl_list os (ptr_of r) s2))) 0
         (free_bl_list os (ptr_of r) s2) in
     match c0 with
     | Return v => (Some v, s4)
     | Diverge => (None, s4)
     | _ => flush os wfd s4
     end) = x -> x = (o, s') -> grows s s') as Hrest.
  { intros x Hx ->. revert Hx.
    destruct (for_loop _ _ _ (free_bl_list os (ptr_of r) s2)) as [c4 s4] eqn:E4.
    apply (for_loop_grows _ (drain_body_grows wfd fuel)) in E4.
    assert (grows s s4) as G4.
    { eapply grows_trans; [exact G2|]. eapply grows_trans; [|exact E4].
      destruct (free_bl_list_upd os (ptr_of r) s2) as (r3 & Hu).
      eapply grows_upd; [exact Hu|]. apply balanced_quiet.
      now repeat constructor. }
    destruct c4; try (intros [= <- <-]; exact G4);
      intros H; eapply grows_trans; [exact G4| |exact G4|];
      eapply flush_grows; eauto. }
  destruct c; try (intros [= <- <-]; exact G2); intros H; eapply Hrest; eauto.
Qed.

Lemma get_size_grows fd size (s : state) x s' :
  get_size os DIOCGMEDIASIZE fd size s = (x, s') -> grows s s'.
Proof.
  unfold get_size. destruct (call os _ s) as [r s1] eqn:E1.
  apply call_grows in E1; [|done].
  destruct (negb (ret_of r =? 0)); [now intros [= <- <-]|].
  destruct (match r with OkStat sz chr => (sz, chr) | _ => (0, false) end)
    as [st_size ischr].
  destruct ischr; [|now intros [= <- <-]].
  destruct (call os _ s1) as [r2 s2] eqn:E2.
  apply call_grows in E2; [|done].
  assert (grows s s2) by (eapply grows_trans; eauto).
  destruct (negb (ret_of r2 =? 0)); now intros [= <- <-].
Qed.

Lemma bl_init_grows i rfd sz (s : state) :
  grows s (bl_init os SIGEV_NONE i rfd sz s).
Proof.
  unfold bl_init. destruct (call os _ _) as [r s1] eqn:E1.
  apply call_grows in E1; [|done]. destruct E1 as (new & T & B).
  now exists new.
Qed.

Lemma prime_body_grows randfd i (s : state) c s' :
  prime_body os SIGEV_NONE randfd i s = (c, s') -> grows s s'.
Proof.
  unfold prime_body.
  pose proof (bl_init_grows i randfd buf_size s) as G0.
  set (s0 := bl_init os SIGEV_NONE i randfd buf_size s) in *.
  destruct (bl s0 !! i) as [cb|]; [|now intros [= <- <-]].
  destruct (call os _ s0) as [r s1] eqn:E1. apply call_upd in E1.
  destruct (Z.ltb_spec (ret_of r) 0) as [Hneg|Hge]; intros [= <- <-].
  - eapply grows_trans; [exact G0|].
    destruct (printf_upd os MsgFailedInitialRead [] s1) as (r2 & Hu2).
    destruct E1 as (T1 & _). destruct Hu2 as (T2 & _).
    exists [(SysRead i cb, r); (SysPrintf MsgFailedInitialRead [], r2)].
    split; [rewrite T2, T1; now rewrite <- app_assoc|].
    unfold balanced, count. simpl.
    destruct (Z.ltb_spec (ret_of r) 0); [simpl; lia|lia].
  - eapply grows_trans; [exact G0|]. eapply grows_upd; [exact E1|].
    apply balanced_quiet. now repeat constructor.
Qed.

Lemma free_body_grows i (s : state) c s' :
  free_body os i s = (c, s') -> grows s s'.
Proof.
  unfold free_body. destruct (bl s !! i) as [cb|];
    [|intros [= <- <-]; apply grows_refl].
  intros [= <- <-]. destruct (call os _ s) as [r s1] eqn:E1.
  now apply call_grows in E1.
Qed.

(** Over a whole run of [shred], there are no more messages about the
    random source than reads that returned a negative value. *)
Lemma shred_grows fd fuel (s : state) o s' :
  shred os EINPROGRESS SIGEV_NONE O_RDONLY O_DIRECT DIOCGMEDIASIZE
    sizeof_aiocb sizeof_ptr fd fuel s = (o, s') ->
  grows s s'.
Proof.
  unfold shred. destruct (call os _ s) as [r s1] eqn:E1.
  apply call_grows in E1; [|done].
  destruct (ret_of r <? 0).
  { intros [= <- <-]. eapply grows_trans; [exact E1|].
    apply printf_grows; done. }
  destruct (call os _ s1) as [r2 s2] eqn:E2. apply call_grows in E2; [|done].
  destruct (call os SysGettimeofday _) as [r3 s3] eqn:E3.
  apply call_grows in E3; [|done].
  assert (grows s s3) as G3.
  { eapply grows_trans; [exact E1|]. eapply grows_trans; [exact E2|].
    destruct E3 as (new & T & B). now exists new. }
  destruct (ptr_of r2 =? 0); [intros [= <- <-]; exact G3|].
  destruct (for_loop _ _ _ s3) as [c s4] eqn:E4.
  apply (for_loop_grows _ (prime_body_grows (ret_of r))) in E4.
  assert (grows s s4) as G4 by (eapply grows_trans; eauto).
  destruct c; try (intros [= <- <-]; exact G4);
    (destruct (get_size os _ _ _ s4) as [[err total_size] s5] eqn:E5;
     apply get_size_grows in E5;
     assert (grows s s5) as G5 by (eapply grows_trans; eauto);
     destruct (negb (err =? 0)); [intros [= <- <-]; exact G5|];
     destruct (shred_from os _ _ _ _ _ _ s5) as [o6 s6] eqn:E6;
     apply shred_from_grows in E6;
     assert (grows s s6) as G6 by (eapply grows_trans; eauto);
     destruct o6 as [v|]; [|intros [= <- <-]; exact G6];
     destruct (v <? 0); [intros [= <- <-]; exact G6|];
     destruct (call os _ s6) as [r7 s7] eqn:E7;
     apply call_grows in E7; [|done];
     destruct (for_loop _ _ _ s7) as [c8 s8] eqn:E8;
     apply (for_loop_grows _ free_body_grows) in E8;
     destruct (call os _ s8) as [r9 s9] eqn:E9;
     apply call_grows in E9; [|done];
     intros [= <- <-];
     eapply grows_trans; [exact G6|];
     eapply grows_trans; [exact E7|];
     eapply grows_trans; [exact E8|];
     eapply grows_trans; [exact E9|];
     apply printf_grows; done).
Qed.

End ReadErrors.

Lemma dispatched_shorten g tr : dispatched (shorten_trace g tr) = dispatched tr.
Proof.
  induction tr as [|[c r] tr IH]; [done|].
  change (shorten_trace g ((c, r) :: tr))
    with ([(c, shorten_resp g c r)] ++ shorten_trace g tr).
  change ((c, r) :: tr) with ([(c, r)] ++ tr).
  rewrite !dispatched_app, IH. now destruct c.
Qed.

(** ** The pool that [shred] hands to [shred_from] *)

Section Priming.

Context {World : Type}.
Variable os : syscall -> World -> resp * World.
Variables (SIGEV_NONE DIOCGMEDIASIZE : Z).

Lemma bl_init_bl i rfd sz (s : state World) :
  exists p,
    bl (bl_init os SIGEV_NONE i rfd sz s) =
    <[i := mk_aiocb rfd 0 p sz SIGEV_NONE]> (bl s).
Proof.
  unfold bl_init. destruct (call os (SysMalloc sz) _) as [r s1] eqn:E1.
  apply call_upd in E1. destruct E1 as (T1 & B1 & O1 & N1 & R1).
  exists (ptr_of r). unfold store, set_bl in *. simpl in *.
  rewrite B1. now rewrite !list_insert_insert_eq.
Qed.

Lemma prime_body_slot randfd i (s : state World) c s' :
  prime_body os SIGEV_NONE randfd i s = (c, s') ->
  exists p,
    bl s' = <[i := mk_aiocb randfd 0 p buf_size SIGEV_NONE]> (bl s).
Proof.
  unfold prime_body.
  destruct (bl_init_bl i randfd buf_size s) as (p & B0).
  set (s0 := bl_init os SIGEV_NONE i randfd buf_size s) in *.
  exists p. revert H.
  destruct (bl s0 !! i) as [cb|]; [|now intros [= _ <-]].
  destruct (call os _ s0) as [r2 s2] eqn:E2.
  apply call_upd in E2. destruct E2 as (T2 & B2 & O2 & N2 & R2).
  destruct (ret_of r2 <? 0); intros [= _ <-]; [|congruence].
  destruct (printf_upd os MsgFailedInitialRead [] s2) as (r3 & _ & B3 & _).
  congruence.
Qed.

(** When the priming loop of [shred] runs to its end, every slot of the
    pool is in the reading role with a buffer of [buf_size] bytes: the
    state in which [shred] calls [shred_from].  [get_size], which is
    called in between, leaves the pool alone. *)
Lemma shred_primes_pool randfd (s : state World) c s' :
  for_loop (prime_body os SIGEV_NONE randfd) blcnt 0
    (set_bl (replicate blcnt aiocb_zero) s) = (c, s') ->
  c = Continue ->
  length (bl s') = blcnt /\ primed randfd buf_size (bl s').
Proof.
  intros H ->.
  pose proof (for_loop_rule (prime_body os SIGEV_NONE randfd) blcnt
    (fun i s => length (bl s) = blcnt /\
                primed randfd buf_size (take i (bl s)))
    (fun _ _ => True)) as Hrule.
  specialize (Hrule ltac:(
    intros i s1 c1 s1' Hi [Hl Hp] E;
    destruct c1; try exact I;
    destruct (prime_body_slot randfd i s1 _ s1' E) as (p & B);
    split; [now rewrite B, length_insert|];
    rewrite (take_S_r _ i (mk_aiocb randfd 0 p buf_size SIGEV_NONE))
      by (rewrite B; apply list_lookup_insert_eq; lia);
    rewrite B, take_insert_ge by lia;
    apply Forall_app; split; [exact Hp|]; now repeat constructor)).
  assert (length (bl (set_bl (replicate blcnt aiocb_zero) s)) = blcnt /\
          primed randfd buf_size
            (take 0 (bl (set_bl (replicate blcnt aiocb_zero) s)))) as H0.
  { split; [reflexivity|constructor]. }
  specialize (Hrule blcnt 0%nat _ Continue s' eq_refl H0 H).
  destruct Hrule as [Hl Hp]. split; [done|].
  now rewrite take_ge in Hp by lia.
Qed.

Lemma get_size_bl fd size (s : state World) x s' :
  get_size os DIOCGMEDIASIZE fd size s = (x, s') -> bl s' = bl s.
Proof.
  unfold get_size. destruct (call os _ s) as [r s1] eqn:E1.
  apply call_upd in E1. destruct E1 as (_ & B1 & _).
  destruct (negb (ret_of r =? 0)); [now intros [= _ <-]|].
  destruct (match r with OkStat sz chr => (sz, chr) | _ => (0, false) end)
    as [st_size ischr].
  destruct ischr; [|now intros [= _ <-]].
  destruct (call os _ s1) as [r2 s2] eqn:E2.
  apply call_upd in E2. destruct E2 as (_ & B2 & _).
  destruct (negb (ret_of r2 =? 0)); intros [= _ <-]; congruence.
Qed.

End Priming.

(** ** The calls of a run, by their kind *)

Section Calls.

Context {World : Type}.
Variable os : syscall -> World -> resp * World.
Variables (EINPROGRESS sizeof_ptr : Z).
Variables (rfd wfd len bl_list : Z).

Local Abbreviation state := (state World).

(** What one call leaves: the event, its answer as [os] gives it, and
    [errno]. *)
Lemma call_event c (s : state) r s' :
  call os c s = (r, s') ->
  trace s' = trace s ++ [(c, r)] /\ answered os (c, r) /\
  errno s' = match r with Fail e => e | _ => errno s end.
Proof.
  unfold call. destruct (os c (world s)) as [r0 w] eqn:E.
  intros [= <- <-]. split_and!; try done.
  exists (world s). simpl. now rewrite E.
Qed.

Lemma errno_failed c (s : state) r s' :
  errno_convention os -> call os c s = (r, s') -> ret_of r < 0 ->
  errno s' <> 0.
Proof.
  intros Hos H Hneg. pose proof (Hos c (world s)) as Hc.
  unfold call in H. destruct (os c (world s)) as [r0 w].
  injection H as <- <-. simpl in *. destruct r0; simpl in *; lia.
Qed.

Lemma errno_kept c (s : state) r s' :
  errno_convention os -> call os c s = (r, s') -> errno s <> 0 ->
  errno s' <> 0.
Proof.
  intros Hos H Hne. pose proof (Hos c (world s)) as Hc.
  unfold call in H. destruct (os c (world s)) as [r0 w].
  injection H as <- <-. simpl in *. now destruct r0.
Qed.

Lemma printf_event m a (s : state) :
  exists r,
    trace (printf os m a s) = trace s ++ [(SysPrintf m a, r)] /\
    answered os (SysPrintf m a, r) /\
    (errno_convention os -> errno s <> 0 -> errno (printf os m a s) <> 0).
Proof.
  unfold printf. destruct (call os (SysPrintf m a) s) as [r s'] eqn:E.
  exists r. destruct (call_event _ _ _ _ E) as (T & A & _).
  split_and!; try done. intros Hos. now apply (errno_kept _ _ _ _ Hos E).
Qed.

Lemma free_event p (s : state) :
  exists r,
    trace (free_bl_list os p s) = trace s ++ [(SysFree p, r)] /\
    answered os (SysFree p, r) /\
    (errno_convention os -> errno s <> 0 ->
     errno (free_bl_list os p s) <> 0).
Proof.
  unfold free_bl_list. destruct (call os (SysFree p) s) as [r s'] eqn:E.
  exists r. destruct (call_event _ _ _ _ E) as (T & A & _).
  split_and!; try done. intros Hos. now apply (errno_kept _ _ _ _ Hos E).
Qed.

(** The end of an error path of the dispatch loop, after the call [c]
    has failed in the state [s1]. *)
Lemma failure_reported c (s s1 : state) r m a :
  call os c s = (r, s1) -> ret_of r < 0 ->
  exists r1 r2,
    trace (free_bl_list os bl_list (printf os m a s1)) =
      trace s ++ [(c, r); (SysPrintf m a, r1); (SysFree bl_list, r2)] /\
    Forall (answered os)
      [(c, r); (SysPrintf m a, r1); (SysFree bl_list, r2)] /\
    (forall e, r = Fail e -> errno s1 = e) /\
    (errno_convention os ->
     errno (free_bl_list os bl_list (printf os m a s1)) <> 0).
Proof.
  intros E Hneg. destruct (call_event _ _ _ _ E) as (T & A & Herr).
  destruct (printf_event m a s1) as (r1 & T1 & A1 & E1).
  destruct (free_event bl_list (printf os m a s1)) as (r2 & T2 & A2 & E2).
  exists r1, r2. split_and!.
  - rewrite T2, T1, T, <- !app_assoc. done.
  - now repeat constructor.
  - intros e ->. done.
  - intros Hos. apply E2, E1; try done. eapply errno_failed; eauto.
Qed.

(** The calls of one pass of the body of the dispatch loop. *)
Lemma for_body_calls i (s : state) c s' :
  for_body os EINPROGRESS rfd wfd len bl_list i s = (c, s') ->
  exists evs, trace s' = trace s ++ evs /\ Forall (answered os) evs /\
    match c with
    | Return v =>
        v = -1 /\ failed_round bl_list evs /\
        (errno_convention os -> errno s' <> 0)
    | Diverge => False
    | _ => Forall (loop_call bl_list) evs
    end.
Proof.
  unfold for_body.
  destruct (bl s !! i) as [cb|];
    [|intros [= <- <-]; exists []; rewrite app_nil_r; now repeat constructor].
  destruct (aio_fildes cb =? rfd).
  - set (cb' := assign wfd len cb (off s)).
    destruct (call os (SysAioWrite i cb') (store i cb' s)) as [r s1] eqn:E1.
    destruct (Z.ltb_spec (ret_of r) 0) as [Hlt|Hge].
    + intros [= <- <-].
      destruct (failure_reported _ _ _ _ MsgWriteError [errno s1] E1 Hlt)
        as (r1 & r2 & T & A & He & Hn).
      eexists. split; [exact T|]. split; [exact A|]. split_and!; try done.
      exists [], (SysAioWrite i cb'), r, MsgWriteError, [errno s1], r1, r2.
      split_and!; try done. split; [done|]. intros e Hr. now rewrite (He e Hr).
    + destruct (call_event _ _ _ _ E1) as (T & A & _).
      intros H. exists [(SysAioWrite i cb', r)].
      assert (trace s' = trace s1 /\ (c = Break \/ c = Continue)) as [-> Hc].
      { destruct (_ >=? _); injection H as <- <-; simpl; eauto. }
      split; [exact T|]. split; [now repeat constructor|].
      destruct Hc as [-> | ->]; now repeat constructor.
  - destruct (aio_fildes cb =? wfd);
      [|intros [= <- <-]; exists []; rewrite app_nil_r; now repeat constructor].
    destruct (call os (SysAioError i cb) s) as [r s1] eqn:E1.
    destruct (call_event _ _ _ _ E1) as (T1 & A1 & _).
    destruct (EINPROGRESS =? ret_of r).
    { intros [= <- <-]. exists [(SysAioError i cb, r)].
      split; [exact T1|]. split; now repeat constructor. }
    destruct (call os (SysAioReturn i cb) s1) as [r2 s2] eqn:E2.
    destruct (Z.ltb_spec (ret_of r2) 0) as [Hlt|Hge].
    { intros [= <- <-].
      destruct (failure_reported _ _ _ _ MsgWriteCompletionError [errno s2]
                  E2 Hlt) as (r3 & r4 & T & A & He & Hn).
      exists ((SysAioError i cb, r) ::
              [(SysAioReturn i cb, r2);
               (SysPrintf MsgWriteCompletionError [errno s2], r3);
               (SysFree bl_list, r4)]).
      split; [rewrite T, T1, <- app_assoc; done|].
      split; [now constructor|]. split_and!; try done.
      exists [(SysAioError i cb, r)], (SysAioReturn i cb), r2,
        MsgWriteCompletionError, [errno s2], r3, r4.
      split_and!; try done; [now repeat constructor|].
      split; [done|]. intros e Hr. now rewrite (He e Hr). }
    destruct (call_event _ _ _ _ E2) as (T2 & A2 & _).
    set (cb' := with_fildes rfd cb).
    set (s3 := store i cb' (set_total _ s2)).
    destruct (call os (SysRead i cb') s3) as [r3 s4] eqn:E3.
    destruct (Z.ltb_spec (ret_of r3) 0) as [Hlt3|Hge3].
    { intros [= <- <-].
      destruct (failure_reported _ _ _ _ MsgReadError [errno s4] E3 Hlt3)
        as (r4 & r5 & T & A & He & Hn).
      exists ([(SysAioError i cb, r); (SysAioReturn i cb, r2)] ++
              [(SysRead i cb', r3); (SysPrintf MsgReadError [errno s4], r4);
               (SysFree bl_list, r5)]).
      split; [rewrite T; subst s3; simpl; rewrite T2, T1, <- !app_assoc; done|].
      split; [apply Forall_app_2; [now repeat constructor|exact A]|].
      split_and!; try done.
      exists [(SysAioError i cb, r); (SysAioReturn i cb, r2)],
        (SysRead i cb'), r3, MsgReadError, [errno s4], r4, r5.
      split_and!; try done; [now repeat constructor|].
      split; [done|]. intros e Hr. now rewrite (He e Hr). }
    destruct (call_event _ _ _ _ E3) as (T3 & A3 & _).
    intros [= <- <-].
    exists [(SysAioError i cb, r); (SysAioReturn i cb, r2);
            (SysRead i cb', r3)].
    split; [simpl; rewrite T3; subst s3; simpl; rewrite T2, T1, <- !app_assoc;
            done|].
    split; now repeat constructor.
Qed.

(** A [for] loop whose passes make calls of the kind [G], until one
    returns with calls [R]. *)
Lemma for_loop_calls (body : nat -> state -> ctl * state)
    (G : event -> Prop) (R : Z -> state -> list event -> Prop) :
  (forall pre v s evs, Forall G pre -> R v s evs -> R v s (pre ++ evs)) ->
  (forall i s c s', body i s = (c, s') ->
     exists evs, trace s' = trace s ++ evs /\ Forall (answered os) evs /\
       match c with Return v => R v s' evs | _ => Forall G evs end) ->
  forall n i s c s', for_loop body n i s = (c, s') ->
    exists evs, trace s' = trace s ++ evs /\ Forall (answered os) evs /\
      match c with Return v => R v s' evs | _ => Forall G evs end.
Proof.
  intros HR Hbody n. induction n as [|n IH]; intros i s c s'; simpl.
  - intros [= <- <-]. exists []. rewrite app_nil_r. now repeat constructor.
  - destruct (body i s) as [c1 s1] eqn:E1.
    destruct (Hbody _ _ _ _ E1) as (evs1 & T1 & A1 & H1).
    destruct c1; try (intros [= <- <-]; exists evs1; done).
    intros H. destruct (IH _ _ _ _ H) as (evs2 & T2 & A2 & H2).
    exists (evs1 ++ evs2). split; [rewrite T2, T1, <- app_assoc; done|].
    split; [now apply Forall_app_2|].
    destruct c; try (now apply Forall_app_2). now apply HR.
Qed.

Lemma failed_round_after pre evs :
  Forall (loop_call bl_list) pre -> failed_round bl_list evs ->
  failed_round bl_list (pre ++ evs).
Proof.
  intros Hpre (body & c & r & m & a & r1 & r2 & -> & Hb & Hr & Hw & Hm).
  exists (pre ++ body), c, r, m, a, r1, r2.
  split_and!; try done; [now rewrite app_assoc|now apply Forall_app_2].
Qed.

Lemma failed_drain_after pre evs :
  Forall drain_call pre -> failed_drain evs -> failed_drain (pre ++ evs).
Proof.
  intros Hpre (body & i & cb & r & a & r1 & -> & Hb & Hr).
  exists (pre ++ body), i, cb, r, a, r1.
  split_and!; try done; [now rewrite app_assoc|now apply Forall_app_2].
Qed.

(** The calls of the [for] loop of one round of the dispatch loop. *)
Lemma round_calls n i (s : state) c s' :
  for_loop (for_body os EINPROGRESS rfd wfd len bl_list) n i s = (c, s') ->
  exists evs, trace s' = trace s ++ evs /\ Forall (answered os) evs /\
    match c with
    | Return v =>
        v = -1 /\ failed_round bl_list evs /\
        (errno_convention os -> errno s' <> 0)
    | _ => Forall (loop_call bl_list) evs
    end.
Proof.
  apply (for_loop_calls _ (loop_call bl_list)
           (fun v s evs => v = -1 /\ failed_round bl_list evs /\
                           (errno_convention os -> errno s <> 0))).
  - intros pre v s0 evs Hpre (-> & Hf & He). split_and!; try done.
    now apply failed_round_after.
  - intros j s0 c0 s0' E. destruct (for_body_calls _ _ _ _ E)
      as (evs & T & A & H).
    exists evs. split_and!; try done. now destruct c0.
Qed.

(** The calls of the dispatch loop. *)
Lemma main_loop_calls fuel (s : state) c s' :
  main_loop os EINPROGRESS rfd wfd len bl_list fuel s = (c, s') ->
  exists evs, trace s' = trace s ++ evs /\ Forall (answered os) evs /\
    match c with
    | Return v =>
        v = -1 /\ failed_round bl_list evs /\
        (errno_convention os -> errno s' <> 0)
    | Break => False
    | _ => Forall (loop_call bl_list) evs
    end.
Proof.
  revert s. induction fuel as [|fuel IH]; intros s; simpl;
    (destruct (to_size_t (off s) <? len);
     [|intros [= <- <-]; exists []; rewrite app_nil_r; now repeat constructor]).
  - intros [= <- <-]. exists []. rewrite app_nil_r. now repeat constructor.
  - destruct (for_loop _ _ _ (set_nread 0 s)) as [c1 s1] eqn:E1.
    destruct (round_calls _ _ _ _ _ E1) as (evs1 & T1 & A1 & H1).
    simpl in T1.
    assert (forall s2 evs2,
      trace s2 = trace s ++ evs2 -> Forall (answered os) evs2 ->
      Forall (loop_call bl_list) evs2 ->
      (let '(err, s) :=
         if nread s2 =? 0
         then let '(r, s) :=
                call os (SysAioSuspend bl_list (length (bl s2))) s2 in
              (ret_of r, s)
         else (0, s2) in
       if err <? 0
       then (Return (-1),
             free_bl_list os bl_list
               (printf os MsgSuspendFailed [errno s; errno s] s))
       else main_loop os EINPROGRESS rfd wfd len bl_list fuel s) = (c, s') ->
      exists evs, trace s' = trace s ++ evs /\ Forall (answered os) evs /\
        match c with
        | Return v =>
            v = -1 /\ failed_round bl_list evs /\
            (errno_convention os -> errno s' <> 0)
        | Break => False
        | _ => Forall (loop_call bl_list) evs
        end) as Hrest.
    { intros s2 evs2 T2 A2 L2.
      assert (forall s3 evs3,
        trace s3 = trace s ++ evs3 -> Forall (answered os) evs3 ->
        Forall (loop_call bl_list) evs3 ->
        main_loop os EINPROGRESS rfd wfd len bl_list fuel s3 = (c, s') ->
        exists evs, trace s' = trace s ++ evs /\ Forall (answered os) evs /\
          match c with
          | Return v =>
              v = -1 /\ failed_round bl_list evs /\
              (errno_convention os -> errno s' <> 0)
          | Break => False
          | _ => Forall (loop_call bl_list) evs
          end) as Hgo.
      { intros s3 evs3 T3 A3 L3 H.
        destruct (IH _ H) as (evs & T & A & Hc).
        exists (evs3 ++ evs). split; [rewrite T, T3, <- app_assoc; done|].
        split; [now apply Forall_app_2|].
        destruct c; try done; try (now apply Forall_app_2).
        destruct Hc as (-> & Hf & He). split_and!; try done.
        now apply failed_round_after. }
      destruct (nread s2 =? 0).
      - destruct (call os _ s2) as [r s3] eqn:E3.
        destruct (Z.ltb_spec (ret_of r) 0) as [Hlt|Hge].
        + intros [= <- <-].
          destruct (failure_reported _ _ _ _ MsgSuspendFailed
                      [errno s3; errno s3] E3 Hlt)
            as (r1 & r2 & T & A & He & Hn).
          eexists. split; [rewrite T, T2, <- app_assoc; done|].
          split; [now apply Forall_app_2|]. split_and!; try done.
          apply failed_round_after; [done|].
          exists [], (SysAioSuspend bl_list (length (bl s2))), r,
            MsgSuspendFailed, [errno s3; errno s3], r1, r2.
          split_and!; try done. split; [done|].
          intros e Hr. now rewrite (He e Hr).
        + destruct (call_event _ _ _ _ E3) as (T3 & A3 & _).
          apply (Hgo s3 (evs2 ++ [(SysAioSuspend bl_list (length (bl s2)), r)])).
          * rewrite T3, T2, <- app_assoc. done.
          * apply Forall_app_2; now repeat constructor.
          * apply Forall_app_2; now repeat constructor.
      - simpl. now apply (Hgo s2 evs2). }
    destruct c1 as [| |v|].
    + now apply (Hrest s1 evs1).
    + now apply (Hrest s1 evs1).
    + intros [= <- <-]. exists evs1. done.
    + intros [= <- <-]. exists evs1. done.
Qed.

(** The calls of the busy wait. *)
Lemma busy_wait_calls fuel i cb (s : state) c s' :
  busy_wait os EINPROGRESS fuel i cb s = (c, s') ->
  exists evs, trace s' = trace s ++ evs /\ Forall (answered os) evs /\
    Forall drain_call evs /\ (c = Continue \/ c = Diverge).
Proof.
  revert s. induction fuel as [|fuel IH]; intros s; simpl.
  - intros [= <- <-]. exists []. rewrite app_nil_r.
    split_and!; try done. now right.
  - destruct (call os (SysAioError i cb) s) as [r s1] eqn:E1.
    destruct (call_event _ _ _ _ E1) as (T1 & A1 & _).
    destruct (EINPROGRESS =? ret_of r).
    + intros H. destruct (IH _ H) as (evs & T & A & D & Hc).
      exists ((SysAioError i cb, r) :: evs).
      split; [rewrite T, T1, <- app_assoc; done|].
      split_and!; try done; try (now constructor).
    + intros [= <- <-]. exists [(SysAioError i cb, r)].
      split_and!; try done; try (now repeat constructor); now left.
Qed.

(** The calls of one pass of the body of the drain loop. *)
Lemma drain_body_calls fuel i (s : state) c s' :
  drain_body os EINPROGRESS wfd fuel i s = (c, s') ->
  exists evs, trace s' = trace s ++ evs /\ Forall (answered os) evs /\
    match c with
    | Return v =>
        v = -1 /\ failed_drain evs /\ (errno_convention os -> errno s' <> 0)
    | _ => Forall drain_call evs
    end.
Proof.
  unfold drain_body.
  destruct (bl s !! i) as [cb|];
    [|intros [= <- <-]; exists []; rewrite app_nil_r; now repeat constructor].
  destruct (negb (aio_fildes cb =? wfd));
    [intros [= <- <-]; exists []; rewrite app_nil_r; now repeat constructor|].
  destruct (busy_wait os EINPROGRESS fuel i cb s) as [c1 s1] eqn:E1.
  destruct (busy_wait_calls _ _ _ _ _ _ E1) as (evs1 & T1 & A1 & D1 & Hc).
  destruct Hc as [-> | ->]; [|intros [= <- <-]; exists evs1; done].
  destruct (call os (SysAioReturn i cb) s1) as [r2 s2] eqn:E2.
  destruct (call_event _ _ _ _ E2) as (T2 & A2 & He2).
  destruct (Z.ltb_spec (ret_of r2) 0) as [Hlt|Hge].
  - intros [= <- <-].
    destruct (printf_event MsgFinalWriteCompletionError [errno s2] s2)
      as (r3 & T3 & A3 & E3).
    exists (evs1 ++ [(SysAioReturn i cb, r2);
                     (SysPrintf MsgFinalWriteCompletionError [errno s2], r3)]).
    split; [rewrite T3, T2, T1, <- !app_assoc; done|].
    split; [apply Forall_app_2; now repeat constructor|].
    split_and!; try done.
    + exists evs1, i, cb, r2, [errno s2], r3. split_and!; try done.
      split; [done|]. intros e ->. now rewrite He2.
    + intros Hos. apply E3; [done|]. eapply errno_failed; eauto.
  - intros [= <- <-]. exists (evs1 ++ [(SysAioReturn i cb, r2)]).
    split; [simpl; rewrite T2, T1, <- app_assoc; done|].
    split; apply Forall_app_2; now repeat constructor.
Qed.

(** The calls of the drain loop. *)
Lemma drain_loop_calls fuel n i (s : state) c s' :
  for_loop (drain_body os EINPROGRESS wfd fuel) n i s = (c, s') ->
  exists evs, trace s' = trace s ++ evs /\ Forall (answered os) evs /\
    match c with
    | Return v =>
        v = -1 /\ failed_drain evs /\ (errno_convention os -> errno s' <> 0)
    | _ => Forall drain_call evs
    end.
Proof.
  apply (for_loop_calls _ drain_call
           (fun v s evs => v = -1 /\ failed_drain evs /\
                           (errno_convention os -> errno s <> 0))).
  - intros pre v s0 evs Hpre (-> & Hf & He). split_and!; try done.
    now apply failed_drain_after.
  - intros j s0 c0 s0' E. exact (drain_body_calls _ _ _ _ _ E).
Qed.

(** The calls of the flush. *)
Lemma flush_calls (s : state) o s' :
  flush os wfd s = (o, s') ->
  exists r,
    answered os (SysFsync wfd, r) /\
    ((ret_of r = 0 /\ o = Some (to_ssize_t (total s)) /\
      trace s' = trace s ++ [(SysFsync wfd, r)]) \/
     (ret_of r <> 0 /\ o = Some (-1) /\ errno s' = ret_of r /\
      exists r3,
        answered os (SysPrintf MsgFlushFailed [ret_of r; ret_of r], r3) /\
        trace s' = trace s ++
          [(SysFsync wfd, r);
           (SysPrintf MsgFlushFailed [ret_of r; ret_of r], r3)])).
Proof.
  unfold flush. destruct (call os (SysFsync wfd) s) as [r s1] eqn:E1.
  destruct (call_event _ _ _ _ E1) as (T1 & A1 & _).
  destruct (Z.eqb_spec (ret_of r) 0) as [He|Hne]; simpl; intros [= <- <-];
    exists r; (split; [done|]).
  - left. split_and!; try done.
    apply call_upd in E1 as (_ & _ & _ & -> & _). done.
  - right. split_and!; try done.
    destruct (printf_event MsgFlushFailed [ret_of r; ret_of r] s1)
      as (r3 & T3 & A3 & _).
    exists r3. split; [done|]. simpl. rewrite T3, T1, <- app_assoc. done.
Qed.

End Calls.

Section Shape.

Context {World : Type}.
Variable os : syscall -> World -> resp * World.
Variables (EINPROGRESS sizeof_ptr : Z).
Variables (rfd wfd len : Z).

(** The calls of a run of [shred_from]: the allocation of the list, and
    then calls of the shape [run_shape].  Under the convention of [errno],
    a run that returns has left [errno] set unless it returns through the
    last [return]. *)
Lemma shred_from_shape fuel (s : state World) o s' :
  shred_from os EINPROGRESS sizeof_ptr rfd wfd len fuel s = (o, s') ->
  exists r1 evs,
    trace s' =
      trace s ++
      (SysMalloc (Z.of_nat (length (bl s)) * sizeof_ptr), r1) :: evs /\
    Forall (answered os)
      ((SysMalloc (Z.of_nat (length (bl s)) * sizeof_ptr), r1) :: evs) /\
    run_shape wfd (ptr_of r1) o evs /\
    (errno_convention os -> forall v, o = Some v ->
       errno s' <> 0 \/
       exists pre r, evs = pre ++ [(SysFsync wfd, r)] /\ ret_of r = 0).
Proof.
  unfold shred_from, get_bl_list_from_array.
  set (s0 := set_total 0 (set_off 0 s)).
  change (length (bl s0)) with (length (bl s)).
  destruct (call os _ s0) as [r1 s1] eqn:E1.
  destruct (call_event _ _ _ _ _ E1) as (T1 & A1 & _). simpl in T1.
  destruct (_ && _) eqn:K; cbv beta iota.
  { intros [= <- <-]. exists r1, []. split; [exact T1|].
    split; [now repeat constructor|].
    split; [|now intros]. apply run_killed.
    apply andb_true_iff in K as [K _]. now apply Z.eqb_eq in K. }
  clear K.
  destruct (main_loop _ _ _ _ _ _ _ s1) as [c2 s2] eqn:E2.
  destruct (main_loop_calls _ _ _ _ _ _ _ _ _ _ E2) as (evs2 & T2 & A2 & H2).
  destruct c2 as [| |v|]; [|done| |].
  2:{ intros [= <- <-]. destruct H2 as (-> & Hf & He). exists r1, evs2.
      split; [rewrite T2, T1, <- app_assoc; done|].
      split; [now constructor|].
      split; [now constructor|]. intros Hos v _. left. now apply He. }
  2:{ intros [= <- <-]. exists r1, evs2.
      split; [rewrite T2, T1, <- app_assoc; done|].
      split; [now constructor|].
      split; [now constructor|]. now intros. }
  destruct (free_event os (ptr_of r1) s2) as (r3 & T3 & A3 & _).
  set (s3 := free_bl_list os (ptr_of r1) s2) in *.
  destruct (for_loop _ _ _ s3) as [c4 s4] eqn:E4.
  destruct (drain_loop_calls _ _ _ _ _ _ _ _ _ E4) as (evs4 & T4 & A4 & H4).
  assert (trace s4 = trace s ++
            (SysMalloc (Z.of_nat (length (bl s)) * sizeof_ptr), r1) ::
            evs2 ++ (SysFree (ptr_of r1), r3) :: evs4) as T.
  { rewrite T4, T3, T2, T1, <- !app_assoc. done. }
  assert (Forall (answered os)
            ((SysMalloc (Z.of_nat (length (bl s)) * sizeof_ptr), r1) ::
             evs2 ++ (SysFree (ptr_of r1), r3) :: evs4)) as A.
  { constructor; [done|]. apply Forall_app_2; [done|]. now constructor. }
  assert (Forall drain_call evs4 -> flush os wfd s4 = (o, s') ->
    exists r1 evs,
      trace s' =
        trace s ++
        (SysMalloc (Z.of_nat (length (bl s)) * sizeof_ptr), r1) :: evs /\
      Forall (answered os)
        ((SysMalloc (Z.of_nat (length (bl s)) * sizeof_ptr), r1) :: evs) /\
      run_shape wfd (ptr_of r1) o evs /\
      (errno_convention os -> forall v, o = Some v ->
         errno s' <> 0 \/
         exists pre r, evs = pre ++ [(SysFsync wfd, r)] /\ ret_of r = 0))
    as Hflush.
  { intros D4 H. exists r1.
    destruct (flush_calls _ _ _ _ _ H) as
      (r & Ar & [(Hr & -> & T5)|(Hr & -> & He & r6 & A6 & T5)]).
    - exists (evs2 ++ (SysFree (ptr_of r1), r3) :: evs4 ++ [(SysFsync wfd, r)]).
      split; [rewrite T5, T; repeat (rewrite <- ?app_assoc; simpl); done|].
      split; [constructor; [exact A1|]; apply Forall_app_2; [exact A2|];
              constructor; [exact A3|]; apply Forall_app_2; [exact A4|];
              now repeat constructor|].
      split; [now constructor|].
      intros Hos v _. right.
      exists (evs2 ++ (SysFree (ptr_of r1), r3) :: evs4), r.
      split; [repeat (rewrite <- ?app_assoc; simpl); done|done].
    - exists (evs2 ++ (SysFree (ptr_of r1), r3) ::
              evs4 ++ [(SysFsync wfd, r);
                       (SysPrintf MsgFlushFailed [ret_of r; ret_of r], r6)]).
      split; [rewrite T5, T; repeat (rewrite <- ?app_assoc; simpl); done|].
      split; [constructor; [exact A1|]; apply Forall_app_2; [exact A2|];
              constructor; [exact A3|]; apply Forall_app_2; [exact A4|];
              now repeat constructor|].
      split; [now constructor|].
      intros Hos v _. left. congruence. }
  destruct c4 as [| |v|]; [now apply Hflush|now apply Hflush| |].
  - intros [= <- <-]. destruct H4 as (-> & Hf & He).
    exists r1, (evs2 ++ (SysFree (ptr_of r1), r3) :: evs4).
    split; [exact T|]. split; [exact A|]. split; [now constructor|].
    intros Hos v _. left. now apply He.
  - intros [= <- <-].
    exists r1, (evs2 ++ (SysFree (ptr_of r1), r3) :: evs4).
    split; [exact T|]. split; [exact A|]. split; [now constructor|].
    now intros.
Qed.

End Shape.

(** ** The state of a run at the flush *)

Lemma loop_call_not_fsync p evs :
  Forall (loop_call p) evs -> Forall (fun ev => ~ is_fsync ev) evs.
Proof. intros H. eapply Forall_impl; [exact H|]. intros [c r]. now destruct c. Qed.

Lemma drain_call_not_fsync evs :
  Forall drain_call evs -> Forall (fun ev => ~ is_fsync ev) evs.
Proof. intros H. eapply Forall_impl; [exact H|]. intros [c r]. now destruct c. Qed.

Lemma failed_round_not_fsync p evs :
  failed_round p evs -> Forall (fun ev => ~ is_fsync ev) evs.
Proof.
  intros (body & c & r & m & a & r1 & r2 & -> & Hb & [_ Hr] & _ & _).
  apply Forall_app_2; [eapply loop_call_not_fsync; eauto|].
  repeat constructor; simpl; try tauto. now destruct c.
Qed.

Lemma failed_drain_not_fsync evs :
  failed_drain evs -> Forall (fun ev => ~ is_fsync ev) evs.
Proof.
  intros (pre & i & cb & r & a & r1 & -> & Hb & _).
  apply Forall_app_2; [eapply drain_call_not_fsync; eauto|].
  repeat constructor; simpl; tauto.
Qed.

(** The only element of a kind is where it is. *)
Lemma only_split {A} (P : A -> Prop) (l1 l1' l2 l2' : list A) x x' :
  Forall (fun y => ~ P y) l1 -> Forall (fun y => ~ P y) l2 ->
  P x' ->
  l1 ++ x :: l2 = l1' ++ x' :: l2' -> l1 = l1' /\ x = x' /\ l2 = l2'.
Proof.
  revert l1'. induction l1 as [|y l1 IH]; intros [|y' l1'] H1 H2 Hx';
    simpl; intros [= -> E].
  - done.
  - exfalso. assert (In x' l2) as Hin by (rewrite E; apply in_elt).
    rewrite Forall_forall in H2. apply (H2 x'); [|done].
    now apply list_elem_of_In.
  - apply Forall_cons in H1 as [H _]. done.
  - apply Forall_cons in H1 as [_ H1].
    destruct (IH l1' H1 H2 Hx' E) as (-> & -> & ->). done.
Qed.

Lemma none_split {A} (P : A -> Prop) (l l1 l2 : list A) x :
  Forall (fun y => ~ P y) l -> P x -> l = l1 ++ x :: l2 -> False.
Proof.
  intros H Hx ->. apply Forall_app in H as [_ H].
  apply Forall_cons in H as [H _]. done.
Qed.

Lemma tracks_all_idle wfd N st l :
  tracks wfd N st l -> length l = N -> st = replicate N Idle.
Proof.
  intros [Hl H] HN. apply list_eq. intros j.
  destruct (l !! j) as [cb|] eqn:Hj.
  - rewrite (H _ _ Hj). pose proof (lookup_lt_Some _ _ _ Hj) as Hlt.
    rewrite lookup_replicate_2 by lia.
    destruct (Nat.ltb_spec j N); [done|lia].
  - apply lookup_ge_None in Hj.
    rewrite (proj2 (lookup_ge_None st j)) by lia.
    symmetry. apply lookup_ge_None. rewrite length_replicate. lia.
Qed.

Section Settled.

Context {World : Type}.
Variable os : syscall -> World -> resp * World.
Variables (EINPROGRESS sizeof_ptr : Z).
Variables (rfd wfd len C : Z).
Hypothesis Hfd : rfd <> wfd.
Hypothesis Hlen : 0 <= len < two63.
Hypothesis HC : 1 <= C < two64.

(** A run either comes to the flush, with every byte range written and
    collected, or it makes no [fsync] call at all. *)
Lemma shred_from_reaches fuel (s : state World) o s' :
  primed rfd C (bl s) ->
  shred_from os EINPROGRESS sizeof_ptr rfd wfd len fuel s = (o, s') ->
  (exists s4 evs4,
     trace s4 = trace s ++ evs4 /\
     Forall (fun ev => ~ is_fsync ev) evs4 /\
     settled EINPROGRESS (length (bl s)) len evs4 /\
     total s4 = to_size_t (confirmed evs4) /\
     flush os wfd s4 = (o, s')) \/
  (exists evs, trace s' = trace s ++ evs /\
     Forall (fun ev => ~ is_fsync ev) evs).
Proof.
  intros Hp. unfold shred_from, get_bl_list_from_array.
  pose proof (inv_start EINPROGRESS rfd wfd len C Hfd Hlen s Hp) as H0.
  set (s0 := set_total 0 (set_off 0 s)) in *.
  change (length (bl s0)) with (length (bl s)).
  destruct (call os _ s0) as [r1 s1] eqn:E1.
  destruct (call_event _ _ _ _ _ E1) as (T1 & _). simpl in T1.
  apply call_upd in E1.
  assert (inv EINPROGRESS rfd wfd len C (length (bl s)) (trace s)
    (map aio_buf (bl s)) 0 s1) as H1.
  { eapply inv_neutral; eauto. now repeat constructor. }
  destruct (_ && _); cbv beta iota.
  { intros [= <- <-]. right. eexists. split; [exact T1|].
    constructor; [simpl; tauto|constructor]. }
  destruct (main_loop _ _ _ _ _ _ _ s1) as [c2 s2] eqn:E2.
  destruct (main_loop_calls _ _ _ _ _ _ _ _ _ _ E2) as (evs2 & T2 & _ & L2).
  eapply main_loop_inv in E2; eauto.
  destruct c2 as [| |v|]; [|done| |].
  2:{ intros [= <- <-]. right. eexists. split.
      - rewrite T2, T1, <- app_assoc. reflexivity.
      - constructor; [simpl; tauto|].
        eapply failed_round_not_fsync. apply L2. }
  2:{ intros [= <- <-]. right. eexists. split.
      - rewrite T2, T1, <- app_assoc. reflexivity.
      - constructor; [simpl; tauto|].
        eapply loop_call_not_fsync. apply L2. }
  destruct E2 as [H2 Ho2].
  destruct (free_event os (ptr_of r1) s2) as (r3 & T3 & _).
  destruct (free_bl_list_upd os (ptr_of r1) s2) as (r3' & E3).
  set (s3 := free_bl_list os (ptr_of r1) s2) in *.
  assert (inv EINPROGRESS rfd wfd len C (length (bl s)) (trace s)
    (map aio_buf (bl s)) 0 s3) as H3.
  { eapply inv_neutral; eauto. now repeat constructor. }
  assert (off s3 = len) as Ho3 by (destruct E3 as (_ & _ & -> & _); done).
  destruct (for_loop _ _ _ s3) as [c4 s4] eqn:E4.
  destruct (drain_loop_calls _ _ _ _ _ _ _ _ _ E4) as (evs4 & T4 & _ & L4).
  assert (trace s4 = trace s ++
            (SysMalloc (Z.of_nat (length (bl s)) * sizeof_ptr), r1) ::
            evs2 ++ (SysFree (ptr_of r1), r3) :: evs4) as T.
  { rewrite T4, T3, T2, T1. repeat (rewrite <- ?app_assoc; simpl). done. }
  assert (
    Forall (fun ev => ~ is_fsync ev) evs4 ->
    Forall (fun ev => ~ is_fsync ev)
      ((SysMalloc (Z.of_nat (length (bl s)) * sizeof_ptr), r1) ::
       evs2 ++ (SysFree (ptr_of r1), r3) :: evs4)) as NF.
  { intros N4. constructor; [simpl; tauto|].
    apply Forall_app_2; [eapply loop_call_not_fsync; eauto|].
    constructor; [simpl; tauto|done]. }
  eapply drain_loop_inv in E4; eauto.
  destruct c4 as [| |v|]; [|done| |].
  2:{ intros [= <- <-]. right. eexists. split; [exact T|].
      apply NF. eapply failed_drain_not_fsync. apply L4. }
  2:{ intros [= <- <-]. right. eexists. split; [exact T|].
      apply NF. eapply drain_call_not_fsync. apply L4. }
  destruct E4 as [H4 Ho4].
  rewrite (inv_length _ _ _ _ _ _ _ _ _ _ H3) in H4.
  intros H. left. destruct H4 as (evs & Hw & Hs).
  destruct Hw as [Wt Wl _ _ _ _ _ _ _ _].
  destruct Hs as [_ _ St Sp Sa Stot Snf].
  exists s4, evs. split; [done|].
  assert (evs = (SysMalloc (Z.of_nat (length (bl s)) * sizeof_ptr), r1) ::
                evs2 ++ (SysFree (ptr_of r1), r3) :: evs4) as Hevs.
  { rewrite Wt in T. now apply app_inv_head in T. }
  split; [rewrite Hevs; apply NF;
          eapply drain_call_not_fsync; apply L4|].
  split; [|done].
  rewrite drop_ge in Sa by lia. simpl in Sa.
  destruct Sp as (st & Hst & Htr).
  split_and!; try done.
  - now rewrite <- Ho4.
  - lia.
  - rewrite Hst. f_equal. eapply tracks_all_idle; eauto.
Qed.

(** At the [fsync] of a run every byte range has been written and
    collected.  The run returns the sum of the counts that the
    completions reported when [fsync] succeeds, and -1 after one message
    when it fails. *)
Lemma shred_from_settled fuel (s : state World) o s' pre fd r tl :
  primed rfd C (bl s) ->
  shred_from os EINPROGRESS sizeof_ptr rfd wfd len fuel s = (o, s') ->
  trace s' = trace s ++ pre ++ (SysFsync fd, r) :: tl ->
  fd = wfd /\ settled EINPROGRESS (length (bl s)) len pre /\
  Forall (fun ev => ~ is_fsync ev) pre /\
  (ret_of r = 0 ->
     tl = [] /\ o = Some (to_ssize_t (to_size_t (confirmed pre)))) /\
  (ret_of r <> 0 ->
     o = Some (-1) /\ errno s' = ret_of r /\
     exists r3,
       tl = [(SysPrintf MsgFlushFailed [ret_of r; ret_of r], r3)]).
Proof.
  intros Hp H T.
  destruct (shred_from_reaches _ _ _ _ Hp H)
    as [(s4 & evs4 & T4 & N4 & Hs & Ht & Hf)|(evs & T' & N')].
  2:{ exfalso. rewrite T' in T. apply app_inv_head in T.
      eapply (none_split is_fsync); eauto. done. }
  destruct (flush_calls _ _ _ _ _ Hf) as
    (r5 & _ & [(Hr & -> & T5)|(Hr & -> & He & r6 & _ & T5)]).
  - rewrite T5, T4, <- app_assoc in T. apply app_inv_head in T.
    apply (only_split is_fsync) in T as (-> & [= <- <-] & <-);
      [|done|constructor|done].
    split_and!; try done.
    intros _. split; [done|]. now rewrite Ht.
  - rewrite T5, T4, <- app_assoc in T. apply app_inv_head in T.
    apply (only_split is_fsync) in T as (-> & [= <- <-] & <-);
      [|done|repeat constructor; simpl; tauto|done].
    split_and!; try done.
    intros _. split_and!; try done. eauto.
Qed.

End Settled.

(** ** The buffers and the lengths of the pool *)

Section Pools.

Context {World : Type}.
Variable os : syscall -> World -> resp * World.
Variables (EINPROGRESS sizeof_ptr : Z).
Variables (rfd wfd len : Z).

Local Abbreviation state := (state World).

Lemma pool_kept_refl (s : state) : pool_kept s s.
Proof.
  split; [done|]. intros H. split; [done|]. exists []. 
  rewrite app_nil_r. now split.
Qed.

Lemma pool_kept_trans (s1 s2 s3 : state) :
  pool_kept s1 s2 -> pool_kept s2 s3 -> pool_kept s1 s3.
Proof.
  intros [B1 H1] [B2 H2]. split; [congruence|]. intros Hs.
  destruct (H1 Hs) as (Hs2 & evs1 & T1 & S1).
  destruct (H2 Hs2) as (Hs3 & evs2 & T2 & S2).
  split; [done|]. exists (evs1 ++ evs2).
  split; [rewrite T2, T1, <- app_assoc; done|now apply Forall_app_2].
Qed.

(** A step that stores at most one block, which keeps its buffer. *)
Lemma pool_kept_upd (s s' : state) evs l o t n :
  upd s s' evs l o t n -> Forall on_sized evs ->
  map aio_buf l = map aio_buf (bl s) ->
  (Forall sized (bl s) -> Forall sized l) ->
  pool_kept s s'.
Proof.
  intros (T & B & _) He Hb Hs. split; [congruence|]. intros H.
  split; [rewrite B; auto|]. eauto.
Qed.

Lemma sized_assign cb o : sized cb -> sized (assign wfd len cb o).
Proof.
  unfold assign, sized. simpl. intros H.
  destruct (_ >=? _); simpl; [|done].
  unfold to_size_t, two64. apply Z.mod_pos_bound. lia.
Qed.

Lemma buf_assign cb o : aio_buf (assign wfd len cb o) = aio_buf cb.
Proof. unfold assign. simpl. now destruct (_ >=? _). Qed.

Lemma sized_insert (l : list aiocb) i cb cb' :
  l !! i = Some cb -> (sized cb -> sized cb') ->
  Forall sized l -> Forall sized (<[i := cb']> l).
Proof.
  intros Hi Hc Hl. apply Forall_insert; [done|]. apply Hc.
  rewrite Forall_lookup in Hl. eauto.
Qed.

Lemma sized_lookup (l : list aiocb) i cb :
  l !! i = Some cb -> Forall sized l -> sized cb.
Proof. intros Hi Hl. rewrite Forall_lookup in Hl. eauto. Qed.

Lemma on_sized_cleanup m p tl : cleanup m p tl -> Forall on_sized tl.
Proof. intros (a & r1 & r2 & ->). now repeat constructor. Qed.

Lemma on_sized_polls i cb rs : sized cb -> Forall on_sized (polls i cb rs).
Proof. intros H. induction rs as [|r rs IH]; constructor; [exact H|exact IH]. Qed.

Lemma for_body_pool bl_list i (s : state) c s' :
  for_body os EINPROGRESS rfd wfd len bl_list i s = (c, s') ->
  pool_kept s s'.
Proof.
  intros H. apply for_body_sound in H.
  destruct H as [Hi|cb Hi Hr Hw|cb r c s' Hi Hr Hge Hu ->
                |cb r tl s' Hi Hr Hneg Hc Hu|cb r s' Hi Hr Hw He Hu
                |cb r r2 tl s' Hi Hr Hw He Hneg Hc Hu
                |cb r r2 r3 tl s' Hi Hr Hw He Hge Hneg Hc Hu
                |cb r r2 r3 s' Hi Hr Hw He Hge Hge3 Hu];
    try apply pool_kept_refl.
  all: split; [destruct Hu as (_ & -> & _);
               try (apply (map_insert_same _ _ _ cb); [done|]);
               try apply buf_assign; done|].
  all: intros Hs; pose proof (sized_lookup _ _ _ Hi Hs) as Hcb.
  all: split; [destruct Hu as (_ & -> & _);
               try (eapply sized_insert; [exact Hi| |done]; intros _);
               try apply sized_assign; done|].
  all: destruct Hu as (T & _); eexists; split; [exact T|].
  all: try (apply on_sized_cleanup in Hc).
  all: repeat (constructor; try (simpl; try apply sized_assign; done)).
  all: done.
Qed.

Lemma for_loop_pool (body : nat -> state -> ctl * state) :
  (forall i s c s', body i s = (c, s') -> pool_kept s s') ->
  forall n i s c s', for_loop body n i s = (c, s') -> pool_kept s s'.
Proof.
  intros Hbody n. induction n as [|n IH]; intros i s c s'; simpl.
  - intros [= <- <-]. apply pool_kept_refl.
  - destruct (body i s) as [c1 s1] eqn:E1. apply Hbody in E1.
    destruct c1; try (intros [= <- <-]; exact E1).
    intros H. eapply pool_kept_trans; eauto.
Qed.

Lemma call_pool c (s : state) r s' :
  neutral (c, r) -> call os c s = (r, s') -> pool_kept s s'.
Proof.
  intros Hn H. apply call_upd in H. eapply pool_kept_upd; eauto.
  constructor; [|done]. now destruct c.
Qed.

Lemma printf_pool m a (s : state) : pool_kept s (printf os m a s).
Proof.
  unfold printf. destruct (call os _ s) as [r s1] eqn:E.
  now apply call_pool in E.
Qed.

Lemma free_pool p (s : state) : pool_kept s (free_bl_list os p s).
Proof.
  unfold free_bl_list. destruct (call os _ s) as [r s1] eqn:E.
  now apply call_pool in E.
Qed.

Lemma main_loop_pool bl_list fuel (s : state) c s' :
  main_loop os EINPROGRESS rfd wfd len bl_list fuel s = (c, s') ->
  pool_kept s s'.
Proof.
  revert s. induction fuel as [|fuel IH]; intros s; simpl;
    (destruct (to_size_t (off s) <? len);
     [|intros [= <- <-]; apply pool_kept_refl]).
  - intros [= <- <-]. apply pool_kept_refl.
  - destruct (for_loop _ _ _ (set_nread 0 s)) as [c1 s1] eqn:E1.
    apply (for_loop_pool _ (for_body_pool bl_list)) in E1.
    assert (pool_kept s s1) as K1 by exact E1.
    assert ((let '(err, s) :=
         if nread s1 =? 0
         then let '(r, s) :=
                call os (SysAioSuspend bl_list (length (bl s1))) s1 in
              (ret_of r, s)
         else (0, s1) in
       if err <? 0
       then (Return (-1),
             free_bl_list os bl_list
               (printf os MsgSuspendFailed [errno s; errno s] s))
       else main_loop os EINPROGRESS rfd wfd len bl_list fuel s) = (c, s') ->
      pool_kept s s') as Hrest.
    { destruct (nread s1 =? 0).
      - destruct (call os _ s1) as [r s2] eqn:E2.
        apply call_pool in E2; [|done].
        destruct (ret_of r <? 0).
        + intros [= <- <-].
          eapply pool_kept_trans; [exact K1|].
          eapply pool_kept_trans; [exact E2|].
          eapply pool_kept_trans; [apply printf_pool|apply free_pool].
        + intros H. apply IH in H.
          eapply pool_kept_trans; [exact K1|].
          eapply pool_kept_trans; eauto.
      - simpl. intros H. apply IH in H. eapply pool_kept_trans; eauto. }
    destruct c1 as [| |v|]; try done; now intros [= <- <-].
Qed.

Lemma drain_body_pool fuel i (s : state) c s' :
  drain_body os EINPROGRESS wfd fuel i s = (c, s') -> pool_kept s s'.
Proof.
  intros H. apply drain_body_sound in H.
  destruct H as [Hi|cb Hi Hw|cb rs s' Hi Hw Hrs Hu
                |cb rs r r2 a r3 s' Hi Hw Hrs He Hneg Hu
                |cb rs r r2 s' Hi Hw Hrs He Hge Hu];
    try apply pool_kept_refl.
  all: split; [destruct Hu as (_ & -> & _); done|].
  all: intros Hs; pose proof (sized_lookup _ _ _ Hi Hs) as Hcb.
  all: split; [destruct Hu as (_ & -> & _); done|].
  all: destruct Hu as (T & _); eexists; split; [exact T|].
  all: try (apply Forall_app_2); try (now apply on_sized_polls).
  all: now repeat constructor.
Qed.

Lemma flush_pool (s : state) o s' :
  flush os wfd s = (o, s') -> pool_kept s s'.
Proof.
  unfold flush. destruct (call os _ s) as [r s1] eqn:E1.
  apply call_pool in E1; [|done].
  destruct (negb (ret_of r =? 0)); intros [= <- <-]; [|done].
  eapply pool_kept_trans; [exact E1|].
  apply (pool_kept_trans _ (printf os MsgFlushFailed [ret_of r; ret_of r] s1));
    [apply printf_pool|].
  split; [done|]. intros Hs. split; [done|]. exists [].
  now rewrite app_nil_r.
Qed.

(** A run of [shred_from] leaves every slot its buffer, and lengths that
    are not negative stay so. *)
Lemma shred_from_pool fuel (s : state) o s' :
  shred_from os EINPROGRESS sizeof_ptr rfd wfd len fuel s = (o, s') ->
  pool_kept s s'.
Proof.
  unfold shred_from, get_bl_list_from_array.
  set (s0 := set_total 0 (set_off 0 s)).
  assert (pool_kept s s0) as K0.
  { split; [done|]. intros Hs. split; [done|]. exists [].
    now rewrite app_nil_r. }
  change (length (bl s0)) with (length (bl s)).
  destruct (call os _ s0) as [r1 s1] eqn:E1. apply call_pool in E1; [|done].
  destruct (_ && _); cbv beta iota.
  { intros [= <- <-]. eapply pool_kept_trans; [exact K0|exact E1]. }
  destruct (main_loop _ _ _ _ _ _ _ s1) as [c2 s2] eqn:E2.
  apply main_loop_pool in E2.
  assert (pool_kept s s2) as K2.
  { eapply pool_kept_trans; [exact K0|]. eapply pool_kept_trans; eauto. }
  destruct c2 as [| |v|]; try (now intros [= <- <-]).
  all: pose proof (free_pool (ptr_of r1) s2) as K3.
  all: set (s3 := free_bl_list os (ptr_of r1) s2) in *.
  all: destruct (for_loop _ _ _ s3) as [c4 s4] eqn:E4.
  all: apply (for_loop_pool _ (drain_body_pool fuel)) in E4.
  all: assert (pool_kept s s4) as K4
      by (eapply pool_kept_trans; [exact K2|];
          eapply pool_kept_trans; eauto).
  all: destruct c4 as [| |v|]; try (now intros [= <- <-]).
  all: intros H; apply flush_pool in H; eapply pool_kept_trans; eauto.
Qed.

End Pools.

(** ** The pieces of the target *)

(** Ranges that tile from the [j]th piece on, each as long as its place
    allows, are the pieces themselves. *)
Lemma tiles_chunks C len j rs e :
  1 <= C -> tiles (Z.of_nat j * C) rs e -> e <= len ->
  Forall (fun r => snd r = Z.min C (len - fst r)) rs ->
  rs = map (chunk C len) (seq j (length rs)) /\
  (rs <> [] -> (Z.of_nat j + Z.of_nat (length rs) - 1) * C < len) /\
  (e = len -> Z.of_nat (length rs) = (len - Z.of_nat j * C + C - 1) / C).
Proof.
  intros HC. revert j.
  induction rs as [|[o n] rs IH]; intros j; simpl.
  - intros <- Hle _. split; [done|]. split; [done|]. intros <-.
    replace (Z.of_nat j * C - Z.of_nat j * C + C - 1) with (C - 1) by lia.
    rewrite Z.div_small; lia.
  - intros (-> & Hn & Ht) Hle Hl. apply Forall_cons in Hl as [H1 Hl].
    simpl in H1. pose proof (tiles_le _ _ _ Ht) as Hge.
    destruct rs as [|[o2 n2] rs].
    + simpl in *. subst e. split; [unfold chunk; now rewrite H1|].
      split; [lia|]. intros <-.
      apply (Z.div_unique _ _ _ (n - 1)); lia.
    + assert (n = C) as ->.
      { destruct Ht as (-> & Hn2 & Ht). apply tiles_le in Ht. lia. }
      replace (Z.of_nat j * C + C) with (Z.of_nat (S j) * C) in Ht
        by (rewrite Nat2Z.inj_succ; lia).
      destruct (IH (S j) Ht Hle Hl) as (Hrs & Hlt & Hcnt).
      split; [|split].
      * rewrite <- Hrs. unfold chunk. now rewrite <- H1.
      * intros _. specialize (Hlt ltac:(done)).
        rewrite !Nat2Z.inj_succ in *. lia.
      * intros He. specialize (Hcnt He).
        rewrite !Nat2Z.inj_succ in *.
        replace (len - Z.of_nat j * C + C - 1)
          with ((len - Z.succ (Z.of_nat j) * C + C - 1) + 1 * C) by lia.
        rewrite Z.div_add by lia. lia.
Qed.

Section Pieces.

Context {World : Type}.
Variable os : syscall -> World -> resp * World.
Variables (EINPROGRESS sizeof_ptr : Z).

(** X3.  The ranges handed to [aio_write] are the first pieces of the
    target cut into pieces of [C] bytes, in their order: the [k]th write
    starts at [k * C] and is [min C (len - k * C)] bytes long.  There are
    never more of them than [ceil (len / C)], and there are that many in a
    run that returns through the last [return]. *)
Theorem dispatch_canonical rfd wfd len C fuel (s : state World) o s' :
  rfd <> wfd -> 0 <= len < two63 -> 1 <= C < two64 ->
  primed rfd C (bl s) ->
  shred_from os EINPROGRESS sizeof_ptr rfd wfd len fuel s = (o, s') ->
  exists evs n, trace s' = trace s ++ evs /\
    dispatched evs = map (chunk C len) (seq 0 n) /\
    (n <= chunks C len)%nat /\
    (forall v, o = Some v -> v <> -1 -> n = chunks C len).
Proof.
  intros Hfd Hlen HC Hp H.
  destruct (shred_from_run os EINPROGRESS sizeof_ptr rfd wfd len C
              Hfd Hlen HC fuel s o s' Hp H) as (evs & Hw & Ho).
  destruct Hw as [Wt _ _ (e & He & Ht) Wl _ _ _ _ _].
  exists evs, (length (dispatched evs)). split; [done|].
  destruct (tiles_chunks C len 0 (dispatched evs) e ltac:(lia) Ht He Wl)
    as (Hrs & Hlt & _).
  split; [done|]. split.
  - unfold chunks. destruct (dispatched evs) as [|r rs] eqn:Hd; [simpl; lia|].
    specialize (Hlt ltac:(done)).
    assert (Z.of_nat (length (r :: rs)) <= (len + C - 1) / C); [|lia].
    apply Z.div_le_lower_bound; lia.
  - intros v -> Hv. destruct Ho as [?|(_ & Ht' & _)]; [done|].
    destruct (tiles_chunks C len 0 (dispatched evs) len ltac:(lia) Ht'
                ltac:(lia) Wl) as (_ & _ & Hcnt).
    specialize (Hcnt eq_refl). unfold chunks.
    replace (len - Z.of_nat 0 * C + C - 1) with (len + C - 1) in Hcnt by lia.
    lia.
Qed.

End Pieces.

(** ** The list of control blocks *)

Lemma loop_call_list p evs :
  Forall (loop_call p) evs ->
  Forall (fun ev => ~ is_free ev /\ waits_on p ev) evs.
Proof.
  intros H. eapply Forall_impl; [exact H|]. intros [c r].
  destruct c; simpl; tauto.
Qed.

Lemma drain_call_list evs :
  Forall drain_call evs ->
  Forall (fun ev => ~ is_free ev /\ ~ is_suspend ev) evs.
Proof.
  intros H. eapply Forall_impl; [exact H|]. intros [c r].
  destruct c; simpl; tauto.
Qed.

Section List.

Context {World : Type}.
Variable os : syscall -> World -> resp * World.
Variables (EINPROGRESS sizeof_ptr : Z).

(** X4.  A run of [shred_from] first allocates the list of [nbl]
    pointers.  Every [aio_suspend] waits on that list and comes before its
    release; the list is released once in a run that returns, on the error
    paths as on the last one, and never twice; nothing else is
    released. *)
Theorem list_freed_once rfd wfd len fuel (s : state World) o s' :
  shred_from os EINPROGRESS sizeof_ptr rfd wfd len fuel s = (o, s') ->
  exists r1 pre post,
    trace s' =
      trace s ++
      (SysMalloc (Z.of_nat (length (bl s)) * sizeof_ptr), r1) ::
      pre ++ post /\
    Forall (fun ev => ~ is_free ev /\ waits_on (ptr_of r1) ev) pre /\
    match post with
    | [] => o = None
    | ev :: post' =>
        (exists r2, ev = (SysFree (ptr_of r1), r2)) /\
        Forall (fun ev => ~ is_free ev /\ ~ is_suspend ev) post'
    end.
Proof.
  intros H.
  destruct (shred_from_shape _ _ _ _ _ _ _ _ _ _ H)
    as (r1 & evs & T & _ & Hs & _).
  exists r1.
  destruct Hs as [Hk
                 |body Hb
                 |evs (body & c & r & m & a & r2 & r3 & -> & Hb & Hr & Hw & Hm)
                 |body r2 drain Hb Hd
                 |body r2 drain Hb (pre & i & cb & r & a & r3 & -> & Hd & Hr)
                 |body r2 drain r r3 Hb Hd Hr
                 |body r2 drain r v Hb Hd Hr].
  - exists [], []. split_and!; try done.
  - exists body, []. rewrite app_nil_r.
    split_and!; try done. now apply loop_call_list.
  - exists (body ++ [(c, r); (SysPrintf m a, r2)]), [(SysFree (ptr_of r1), r3)].
    split; [rewrite T, <- !app_assoc; done|]. split.
    + apply Forall_app_2; [now apply loop_call_list|].
      destruct Hr as [_ Hr]. repeat constructor; simpl; try tauto.
      all: destruct c; simpl in *; tauto.
    + split; [eauto|constructor].
  - exists body, ((SysFree (ptr_of r1), r2) :: drain).
    split_and!; try done; [now apply loop_call_list|eauto|].
    now apply drain_call_list.
  - exists body, ((SysFree (ptr_of r1), r2) ::
                  pre ++ [(SysAioReturn i cb, r);
                          (SysPrintf MsgFinalWriteCompletionError a, r3)]).
    split_and!; try done; [now apply loop_call_list|eauto|].
    apply Forall_app_2; [now apply drain_call_list|].
    repeat constructor; simpl; tauto.
  - exists body, ((SysFree (ptr_of r1), r2) ::
                  drain ++ [(SysFsync wfd, r);
                            (SysPrintf MsgFlushFailed [ret_of r; ret_of r], r3)]).
    split_and!; try done; [now apply loop_call_list|eauto|].
    apply Forall_app_2; [now apply drain_call_list|].
    repeat constructor; simpl; tauto.
  - exists body, ((SysFree (ptr_of r1), r2) :: drain ++ [(SysFsync wfd, r)]).
    split_and!; try done; [now apply loop_call_list|eauto|].
    apply Forall_app_2; [now apply drain_call_list|].
    repeat constructor; simpl; tauto.
Qed.

End List.

(** ** Errors and their messages *)

Lemma loop_call_quiet p evs :
  Forall (loop_call p) evs -> Forall (fun ev => ~ is_printf ev) evs.
Proof.
  intros H. eapply Forall_impl; [exact H|]. intros [c r]. now destruct c.
Qed.

Lemma drain_call_quiet evs :
  Forall drain_call evs -> Forall (fun ev => ~ is_printf ev) evs.
Proof.
  intros H. eapply Forall_impl; [exact H|]. intros [c r]. now destruct c.
Qed.

Section Messages.

Context {World : Type}.
Variable os : syscall -> World -> resp * World.
Variables (EINPROGRESS sizeof_ptr : Z).

(** X10.  A run of [shred_from] that returns has either printed nothing
    and ended with an [fsync] that returned 0, or it returns -1 and has
    printed one message, right after the call that failed and before
    nothing but the release of the list.  The message is the one of that
    call, and its arguments are the [errno] that the call has set; only
    the message of the flush shows the value that [fsync] returned
    instead. *)
Theorem errors_are_announced rfd wfd len fuel (s : state World) v s' :
  shred_from os EINPROGRESS sizeof_ptr rfd wfd len fuel s = (Some v, s') ->
  exists r1 evs,
    trace s' =
      trace s ++
      (SysMalloc (Z.of_nat (length (bl s)) * sizeof_ptr), r1) :: evs /\
    ((Forall (fun ev => ~ is_printf ev) evs /\
      exists r, last evs = Some (SysFsync wfd, r) /\ ret_of r = 0) \/
     (v = -1 /\
      exists pre c r m a rp tl,
        evs = pre ++ (c, r) :: (SysPrintf m a, rp) :: tl /\
        Forall (fun ev => ~ is_printf ev) pre /\
        announces wfd c r m a /\
        (tl = [] \/ exists r2, tl = [(SysFree (ptr_of r1), r2)]))).
Proof.
  intros H.
  destruct (shred_from_shape _ _ _ _ _ _ _ _ _ _ H)
    as (r1 & evs & T & _ & Hs & _).
  exists r1, evs. split; [done|].
  inversion Hs as [
                 |
                 |evs' (body & c & r & m & a & r2 & r3 & -> & Hb & Hr & Hw & Hm)
                 |
                 |body r2 drain Hb (pre & i & cb & r & a & r3 & -> & Hd & Hr)
                 |body r2 drain r r3 Hb Hd Hr
                 |body r2 drain r v' Hb Hd Hr]; subst.
  - right. split; [done|].
    exists body, c, r, m, a, r2, [(SysFree (ptr_of r1), r3)].
    split_and!; try done; [now apply (loop_call_quiet (ptr_of r1))| |eauto].
    destruct Hr as [Hneg Hr]. destruct c; try done.
  - right. split; [done|].
    exists (body ++ (SysFree (ptr_of r1), r2) :: pre), (SysAioReturn i cb), r,
      MsgFinalWriteCompletionError, a, r3, [].
    split_and!; try done; [|apply Forall_app_2|eauto].
    + repeat (rewrite <- ?app_assoc; simpl). done.
    + now apply (loop_call_quiet (ptr_of r1)).
    + constructor; [simpl; tauto|]. now apply drain_call_quiet.
  - right. split; [done|].
    exists (body ++ (SysFree (ptr_of r1), r2) :: drain), (SysFsync wfd), r,
      MsgFlushFailed, [ret_of r; ret_of r], r3, [].
    split_and!; try done; [|apply Forall_app_2|eauto].
    + repeat (rewrite <- ?app_assoc; simpl). done.
    + now apply (loop_call_quiet (ptr_of r1)).
    + constructor; [simpl; tauto|]. now apply drain_call_quiet.
  - left. split.
    + apply Forall_app_2; [now apply (loop_call_quiet (ptr_of r1))|].
      constructor; [simpl; tauto|].
      apply Forall_app_2; [now apply drain_call_quiet|].
      repeat constructor; simpl; tauto.
    + exists r. split; [|done].
      rewrite app_comm_cons, app_assoc. apply last_snoc.
Qed.

End Messages.

(** ** The state of a run at the flush *)

Section FlushState.

Context {World : Type}.
Variable os : syscall -> World -> resp * World.
Variables (EINPROGRESS sizeof_ptr : Z).

(** X5.  [fsync] is called on the target only, at most once, and only
    when every byte range has been written and collected: the ranges
    handed to [aio_write] before it tile [0, len), no completion has
    reported an error, the lengths of the collected writes sum to [len],
    and every slot is idle again, so that no write is outstanding.  When
    [fsync] returns 0 the run returns the sum of the counts that the
    completions reported, and nothing is called after it. *)
Theorem flush_after_all_writes rfd wfd len C fuel (s : state World) o s'
    pre fd r tl :
  rfd <> wfd -> 0 <= len < two63 -> 1 <= C < two64 ->
  primed rfd C (bl s) ->
  shred_from os EINPROGRESS sizeof_ptr rfd wfd len fuel s = (o, s') ->
  trace s' = trace s ++ pre ++ (SysFsync fd, r) :: tl ->
  fd = wfd /\
  Forall (fun ev => ~ is_fsync ev) (pre ++ tl) /\
  tiles 0 (dispatched pre) len /\
  Forall (fun ev => ~ failed_completion ev) pre /\
  requested pre = len /\
  protocol EINPROGRESS (replicate (length (bl s)) Idle) pre =
    Some (replicate (length (bl s)) Idle) /\
  (ret_of r = 0 ->
     tl = [] /\ o = Some (to_ssize_t (to_size_t (confirmed pre)))).
Proof.
  intros Hfd Hlen HC Hp H T.
  destruct (shred_from_settled os EINPROGRESS sizeof_ptr rfd wfd len C
              Hfd Hlen HC fuel s o s' pre fd r tl Hp H T)
    as (-> & (Ht & Hn & Hr & Hpr) & Hf & Hok & Hbad).
  split_and!; try done.
  apply Forall_app_2; [done|].
  destruct (Z.eq_dec (ret_of r) 0) as [He|Hne].
  - destruct (Hok He) as [-> _]. constructor.
  - destruct (Hbad Hne) as (_ & _ & r3 & ->). repeat constructor. simpl. tauto.
Qed.

End FlushState.

(** ** The empty pool *)

Section EmptyPool.

Context {World : Type}.
Variable os : syscall -> World -> resp * World.
Variables (EINPROGRESS sizeof_ptr : Z).
Variables (rfd wfd len : Z).
Hypothesis Hlen : 0 < len.

Lemma main_loop_empty p fuel (s : state World) c s' :
  bl s = [] -> off s = 0 ->
  main_loop os EINPROGRESS rfd wfd len p fuel s = (c, s') ->
  exists rs, Forall (fun r => 0 <= ret_of r) rs /\
    ((c = Diverge /\ length rs = fuel /\
      trace s' = trace s ++ waits p rs) \/
     (c = Return (-1) /\
      exists r a rp rf, ret_of r < 0 /\
        trace s' = trace s ++ waits p rs ++
          [(SysAioSuspend p 0, r); (SysPrintf MsgSuspendFailed a, rp);
           (SysFree p, rf)])).
Proof.
  revert s. induction fuel as [|fuel IH]; intros s Hbl Ho; simpl;
    rewrite Ho; change (to_size_t 0) with 0;
    (destruct (Z.ltb_spec 0 len); [|lia]).
  - intros [= <- <-]. exists []. split; [constructor|]. left.
    simpl. now rewrite app_nil_r.
  - simpl. rewrite !Hbl. simpl. rewrite ?Hbl. simpl.
    destruct (call os (SysAioSuspend p 0) (set_nread 0 s)) as [r s1] eqn:E1.
    destruct (call_event _ _ _ _ _ E1) as (T1 & _). simpl in T1.
    apply call_upd in E1. destruct E1 as (_ & B1 & O1 & _). simpl in *.
    destruct (Z.ltb_spec (ret_of r) 0) as [Hlt|Hge].
    + intros [= <- <-]. exists []. split; [constructor|]. right.
      split; [done|].
      destruct (printf_event os MsgSuspendFailed [errno s1; errno s1] s1)
        as (rp & Tp & _).
      destruct (free_event os p
                  (printf os MsgSuspendFailed [errno s1; errno s1] s1))
        as (rf & Tf & _).
      exists r, [errno s1; errno s1], rp, rf. split; [done|].
      rewrite Tf, Tp, T1. simpl. now rewrite <- !app_assoc.
    + intros Hm. destruct (IH s1 ltac:(congruence) ltac:(congruence) Hm)
        as (rs & Hrs & Hc).
      exists (r :: rs). split; [now constructor|].
      destruct Hc as [(-> & Hl & T)|(-> & r' & a & rp & rf & Hr' & T)].
      * left. split_and!; [done|simpl; lia|].
        rewrite T, T1. simpl. now rewrite <- app_assoc.
      * right. split; [done|]. exists r', a, rp, rf. split; [done|].
        rewrite T, T1. simpl. now rewrite <- !app_assoc.
Qed.

(** X6.  On a pool without slots and a target that is not empty,
    [shred_from] allocates a list of no pointers and then does nothing
    but wait on it: it submits no write and never comes to the flush.
    The run ends only when an [aio_suspend] fails, with -1; as long as
    the waits return, it goes on for ever, whatever the fuel. *)
Theorem empty_pool_only_waits fuel (s : state World) o s' :
  bl s = [] ->
  shred_from os EINPROGRESS sizeof_ptr rfd wfd len fuel s = (o, s') ->
  exists r1 rs, Forall (fun r => 0 <= ret_of r) rs /\
    ((o = None /\ length rs = fuel /\
      trace s' = trace s ++ (SysMalloc (0 * sizeof_ptr), r1) ::
                 waits (ptr_of r1) rs) \/
     (o = Some (-1) /\
      exists r a rp rf, ret_of r < 0 /\
        trace s' = trace s ++ (SysMalloc (0 * sizeof_ptr), r1) ::
          waits (ptr_of r1) rs ++
          [(SysAioSuspend (ptr_of r1) 0, r);
           (SysPrintf MsgSuspendFailed a, rp);
           (SysFree (ptr_of r1), rf)])).
Proof.
  intros Hbl. unfold shred_from, get_bl_list_from_array.
  set (s0 := set_total 0 (set_off 0 s)).
  change (length (bl s0)) with (length (bl s)). rewrite Hbl. simpl length.
  change (Z.of_nat 0) with 0.
  destruct (call os _ s0) as [r1 s1] eqn:E1.
  destruct (call_event _ _ _ _ _ E1) as (T1 & _). simpl in T1.
  apply call_upd in E1. destruct E1 as (_ & B1 & O1 & _). simpl in *.
  change (0 <? 0) with false. rewrite andb_false_r. cbv beta iota.
  destruct (main_loop _ _ _ _ _ _ _ s1) as [c2 s2] eqn:E2.
  destruct (main_loop_empty _ _ _ _ _ (eq_trans B1 Hbl) O1 E2)
    as (rs & Hrs & [(-> & Hl & T)|(-> & r & a & rp & rf & Hr & T)]);
    intros [= <- <-]; exists r1, rs; (split; [done|]).
  - left. split_and!; try done. rewrite T, T1. now rewrite <- app_assoc.
  - right. split; [done|]. exists r, a, rp, rf. split; [done|].
    rewrite T, T1. now rewrite <- app_assoc.
Qed.

End EmptyPool.

(** ** The runs of [shred] *)

Lemma priming_snoc randfd SN i rs rm rr :
  priming randfd SN i (rs ++ [(rm, rr)]) =
  priming randfd SN i rs ++
  [(SysMalloc buf_size, rm);
   (SysRead (i + length rs) (slot_of randfd SN rm), rr)].
Proof.
  revert i. induction rs as [|[rm' rr'] rs IH]; intros i; simpl.
  - now rewrite Nat.add_0_r.
  - rewrite IH. now rewrite Nat.add_succ_r.
Qed.

Section ShredCalls.

Context {World : Type}.
Variable os : syscall -> World -> resp * World.
Variables (EINPROGRESS SIGEV_NONE O_RDONLY O_DIRECT DIOCGMEDIASIZE : Z).
Variables (sizeof_aiocb sizeof_ptr : Z).

Local Abbreviation state := (state World).

(** The calls of [get_size], the value it returns and the size it
    stores. *)
Lemma get_size_calls fd size (s : state) err sz s' :
  get_size os DIOCGMEDIASIZE fd size s = ((err, sz), s') ->
  exists gs c r,
    trace s' = trace s ++ gs /\ Forall (answered os) gs /\
    Forall (asks_size fd DIOCGMEDIASIZE) gs /\
    last gs = Some (c, r) /\ err = ret_of r /\
    bl s' = bl s /\
    (err <> 0 -> sz = size) /\
    (err = 0 -> sz = target_size gs /\
                Forall (fun ev => ret_of (snd ev) = 0) gs) /\
    ((gs = [(SysFstat fd, r)] /\
      (err = 0 -> forall n, r <> OkStat n true)) \/
     (exists n, gs = [(SysFstat fd, OkStat n true);
                      (SysIoctl fd DIOCGMEDIASIZE, r)])).
Proof.
  unfold get_size. destruct (call os (SysFstat fd) s) as [r s1] eqn:E1.
  destruct (call_event _ _ _ _ _ E1) as (T1 & A1 & _).
  apply call_upd in E1. destruct E1 as (_ & B1 & _).
  destruct (Z.eqb_spec (ret_of r) 0) as [He|Hne]; simpl.
  2:{ intros [= <- <- <-]. exists [(SysFstat fd, r)], (SysFstat fd), r.
      split_and!; try done; try (now repeat constructor); now left. }
  destruct r as [v| |n chr|n]; simpl in He; try done.
  - intros [= <- <- <-]. exists [(SysFstat fd, Ok v)], (SysFstat fd), (Ok v).
    split_and!; try done; try (now repeat constructor);
      try (now left); try (intros _; split; [done|now repeat constructor]).
  - destruct chr.
    + destruct (call os (SysIoctl fd DIOCGMEDIASIZE) s1) as [r2 s2] eqn:E2.
      destruct (call_event _ _ _ _ _ E2) as (T2 & A2 & _).
      apply call_upd in E2. destruct E2 as (_ & B2 & _).
      destruct (Z.eqb_spec (ret_of r2) 0) as [He2|Hne2]; simpl;
        intros [= <- <- <-];
        exists [(SysFstat fd, OkStat n true); (SysIoctl fd DIOCGMEDIASIZE, r2)],
          (SysIoctl fd DIOCGMEDIASIZE), r2.
      * split_and!; try done; try (now repeat constructor); try congruence;
          try (rewrite T2, T1, <- app_assoc; done); try (right; eauto; fail).
        intros _. split; [|now repeat constructor].
        destruct r2; done.
      * split_and!; try done; try (now repeat constructor); try congruence;
          try (rewrite T2, T1, <- app_assoc; done); try (right; eauto; fail).
    + intros [= <- <- <-].
      exists [(SysFstat fd, OkStat n false)], (SysFstat fd), (OkStat n false).
      split_and!; try done; try (now repeat constructor);
        try (now left); try (intros _; split; [done|now repeat constructor]).
  - intros [= <- <- <-].
    exists [(SysFstat fd, OkSize n)], (SysFstat fd), (OkSize n).
    split_and!; try done; try (now repeat constructor);
      try (now left); try (intros _; split; [done|now repeat constructor]).
Qed.

(** One pass of the priming loop. *)
Lemma prime_body_calls randfd i (s : state) c s' :
  (i < length (bl s))%nat ->
  prime_body os SIGEV_NONE randfd i s = (c, s') ->
  exists rm rr,
    bl s' = <[i := slot_of randfd SIGEV_NONE rm]> (bl s) /\
    Forall (answered os)
      [(SysMalloc buf_size, rm);
       (SysRead i (slot_of randfd SIGEV_NONE rm), rr)] /\
    match c with
    | Continue =>
        0 <= ret_of rr /\
        trace s' = trace s ++
          [(SysMalloc buf_size, rm);
           (SysRead i (slot_of randfd SIGEV_NONE rm), rr)]
    | Return v =>
        ret_of rr < 0 /\ v = errno s' /\
        (errno_convention os -> errno s' <> 0) /\
        exists rp,
          answered os (SysPrintf MsgFailedInitialRead [], rp) /\
          trace s' = trace s ++
            [(SysMalloc buf_size, rm);
             (SysRead i (slot_of randfd SIGEV_NONE rm), rr);
             (SysPrintf MsgFailedInitialRead [], rp)]
    | _ => False
    end.
Proof.
  intros Hi. unfold prime_body, bl_init.
  destruct (call os (SysMalloc buf_size) _) as [rm s1] eqn:E1.
  destruct (call_event _ _ _ _ _ E1) as (T1 & A1 & _).
  apply call_upd in E1. destruct E1 as (_ & B1 & _). simpl in T1, B1.
  set (s2 := store i _ (store i _ (store i _ s1))).
  assert (bl s2 = <[i := slot_of randfd SIGEV_NONE rm]> (bl s)) as B2.
  { subst s2. unfold store, set_bl. simpl. rewrite B1.
    now rewrite !list_insert_insert_eq. }
  assert (trace s2 = trace s ++ [(SysMalloc buf_size, rm)]) as T2 by exact T1.
  rewrite B2, list_lookup_insert_eq by done.
  destruct (call os (SysRead i _) s2) as [rr s3] eqn:E3.
  destruct (call_event _ _ _ _ _ E3) as (T3 & A3 & _).
  pose proof E3 as E3'. apply call_upd in E3'. destruct E3' as (_ & B3 & _).
  destruct (Z.ltb_spec (ret_of rr) 0) as [Hlt|Hge]; intros [= <- <-];
    exists rm, rr.
  - destruct (printf_event os MsgFailedInitialRead [] s3) as (rp & Tp & Ap & Ep).
    destruct (printf_upd os MsgFailedInitialRead [] s3) as (rp' & _ & Bp & _).
    split; [congruence|]. split; [now repeat constructor|].
    split_and!; try done.
    + intros Hos. apply Ep; [done|]. eapply errno_failed; eauto.
    + exists rp. split; [done|]. rewrite Tp, T3, T2, <- !app_assoc. done.
  - split; [congruence|]. split; [now repeat constructor|].
    split; [done|]. rewrite T3, T2, <- app_assoc. done.
Qed.

(** The priming loop of [shred]. *)
Lemma priming_calls randfd (s : state) c s' :
  length (bl s) = blcnt ->
  for_loop (prime_body os SIGEV_NONE randfd) blcnt 0 s = (c, s') ->
  exists rs,
    Forall (fun x => 0 <= ret_of (snd x)) rs /\
    match c with
    | Continue =>
        length rs = blcnt /\
        trace s' = trace s ++ priming randfd SIGEV_NONE 0 rs /\
        Forall (answered os) (priming randfd SIGEV_NONE 0 rs) /\
        bl s' = map (fun x => slot_of randfd SIGEV_NONE (fst x)) rs
    | Return v =>
        (length rs < blcnt)%nat /\ v = errno s' /\
        (errno_convention os -> errno s' <> 0) /\
        exists rm rr rp,
          ret_of rr < 0 /\
          trace s' = trace s ++
            priming randfd SIGEV_NONE 0 (rs ++ [(rm, rr)]) ++
            [(SysPrintf MsgFailedInitialRead [], rp)] /\
          Forall (answered os)
            (priming randfd SIGEV_NONE 0 (rs ++ [(rm, rr)]) ++
             [(SysPrintf MsgFailedInitialRead [], rp)])
    | _ => False
    end.
Proof.
  intros Hl H.
  pose proof (for_loop_rule (prime_body os SIGEV_NONE randfd) blcnt
    (fun i s1 => exists rs,
       length rs = i /\ Forall (fun x => 0 <= ret_of (snd x)) rs /\
       trace s1 = trace s ++ priming randfd SIGEV_NONE 0 rs /\
       Forall (answered os) (priming randfd SIGEV_NONE 0 rs) /\
       length (bl s1) = blcnt /\
       take i (bl s1) = map (fun x => slot_of randfd SIGEV_NONE (fst x)) rs)
    (fun c s1 => match c with
       | Return v => exists rs,
           Forall (fun x => 0 <= ret_of (snd x)) rs /\
           (length rs < blcnt)%nat /\ v = errno s1 /\
           (errno_convention os -> errno s1 <> 0) /\
           exists rm rr rp,
             ret_of rr < 0 /\
             trace s1 = trace s ++
               priming randfd SIGEV_NONE 0 (rs ++ [(rm, rr)]) ++
               [(SysPrintf MsgFailedInitialRead [], rp)] /\
             Forall (answered os)
               (priming randfd SIGEV_NONE 0 (rs ++ [(rm, rr)]) ++
                [(SysPrintf MsgFailedInitialRead [], rp)])
       | _ => False
       end)) as Hrule.
  specialize (Hrule ltac:(
    intros i s1 c1 s1' Hi (rs & Hlen & Hok & T & A & L & B) E;
    destruct (prime_body_calls randfd i s1 c1 s1' ltac:(lia) E)
      as (rm & rr & B' & A' & Hc);
    destruct c1 as [| |v|]; try done;
    [destruct Hc as [Hge T'];
     exists (rs ++ [(rm, rr)]); rewrite priming_snoc, Hlen; simpl;
     split_and!;
     [rewrite length_app; simpl; lia
     |apply Forall_app_2; [done|now repeat constructor]
     |rewrite T', T, <- app_assoc; done
     |now apply Forall_app_2
     |now rewrite B', length_insert
     |rewrite (take_S_r _ i (slot_of randfd SIGEV_NONE rm))
        by (rewrite B'; apply list_lookup_insert_eq; lia);
      rewrite B', take_insert_ge, B, map_app by lia; done]
    |destruct Hc as (Hlt & -> & He & rp & Ap & T');
     exists rs; split_and!; try done; [lia|];
     exists rm, rr, rp; rewrite priming_snoc, Hlen; simpl;
     split_and!; try done;
     [rewrite T', T, <- !app_assoc; done
     |rewrite <- app_assoc; apply Forall_app_2; [done|];
      apply Forall_app_2; [done|now repeat constructor]]])).
  assert (exists rs : list (resp * resp),
       length rs = 0%nat /\ Forall (fun x => 0 <= ret_of (snd x)) rs /\
       trace s = trace s ++ priming randfd SIGEV_NONE 0 rs /\
       Forall (answered os) (priming randfd SIGEV_NONE 0 rs) /\
       length (bl s) = blcnt /\
       take 0 (bl s) = map (fun x => slot_of randfd SIGEV_NONE (fst x)) rs)
    as H0.
  { exists []. simpl. rewrite app_nil_r. now repeat split. }
  specialize (Hrule blcnt 0%nat s c s' eq_refl H0 H).
  destruct c as [| |v|]; try done.
  destruct Hrule as (rs & Hlen & Hok & T & A & L & B).
  exists rs. split_and!; try done. now rewrite take_ge in B by lia.
Qed.

(** The loop of [shred] that frees the buffers. *)
Lemma free_loop_calls n i (s : state) c s' :
  (i + n <= length (bl s))%nat ->
  for_loop (free_body os) n i s = (c, s') ->
  exists rfs, length rfs = n /\ bl s' = bl s /\
    trace s' = trace s ++ frees (take n (drop i (bl s))) rfs /\
    Forall (answered os) (frees (take n (drop i (bl s))) rfs).
Proof.
  revert i s. induction n as [|n IH]; intros i s Hi; simpl.
  - intros [= <- <-]. exists []. unfold frees. simpl.
    rewrite app_nil_r. now repeat split.
  - unfold free_body at 1.
    destruct (bl s !! i) as [cb|] eqn:Hcb;
      [|apply lookup_ge_None in Hcb; lia].
    destruct (call os (SysFree (aio_buf cb)) s) as [r s1] eqn:E1.
    destruct (call_event _ _ _ _ _ E1) as (T1 & A1 & _).
    apply call_upd in E1. destruct E1 as (_ & B1 & _). simpl.
    intros H. destruct (IH (S i) s1 ltac:(rewrite B1; lia) H)
      as (rfs & Hl & B & T & A).
    exists (r :: rfs). rewrite (drop_S _ _ _ Hcb). simpl.
    split_and!; [lia|congruence| |].
    + rewrite T, T1, B1, <- app_assoc. done.
    + constructor; [done|]. now rewrite B1 in A.
Qed.

(** Every run of [shred] is one of the runs of [shred_run]. *)
Lemma shred_runs fd fuel (s : state) o s' :
  shred os EINPROGRESS SIGEV_NONE O_RDONLY O_DIRECT DIOCGMEDIASIZE
    sizeof_aiocb sizeof_ptr fd fuel s = (o, s') ->
  shred_run os EINPROGRESS SIGEV_NONE O_RDONLY O_DIRECT DIOCGMEDIASIZE
    sizeof_aiocb sizeof_ptr fd fuel s o s'.
Proof.
  unfold shred.
  destruct (call os (SysOpen _ _) s) as [r0 s1] eqn:E0.
  destruct (call_event _ _ _ _ _ E0) as (T0 & A0 & He0).
  destruct (Z.ltb_spec (ret_of r0) 0) as [Hlt|Hge].
  { intros [= <- <-].
    destruct (printf_event os MsgCantOpenUrandom [errno s1] s1)
      as (rp & Tp & Ap & Ep).
    eapply shred_no_source with (r0 := r0) (a := [errno s1]) (rp := rp).
    - done.
    - intros e ->. now rewrite He0.
    - rewrite Tp, T0, <- app_assoc. done.
    - now repeat constructor.
    - intros Hos. apply Ep; [done|]. eapply errno_failed; eauto. }
  destruct (call os (SysMalloc _) s1) as [ra s2] eqn:Ea.
  destruct (call_event _ _ _ _ _ Ea) as (Ta & Aa & _).
  set (s2' := set_bl (replicate blcnt aiocb_zero) s2).
  destruct (call os SysGettimeofday s2') as [rg s3] eqn:Eg.
  destruct (call_event _ _ _ _ _ Eg) as (Tg & Ag & _).
  apply call_upd in Eg. destruct Eg as (_ & Bg & _). simpl in Tg, Bg.
  assert (trace s3 = trace s ++
    [(SysOpen "/dev/urandom" (Z.lor O_RDONLY O_DIRECT), r0);
     (SysMalloc (Z.of_nat blcnt * sizeof_aiocb), ra);
     (SysGettimeofday, rg)]) as T3.
  { rewrite Tg, Ta, T0, <- !app_assoc. done. }
  destruct (Z.eqb_spec (ptr_of ra) 0) as [Hk|Hk].
  { intros [= <- <-].
    eapply shred_killed with (r0 := r0) (ra := ra) (rg := rg); try done.
    unfold prologue. simpl. now repeat constructor. }
  destruct (for_loop _ _ _ s3) as [c4 s4] eqn:E4.
  destruct (priming_calls (ret_of r0) s3 c4 s4
              ltac:(rewrite Bg; reflexivity) E4) as (rs & Hok & Hc).
  destruct c4 as [| |v|]; try done.
  2:{ destruct Hc as (Hlen & -> & He & rm & rr & rp & Hrr & T & A).
      intros [= <- <-].
      eapply shred_priming_failed with (rs := rs) (rm := rm) (rr := rr);
        try done.
      - rewrite T, T3. unfold prologue.
        repeat (rewrite <- ?app_assoc; simpl). done.
      - unfold prologue. simpl. now repeat constructor. }
  destruct Hc as (Hlen & T4 & A4 & B4).
  destruct (get_size os DIOCGMEDIASIZE fd 0 s4) as [[err sz] s5] eqn:E5.
  destruct (get_size_calls _ _ _ _ _ _ E5)
    as (gs & c & r & T5 & A5 & G5 & L5 & -> & B5 & Hbad & Hgood & Hgs).
  assert (trace s5 = trace s ++ prologue SIGEV_NONE O_RDONLY O_DIRECT
            sizeof_aiocb r0 ra rg rs ++ gs) as T5'.
  { rewrite T5, T4, T3. unfold prologue.
    repeat (rewrite <- ?app_assoc; simpl). done. }
  assert (Forall (answered os)
            (prologue SIGEV_NONE O_RDONLY O_DIRECT sizeof_aiocb r0 ra rg rs
             ++ gs)) as A5'.
  { apply Forall_app_2; [|done]. unfold prologue. now repeat constructor. }
  destruct (Z.eqb_spec (ret_of r) 0) as [He|Hne]; cbn [negb].
  2:{ intros [= <- <-]. eapply shred_size_failed; eauto. }
  destruct (Hgood He) as [-> Hz].
  destruct (shred_from _ _ _ _ _ _ _ s5) as [o' s6] eqn:E6.
  intros H.
  eapply shred_ran with (s3 := s5) (o' := o') (s4 := s6); eauto;
    [destruct Hgs as [[-> Hr]|(m & ->)]; [left|right]; eauto|congruence|].
  revert H.
  destruct o' as [v|]; [|intros [= <- <-]; constructor].
  destruct (Z.ltb_spec v 0) as [Hv|Hv]; [intros [= <- <-]; now constructor|].
  destruct (call os (SysClose _) s6) as [rc s7] eqn:E7.
  destruct (call_event _ _ _ _ _ E7) as (T7 & A7 & _).
  apply call_upd in E7. destruct E7 as (_ & B7 & _).
  assert (length (bl s6) = blcnt) as L6.
  { destruct (shred_from_pool _ _ _ _ _ _ _ _ _ _ E6) as [Hb _].
    apply (f_equal length) in Hb. rewrite !length_map in Hb.
    rewrite Hb, B5, B4, length_map. done. }
  destruct (for_loop (free_body os) blcnt 0 s7) as [c8 s8] eqn:E8.
  destruct (free_loop_calls blcnt 0%nat s7 c8 s8
              ltac:(rewrite B7, L6; simpl; lia) E8)
    as (rfs & Lf & B8 & T8 & A8).
  rewrite drop_0, B7, take_ge in T8, A8 by lia.
  destruct (call os SysGettimeofday s8) as [rg2 s9] eqn:E9.
  destruct (call_event _ _ _ _ _ E9) as (T9 & A9 & _).
  destruct (printf_event os MsgSummary [v] s9) as (rp & Tp & Ap & _).
  intros [= <- <-].
  eapply end_done with (rc := rc) (rfs := rfs) (rg := rg2) (rp := rp);
    try done; [congruence| |].
  - rewrite Tp, T9, T8, T7. unfold epilogue.
    repeat (rewrite <- ?app_assoc; simpl). done.
  - unfold epilogue. constructor; [done|].
    apply Forall_app_2; [done|]. now repeat constructor.
Qed.

End ShredCalls.

(** ** What the calls of each part of a run show *)

Lemma last_Forall {A} (P : A -> Prop) (l : list A) x :
  Forall P l -> last l = Some x -> P x.
Proof.
  intros H Hl. apply last_Some in Hl as (l' & ->).
  apply Forall_app in H as [_ H]. now apply Forall_cons in H as [H _].
Qed.

Lemma last_app_Forall {A} (P : A -> Prop) (pre l : list A) x :
  l <> [] -> Forall P l -> last (pre ++ l) = Some x -> P x.
Proof.
  intros Hne H. rewrite last_app. destruct (last l) as [y|] eqn:Hl.
  - intros [= <-]. eapply last_Forall; eauto.
  - now apply last_None in Hl.
Qed.

Lemma last_two {A} (pre l : list A) x y z :
  last (pre ++ x :: l ++ [y; z]) = Some z.
Proof. rewrite last_app_cons, last_cons, last_app. done. Qed.

Lemma omap_none {A B} (f : A -> option B) (l : list A) :
  Forall (fun x => f x = None) l -> omap f l = [].
Proof. induction 1 as [|x l Hx _ IH]; simpl; [done|]. now rewrite Hx. Qed.

Lemma loop_call_pipeline p evs :
  Forall (loop_call p) evs -> Forall pipeline_call evs.
Proof.
  intros H. eapply Forall_impl; [exact H|]. intros [c r]. now destruct c.
Qed.

Lemma drain_call_pipeline evs :
  Forall drain_call evs -> Forall pipeline_call evs.
Proof.
  intros H. eapply Forall_impl; [exact H|]. intros [c r]. now destruct c.
Qed.

(** The calls of a run of [shred_from] after the first are calls of the
    pipeline. *)
Lemma run_shape_pipeline wfd p o evs :
  run_shape wfd p o evs -> Forall pipeline_call evs.
Proof.
  intros [Hk
         |body Hb
         |evs' (body & c & r & m & a & r2 & r3 & -> & Hb & [_ Hr] & Hw & Hm)
         |body r2 drain Hb Hd
         |body r2 drain Hb (pre & i & cb & r & a & r3 & -> & Hd & Hr)
         |body r2 drain r r3 Hb Hd Hr
         |body r2 drain r v Hb Hd Hr].
  - constructor.
  - now apply (loop_call_pipeline p).
  - apply Forall_app_2; [now apply (loop_call_pipeline p)|].
    repeat constructor; simpl; try done.
    + destruct c; try done.
    + destruct c, m; try done.
  - apply Forall_app_2; [now apply (loop_call_pipeline p)|].
    constructor; [done|]. now apply drain_call_pipeline.
  - apply Forall_app_2; [now apply (loop_call_pipeline p)|].
    constructor; [done|]. apply Forall_app_2; [now apply drain_call_pipeline|].
    now repeat constructor.
  - apply Forall_app_2; [now apply (loop_call_pipeline p)|].
    constructor; [done|]. apply Forall_app_2; [now apply drain_call_pipeline|].
    now repeat constructor.
  - apply Forall_app_2; [now apply (loop_call_pipeline p)|].
    constructor; [done|]. apply Forall_app_2; [now apply drain_call_pipeline|].
    now repeat constructor.
Qed.

Lemma pipeline_not_size evs :
  Forall pipeline_call evs -> Forall (fun ev => ~ is_size_call ev) evs.
Proof.
  intros H. eapply Forall_impl; [exact H|]. intros [c r]. now destruct c.
Qed.

Lemma pipeline_sizes evs : Forall pipeline_call evs -> sizes evs = [].
Proof.
  intros H. apply omap_none. eapply Forall_impl; [exact H|].
  intros [c r]. now destruct c.
Qed.

Lemma pipeline_opened evs : Forall pipeline_call evs -> opened evs = [].
Proof.
  intros H. apply omap_none. eapply Forall_impl; [exact H|].
  intros [c r]. now destruct c.
Qed.

Lemma pipeline_allocated evs : Forall pipeline_call evs -> allocated evs = [].
Proof.
  intros H. apply omap_none. eapply Forall_impl; [exact H|].
  intros [c r]. now destruct c.
Qed.

Lemma sizes_app l1 l2 : sizes (l1 ++ l2) = sizes l1 ++ sizes l2.
Proof. apply omap_app. Qed.

Lemma opened_app l1 l2 : opened (l1 ++ l2) = opened l1 ++ opened l2.
Proof. apply omap_app. Qed.

Lemma allocated_app l1 l2 :
  allocated (l1 ++ l2) = allocated l1 ++ allocated l2.
Proof. apply omap_app. Qed.

Lemma releases_app l1 l2 :
  Examples.releases (l1 ++ l2) = Examples.releases l1 ++ Examples.releases l2.
Proof. unfold Examples.releases. now rewrite map_app, List.filter_app. Qed.

(** The calls of the priming loop. *)
Lemma priming_kinds randfd SN i rs :
  sizes (priming randfd SN i rs) = [] /\
  opened (priming randfd SN i rs) = [] /\
  allocated (priming randfd SN i rs) = map (fun x => ptr_of (fst x)) rs /\
  Examples.releases (priming randfd SN i rs) = [] /\
  dispatched (priming randfd SN i rs) = [] /\
  completions (priming randfd SN i rs) = [] /\
  Forall (fun ev => ~ is_size_call ev) (priming randfd SN i rs) /\
  Forall (in_role randfd randfd) (priming randfd SN i rs).
Proof.
  revert i. induction rs as [|[rm rr] rs IH]; intros i; simpl.
  - now repeat split.
  - destruct (IH (S i)) as (H1 & H2 & H3 & H4 & H5 & H6 & H7 & H8).
    split_and!; try done.
    + now rewrite H3.
    + repeat constructor; simpl; try tauto; done.
    + repeat constructor; simpl; try tauto; done.
Qed.

Lemma priming_roles randfd wfd SN i rs :
  Forall (in_role randfd wfd) (priming randfd SN i rs).
Proof.
  revert i. induction rs as [|[rm rr] rs IH]; intros i; simpl.
  - constructor.
  - repeat constructor. apply IH.
Qed.

Lemma priming_not_failed randfd SN i rs :
  Forall (fun ev => ~ failed_completion ev) (priming randfd SN i rs).
Proof.
  revert i. induction rs as [|[rm rr] rs IH]; intros i; simpl.
  - constructor.
  - repeat constructor; simpl; try tauto. apply IH.
Qed.

(** The calls that ask for the size. *)
Lemma asks_size_kinds fd req gs :
  Forall (asks_size fd req) gs ->
  opened gs = [] /\ allocated gs = [] /\ Examples.releases gs = [] /\
  dispatched gs = [] /\ completions gs = [] /\ Forall neutral gs.
Proof.
  induction 1 as [|[c r] gs Hc _ (H1 & H2 & H3 & H4 & H5 & H6)];
    [now repeat split|].
  destruct c; try done; simpl; split_and!; try done; now constructor.
Qed.

(** The release of the buffers. *)
Lemma frees_kinds l rfs :
  length rfs = length l ->
  sizes (frees l rfs) = [] /\ opened (frees l rfs) = [] /\
  allocated (frees l rfs) = [] /\
  Examples.releases (frees l rfs) = map (fun cb => SysFree (aio_buf cb)) l /\
  Forall neutral (frees l rfs) /\
  Forall (fun ev => ~ is_size_call ev) (frees l rfs).
Proof.
  revert rfs. induction l as [|cb l IH]; intros [|r rfs]; simpl; try done.
  intros [= Hl]. destruct (IH rfs Hl) as (H1 & H2 & H3 & H4 & H5 & H6).
  unfold frees in *. simpl. split_and!; try done.
  - unfold Examples.releases in *. simpl. now rewrite H4.
  - now constructor.
  - constructor; [simpl; tauto|done].
Qed.

Lemma releases_none evs :
  Forall (fun ev => match fst ev with
                    | SysClose _ | SysFree _ => False
                    | _ => True
                    end) evs ->
  Examples.releases evs = [].
Proof.
  induction 1 as [|[c r] evs Hc _ IH]; [done|].
  unfold Examples.releases in *. simpl in *. now destruct c.
Qed.

Lemma loop_call_releases p evs :
  Forall (loop_call p) evs -> Examples.releases evs = [].
Proof.
  intros H. apply releases_none. eapply Forall_impl; [exact H|].
  intros [c r]. now destruct c.
Qed.

Lemma drain_call_releases evs :
  Forall drain_call evs -> Examples.releases evs = [].
Proof.
  intros H. apply releases_none. eapply Forall_impl; [exact H|].
  intros [c r]. now destruct c.
Qed.

Lemma priming_releases randfd SN i rs :
  Examples.releases (priming randfd SN i rs) = [].
Proof. now destruct (priming_kinds randfd SN i rs) as (_ & _ & _ & -> & _). Qed.

Lemma pipeline_not_summary evs :
  Forall pipeline_call evs ->
  Forall (fun ev => forall a rp, ev <> (SysPrintf MsgSummary a, rp)) evs.
Proof.
  intros H. eapply Forall_impl; [exact H|]. intros [c r] Hc a rp [= -> ->].
  now apply Hc.
Qed.

Section ShredProperties.

Context {World : Type}.
Variable os : syscall -> World -> resp * World.
Variables (EINPROGRESS SIGEV_NONE O_RDONLY O_DIRECT DIOCGMEDIASIZE : Z).
Variables (sizeof_aiocb sizeof_ptr : Z).

(** X1.  [get_size] calls [fstat], and then [ioctl] with the request
    [DIOCGMEDIASIZE] exactly when [fstat] has succeeded and shows a
    character device.  It returns what the last of its calls returned.
    It stores a size only when it returns 0: the media size when [ioctl]
    has stored one, the [st_size] of [fstat] otherwise; when it fails,
    [*size] is as it was.  It leaves the pool alone. *)
Theorem get_size_result fd size (s : state World) :
  let res := get_size os DIOCGMEDIASIZE fd size s in
  let err := fst (fst res) in
  let sz := snd (fst res) in
  let s' := snd res in
  exists gs c a,
    trace s' = trace s ++ gs /\ bl s' = bl s /\
    last gs = Some (c, a) /\ err = ret_of a /\
    (err <> 0 -> sz = size) /\
    (err = 0 -> sz = target_size gs) /\
    ((gs = [(SysFstat fd, a)] /\
      (err = 0 -> forall n, a <> OkStat n true)) \/
     (exists n, gs = [(SysFstat fd, OkStat n true);
                      (SysIoctl fd DIOCGMEDIASIZE, a)])).
Proof.
  intros res err sz s'.
  assert (get_size os DIOCGMEDIASIZE fd size s = ((err, sz), s')) as E.
  { subst err sz s' res. now destruct (get_size _ _ _ _ _) as [[? ?] ?]. }
  destruct (get_size_calls _ _ _ _ _ _ _ _ E)
    as (gs & c & a & T & _ & _ & L & He & B & Hbad & Hgood & Hs).
  exists gs, c, a. split_and!; try done. intros H0. now apply Hgood.
Qed.

(** X2.  The priming loop of [shred] gives every slot, one after the
    other, a buffer of 128 KiB from [malloc] and fills it with one [read]
    of 128 KiB from the random source; the pointer is used as [malloc]
    returns it.  The loop stops at the first [read] that returns a
    negative value, with one message, and [shred] returns [errno].  When
    it runs to its end, the pool has eight slots in the reading role
    whose buffers are the eight pointers, in the order of the
    allocations. *)
Theorem priming_fills_pool randfd (s : state World) c s' :
  for_loop (prime_body os SIGEV_NONE randfd) blcnt 0
    (set_bl (replicate blcnt aiocb_zero) s) = (c, s') ->
  exists rs,
    Forall (fun x => 0 <= ret_of (snd x)) rs /\
    match c with
    | Continue =>
        length rs = 8%nat /\
        trace s' = trace s ++ priming randfd SIGEV_NONE 0 rs /\
        bl s' = map (fun x => slot_of randfd SIGEV_NONE (fst x)) rs /\
        map aio_buf (bl s') = allocated (priming randfd SIGEV_NONE 0 rs) /\
        primed randfd (128 * 1024) (bl s')
    | Return v =>
        (length rs < 8)%nat /\ v = errno s' /\
        exists rm rr rp,
          ret_of rr < 0 /\
          trace s' = trace s ++
            priming randfd SIGEV_NONE 0 (rs ++ [(rm, rr)]) ++
            [(SysPrintf MsgFailedInitialRead [], rp)]
    | _ => False
    end.
Proof.
  intros H.
  destruct (priming_calls os SIGEV_NONE randfd
              (set_bl (replicate blcnt aiocb_zero) s) c s' eq_refl H)
    as (rs & Hok & Hc).
  exists rs. split; [done|]. destruct c as [| |v|]; try done.
  - destruct Hc as (Hl & T & _ & B). split_and!; try done.
    + destruct (priming_kinds randfd SIGEV_NONE 0 rs) as (_ & _ & -> & _).
      rewrite B, map_map. done.
    + rewrite B. unfold primed. apply Forall_forall.
      intros cb Hin. apply list_elem_of_In, in_map_iff in Hin.
      destruct Hin as (x & <- & _). done.
  - destruct Hc as (Hl & Hv & _ & rm & rr & rp & Hr & T & _).
    split_and!; try done. eauto.
Qed.

(** X9.  When the last call of a run of [shred] is one that asks for the
    size of the target, that call has failed and [shred] returns the
    value that the call returned, not [errno]: for a call that fails as
    system calls do, with -1 and the cause in [errno], [shred] returns
    -1. *)
Theorem size_error_code fd fuel (s : state World) o s' evs c r :
  shred os EINPROGRESS SIGEV_NONE O_RDONLY O_DIRECT DIOCGMEDIASIZE
    sizeof_aiocb sizeof_ptr fd fuel s = (o, s') ->
  trace s' = trace s ++ evs -> last evs = Some (c, r) ->
  is_size_call (c, r) ->
  o = Some (ret_of r) /\ ret_of r <> 0 /\
  asks_size fd DIOCGMEDIASIZE (c, r) /\
  (forall e, r = Fail e -> o = Some (-1)).
Proof.
  intros H T L Hc. apply shred_runs in H.
  destruct H as [r0 a rp s' Hr Ha T' A' He
                |r0 ra rg s' Hr Hk T' A'
                |r0 ra rg rs rm rr rp s' Hr Hk Hl Hok Hrr T' A' He
                |r0 ra rg rs gs c' r' s' Hr Hk Hl Hok G L' Hne T' A'
                |r0 ra rg rs gs s3 o' s4 o s' Hr Hk Hl Hok G Hgs Hz T3 A3 B3 E Hend].
  - rewrite T' in T. apply app_inv_head in T. subst evs.
    simpl in L. injection L as <- <-. done.
  - rewrite T' in T. apply app_inv_head in T. subst evs.
    simpl in L. injection L as <- <-. done.
  - rewrite T' in T. apply app_inv_head in T. subst evs.
    rewrite last_snoc in L. injection L as <- <-. done.
  - rewrite T' in T. apply app_inv_head in T. subst evs.
    rewrite last_app, L' in L. injection L as <- <-.
    split_and!; try done.
    + eapply (last_Forall _ gs); eauto.
    + now intros e ->.
  - exfalso.
    destruct (shred_from_shape _ _ _ _ _ _ _ _ _ _ E)
      as (r1 & sf & T4 & _ & Hs & _).
    apply run_shape_pipeline, pipeline_not_size in Hs.
    assert (Forall (fun ev => ~ is_size_call ev)
              ((SysMalloc (Z.of_nat (length (bl s3)) * sizeof_ptr), r1) :: sf))
      as Hsf by (constructor; [simpl; tauto|done]).
    destruct Hend as [|v Hv|v rc rfs rg2 rp s' Hv Lf T5 A5].
    + rewrite T4, T3, <- !app_assoc in T. apply app_inv_head in T. subst evs.
      rewrite app_assoc in L.
      eapply (last_app_Forall (fun ev => ~ is_size_call ev)) in L;
        [exact (L Hc)|done|exact Hsf].
    + rewrite T4, T3, <- !app_assoc in T. apply app_inv_head in T. subst evs.
      rewrite app_assoc in L.
      eapply (last_app_Forall (fun ev => ~ is_size_call ev)) in L;
        [exact (L Hc)|done|exact Hsf].
    + rewrite T5, T4, T3, <- !app_assoc in T. apply app_inv_head in T.
      subst evs. unfold epilogue in L.
      rewrite !app_assoc, last_two in L.
      injection L as <- <-. done.
Qed.

(** X12.  A run of [shred] that prints the summary returns 0, and it has
    released the list of [shred_from], the descriptor of the random
    source and the eight buffers, in this order, each of them once.  The
    array of the control blocks, which is allocated first, is not among
    what is released. *)
Theorem success_releases fd fuel (s : state World) o s' evs a rp :
  shred os EINPROGRESS SIGEV_NONE O_RDONLY O_DIRECT DIOCGMEDIASIZE
    sizeof_aiocb sizeof_ptr fd fuel s = (o, s') ->
  trace s' = trace s ++ evs ->
  last evs = Some (SysPrintf MsgSummary a, rp) ->
  o = Some 0 /\
  exists randfd array bufs list,
    opened evs = [randfd] /\
    allocated evs = array :: bufs ++ [list] /\ length bufs = 8%nat /\
    Examples.releases evs =
      SysFree list :: SysClose randfd :: map SysFree bufs.
Proof.
  intros H T L. apply shred_runs in H.
  destruct H as [r0 a' rp' s' Hr Ha T' A' He
                |r0 ra rg s' Hr Hk T' A'
                |r0 ra rg rs rm rr rp' s' Hr Hk Hl Hok Hrr T' A' He
                |r0 ra rg rs gs c' r' s' Hr Hk Hl Hok G L' Hne T' A'
                |r0 ra rg rs gs s3 o' s4 o s' Hr Hk Hl Hok G Hgs Hz T3 A3 B3 E Hend].
  - rewrite T' in T. apply app_inv_head in T. subst evs. done.
  - rewrite T' in T. apply app_inv_head in T. subst evs. done.
  - rewrite T' in T. apply app_inv_head in T. subst evs.
    rewrite last_snoc in L. done.
  - rewrite T' in T. apply app_inv_head in T. subst evs.
    rewrite last_app, L' in L. injection L as -> ->.
    apply (last_Forall _ _ _ G) in L'. done.
  - destruct (shred_from_shape _ _ _ _ _ _ _ _ _ _ E)
      as (r1 & sf & T4 & _ & Hs & _).
    pose proof (run_shape_pipeline _ _ _ _ Hs) as Hp.
    assert (Forall (fun ev => forall a rp, ev <> (SysPrintf MsgSummary a, rp))
              ((SysMalloc (Z.of_nat (length (bl s3)) * sizeof_ptr), r1) :: sf))
      as Hsf by (constructor; [done|now apply pipeline_not_summary]).
    destruct Hend as [|v Hv|v rc rfs rg2 rp2 s' Hv Lf T5 A5].
    + exfalso.
      rewrite T4, T3, <- !app_assoc in T. apply app_inv_head in T. subst evs.
      rewrite app_assoc in L.
      eapply (last_app_Forall
                (fun ev => forall a rp, ev <> (SysPrintf MsgSummary a, rp)))
        in L; [now apply L|done|exact Hsf].
    + exfalso.
      rewrite T4, T3, <- !app_assoc in T. apply app_inv_head in T. subst evs.
      rewrite app_assoc in L.
      eapply (last_app_Forall
                (fun ev => forall a rp, ev <> (SysPrintf MsgSummary a, rp)))
        in L; [now apply L|done|exact Hsf].
    + split; [done|].
      rewrite T5, T4, T3, <- !app_assoc in T. apply app_inv_head in T.
      subst evs.
      exists (ret_of r0), (ptr_of ra), (map (fun x => ptr_of (fst x)) rs),
        (ptr_of r1).
      destruct (priming_kinds (ret_of r0) SIGEV_NONE 0 rs)
        as (_ & Po & Pa & Pr & _).
      destruct (asks_size_kinds _ _ _ G) as (Go & Ga & Gr & _).
      destruct (frees_kinds (bl s4) rfs Lf) as (_ & Fo & Fa & Fr & _).
      assert (map aio_buf (bl s4) = map (fun x => ptr_of (fst x)) rs) as Hb.
      { destruct (shred_from_pool _ _ _ _ _ _ _ _ _ _ E) as [-> _].
        rewrite B3, map_map. done. }
      assert (Examples.releases sf = [SysFree (ptr_of r1)]) as Sr.
      { inversion Hs as [
          |
          |evs' (body & c & r & m & a0 & r2 & r3 & -> & Hb' & [Hneg _] & _)
          |
          |body r2 drain Hb' (pre & i & cb & r & a0 & r3 & -> & Hd & Hr')
          |body r2 drain r r3 Hb' Hd Hr'
          |body r2 drain r v' Hb' Hd Hr']; subst; try lia.
        rewrite releases_app, (loop_call_releases _ _ Hb').
        change ((SysFree (ptr_of r1), r2) :: drain ++ [(SysFsync fd, r)])
          with ([(SysFree (ptr_of r1), r2)] ++ drain ++ [(SysFsync fd, r)]).
        rewrite !releases_app, (drain_call_releases _ Hd). done. }
      unfold prologue, epilogue.
      split_and!.
      * rewrite !opened_app. simpl. rewrite !opened_app, Po, Go, Fo.
        rewrite (pipeline_opened _ Hp). done.
      * rewrite !allocated_app. simpl. rewrite !allocated_app, Pa, Ga, Fa.
        rewrite (pipeline_allocated _ Hp). simpl.
        now rewrite ?app_nil_r.
      * now rewrite length_map.
      * rewrite !releases_app.
        change (Examples.releases
                  ((SysOpen "/dev/urandom" (Z.lor O_RDONLY O_DIRECT), r0)
                   :: (SysMalloc (Z.of_nat blcnt * sizeof_aiocb), ra)
                      :: (SysGettimeofday, rg)
                         :: priming (ret_of r0) SIGEV_NONE 0 rs))
          with (Examples.releases (priming (ret_of r0) SIGEV_NONE 0 rs)).
        rewrite Pr, Gr. simpl.
        change (Examples.releases
                  ((SysMalloc (Z.of_nat (length (bl s3)) * sizeof_ptr), r1)
                   :: sf))
          with (Examples.releases sf).
        rewrite Sr. simpl.
        change (Examples.releases
                  ((SysClose (ret_of r0), rc)
                   :: frees (bl s4) rfs ++
                      [(SysGettimeofday, rg2); (SysPrintf MsgSummary [v], rp2)]))
          with (SysClose (ret_of r0) ::
                Examples.releases
                  (frees (bl s4) rfs ++
                   [(SysGettimeofday, rg2); (SysPrintf MsgSummary [v], rp2)])).
        rewrite releases_app, Fr. simpl. rewrite app_nil_r.
        rewrite <- Hb, map_map. done.
Qed.

End ShredProperties.

(** ** A run that returns 0 *)

Lemma neutral_quiet evs :
  Forall neutral evs ->
  dispatched evs = [] /\ completions evs = [] /\
  Forall (fun ev => ~ failed_completion ev) evs.
Proof.
  intros H. split_and!.
  - now apply dispatched_neutral.
  - now apply completions_neutral.
  - now apply not_failed_neutral.
Qed.

Section Parts.

Variables (SIGEV_NONE O_RDONLY O_DIRECT sizeof_aiocb : Z).

(** The calls of [shred] before and after [shred_from]. *)
Lemma prologue_kinds r0 ra rg rs wfd :
  sizes (prologue SIGEV_NONE O_RDONLY O_DIRECT sizeof_aiocb r0 ra rg rs) = [] /\
  opened (prologue SIGEV_NONE O_RDONLY O_DIRECT sizeof_aiocb r0 ra rg rs) =
    [ret_of r0] /\
  dispatched (prologue SIGEV_NONE O_RDONLY O_DIRECT sizeof_aiocb r0 ra rg rs) =
    [] /\
  completions (prologue SIGEV_NONE O_RDONLY O_DIRECT sizeof_aiocb r0 ra rg rs)
    = [] /\
  Forall (in_role (ret_of r0) wfd)
    (prologue SIGEV_NONE O_RDONLY O_DIRECT sizeof_aiocb r0 ra rg rs) /\
  Forall (fun ev => ~ failed_completion ev)
    (prologue SIGEV_NONE O_RDONLY O_DIRECT sizeof_aiocb r0 ra rg rs).
Proof.
  unfold prologue.
  destruct (priming_kinds (ret_of r0) SIGEV_NONE 0 rs)
    as (H1 & H2 & _ & _ & H5 & H6 & _).
  split_and!; simpl; try done.
  - now rewrite H2.
  - repeat constructor. apply priming_roles.
  - repeat constructor; simpl; try tauto. apply priming_not_failed.
Qed.

Lemma epilogue_kinds randfd v l rc rfs rg rp :
  length rfs = length l ->
  sizes (epilogue randfd v l rc rfs rg rp) = [] /\
  opened (epilogue randfd v l rc rfs rg rp) = [] /\
  Forall neutral (epilogue randfd v l rc rfs rg rp) /\
  last (epilogue randfd v l rc rfs rg rp) = Some (SysPrintf MsgSummary [v], rp).
Proof.
  intros Hl. destruct (frees_kinds l rfs Hl) as (H1 & H2 & _ & _ & H5 & _).
  unfold epilogue. split_and!.
  - simpl. now rewrite sizes_app, H1.
  - simpl. now rewrite opened_app, H2.
  - constructor; [done|]. apply Forall_app_2; [done|]. now repeat constructor.
  - apply (last_two []).
Qed.

End Parts.

Section ExitZero.

Context {World : Type}.
Variable os : syscall -> World -> resp * World.
Variables (EINPROGRESS SIGEV_NONE O_RDONLY O_DIRECT O_WRONLY : Z).
Variables (DIOCGMEDIASIZE sizeof_aiocb sizeof_ptr : Z).
Hypothesis Hos : errno_convention os.

Lemma buf_size_range : 1 <= buf_size < two64.
Proof. unfold buf_size, two64. lia. Qed.

(** A run of [shred] that returns 0 has written the whole target. *)
Lemma shred_zero fd fuel (s : state World) s' evs :
  shred os EINPROGRESS SIGEV_NONE O_RDONLY O_DIRECT DIOCGMEDIASIZE
    sizeof_aiocb sizeof_ptr fd fuel s = (Some 0, s') ->
  trace s' = trace s ++ evs ->
  ~ In fd (opened evs) -> 0 <= target_size evs < two63 ->
  exists randfd pre r post,
    opened evs = [randfd] /\
    evs = pre ++ (SysFsync fd, r) :: post /\ ret_of r = 0 /\
    Forall neutral post /\
    tiles 0 (dispatched pre) (target_size evs) /\
    Forall (fun ev => ~ failed_completion ev) pre /\
    requested pre = target_size evs /\
    Forall (in_role randfd fd) evs.
Proof.
  intros H T Hfd Hsz. apply shred_runs in H.
  remember (Some 0) as o0 eqn:Ho0.
  destruct H as [r0 a rp s' Hr Ha T' A' He
                |r0 ra rg s' Hr Hk T' A'
                |r0 ra rg rs rm rr rp s' Hr Hk Hl Hok Hrr T' A' He
                |r0 ra rg rs gs c' r' s' Hr Hk Hl Hok G L' Hne T' A'
                |r0 ra rg rs gs s3 o' s4 o s' Hr Hk Hl Hok G Hgs Hz T3 A3 B3 E Hend].
  - exfalso. apply (He Hos). congruence.
  - discriminate Ho0.
  - exfalso. apply (He Hos). congruence.
  - congruence.
  - destruct (shred_from_shape _ _ _ _ _ _ _ _ _ _ E)
      as (r1 & sf & T4 & _ & Hs & Herr).
    pose proof (run_shape_pipeline _ _ _ _ Hs) as Hp.
    destruct (prologue_kinds SIGEV_NONE O_RDONLY O_DIRECT sizeof_aiocb
                r0 ra rg rs fd) as (Ps & Po & Pd & Pc & Pr & Pf).
    destruct (asks_size_kinds _ _ _ G) as (Go & _ & _ & Gd & Gc & Gn).
    (* the end of the run of [shred_from], and what follows it *)
    assert (exists pre0 r tail,
      sf = pre0 ++ [(SysFsync fd, r)] /\ ret_of r = 0 /\
      evs = prologue SIGEV_NONE O_RDONLY O_DIRECT sizeof_aiocb r0 ra rg rs ++
            gs ++
            (SysMalloc (Z.of_nat (length (bl s3)) * sizeof_ptr), r1) ::
            pre0 ++ (SysFsync fd, r) :: tail /\
      Forall neutral tail /\ sizes tail = [] /\ opened tail = [])
      as (pre0 & r & tail & -> & Hr0 & -> & Nt & St & Ot).
    { destruct Hend as [|v Hv|v rc rfs rg2 rp s' Hv Lf T5 A5]; [done| |].
      - destruct (Herr Hos v eq_refl) as [He|(pre0 & r & -> & Hr0)];
          [congruence|].
        exists pre0, r, []. split_and!; try done.
        rewrite T4, T3, <- !app_assoc in T. apply app_inv_head in T.
        rewrite <- T. repeat (rewrite <- ?app_assoc; simpl). done.
      - destruct (epilogue_kinds (ret_of r0) v (bl s4) rc rfs rg2 rp Lf)
          as (Es & Eo & En & _).
        inversion Hs as [
          |
          |evs' (body & c & r & m & a0 & r2 & r3 & -> & Hb' & [Hneg _] & _)
          |
          |body r2 drain Hb' (pre & i & cb & r & a0 & r3 & -> & Hd & Hr')
          |body r2 drain r r3 Hb' Hd Hr'
          |body r2 drain r v' Hb' Hd Hr']; subst; try lia.
        exists (body ++ (SysFree (ptr_of r1), r2) :: drain), r,
          (epilogue (ret_of r0) v (bl s4) rc rfs rg2 rp).
        split_and!; try done.
        + repeat (rewrite <- ?app_assoc; simpl). done.
        + rewrite T5, T4, T3, <- !app_assoc in T. apply app_inv_head in T.
          rewrite <- T. repeat (rewrite <- ?app_assoc; simpl). done. }
    (* the size that was read *)
    assert (target_size
              (prologue SIGEV_NONE O_RDONLY O_DIRECT sizeof_aiocb r0 ra rg rs
               ++ gs ++
               (SysMalloc (Z.of_nat (length (bl s3)) * sizeof_ptr), r1) ::
               pre0 ++ (SysFsync fd, r) :: tail) = target_size gs) as Hts.
    { unfold target_size. rewrite !sizes_app, Ps. simpl.
      rewrite sizes_app. simpl. rewrite St.
      apply Forall_app in Hp as [Hp0 _].
      rewrite (pipeline_sizes _ Hp0). simpl. now rewrite app_nil_r. }
    rewrite Hts in *.
    assert (opened
              (prologue SIGEV_NONE O_RDONLY O_DIRECT sizeof_aiocb r0 ra rg rs
               ++ gs ++
               (SysMalloc (Z.of_nat (length (bl s3)) * sizeof_ptr), r1) ::
               pre0 ++ (SysFsync fd, r) :: tail) = [ret_of r0]) as Hop.
    { rewrite !opened_app, Po, Go. simpl.
      rewrite opened_app. simpl. rewrite Ot.
      apply Forall_app in Hp as [Hp0 _].
      rewrite (pipeline_opened _ Hp0). done. }
    rewrite Hop in Hfd.
    assert (ret_of r0 <> fd) as Hne by (intros Heq; apply Hfd; now left).
    assert (0 <= to_size_t (target_size gs) < two63) as Hlen.
    { rewrite to_size_t_id; [done|]. unfold two63, two64 in *. lia. }
    assert (primed (ret_of r0) buf_size (bl s3)) as Hpr.
    { rewrite B3. unfold primed. apply Forall_forall.
      intros cb Hin. apply list_elem_of_In, in_map_iff in Hin.
      destruct Hin as (x & <- & _). done. }
    assert (trace s4 = trace s3 ++
              ((SysMalloc (Z.of_nat (length (bl s3)) * sizeof_ptr), r1) ::
               pre0) ++ (SysFsync fd, r) :: []) as T4'.
    { rewrite T4. repeat (rewrite <- ?app_assoc; simpl). done. }
    destruct (shred_from_settled os EINPROGRESS sizeof_ptr (ret_of r0) fd
                (to_size_t (target_size gs)) buf_size Hne Hlen buf_size_range
                fuel s3 o' s4 _ fd r [] Hpr E T4')
      as (_ & (Ht & Hn & Hq & _) & _).
    rewrite to_size_t_id in Ht, Hq by (unfold two63, two64 in *; lia).
    destruct (shred_from_run os EINPROGRESS sizeof_ptr (ret_of r0) fd
                (to_size_t (target_size gs)) buf_size Hne Hlen buf_size_range
                fuel s3 o' s4 Hpr E) as (evs4 & Hw & _).
    destruct Hw as [Wt _ _ _ _ _ Wr _ _ _].
    rewrite T4 in Wt. apply app_inv_head in Wt. subst evs4.
    exists (ret_of r0),
      (prologue SIGEV_NONE O_RDONLY O_DIRECT sizeof_aiocb r0 ra rg rs ++ gs ++
       (SysMalloc (Z.of_nat (length (bl s3)) * sizeof_ptr), r1) :: pre0),
      r, tail.
    split_and!; try done.
    + repeat (rewrite <- ?app_assoc; simpl). done.
    + rewrite !dispatched_app, Pd, Gd. done.
    + apply Forall_app_2; [|apply Forall_app_2; [|done]].
      * exact Pf.
      * now apply not_failed_neutral.
    + unfold requested in *. rewrite !completions_app, Pc, Gc. done.
    + apply Forall_app_2; [done|]. apply Forall_app_2.
      * now apply in_role_neutral.
      * replace ((SysMalloc (Z.of_nat (length (bl s3)) * sizeof_ptr), r1) ::
                 pre0 ++ (SysFsync fd, r) :: tail)
          with (((SysMalloc (Z.of_nat (length (bl s3)) * sizeof_ptr), r1) ::
                 pre0 ++ [(SysFsync fd, r)]) ++ tail)
          by (repeat (rewrite <- ?app_assoc; simpl); done).
        apply Forall_app_2; [done|now apply in_role_neutral].
Qed.

End ExitZero.

Section Main.

Context {World : Type}.
Variable os : syscall -> World -> resp * World.
Variables (EINPROGRESS SIGEV_NONE O_RDONLY O_DIRECT O_WRONLY : Z).
Variables (DIOCGMEDIASIZE sizeof_aiocb sizeof_ptr : Z).

(** The runs of [shred_file]. *)
Lemma shred_file_runs filename fuel (s : state World) o s' :
  shred_file os EINPROGRESS SIGEV_NONE O_RDONLY O_DIRECT O_WRONLY
    DIOCGMEDIASIZE sizeof_aiocb sizeof_ptr filename fuel s = (o, s') ->
  exists rt s1,
    call os (SysOpen filename O_WRONLY) s = (rt, s1) /\
    ((ret_of rt = -1 /\ o = Some (errno s1) /\ s' = s1) \/
     (ret_of rt <> -1 /\
      exists o' s2,
        shred os EINPROGRESS SIGEV_NONE O_RDONLY O_DIRECT DIOCGMEDIASIZE
          sizeof_aiocb sizeof_ptr (ret_of rt) fuel s1 = (o', s2) /\
        match o' with
        | None => o = None /\ s' = s2
        | Some res =>
            o = Some res /\
            exists rc s3,
              call os (SysClose (ret_of rt)) s2 = (rc, s3) /\
              s' = (if negb (res =? 0)
                    then printf os MsgShredFileFailed [res; res] s3
                    else s3)
        end)).
Proof.
  unfold shred_file.
  destruct (call os (SysOpen filename O_WRONLY) s) as [rt s1] eqn:E1.
  destruct (Z.eqb_spec (ret_of rt) (-1)) as [He|Hne].
  - intros [= <- <-]. exists rt, s1. split; [done|]. now left.
  - destruct (shred _ _ _ _ _ _ _ _ _ _ s1) as [o' s2] eqn:E2.
    destruct o' as [res|].
    + destruct (call os (SysClose _) s2) as [rc s3] eqn:E3.
      intros [= <- <-]. exists rt, s1. split; [done|]. right.
      split; [done|]. exists (Some res), s2. split; [done|].
      split; [done|]. eauto.
    + intros [= <- <-]. exists rt, s1. split; [done|]. right.
      split; [done|]. exists None, s2. done.
Qed.

(** X7.  When [main] returns 0, in a run in which the two [open] calls
    returned different descriptors and the size that was read lies
    between 0 and [2^63], on an operating system that keeps to the
    convention of [errno]: [main] was given one argument, it has printed
    nothing on [stderr], the ranges handed to [aio_write] tile the whole
    of the target, in their order, every write is on the descriptor of the
    target and has been collected without error, [fsync] was then called
    on the target and returned 0, no call on a slot follows it, and the
    last call closes the target. *)
Theorem exit_zero_means_shredded argv fuel (s : state World) out s' evs :
  errno_convention os ->
  main os EINPROGRESS SIGEV_NONE O_RDONLY O_DIRECT O_WRONLY DIOCGMEDIASIZE
    sizeof_aiocb sizeof_ptr argv fuel s = (out, (Some 0, s')) ->
  trace s' = trace s ++ evs ->
  NoDup (opened evs) -> 0 <= target_size evs < two63 ->
  out = [] /\
  exists prog filename rt randfd pre r post rc,
    argv = [prog; filename] /\
    hd_error evs = Some (SysOpen filename O_WRONLY, rt) /\
    opened evs = [ret_of rt; randfd] /\
    evs = pre ++ (SysFsync (ret_of rt), r) :: post /\ ret_of r = 0 /\
    Forall neutral post /\
    last evs = Some (SysClose (ret_of rt), rc) /\
    tiles 0 (dispatched pre) (target_size evs) /\
    Forall (fun ev => ~ failed_completion ev) pre /\
    requested pre = target_size evs /\
    Forall (in_role randfd (ret_of rt)) evs.
Proof.
  intros Hos H T Hnd Hsz. unfold main in H.
  destruct (Z.eqb_spec (Z.of_nat (length argv)) 2) as [Hargc|Hargc];
    simpl in H; [|congruence].
  injection H as <- H. split; [done|].
  destruct argv as [|prog [|filename [|x argv]]]; simpl in Hargc; try lia.
  simpl in H.
  destruct (shred_file_runs _ _ _ _ _ H)
    as (rt & s1 & E1 & [(Hrt & Ho & ->)|(Hrt & o' & s2 & E2 & Hend)]).
  { exfalso. eapply (errno_failed os _ _ _ _ Hos E1); [lia|congruence]. }
  destruct (call_event _ _ _ _ _ E1) as (T1 & _).
  destruct o' as [res|]; [|destruct Hend; congruence].
  destruct Hend as ([= <-] & rc & s3 & E3 & ->). simpl in T.
  destruct (call_event _ _ _ _ _ E3) as (T3 & _).
  destruct (shred_grows _ _ _ _ _ _ _ _ _ _ _ _ _ E2) as (ev2 & T2 & _).
  assert (evs = (SysOpen filename O_WRONLY, rt) :: ev2 ++
                [(SysClose (ret_of rt), rc)]) as ->.
  { rewrite T3, T2, T1, <- !app_assoc in T. apply app_inv_head in T.
    rewrite <- T. done. }
  assert (opened ((SysOpen filename O_WRONLY, rt) :: ev2 ++
                  [(SysClose (ret_of rt), rc)]) = ret_of rt :: opened ev2)
    as Hop.
  { simpl. rewrite opened_app. simpl. now rewrite app_nil_r. }
  assert (target_size ((SysOpen filename O_WRONLY, rt) :: ev2 ++
                       [(SysClose (ret_of rt), rc)]) = target_size ev2)
    as Hts.
  { unfold target_size. simpl. rewrite sizes_app. simpl.
    now rewrite app_nil_r. }
  rewrite Hop in Hnd. rewrite Hts in *.
  apply NoDup_cons in Hnd as [Hnin _].
  destruct (shred_zero os EINPROGRESS SIGEV_NONE O_RDONLY O_DIRECT
              DIOCGMEDIASIZE sizeof_aiocb sizeof_ptr Hos (ret_of rt) fuel
              s1 s2 ev2 E2 T2)
    as (randfd & pre & r & post & Ho2 & -> & Hr & Hn & Ht & Hf & Hq & Hrole);
    [now rewrite <- list_elem_of_In|done|].
  exists prog, filename, rt, randfd, ((SysOpen filename O_WRONLY, rt) :: pre),
    r, (post ++ [(SysClose (ret_of rt), rc)]), rc.
  split_and!; try done.
  - now rewrite Hop, Ho2.
  - repeat (rewrite <- ?app_assoc; simpl). done.
  - apply Forall_app_2; [done|now repeat constructor].
  - rewrite app_comm_cons. apply last_snoc.
  - constructor; [simpl; tauto|done].
  - constructor; [done|]. apply Forall_app_2; [done|now repeat constructor].
Qed.

End Main.

(** ** Reads that return fewer bytes than asked for *)

(** Ranges that tile [0, len), each as long as its place allows, are the
    pieces of the target. *)
Lemma tiles_canonical C len rs :
  1 <= C -> 0 <= len -> tiles 0 rs len ->
  Forall (fun r => snd r = Z.min C (len - fst r)) rs ->
  rs = map (chunk C len) (seq 0 (chunks C len)).
Proof.
  intros HC Hlen Ht Hl.
  destruct (tiles_chunks C len 0 rs len ltac:(lia) Ht ltac:(lia) Hl)
    as (Hrs & _ & Hcnt).
  specialize (Hcnt eq_refl).
  replace (len - Z.of_nat 0 * C + C - 1) with (len + C - 1) in Hcnt by lia.
  assert (length rs = chunks C len) as <- by (unfold chunks; lia).
  exact Hrs.
Qed.

Lemma no_negative_reads {World : Type} (os : syscall -> World -> resp * World)
    E evs :
  responsive_os E os -> Forall (answered os) evs ->
  count negative_read evs = 0%nat.
Proof.
  intros Hos. unfold count.
  induction 1 as [|[c r] evs (w & Hw) _ IH]; [done|].
  simpl in Hw. subst r. cbn [List.filter].
  assert (negative_read (c, fst (os c w)) = false) as ->; [|exact IH].
  specialize (Hos c w). destruct c; simpl in *; try done.
  apply Z.ltb_ge. exact Hos.
Qed.

Lemma balanced_no_message evs :
  balanced evs -> count negative_read evs = 0%nat ->
  count read_error_message evs = 0%nat.
Proof. unfold balanced. lia. Qed.

Section Shortened.

Context {World : Type}.
Variable os : syscall -> World -> resp * World.
Variable g : syscall -> Z -> Z.
Hypothesis Hg : forall c v, 0 <= v -> 0 <= g c v.
Variables (EINPROGRESS sizeof_ptr : Z).

Lemma shorten_answer c w :
  fst (shorten g os c w) = shorten_resp g c (fst (os c w)).
Proof. unfold shorten. now destruct (os c w). Qed.

Lemma shorten_responsive :
  responsive_os EINPROGRESS os -> responsive_os EINPROGRESS (shorten g os).
Proof.
  intros Hos c w. rewrite shorten_answer. specialize (Hos c w).
  destruct c; try done. simpl in *.
  destruct (fst (os (SysRead i cb) w)) as [v| | |]; try done. simpl in *.
  destruct (Z.leb_spec 0 v); [|lia]. simpl. now apply Hg.
Qed.

Lemma shorten_faultless M :
  faultless EINPROGRESS M os -> faultless EINPROGRESS M (shorten g os).
Proof.
  intros Hos c w. cbv zeta. rewrite shorten_answer. specialize (Hos c w).
  cbv zeta in Hos.
  destruct c; try done. simpl in *.
  destruct (fst (os (SysRead i cb) w)) as [v| | |]; try done. simpl in *.
  destruct (Z.leb_spec 0 v); [|lia]. simpl. now apply Hg.
Qed.

Lemma shorten_list_allocated (s : state World) :
  list_allocated os sizeof_ptr s ->
  list_allocated (shorten g os) sizeof_ptr (shorten_state g s).
Proof. unfold list_allocated. now rewrite shorten_answer. Qed.

End Shortened.

Section Canonical.

Context {World : Type}.
Variable os : syscall -> World -> resp * World.
Variables (EINPROGRESS sizeof_ptr : Z).

(** A run of [shred_from] that returns a value other than -1 has handed
    the pieces of the target to [aio_write], each with its whole
    length. *)
Lemma run_canonical rfd wfd len C fuel (s : state World) v s' evs :
  rfd <> wfd -> 0 <= len < two63 -> 1 <= C < two64 ->
  primed rfd C (bl s) ->
  shred_from os EINPROGRESS sizeof_ptr rfd wfd len fuel s = (Some v, s') ->
  v <> -1 -> trace s' = trace s ++ evs ->
  dispatched evs = map (chunk C len) (seq 0 (chunks C len)).
Proof.
  intros Hfd Hlen HC Hp H Hv T.
  destruct (shred_from_run os EINPROGRESS sizeof_ptr rfd wfd len C
              Hfd Hlen HC fuel s (Some v) s' Hp H) as (evs' & Hw & Ho).
  destruct Hw as [Wt _ _ _ Wl _ _ _ _ _].
  rewrite Wt in T. apply app_inv_head in T. subst evs'.
  destruct Ho as [?|(_ & Ht & _)]; [done|].
  apply tiles_canonical; try done; lia.
Qed.

(** On an operating system that answers at once no message about the
    random source is printed. *)
Lemma responsive_quiet rfd wfd len fuel (s : state World) o s' evs :
  responsive_os EINPROGRESS os ->
  shred_from os EINPROGRESS sizeof_ptr rfd wfd len fuel s = (o, s') ->
  trace s' = trace s ++ evs ->
  count read_error_message evs = 0%nat.
Proof.
  intros Hos H T.
  destruct (shred_from_grows _ _ _ _ _ _ _ _ _ _ H) as (new & Tn & Hb).
  destruct (shred_from_shape _ _ _ _ _ _ _ _ _ _ H) as (r1 & sf & Ts & A & _).
  rewrite Tn in T. apply app_inv_head in T. subst new.
  rewrite Ts in Tn. apply app_inv_head in Tn. subst evs.
  apply balanced_no_message; [done|].
  now apply (no_negative_reads os EINPROGRESS).
Qed.

End Canonical.

(** ** Runs on an operating system on which nothing fails *)

Section Faultless.

Context {World : Type}.
Variable os : syscall -> World -> resp * World.
Variables (EINPROGRESS M : Z).
Hypothesis Hos : faultless EINPROGRESS M os.

Lemma faultless_responsive : responsive_os EINPROGRESS os.
Proof.
  intros c w. pose proof (Hos c w) as H. destruct c; simpl in *; try done.
  lia.
Qed.

Lemma faultless_answer c r :
  answered os (c, r) ->
  match c with
  | SysOpen _ _ | SysRead _ _ | SysAioWrite _ _ | SysAioSuspend _ _ =>
      0 <= ret_of r
  | SysAioError _ _ => ret_of r <> EINPROGRESS
  | SysAioReturn _ cb => 0 <= ret_of r <= Z.max 0 (aio_nbytes cb)
  | SysFstat _ =>
      ret_of r = 0 /\ forall n chr, r = OkStat n chr -> 0 <= n <= M
  | SysIoctl _ _ =>
      ret_of r = 0 /\ forall n, r = OkSize n -> 0 <= n <= M
  | SysFsync _ => ret_of r = 0
  | SysMalloc _ => ptr_of r <> 0
  | _ => True
  end.
Proof. intros (w & Hw). simpl in Hw. subst r. exact (Hos c w). Qed.

Lemma faultless_completions evs :
  Forall (answered os) evs -> Forall on_sized evs ->
  Forall (fun c => 0 <= snd c <= fst c) (completions evs).
Proof.
  induction 1 as [|[c r] evs Ha _ IH]; intros Hs; [constructor|].
  apply Forall_cons in Hs as [Hc Hs]. specialize (IH Hs).
  apply faultless_answer in Ha.
  destruct c; simpl; try done. constructor; [|done].
  simpl in *. unfold sized in Hc. lia.
Qed.

Lemma faultless_sizes evs :
  Forall (answered os) evs -> 0 <= M ->
  Forall (fun n => 0 <= n <= M) (sizes evs).
Proof.
  intros H HM. induction H as [|[c r] evs Ha _ IH]; [constructor|].
  apply faultless_answer in Ha.
  destruct c; simpl; try done.
  - destruct r; try done. constructor; [|done]. destruct Ha as [_ Ha]. eauto.
  - destruct r; try done. constructor; [|done]. destruct Ha as [_ Ha]. eauto.
Qed.

Lemma faultless_target_size evs :
  Forall (answered os) evs -> 0 <= M -> 0 <= target_size evs <= M.
Proof.
  intros H HM. unfold target_size.
  pose proof (faultless_sizes evs H HM) as Hs.
  destruct (last (sizes evs)) as [n|] eqn:Hl; simpl; [|lia].
  eapply (last_Forall _ _ _ Hs Hl).
Qed.

(** On such an operating system a run of [shred_from] on a pool of slots
    with lengths that are not negative does not end by an error, and what
    it returns is not negative. *)
Lemma faultless_from_value sizeof_ptr rfd wfd len C fuel
    (s : state World) v s' :
  rfd <> wfd -> 0 <= len < two63 -> 1 <= C < two64 ->
  primed rfd C (bl s) ->
  shred_from os EINPROGRESS sizeof_ptr rfd wfd len fuel s = (Some v, s') ->
  0 <= v.
Proof.
  intros Hfd Hlen HC Hp H.
  destruct (shred_from_shape _ _ _ _ _ _ _ _ _ _ H)
    as (r1 & sf & T & A & Hs & _).
  apply Forall_cons in A as [A1 A].
  inversion Hs as [
      |
      |evs' (body & c & r & m & a0 & r2 & r3 & -> & Hb & [Hneg Hm] & _)
      |
      |body r2 drain Hb (pre & i & cb & r & a0 & r3 & -> & Hd & [Hneg _])
      |body r2 drain r r3 Hb Hd Hr
      |body r2 drain r v' Hb Hd Hr]; subst.
  - exfalso. apply Forall_app in A as [_ A].
    apply Forall_cons in A as [Ac _]. apply faultless_answer in Ac.
    destruct c; try done; lia.
  - exfalso. apply Forall_app in A as [_ A]. apply Forall_cons in A as [_ A].
    apply Forall_app in A as [_ A]. apply Forall_cons in A as [Ac _].
    apply faultless_answer in Ac. lia.
  - exfalso. apply Forall_app in A as [_ A]. apply Forall_cons in A as [_ A].
    apply Forall_app in A as [_ A]. apply Forall_cons in A as [Ac _].
    apply faultless_answer in Ac. done.
  - assert (trace s' = trace s ++
              ((SysMalloc (Z.of_nat (length (bl s)) * sizeof_ptr), r1) ::
               body ++ (SysFree (ptr_of r1), r2) :: drain) ++
              (SysFsync wfd, r) :: []) as T'.
    { rewrite T. repeat (rewrite <- ?app_assoc; simpl). done. }
    destruct (shred_from_settled os EINPROGRESS sizeof_ptr rfd wfd len C
                Hfd Hlen HC fuel s (Some v) s' _ wfd r [] Hp H T')
      as (_ & (_ & _ & Hq & _) & _ & Hok & _).
    destruct (Hok Hr) as [_ [= ->]].
    destruct (shred_from_pool _ _ _ _ _ _ _ _ _ _ H) as [_ Hsz].
    destruct Hsz as (_ & evs & Te & Se).
    { eapply Forall_impl; [exact Hp|]. intros cb [_ Hn]. unfold sized. lia. }
    rewrite T in Te. apply app_inv_head in Te. subst evs.
    assert (Forall on_sized
              ((SysMalloc (Z.of_nat (length (bl s)) * sizeof_ptr), r1) ::
               body ++ (SysFree (ptr_of r1), r2) :: drain)) as Se'.
    { apply Forall_cons in Se as [S1 Se]. apply Forall_app in Se as [Sb Se].
      apply Forall_cons in Se as [Sf Se]. apply Forall_app in Se as [Sd _].
      constructor; [done|]. apply Forall_app_2; [done|]. now constructor. }
    assert (Forall (answered os)
              ((SysMalloc (Z.of_nat (length (bl s)) * sizeof_ptr), r1) ::
               body ++ (SysFree (ptr_of r1), r2) :: drain)) as Ae'.
    { apply Forall_app in A as [Ab A].
      apply Forall_cons in A as [Af A]. apply Forall_app in A as [Ad _].
      constructor; [done|]. apply Forall_app_2; [done|]. now constructor. }
    pose proof (sum_bounded _ (faultless_completions _ Ae' Se')) as Hb'.
    unfold requested in Hq. unfold confirmed.
    rewrite to_size_t_id, to_ssize_t_id; unfold two63, two64 in *; lia.
Qed.

End Faultless.

Section MainRuns.

Context {World : Type}.
Variable os : syscall -> World -> resp * World.
Variables (EINPROGRESS SIGEV_NONE O_RDONLY O_DIRECT O_WRONLY : Z).
Variables (DIOCGMEDIASIZE sizeof_aiocb sizeof_ptr : Z).

(** On an operating system on which nothing fails, a run of [shred]
    with enough fuel returns 0, and it has handed to [aio_write] the
    pieces of 128 KiB of the target, whose size is the one that the calls
    [gs] of [get_size] have read. *)
Lemma faultless_shred_calls M fd fuel (s : state World) :
  faultless EINPROGRESS M os -> 0 <= M < two63 ->
  (forall fl w, ret_of (fst (os (SysOpen "/dev/urandom" fl) w)) <> fd) ->
  (1 <= fuel)%nat -> (Z.to_nat (2 * M) <= fuel)%nat ->
  exists s' evs gs,
    shred os EINPROGRESS SIGEV_NONE O_RDONLY O_DIRECT DIOCGMEDIASIZE
      sizeof_aiocb sizeof_ptr fd fuel s = (Some 0, s') /\
    trace s' = trace s ++ evs /\ Forall (answered os) evs /\
    ((exists r, gs = [(SysFstat fd, r)] /\ forall m, r <> OkStat m true) \/
     (exists m r, gs = [(SysFstat fd, OkStat m true);
                        (SysIoctl fd DIOCGMEDIASIZE, r)])) /\
    Forall (answered os) gs /\
    dispatched evs =
      map (chunk buf_size (target_size gs))
        (seq 0 (chunks buf_size (target_size gs))).
Proof.
  intros Hos HM Hfd Hf1 Hf2.
  destruct (shred _ _ _ _ _ _ _ _ fd fuel s) as [o s'] eqn:E.
  apply shred_runs in E.
  destruct E as [r0 a rp s' Hr Ha T' A' He
                |r0 ra rg s' Hr Hk T' A'
                |r0 ra rg rs rm rr rp s' Hr Hk Hl Hok Hrr T' A' He
                |r0 ra rg rs gs c' r' s' Hr Hk Hl Hok G L' Hne T' A'
                |r0 ra rg rs gs s3 o' s4 o s' Hr Hk Hl Hok G Hgs Hz T3 A3 B3 E Hend].
  - exfalso. apply Forall_cons in A' as [A0 _].
    apply (faultless_answer os EINPROGRESS M Hos) in A0. lia.
  - exfalso. unfold prologue in A'.
    apply Forall_cons in A' as [_ A']. apply Forall_cons in A' as [Aa _].
    now apply (faultless_answer os EINPROGRESS M Hos) in Aa.
  - exfalso. unfold prologue in A'. rewrite priming_snoc in A'.
    apply Forall_app in A' as [A' _].
    do 3 apply Forall_cons in A' as [_ A'].
    apply Forall_app in A' as [_ A'].
    apply Forall_cons in A' as [_ A']. apply Forall_cons in A' as [A' _].
    apply (faultless_answer os EINPROGRESS M Hos) in A'. lia.
  - exfalso. apply Forall_app in A' as [_ A'].
    pose proof (last_Forall _ _ _ A' L') as Ac.
    pose proof (last_Forall _ _ _ G L') as Gc.
    apply (faultless_answer os EINPROGRESS M Hos) in Ac.
    destruct c'; try done; now destruct Ac.
  - assert (ret_of r0 <> fd) as Hne.
    { unfold prologue in A3. apply Forall_cons in A3 as [(w & Hw) _].
      simpl in Hw. subst r0. apply Hfd. }
    assert (Forall (answered os) gs) as Ag
      by (now apply Forall_app in A3 as [_ A3]).
    assert (0 <= target_size gs <= M) as Hts
      by (now apply (faultless_target_size os EINPROGRESS M Hos)).
    assert (to_size_t (target_size gs) = target_size gs) as Hid
      by (rewrite to_size_t_id; unfold two63, two64 in *; lia).
    assert (0 <= to_size_t (target_size gs) < two63) as Hlen
      by (rewrite Hid; lia).
    assert (primed (ret_of r0) buf_size (bl s3)) as Hpr.
    { rewrite B3. unfold primed. apply Forall_forall.
      intros cb Hin. apply list_elem_of_In, in_map_iff in Hin.
      destruct Hin as (x & <- & _). done. }
    destruct (responsive_run os EINPROGRESS sizeof_ptr (ret_of r0) fd
                (to_size_t (target_size gs)) buf_size Hne Hlen buf_size_range
                (faultless_responsive os EINPROGRESS M Hos) fuel s3 Hpr)
      as (v & s4' & evs & E' & _).
    { rewrite B3. destruct rs; [done|discriminate]. }
    { exact (Hos (SysMalloc _) _). }
    { done. }
    { rewrite Hid.
      assert (Z.to_nat (2 * target_size gs) <= Z.to_nat (2 * M))%nat; lia. }
    rewrite E in E'. injection E' as -> <-.
    pose proof (faultless_from_value os EINPROGRESS M Hos sizeof_ptr
                  (ret_of r0) fd (to_size_t (target_size gs)) buf_size fuel
                  s3 v s4 Hne Hlen buf_size_range Hpr E) as Hv.
    destruct (shred_from_shape _ _ _ _ _ _ _ _ _ _ E)
      as (r1 & sf & T4 & A4 & _).
    pose proof (run_canonical os EINPROGRESS sizeof_ptr (ret_of r0) fd
                  (to_size_t (target_size gs)) buf_size fuel s3 v s4 _
                  Hne Hlen buf_size_range Hpr E ltac:(lia) T4) as Hd.
    rewrite Hid in Hd.
    inversion Hend as [|v0 Hv'|v0 rc rfs rg2 rp s1 Hv' Lf T5 A5]; subst;
      [lia|].
    destruct (prologue_kinds SIGEV_NONE O_RDONLY O_DIRECT sizeof_aiocb
                r0 ra rg rs fd) as (_ & _ & Pd & _).
    destruct (asks_size_kinds _ _ _ G) as (_ & _ & _ & Gd & _).
    destruct (epilogue_kinds (ret_of r0) v (bl s4) rc rfs rg2 rp Lf)
      as (_ & _ & En & _).
    eexists s', _, gs. split; [reflexivity|].
    split; [rewrite T5, T4, T3; repeat (rewrite <- ?app_assoc); reflexivity|].
    split_and!; try done.
    + apply Forall_app in A3 as [Ap _].
      repeat (apply Forall_app_2; try done).
    + rewrite !dispatched_app, Pd, Gd, Hd, (dispatched_neutral _ En).
      now rewrite app_nil_r.
Qed.

(** On an operating system on which nothing fails, a run of [shred]
    with enough fuel returns 0. *)
Lemma faultless_shred M fd fuel (s : state World) :
  faultless EINPROGRESS M os -> 0 <= M < two63 ->
  (forall fl w, ret_of (fst (os (SysOpen "/dev/urandom" fl) w)) <> fd) ->
  (1 <= fuel)%nat -> (Z.to_nat (2 * M) <= fuel)%nat ->
  exists s',
    shred os EINPROGRESS SIGEV_NONE O_RDONLY O_DIRECT DIOCGMEDIASIZE
      sizeof_aiocb sizeof_ptr fd fuel s = (Some 0, s').
Proof.
  intros Hos HM Hfd Hf1 Hf2.
  destruct (faultless_shred_calls M fd fuel s Hos HM Hfd Hf1 Hf2)
    as (s' & _ & _ & E & _).
  now exists s'.
Qed.

(** X8.  On an operating system on which nothing fails, so that
    [malloc] never returns [NULL], and which gives the random source a
    descriptor of its own, [main] with one argument and two units of fuel
    for each byte that a size can have returns 0: the run ends, and it
    ends well. *)
Theorem faultless_run_succeeds M prog filename fuel (s : state World) :
  faultless EINPROGRESS M os -> 0 <= M < two63 ->
  (forall fl w fl' w',
     ret_of (fst (os (SysOpen "/dev/urandom" fl) w)) <>
     ret_of (fst (os (SysOpen filename fl') w'))) ->
  (1 <= fuel)%nat -> (Z.to_nat (2 * M) <= fuel)%nat ->
  exists s',
    main os EINPROGRESS SIGEV_NONE O_RDONLY O_DIRECT O_WRONLY DIOCGMEDIASIZE
      sizeof_aiocb sizeof_ptr [prog; filename] fuel s =
    ([], (Some 0, s')).
Proof.
  intros Hos HM Hfd Hf1 Hf2. unfold main, shred_file. simpl.
  destruct (call os (SysOpen filename O_WRONLY) s) as [rt s1] eqn:E1.
  destruct (call_event _ _ _ _ _ E1) as (_ & A1 & _).
  pose proof (faultless_answer os EINPROGRESS M Hos _ _ A1) as Hrt.
  simpl in Hrt.
  destruct (Z.eqb_spec (ret_of rt) (-1)) as [He|_]; [lia|].
  destruct (faultless_shred M (ret_of rt) fuel s1 Hos HM) as (s2 & ->);
    try done.
  { intros fl w. destruct A1 as (w' & Hw). simpl in Hw. subst rt.
    apply Hfd. }
  destruct (call os (SysClose (ret_of rt)) s2) as [rc s3]. simpl. eauto.
Qed.

(** X11.  When [main] returns a value other than 0, it has said so,
    with one exception.  Without exactly one argument it returns -1,
    writes the usage line to [stderr] and makes no call at all.  When the
    target does not open, it returns [errno], which is the cause when
    [open] has set it, and prints nothing.  In every other case the
    target is closed and then a line is printed that shows the value
    that is returned. *)
Theorem failures_are_announced argv fuel (s : state World) out v s' evs :
  main os EINPROGRESS SIGEV_NONE O_RDONLY O_DIRECT O_WRONLY DIOCGMEDIASIZE
    sizeof_aiocb sizeof_ptr argv fuel s = (out, (Some v, s')) ->
  v <> 0 ->
  trace s' = trace s ++ evs ->
  (out = [usage] /\ evs = [] /\ v = -1 /\ length argv <> 2%nat) \/
  (out = [] /\
   exists prog filename rt,
     argv = [prog; filename] /\
     ((ret_of rt = -1 /\ evs = [(SysOpen filename O_WRONLY, rt)] /\
       forall e, rt = Fail e -> v = e) \/
      (ret_of rt <> -1 /\
       exists mid rc rp,
         evs = (SysOpen filename O_WRONLY, rt) :: mid ++
               [(SysClose (ret_of rt), rc);
                (SysPrintf MsgShredFileFailed [v; v], rp)]))).
Proof.
  intros H Hv T. unfold main in H.
  destruct (Z.eqb_spec (Z.of_nat (length argv)) 2) as [Hargc|Hargc];
    simpl in H.
  2:{ injection H as <- <- <-. left. split_and!; try done; [|lia].
      apply (f_equal length) in T. rewrite length_app in T.
      destruct evs; [done|simpl in T; lia]. }
  right. injection H as <- H. split; [done|].
  destruct argv as [|prog [|filename [|x argv]]]; simpl in Hargc; try lia.
  simpl in H. exists prog, filename.
  destruct (shred_file_runs _ _ _ _ _ _ _ _ _ _ _ _ _ _ H)
    as (rt & s1 & E1 & [(Hrt & Ho & ->)|(Hrt & o' & s2 & E2 & Hend)]);
    exists rt; (split; [done|]);
    destruct (call_event _ _ _ _ _ E1) as (T1 & _ & He1).
  - left. split_and!; try done.
    + rewrite T1 in T. now apply app_inv_head in T.
    + intros e ->. congruence.
  - right. split; [done|].
    destruct o' as [res|]; [|destruct Hend; congruence].
    destruct Hend as ([= ->] & rc & s3 & E3 & ->).
    destruct (call_event _ _ _ _ _ E3) as (T3 & _).
    destruct (shred_grows _ _ _ _ _ _ _ _ _ _ _ _ _ E2) as (mid & T2 & _).
    destruct (Z.eqb_spec res 0) as [|_]; [done|]. simpl in T.
    destruct (printf_event os MsgShredFileFailed [res; res] s3)
      as (rp & Tp & _).
    exists mid, rc, rp.
    rewrite Tp, T3, T2, T1, <- !app_assoc in T. apply app_inv_head in T.
    rewrite <- T. repeat (rewrite <- ?app_assoc; simpl). done.
Qed.

End MainRuns.

(** ** Every write is collected *)

Lemma collected_app tr1 tr2 :
  collected (tr1 ++ tr2) = collected tr1 ++ collected tr2.
Proof. apply omap_app. Qed.

Lemma collected_neutral tr : Forall neutral tr -> collected tr = [].
Proof.
  induction 1 as [|[c r] tr H _ IH]; [done|].
  simpl. rewrite IH. now destruct c.
Qed.

Lemma collected_polls i cb rs : collected (polls i cb rs) = [].
Proof. induction rs as [|r rs IH]; [done|exact IH]. Qed.

(** A range that was collected belongs to an [aio_return] of the trace. *)
Lemma collected_event tr r :
  In r (collected tr) ->
  exists i cb a, In (SysAioReturn i cb, a) tr /\
    (aio_offset cb, aio_nbytes cb) = r.
Proof.
  induction tr as [|[c a] tr IH]; simpl; [done|].
  destruct c; simpl; try (intros H; destruct (IH H) as (i' & cb' & a' & Hin & E);
                          exists i', cb', a'; split; [now right|done]).
  intros [<-|H].
  - exists i, cb, a. split; [now left|done].
  - destruct (IH H) as (i' & cb' & a' & Hin & E).
    exists i', cb', a'. split; [now right|done].
Qed.

(** Calls that submit nothing leave the account as it is. *)
Lemma accounted_quiet wfd k l evs tl :
  dispatched tl = [] -> accounted wfd k l evs -> accounted wfd k l (evs ++ tl).
Proof.
  intros Hd H r. rewrite dispatched_app, Hd, app_nil_r, collected_app.
  intros Hr. destruct (H r Hr) as [Hc|Hs]; [left|now right].
  apply in_or_app. now left.
Qed.

Lemma accounted_mono wfd k k' l evs :
  (forall cb, l !! k = Some cb -> aio_fildes cb <> wfd) -> k' = S k ->
  accounted wfd k l evs -> accounted wfd k' l evs.
Proof.
  intros Hk -> H r Hr. destruct (H r Hr) as [Hc|(i & cb & Hi & Hl & Hw & E)];
    [now left|right].
  exists i, cb. split_and!; try done.
  destruct (decide (i = k)) as [->|]; [|lia]. now apply Hk in Hl.
Qed.

Section Collected.

Context {World : Type}.
Variable os : syscall -> World -> resp * World.
Variables (EINPROGRESS sizeof_ptr : Z).
Variables (rfd wfd len bl_list : Z) (t0 : list event).
Hypothesis Hfd : rfd <> wfd.

Local Abbreviation state := (state World).
Local Abbreviation keeps := (keeps_account wfd t0).

Lemma keeps_quiet k (s s' : state) tl :
  trace s' = trace s ++ tl -> bl s' = bl s -> dispatched tl = [] ->
  keeps k s -> keeps k s'.
Proof.
  intros T B Hd (evs & Te & H). exists (evs ++ tl). split.
  - now rewrite T, Te, app_assoc.
  - rewrite B. now apply accounted_quiet.
Qed.

(** One pass of the body of the dispatch loop. *)
Lemma for_body_account i (s : state) c s' :
  keeps 0 s ->
  for_body os EINPROGRESS rfd wfd len bl_list i s = (c, s') ->
  match c with
  | Continue | Break => keeps 0 s'
  | Return v => v = -1
  | Diverge => False
  end.
Proof.
  intros Hk H. apply for_body_sound in H.
  destruct H as [Hi|cb Hi Hr Hw|cb r c s' Hi Hr Hge Hu ->
                |cb r tl s' Hi Hr Hneg Hc Hu|cb r s' Hi Hr Hw He Hu
                |cb r r2 tl s' Hi Hr Hw He Hneg Hc Hu
                |cb r r2 r3 tl s' Hi Hr Hw He Hge Hneg Hc Hu
                |cb r r2 r3 s' Hi Hr Hw He Hge Hge3 Hu]; try done.
  - (* a write is submitted *)
    assert (keeps 0 s') as Hk'.
    { destruct Hk as (evs & Te & H). destruct Hu as (T & B & _).
      set (cb' := assign wfd len cb (off s)) in *.
      assert (aio_fildes cb' = wfd) as Hw'.
      { unfold cb', assign. now destruct (_ >=? _). }
      exists (evs ++ [(SysAioWrite i cb', r)]). split.
      - now rewrite T, Te, app_assoc.
      - intros x. rewrite dispatched_app, collected_app. simpl.
        rewrite app_nil_r. intros Hx. apply in_app_or in Hx as [Hx|[<-|[]]].
        + destruct (H x Hx) as [Hc|(j & cbj & Hj & Hl & Hwj & E)];
            [now left|right].
          exists j, cbj. split_and!; try done. rewrite B.
          rewrite list_lookup_insert_ne; [done|]. intros <-. congruence.
        + right. exists i, cb'. split_and!; try done; [lia|].
          rewrite B. apply list_lookup_insert_eq.
          now apply lookup_lt_Some in Hi. }
    now destruct (_ >=? _).
  - (* the write is still in progress *)
    destruct Hu as (T & B & _).
    eapply keeps_quiet; eauto.
  - (* the write is collected and the buffer refilled *)
    destruct Hk as (evs & Te & H). destruct Hu as (T & B & _).
    exists (evs ++ [(SysAioError i cb, r); (SysAioReturn i cb, r2);
                    (SysRead i (with_fildes rfd cb), r3)]). split.
    + now rewrite T, Te, app_assoc.
    + intros x. rewrite dispatched_app, collected_app. simpl.
      rewrite app_nil_r. intros Hx.
      destruct (H x Hx) as [Hc|(j & cbj & Hj & Hl & Hwj & E)].
      * left. apply in_or_app. now left.
      * destruct (decide (j = i)) as [->|Hne].
        -- left. apply in_or_app. right. left. congruence.
        -- right. exists j, cbj. split_and!; try done. rewrite B.
           now rewrite list_lookup_insert_ne.
Qed.

(** The dispatch loop. *)
Lemma main_loop_account fuel (s : state) c s' :
  keeps 0 s ->
  main_loop os EINPROGRESS rfd wfd len bl_list fuel s = (c, s') ->
  match c with
  | Continue => keeps 0 s'
  | Break => False
  | Return v => v = -1
  | Diverge => True
  end.
Proof.
  revert s. induction fuel as [|fuel IH]; intros s Hk; simpl;
    (destruct (to_size_t (off s) <? len); [|now intros [= <- <-]]).
  - now intros [= <- <-].
  - assert (keeps 0 (set_nread 0 s)) as Hk0 by exact Hk.
    destruct (for_loop _ _ _ (set_nread 0 s)) as [c1 s1] eqn:E1.
    pose proof (for_loop_rule
      (for_body os EINPROGRESS rfd wfd len bl_list)
      (length (bl (set_nread 0 s))) (fun _ s => keeps 0 s)
      (fun c s' => match c with
                   | Break => keeps 0 s'
                   | Return v => v = -1
                   | _ => False
                   end)) as Hrule.
    specialize (Hrule ltac:(
      intros i s2 c2 s2' _ Hk2 E2;
      pose proof (for_body_account _ _ _ _ Hk2 E2) as H2;
      destruct c2; exact H2)).
    specialize (Hrule _ 0%nat _ _ _ eq_refl Hk0 E1).
    assert (keeps 0 s1 ->
      (let '(err, s) :=
         if nread s1 =? 0
         then let '(r, s) :=
                call os (SysAioSuspend bl_list (length (bl s1))) s1 in
              (ret_of r, s)
         else (0, s1) in
       if err <? 0
       then (Return (-1),
             free_bl_list os bl_list
               (printf os MsgSuspendFailed [errno s; errno s] s))
       else main_loop os EINPROGRESS rfd wfd len bl_list fuel s) = (c, s') ->
      match c with
      | Continue => keeps 0 s'
      | Break => False
      | Return v => v = -1
      | Diverge => True
      end) as Hrest.
    { intros Hk1 H.
      assert (exists err s2, keeps 0 s2 /\
        (if err <? 0
         then (Return (-1),
               free_bl_list os bl_list
                 (printf os MsgSuspendFailed [errno s2; errno s2] s2))
         else main_loop os EINPROGRESS rfd wfd len bl_list fuel s2)
        = (c, s')) as (err & s2 & Hk2 & H2).
      { destruct (nread s1 =? 0).
        - destruct (call os _ s1) as [r s2] eqn:E2.
          exists (ret_of r), s2. split; [|done].
          apply call_upd in E2. destruct E2 as (T & B & _).
          eapply keeps_quiet; eauto.
        - now exists 0, s1. }
      destruct (err <? 0).
      - now injection H2 as <- <-.
      - eapply IH; eauto. }
    destruct c1 as [| |v|]; try done.
    + intros H. now apply Hrest.
    + intros H. now apply Hrest.
    + now intros [= <- <-].
Qed.

(** One pass of the body of the drain loop. *)
Lemma drain_body_account fuel i (s : state) c s' :
  keeps i s ->
  drain_body os EINPROGRESS wfd fuel i s = (c, s') ->
  match c with
  | Continue => keeps (S i) s'
  | Break => False
  | Return v => v = -1
  | Diverge => True
  end.
Proof.
  intros Hk H. apply drain_body_sound in H.
  destruct H as [Hi|cb Hi Hw|cb rs s' Hi Hw Hrs Hu
                |cb rs r r2 a r3 s' Hi Hw Hrs He Hneg Hu
                |cb rs r r2 s' Hi Hw Hrs He Hge Hu]; try done.
  - destruct Hk as (evs & Te & H). exists evs. split; [done|].
    eapply accounted_mono; [|reflexivity|exact H]. intros cb. congruence.
  - destruct Hk as (evs & Te & H). exists evs. split; [done|].
    eapply accounted_mono; [|reflexivity|exact H]. intros cb'. congruence.
  - destruct Hk as (evs & Te & H). destruct Hu as (T & B & _).
    exists (evs ++ polls i cb rs ++
            [(SysAioError i cb, r); (SysAioReturn i cb, r2)]). split.
    + rewrite T, Te. now rewrite <- app_assoc.
    + intros x. rewrite dispatched_app, dispatched_app, dispatched_polls.
      rewrite !collected_app, collected_polls. simpl. rewrite app_nil_r.
      intros Hx.
      destruct (H x Hx) as [Hc|(j & cbj & Hj & Hl & Hwj & E)].
      * left. apply in_or_app. now left.
      * destruct (decide (j = i)) as [->|Hne].
        -- left. apply in_or_app. right. left. congruence.
        -- right. exists j, cbj. rewrite B. split_and!; try done. lia.
Qed.

Lemma drain_body_bl fuel i (s : state) s' :
  drain_body os EINPROGRESS wfd fuel i s = (Continue, s') -> bl s' = bl s.
Proof.
  intros H. apply drain_body_sound in H.
  inversion H as [Hi|cb Hi Hw|cb rs s1 Hi Hw Hrs Hu
                 |cb rs r r2 a r3 s1 Hi Hw Hrs He Hneg Hu
                 |cb rs r r2 s1 Hi Hw Hrs He Hge Hu]; subst; try done.
  now destruct Hu as (_ & B & _).
Qed.

(** The drain loop. *)
Lemma drain_loop_account fuel (s : state) c s' :
  keeps 0 s ->
  for_loop (drain_body os EINPROGRESS wfd fuel) (length (bl s)) 0 s = (c, s') ->
  match c with
  | Continue => keeps (length (bl s')) s'
  | Break => False
  | Return v => v = -1
  | Diverge => True
  end.
Proof.
  intros Hk H.
  pose proof (for_loop_rule (drain_body os EINPROGRESS wfd fuel)
    (length (bl s)) (fun i s1 => keeps i s1 /\ bl s1 = bl s)
    (fun c s' => match c with
                 | Return v => v = -1
                 | Diverge => True
                 | _ => False
                 end)) as Hrule.
  specialize (Hrule ltac:(
    intros i s1 c1 s1' _ [Hk1 B1] E1;
    pose proof (drain_body_account _ _ _ _ _ Hk1 E1) as H1;
    destruct c1; try done;
    split; [exact H1|]; rewrite <- B1; now apply (drain_body_bl fuel i))).
  specialize (Hrule (length (bl s)) 0%nat s c s' eq_refl (conj Hk eq_refl) H).
  destruct c; try done. destruct Hrule as [Hk' ->]. exact Hk'.
Qed.

End Collected.

Section CollectedRun.

Context {World : Type}.
Variable os : syscall -> World -> resp * World.
Variables (EINPROGRESS sizeof_ptr : Z).
Variables (rfd wfd len : Z).
Hypothesis Hfd : rfd <> wfd.

(** A run of [shred_from] that returns a value other than -1 has
    collected every write that it has submitted. *)
Lemma shred_from_collects fuel (s : state World) v s' evs :
  shred_from os EINPROGRESS sizeof_ptr rfd wfd len fuel s = (Some v, s') ->
  v <> -1 -> trace s' = trace s ++ evs ->
  forall r, In r (dispatched evs) -> In r (collected evs).
Proof.
  unfold shred_from, get_bl_list_from_array.
  set (s0 := set_total 0 (set_off 0 s)).
  destruct (call os _ s0) as [r1 s1] eqn:E1. apply call_upd in E1.
  destruct E1 as (T1 & B1 & _). simpl in T1, B1.
  assert (keeps_account wfd (trace s) 0 s1) as K1.
  { exists [(SysMalloc (Z.of_nat (length (bl s)) * sizeof_ptr), r1)].
    split; [exact T1|]. intros r []. }
  destruct (_ && _); cbv beta iota; [done|].
  destruct (main_loop _ _ _ _ _ _ _ s1) as [c2 s2] eqn:E2.
  pose proof E2 as K2. eapply main_loop_account in K2; [|exact Hfd|exact K1].
  destruct c2 as [| |v2|]; [|done| |done].
  2:{ now intros [= <- <-] Hv. }
  destruct (free_bl_list_upd os (ptr_of r1) s2) as (r3 & T3 & B3 & _).
  set (s3 := free_bl_list os (ptr_of r1) s2) in *.
  assert (keeps_account wfd (trace s) 0 s3) as K3
    by (eapply keeps_quiet; eauto).
  destruct (for_loop _ _ _ s3) as [c4 s4] eqn:E4.
  pose proof E4 as K4.
  eapply drain_loop_account in K4; [|exact Hfd|exact K3].
  assert (flush os wfd s4 = (Some v, s') -> v <> -1 ->
          trace s' = trace s ++ evs ->
          keeps_account wfd (trace s) (length (bl s4)) s4 ->
          forall r, In r (dispatched evs) -> In r (collected evs)) as Hflush.
  { intros H Hv T (evs4 & T4 & A4).
    destruct (flush_calls _ _ _ _ _ H) as
      (r & _ & [(Hr & _ & T5)|(Hr & [= Hm] & _)]); [|done].
    rewrite T5, T4, <- app_assoc in T. apply app_inv_head in T. subst evs.
    intros x. rewrite dispatched_app, collected_app. simpl.
    rewrite !app_nil_r. intros Hx.
    destruct (A4 x Hx) as [Hc|(j & cbj & Hj & Hl & _)]; [done|].
    apply lookup_lt_Some in Hl. lia. }
  destruct c4 as [| |v4|]; [|done|now intros [= <- <-] Hv|done].
  intros H Hv T. eapply Hflush; eauto.
Qed.

End CollectedRun.

(** ** Errors at completion *)

Section CompletionErrors.

Context {World : Type}.
Variable os : syscall -> World -> resp * World.
Variables (EINPROGRESS sizeof_ptr : Z).

(** C4.  When a completion reports an error, the run returns -1, and the
    calls stop right after the first such completion: what follows it is
    the message of the write error and, inside the dispatch loop, the
    release of the list; no write is submitted any more.  And no
    completion goes unseen: a run that returns another value than -1 has
    collected every write that it has submitted, in the dispatch loop or
    in the drain loop, and none of them has reported an error.  So a
    write that has been submitted, at an offset at which the operating
    system fails every completion, makes the run return -1 when it
    returns, in whichever of the two loops the write is collected. *)
Theorem completion_error_aborts rfd wfd len C fuel (s : state World) o s' :
  rfd <> wfd -> 0 <= len < two63 -> 1 <= C < two64 ->
  primed rfd C (bl s) ->
  shred_from os EINPROGRESS sizeof_ptr rfd wfd len fuel s = (o, s') ->
  exists evs, trace s' = trace s ++ evs /\
    (Exists failed_completion evs ->
     o = Some (-1) /\
     exists pre ev tl, evs = pre ++ ev :: tl /\
       Forall (fun ev => ~ failed_completion ev) pre /\
       failed_completion ev /\ error_tail tl /\
       Forall (fun ev => ~ is_dispatch ev) tl) /\
    (forall v, o = Some v -> v <> -1 ->
       Forall (fun ev => ~ failed_completion ev) evs /\
       forall r, In r (dispatched evs) -> In r (collected evs)) /\
    (forall a,
       (forall i cb w,
          aio_offset cb = a -> ret_of (fst (os (SysAioReturn i cb) w)) < 0) ->
       (exists n, In (a, n) (dispatched evs)) ->
       forall v, o = Some v -> v = -1).
Proof.
  intros Hfd Hlen HC Hp H.
  destruct (shred_from_run os EINPROGRESS sizeof_ptr rfd wfd len C
              Hfd Hlen HC fuel s o s' Hp H) as (evs & Hw & Ho).
  exists evs. destruct Hw as [Wt _ _ _ _ _ _ Wf _ _]. split; [done|].
  assert (forall v, o = Some v -> v <> -1 ->
            Forall (fun ev => ~ failed_completion ev) evs /\
            forall r, In r (dispatched evs) -> In r (collected evs)) as Hall.
  { intros v -> Hv. split.
    - destruct Ho as [?|(Hall & _)]; done.
    - exact (shred_from_collects os EINPROGRESS sizeof_ptr rfd wfd len Hfd
               fuel s v s' evs H Hv Wt). }
  split_and!.
  - intros Hex.
    assert (~ Forall (fun ev => ~ failed_completion ev) evs) as Hnot.
    { intros Hall'. apply Exists_exists in Hex as (ev & Hin & Hf).
      rewrite Forall_forall in Hall'. exact (Hall' ev Hin Hf). }
    split.
    + destruct o as [v|]; [|done].
      destruct Ho as [->|(Hall' & _)]; done.
    + destruct Wf as [?|(pre & ev & tl & -> & Hpre & Hev & Htl)]; [done|].
      exists pre, ev, tl. split_and!; try done.
      eapply Forall_impl; [apply (error_tail_neutral _ Htl)|].
      intros [c r]. now destruct c.
  - exact Hall.
  - intros a Hbad (n & Hin) v ->.
    destruct (decide (v = -1)) as [|Hv]; [done|exfalso].
    destruct (Hall v eq_refl Hv) as [Hok Hcol].
    apply Hcol, collected_event in Hin as (i & cb & r & Hin & [= Ha _]).
    destruct (shred_from_shape _ _ _ _ _ _ _ _ _ _ H)
      as (r1 & sf & T & A & _).
    rewrite Wt in T. apply app_inv_head in T. subst evs.
    apply list_elem_of_In in Hin.
    rewrite Forall_forall in A, Hok.
    destruct (A _ Hin) as (w & Hw). simpl in Hw.
    apply (Hok _ Hin). simpl. rewrite <- Hw. now apply Hbad.
Qed.

End CompletionErrors.

(** The run of the scenario when the write at offset 4 fails at its
    completion, in the dispatch loop, and when the write at offset 8
    does, in the drain loop. *)
Local Abbreviation failing_scenario :=
  (shred_from (Examples.completion_fail_os 10 4) Examples.EINPROGRESS_bsd
     Examples.sizeof_ptr_bsd 3 4 10 20
     (Examples.init_state 0 (Examples.pool 3 4 2))).

Local Abbreviation failing_drain :=
  (shred_from (Examples.completion_fail_os 10 8) Examples.EINPROGRESS_bsd
     Examples.sizeof_ptr_bsd 3 4 10 20
     (Examples.init_state 0 (Examples.pool 3 4 2))).

Lemma completion_error_aborts_witness :
  (fst failing_scenario = Some (-1) /\
   last (trace (snd failing_scenario)) = Some (SysFree 1048576, Ok 0) /\
   exists evs,
     trace (snd failing_scenario) =
       trace (Examples.init_state 0 (Examples.pool 3 4 2)) ++ evs /\
     (Exists failed_completion evs ->
      fst failing_scenario = Some (-1) /\
      exists pre ev tl, evs = pre ++ ev :: tl /\
        Forall (fun ev => ~ failed_completion ev) pre /\
        failed_completion ev /\ error_tail tl /\
        Forall (fun ev => ~ is_dispatch ev) tl) /\
     (forall v, fst failing_scenario = Some v -> v <> -1 ->
        Forall (fun ev => ~ failed_completion ev) evs /\
        forall r, In r (dispatched evs) -> In r (collected evs)) /\
     (forall a,
        (forall i cb w,
           aio_offset cb = a ->
           ret_of (fst (Examples.completion_fail_os 10 4
                          (SysAioReturn i cb) w)) < 0) ->
        (exists n, In (a, n) (dispatched evs)) ->
        forall v, fst failing_scenario = Some v -> v = -1)) /\
  (fst failing_drain = Some (-1) /\
   dispatched (trace (snd failing_drain)) = [(0, 4); (4, 4); (8, 2)] /\
   last (trace (snd failing_drain)) =
     Some (SysPrintf MsgFinalWriteCompletionError [Examples.EIO], Ok 0) /\
   exists evs,
     trace (snd failing_drain) =
       trace (Examples.init_state 0 (Examples.pool 3 4 2)) ++ evs /\
     (Exists failed_completion evs ->
      fst failing_drain = Some (-1) /\
      exists pre ev tl, evs = pre ++ ev :: tl /\
        Forall (fun ev => ~ failed_completion ev) pre /\
        failed_completion ev /\ error_tail tl /\
        Forall (fun ev => ~ is_dispatch ev) tl) /\
     (forall v, fst failing_drain = Some v -> v <> -1 ->
        Forall (fun ev => ~ failed_completion ev) evs /\
        forall r, In r (dispatched evs) -> In r (collected evs)) /\
     (forall a,
        (forall i cb w,
           aio_offset cb = a ->
           ret_of (fst (Examples.completion_fail_os 10 8
                          (SysAioReturn i cb) w)) < 0) ->
        (exists n, In (a, n) (dispatched evs)) ->
        forall v, fst failing_drain = Some v -> v = -1)).
Proof.
  assert (3 <> 4) as H1 by lia.
  assert (0 <= 10 < two63) as H2 by (unfold two63; lia).
  assert (1 <= 4 < two64) as H3 by (unfold two64; lia).
  split.
  - split; [vm_compute; reflexivity|]. split; [vm_compute; reflexivity|].
    exact (completion_error_aborts (Examples.completion_fail_os 10 4)
             Examples.EINPROGRESS_bsd Examples.sizeof_ptr_bsd 3 4 10 4 20
             (Examples.init_state 0 (Examples.pool 3 4 2))
             (fst failing_scenario) (snd failing_scenario)
             H1 H2 H3 (primed_pool 3 4 2)
             (surjective_pairing failing_scenario)).
  - split; [vm_compute; reflexivity|]. split; [vm_compute; reflexivity|].
    split; [vm_compute; reflexivity|].
    exact (completion_error_aborts (Examples.completion_fail_os 10 8)
             Examples.EINPROGRESS_bsd Examples.sizeof_ptr_bsd 3 4 10 4 20
             (Examples.init_state 0 (Examples.pool 3 4 2))
             (fst failing_drain) (snd failing_drain)
             H1 H2 H3 (primed_pool 3 4 2)
             (surjective_pairing failing_drain)).
Defined.

Section ReadResults.

Context {World : Type}.
Variable os : syscall -> World -> resp * World.
Variables (EINPROGRESS SIGEV_NONE O_RDONLY O_DIRECT : Z).
Variables (DIOCGMEDIASIZE sizeof_aiocb sizeof_ptr : Z).

(** C9.  Over a whole run of [shred] there are no more messages about
    the random source than reads that returned a negative value: a read
    that returns zero or more bytes raises no error.  And the byte count
    of such a read is never looked at: when the operating system answers
    the reads with other counts, zero or fewer than asked for, [shred]
    and [shred_from] return the same value and make the same calls with
    the same answers, those counts apart; the same ranges, with the same
    lengths, are handed to [aio_write].  The slots are still written with
    their whole length: with reads shortened in any way, on an operating
    system that answers at once, a run of [shred_from] on a pool that is
    not empty returns, prints no message about the random source, and has
    handed to [aio_write] every piece of the target, the [k]th of them
    with the length [min C (len - k * C)]; and on an operating system on
    which nothing fails, [shred] on a file of [n] bytes returns 0 with no
    such message after it has handed to [aio_write] every piece of
    128 KiB of the file. *)
Theorem short_reads_are_not_errors (g : syscall -> Z -> Z) fd fuel
    (s : state World) :
  (forall c v, 0 <= v -> 0 <= g c v) ->
  let run os :=
    shred os EINPROGRESS SIGEV_NONE O_RDONLY O_DIRECT DIOCGMEDIASIZE
      sizeof_aiocb sizeof_ptr fd fuel in
  (exists new, trace (snd (run os s)) = trace s ++ new /\ balanced new) /\
  run (shorten g os) (shorten_state g s) =
    (fst (run os s), shorten_state g (snd (run os s))) /\
  dispatched (trace (snd (run (shorten g os) (shorten_state g s)))) =
    dispatched (trace (snd (run os s))) /\
  (forall rfd wfd len,
     shred_from (shorten g os) EINPROGRESS sizeof_ptr rfd wfd len fuel
       (shorten_state g s) =
     (fst (shred_from os EINPROGRESS sizeof_ptr rfd wfd len fuel s),
      shorten_state g
        (snd (shred_from os EINPROGRESS sizeof_ptr rfd wfd len fuel s)))) /\
  (forall rfd wfd len C,
     rfd <> wfd -> 0 <= len < two63 -> 1 <= C < two64 ->
     primed rfd C (bl s) -> bl s <> [] ->
     responsive_os EINPROGRESS os -> list_allocated os sizeof_ptr s ->
     (1 <= fuel)%nat -> (Z.to_nat (2 * len) <= fuel)%nat ->
     exists v s' evs,
       shred_from (shorten g os) EINPROGRESS sizeof_ptr rfd wfd len fuel
         (shorten_state g s) = (Some v, s') /\
       trace s' = trace (shorten_state g s) ++ evs /\
       dispatched evs = map (chunk C len) (seq 0 (chunks C len)) /\
       count read_error_message evs = 0%nat) /\
  (forall M n,
     faultless EINPROGRESS M os -> 0 <= M < two63 ->
     (forall fl w, ret_of (fst (os (SysOpen "/dev/urandom" fl) w)) <> fd) ->
     (forall w, fst (os (SysFstat fd) w) = OkStat n false) ->
     (1 <= fuel)%nat -> (Z.to_nat (2 * M) <= fuel)%nat ->
     exists s' evs,
       run (shorten g os) (shorten_state g s) = (Some 0, s') /\
       trace s' = trace (shorten_state g s) ++ evs /\
       dispatched evs = map (chunk buf_size n) (seq 0 (chunks buf_size n)) /\
       count read_error_message evs = 0%nat).
Proof.
  intros Hg run.
  assert (run (shorten g os) (shorten_state g s) =
          (fst (run os s), shorten_state g (snd (run os s)))) as Hrun.
  { unfold run. rewrite shred_sh by exact Hg.
    now destruct (shred os _ _ _ _ _ _ _ _ _ s). }
  split_and!.
  - unfold run. destruct (shred os _ _ _ _ _ _ _ _ _ s) as [o s'] eqn:E.
    apply shred_grows in E. exact E.
  - exact Hrun.
  - rewrite Hrun. simpl. apply dispatched_shorten.
  - intros rfd wfd len. rewrite shred_from_sh by exact Hg.
    now destruct (shred_from os _ _ _ _ _ _ s).
  - intros rfd wfd len C Hfd Hlen HC Hp Hne Hos Hm Hf1 Hf2.
    pose proof (shorten_responsive os g Hg EINPROGRESS Hos) as Hos'.
    destruct (responsive_run (shorten g os) EINPROGRESS sizeof_ptr rfd wfd
                len C Hfd Hlen HC Hos' fuel (shorten_state g s) Hp Hne
                (shorten_list_allocated os g sizeof_ptr s Hm) Hf1 Hf2)
      as (v & s' & evs & E & T & Ht & _).
    exists v, s', evs. split_and!; try done.
    + destruct (shred_from_run (shorten g os) EINPROGRESS sizeof_ptr rfd wfd
                  len C Hfd Hlen HC fuel (shorten_state g s) (Some v) s' Hp E)
        as (evs' & Hw & _).
      destruct Hw as [Wt _ _ _ Wl _ _ _ _ _].
      rewrite Wt in T. apply app_inv_head in T. subst evs'.
      apply tiles_canonical; try done; lia.
    + eapply responsive_quiet; eauto.
  - intros M n Hos HM Hfd Hst Hf1 Hf2.
    pose proof (shorten_faultless os g Hg EINPROGRESS M Hos) as Hos'.
    destruct (faultless_shred_calls (shorten g os) EINPROGRESS SIGEV_NONE
                O_RDONLY O_DIRECT DIOCGMEDIASIZE sizeof_aiocb sizeof_ptr
                M fd fuel (shorten_state g s) Hos' HM)
      as (s' & evs & gs & E & T & A & Hgs & Ag & Hd); try done.
    { intros fl w. rewrite shorten_answer. apply Hfd. }
    assert (target_size gs = n) as Hn.
    { destruct Hgs as [(r & -> & _)|(m & r & ->)].
      - apply Forall_cons in Ag as [(w & Hw) _]. simpl in Hw.
        rewrite shorten_answer, Hst in Hw. now subst r.
      - apply Forall_cons in Ag as [(w & Hw) _]. simpl in Hw.
        rewrite shorten_answer, Hst in Hw. discriminate Hw. }
    exists s', evs. unfold run. split_and!; try done.
    + now rewrite <- Hn.
    + destruct (shred_grows _ _ _ _ _ _ _ _ _ _ _ _ _ E) as (new & Tn & Hb).
      rewrite Tn in T. apply app_inv_head in T. subst new.
      apply balanced_no_message; [done|].
      apply (no_negative_reads (shorten g os) EINPROGRESS); [|done].
      now apply faultless_responsive with (M := M).
Qed.

End ReadResults.

Lemma steady_os_faultless size :
  0 <= size -> faultless Examples.EINPROGRESS_bsd size (Examples.steady_os size).
Proof.
  intros Hs c w. destruct c; simpl; try done; try lia.
  - destruct (String.eqb _ _); lia.
  - split; [done|]. intros n chr [= <- _]. lia.
Qed.

(** Reads that all return zero bytes: [shred_from] on two slots of four
    bytes and a target of ten bytes, and [shred] on a file of ten
    bytes. *)
Local Abbreviation no_bytes := (fun (_ : syscall) (_ : Z) => 0).

Local Abbreviation two_slots :=
  (Examples.init_state 0 (Examples.pool 3 4 2)).

Local Abbreviation empty_refills :=
  (shred_from (shorten no_bytes (Examples.steady_os 10))
     Examples.EINPROGRESS_bsd Examples.sizeof_ptr_bsd 3 4 10 20
     (shorten_state no_bytes two_slots)).

Local Abbreviation shred_on :=
  (fun os : syscall -> Z -> resp * Z =>
     shred os Examples.EINPROGRESS_bsd
       Examples.SIGEV_NONE_bsd Examples.O_RDONLY_bsd Examples.O_DIRECT_bsd
       Examples.DIOCGMEDIASIZE_bsd Examples.sizeof_aiocb_bsd
       Examples.sizeof_ptr_bsd 4 20).

Local Abbreviation empty_reads :=
  (shred_on (shorten no_bytes (Examples.steady_os 10))
     (shorten_state no_bytes two_slots)).

Lemma short_reads_are_not_errors_witness :
  (fst empty_refills = Some 10 /\
   dispatched (trace (snd empty_refills)) = [(0, 4); (4, 4); (8, 2)] /\
   count negative_read (trace (snd empty_refills)) = 0%nat /\
   Forall (fun ev => match ev with
                     | (SysRead _ _, r) => r = Ok 0
                     | _ => True
                     end) (trace (snd empty_refills))) /\
  (fst empty_reads = Some 0 /\
   dispatched (trace (snd empty_reads)) = [(0, 10)] /\
   count read_error_message (trace (snd empty_reads)) = 0%nat) /\
  faultless Examples.EINPROGRESS_bsd 10 (Examples.steady_os 10) /\
  ((exists new,
      trace (snd (shred_on (Examples.steady_os 10) two_slots)) =
        trace two_slots ++ new /\ balanced new) /\
   shred_on (shorten no_bytes (Examples.steady_os 10))
     (shorten_state no_bytes two_slots) =
     (fst (shred_on (Examples.steady_os 10) two_slots),
      shorten_state no_bytes (snd (shred_on (Examples.steady_os 10) two_slots))) /\
   dispatched
     (trace (snd (shred_on (shorten no_bytes (Examples.steady_os 10))
                    (shorten_state no_bytes two_slots)))) =
     dispatched (trace (snd (shred_on (Examples.steady_os 10) two_slots))) /\
   (forall rfd wfd len,
      shred_from (shorten no_bytes (Examples.steady_os 10))
        Examples.EINPROGRESS_bsd Examples.sizeof_ptr_bsd rfd wfd len 20
        (shorten_state no_bytes two_slots) =
      (fst (shred_from (Examples.steady_os 10) Examples.EINPROGRESS_bsd
              Examples.sizeof_ptr_bsd rfd wfd len 20 two_slots),
       shorten_state no_bytes
         (snd (shred_from (Examples.steady_os 10) Examples.EINPROGRESS_bsd
                 Examples.sizeof_ptr_bsd rfd wfd len 20 two_slots)))) /\
   (forall rfd wfd len C,
      rfd <> wfd -> 0 <= len < two63 -> 1 <= C < two64 ->
      primed rfd C (bl two_slots) -> bl two_slots <> [] ->
      responsive_os Examples.EINPROGRESS_bsd (Examples.steady_os 10) ->
      list_allocated (Examples.steady_os 10) Examples.sizeof_ptr_bsd
        two_slots ->
      (1 <= 20)%nat -> (Z.to_nat (2 * len) <= 20)%nat ->
      exists v s' evs,
        shred_from (shorten no_bytes (Examples.steady_os 10))
          Examples.EINPROGRESS_bsd Examples.sizeof_ptr_bsd rfd wfd len 20
          (shorten_state no_bytes two_slots) = (Some v, s') /\
        trace s' = trace (shorten_state no_bytes two_slots) ++ evs /\
        dispatched evs = map (chunk C len) (seq 0 (chunks C len)) /\
        count read_error_message evs = 0%nat) /\
   (forall M n,
      faultless Examples.EINPROGRESS_bsd M (Examples.steady_os 10) ->
      0 <= M < two63 ->
      (forall fl w,
         ret_of (fst (Examples.steady_os 10 (SysOpen "/dev/urandom" fl) w))
         <> 4) ->
      (forall w, fst (Examples.steady_os 10 (SysFstat 4) w) = OkStat n false) ->
      (1 <= 20)%nat -> (Z.to_nat (2 * M) <= 20)%nat ->
      exists s' evs,
        shred_on (shorten no_bytes (Examples.steady_os 10))
          (shorten_state no_bytes two_slots) = (Some 0, s') /\
        trace s' = trace (shorten_state no_bytes two_slots) ++ evs /\
        dispatched evs = map (chunk buf_size n) (seq 0 (chunks buf_size n)) /\
        count read_error_message evs = 0%nat)).
Proof.
  split.
  { split; [vm_compute; reflexivity|]. split; [vm_compute; reflexivity|].
    split; [vm_compute; reflexivity|].
    vm_compute. repeat (apply Forall_cons_2; [done|]). apply Forall_nil_2. }
  split.
  { split; [vm_compute; reflexivity|]. split; [vm_compute; reflexivity|].
    vm_compute. reflexivity. }
  split; [apply steady_os_faultless; lia|].
  assert (forall (c : syscall) (v : Z), 0 <= v -> 0 <= no_bytes c v) as H1
    by (intros c v _; lia).
  exact (short_reads_are_not_errors (Examples.steady_os 10)
           Examples.EINPROGRESS_bsd
           Examples.SIGEV_NONE_bsd Examples.O_RDONLY_bsd Examples.O_DIRECT_bsd
           Examples.DIOCGMEDIASIZE_bsd Examples.sizeof_aiocb_bsd
           Examples.sizeof_ptr_bsd no_bytes 4 20 two_slots H1).
Defined.

(** ** The properties on example runs *)

(** Two slots of four bytes, a target of ten bytes, every call succeeds
    at once. *)
Local Abbreviation start_state :=
  (Examples.init_state 0 (Examples.pool 3 4 2)).
Local Abbreviation ten_bytes :=
  (shred_from (Examples.prompt_os 10) Examples.EINPROGRESS_bsd
     Examples.sizeof_ptr_bsd 3 4 10 20 start_state).
Local Abbreviation ten_bytes_calls := (removelast (trace (snd ten_bytes))).

(** The same run when [fsync] fails. *)
Local Abbreviation unflushed :=
  (shred_from (Examples.flush_fail_os 10) Examples.EINPROGRESS_bsd
     Examples.sizeof_ptr_bsd 3 4 10 20 start_state).

(** A pool without slots. *)
Local Abbreviation no_slots :=
  (shred_from (Examples.prompt_os 10) Examples.EINPROGRESS_bsd
     Examples.sizeof_ptr_bsd 3 4 10 3 (Examples.init_state 0 [])).

(** The priming loop on the random source 3. *)
Local Abbreviation primes :=
  (for_loop (prime_body (Examples.prompt_os 10) Examples.SIGEV_NONE_bsd 3)
     blcnt 0
     (set_bl (replicate blcnt aiocb_zero) (Examples.init_state 0 []))).

(** [shred] on a target whose [fstat] fails, and on a file of 300000
    bytes. *)
Local Abbreviation sizeless :=
  (shred (Examples.failing_os 300000 Examples.bad_fstat)
     Examples.EINPROGRESS_bsd Examples.SIGEV_NONE_bsd Examples.O_RDONLY_bsd
     Examples.O_DIRECT_bsd Examples.DIOCGMEDIASIZE_bsd
     Examples.sizeof_aiocb_bsd Examples.sizeof_ptr_bsd 4 20
     (Examples.init_state 0 [])).
Local Abbreviation whole_file :=
  (shred (Examples.prompt_os 300000)
     Examples.EINPROGRESS_bsd Examples.SIGEV_NONE_bsd Examples.O_RDONLY_bsd
     Examples.O_DIRECT_bsd Examples.DIOCGMEDIASIZE_bsd
     Examples.sizeof_aiocb_bsd Examples.sizeof_ptr_bsd 4 20
     (Examples.init_state 0 [])).

(** [main] on a device of 300000 bytes, and on a target whose [fstat]
    fails. *)
Local Abbreviation on_device :=
  (main (Examples.device_os 300000)
     Examples.EINPROGRESS_bsd Examples.SIGEV_NONE_bsd Examples.O_RDONLY_bsd
     Examples.O_DIRECT_bsd Examples.O_WRONLY_bsd Examples.DIOCGMEDIASIZE_bsd
     Examples.sizeof_aiocb_bsd Examples.sizeof_ptr_bsd
     ["ashred"; "/dev/da0"]%string 20 (Examples.init_state 0 [])).
Local Abbreviation on_sizeless :=
  (main (Examples.failing_os 300000 Examples.bad_fstat)
     Examples.EINPROGRESS_bsd Examples.SIGEV_NONE_bsd Examples.O_RDONLY_bsd
     Examples.O_DIRECT_bsd Examples.O_WRONLY_bsd Examples.DIOCGMEDIASIZE_bsd
     Examples.sizeof_aiocb_bsd Examples.sizeof_ptr_bsd
     ["ashred"; "/dev/da0"]%string 20 (Examples.init_state 0 [])).

Lemma device_os_convention size :
  0 <= size -> errno_convention (Examples.device_os size).
Proof.
  intros Hs c w. destruct c; simpl; try done; try lia.
  destruct (String.eqb _ _); lia.
Qed.

Lemma priming_fills_pool_witness :
  exists rs,
    Forall (fun x => 0 <= ret_of (snd x)) rs /\
    match fst primes with
    | Continue =>
        length rs = 8%nat /\
        trace (snd primes) =
          trace (Examples.init_state 0 []) ++
          priming 3 Examples.SIGEV_NONE_bsd 0 rs /\
        bl (snd primes) =
          map (fun x => slot_of 3 Examples.SIGEV_NONE_bsd (fst x)) rs /\
        map aio_buf (bl (snd primes)) =
          allocated (priming 3 Examples.SIGEV_NONE_bsd 0 rs) /\
        primed 3 (128 * 1024) (bl (snd primes))
    | Return v =>
        (length rs < 8)%nat /\ v = errno (snd primes) /\
        exists rm rr rp,
          ret_of rr < 0 /\
          trace (snd primes) =
            trace (Examples.init_state 0 []) ++
            priming 3 Examples.SIGEV_NONE_bsd 0 (rs ++ [(rm, rr)]) ++
            [(SysPrintf MsgFailedInitialRead [], rp)]
    | _ => False
    end.
Proof.
  exact (priming_fills_pool (Examples.prompt_os 10) Examples.SIGEV_NONE_bsd
           3 (Examples.init_state 0 []) (fst primes) (snd primes)
           (surjective_pairing primes)).
Defined.

Lemma dispatch_canonical_witness :
  primed 3 4 (bl start_state) /\
  exists evs n, trace (snd ten_bytes) = trace start_state ++ evs /\
    dispatched evs = map (chunk 4 10) (seq 0 n) /\
    (n <= chunks 4 10)%nat /\
    (forall v, fst ten_bytes = Some v -> v <> -1 -> n = chunks 4 10).
Proof.
  assert (3 <> 4) as H1 by lia.
  assert (0 <= 10 < two63) as H2 by (unfold two63; lia).
  assert (1 <= 4 < two64) as H3 by (unfold two64; lia).
  split; [exact (primed_pool 3 4 2)|].
  exact (dispatch_canonical (Examples.prompt_os 10) Examples.EINPROGRESS_bsd
           Examples.sizeof_ptr_bsd 3 4 10 4 20 start_state
           (fst ten_bytes) (snd ten_bytes) H1 H2 H3 (primed_pool 3 4 2)
           (surjective_pairing ten_bytes)).
Defined.

Lemma list_freed_once_witness :
  exists r1 pre post,
    trace (snd ten_bytes) =
      trace start_state ++
      (SysMalloc (Z.of_nat (length (bl start_state)) *
                  Examples.sizeof_ptr_bsd), r1) ::
      pre ++ post /\
    Forall (fun ev => ~ is_free ev /\ waits_on (ptr_of r1) ev) pre /\
    match post with
    | [] => fst ten_bytes = None
    | ev :: post' =>
        (exists r2, ev = (SysFree (ptr_of r1), r2)) /\
        Forall (fun ev => ~ is_free ev /\ ~ is_suspend ev) post'
    end.
Proof.
  exact (list_freed_once (Examples.prompt_os 10) Examples.EINPROGRESS_bsd
           Examples.sizeof_ptr_bsd 3 4 10 20 start_state
           (fst ten_bytes) (snd ten_bytes) (surjective_pairing ten_bytes)).
Defined.

Lemma flush_after_all_writes_witness :
  trace (snd ten_bytes) =
    trace start_state ++ ten_bytes_calls ++ [(SysFsync 4, Ok 0)] /\
  (4 = 4 /\
   Forall (fun ev => ~ is_fsync ev) (ten_bytes_calls ++ []) /\
   tiles 0 (dispatched ten_bytes_calls) 10 /\
   Forall (fun ev => ~ failed_completion ev) ten_bytes_calls /\
   requested ten_bytes_calls = 10 /\
   protocol Examples.EINPROGRESS_bsd
     (replicate (length (bl start_state)) Idle) ten_bytes_calls =
     Some (replicate (length (bl start_state)) Idle) /\
   (ret_of (Ok 0) = 0 ->
      @nil event = [] /\
      fst ten_bytes =
        Some (to_ssize_t (to_size_t (confirmed ten_bytes_calls))))).
Proof.
  assert (3 <> 4) as H1 by lia.
  assert (0 <= 10 < two63) as H2 by (unfold two63; lia).
  assert (1 <= 4 < two64) as H3 by (unfold two64; lia).
  assert (trace (snd ten_bytes) =
            trace start_state ++ ten_bytes_calls ++ [(SysFsync 4, Ok 0)])
    as T by (vm_compute; reflexivity).
  split; [exact T|].
  exact (flush_after_all_writes (Examples.prompt_os 10)
           Examples.EINPROGRESS_bsd Examples.sizeof_ptr_bsd 3 4 10 4 20
           start_state (fst ten_bytes) (snd ten_bytes) ten_bytes_calls
           4 (Ok 0) [] H1 H2 H3 (primed_pool 3 4 2)
           (surjective_pairing ten_bytes) T).
Defined.

Lemma empty_pool_only_waits_witness :
  exists r1 rs, Forall (fun r => 0 <= ret_of r) rs /\
    ((fst no_slots = None /\ length rs = 3%nat /\
      trace (snd no_slots) =
        trace (Examples.init_state 0 []) ++
        (SysMalloc (0 * Examples.sizeof_ptr_bsd), r1) ::
        waits (ptr_of r1) rs) \/
     (fst no_slots = Some (-1) /\
      exists r a rp rf, ret_of r < 0 /\
        trace (snd no_slots) =
          trace (Examples.init_state 0 []) ++
          (SysMalloc (0 * Examples.sizeof_ptr_bsd), r1) ::
          waits (ptr_of r1) rs ++
          [(SysAioSuspend (ptr_of r1) 0, r);
           (SysPrintf MsgSuspendFailed a, rp);
           (SysFree (ptr_of r1), rf)])).
Proof.
  assert (0 < 10) as Hlen by lia.
  exact (empty_pool_only_waits (Examples.prompt_os 10)
           Examples.EINPROGRESS_bsd Examples.sizeof_ptr_bsd 3 4 10 Hlen 3
           (Examples.init_state 0 []) (fst no_slots) (snd no_slots)
           eq_refl (surjective_pairing no_slots)).
Defined.

Lemma exit_zero_means_shredded_witness :
  errno_convention (Examples.device_os 300000) /\
  NoDup (opened (trace (snd (snd on_device)))) /\
  (fst on_device = [] /\
   exists prog filename rt randfd pre r post rc,
     ["ashred"; "/dev/da0"]%string = [prog; filename] /\
     hd_error (trace (snd (snd on_device))) =
       Some (SysOpen filename Examples.O_WRONLY_bsd, rt) /\
     opened (trace (snd (snd on_device))) = [ret_of rt; randfd] /\
     trace (snd (snd on_device)) =
       pre ++ (SysFsync (ret_of rt), r) :: post /\ ret_of r = 0 /\
     Forall neutral post /\
     last (trace (snd (snd on_device))) = Some (SysClose (ret_of rt), rc) /\
     tiles 0 (dispatched pre) (target_size (trace (snd (snd on_device)))) /\
     Forall (fun ev => ~ failed_completion ev) pre /\
     requested pre = target_size (trace (snd (snd on_device))) /\
     Forall (in_role randfd (ret_of rt)) (trace (snd (snd on_device)))).
Proof.
  assert (errno_convention (Examples.device_os 300000)) as Hos
    by (apply device_os_convention; lia).
  assert (on_device = (fst on_device, (Some 0, snd (snd on_device)))) as E
    by (vm_compute; reflexivity).
  assert (NoDup (opened (trace (snd (snd on_device))))) as Hnd.
  { vm_compute. apply NoDup_cons. split; [|apply NoDup_singleton].
    intros H. apply list_elem_of_singleton in H. discriminate H. }
  assert (0 <= target_size (trace (snd (snd on_device))) < two63) as Hsz
    by (vm_compute; split; [discriminate|reflexivity]).
  split; [exact Hos|]. split; [exact Hnd|].
  exact (exit_zero_means_shredded (Examples.device_os 300000)
     Examples.EINPROGRESS_bsd Examples.SIGEV_NONE_bsd Examples.O_RDONLY_bsd
     Examples.O_DIRECT_bsd Examples.O_WRONLY_bsd Examples.DIOCGMEDIASIZE_bsd
     Examples.sizeof_aiocb_bsd Examples.sizeof_ptr_bsd
     ["ashred"; "/dev/da0"]%string 20 (Examples.init_state 0 [])
     (fst on_device) (snd (snd on_device)) (trace (snd (snd on_device)))
     Hos E eq_refl Hnd Hsz).
Defined.

Lemma faultless_run_succeeds_witness :
  faultless Examples.EINPROGRESS_bsd 10 (Examples.steady_os 10) /\
  exists s',
    main (Examples.steady_os 10)
      Examples.EINPROGRESS_bsd Examples.SIGEV_NONE_bsd Examples.O_RDONLY_bsd
      Examples.O_DIRECT_bsd Examples.O_WRONLY_bsd Examples.DIOCGMEDIASIZE_bsd
      Examples.sizeof_aiocb_bsd Examples.sizeof_ptr_bsd
      ["ashred"; "/dev/da0"]%string 20 (Examples.init_state 0 []) =
    ([], (Some 0, s')).
Proof.
  assert (faultless Examples.EINPROGRESS_bsd 10
            (Examples.steady_os 10)) as Hos
    by (apply steady_os_faultless; lia).
  assert (0 <= 10 < two63) as HM by (unfold two63; lia).
  assert (forall (fl w fl' w' : Z),
     ret_of (fst (Examples.steady_os 10 (SysOpen "/dev/urandom" fl) w)) <>
     ret_of (fst (Examples.steady_os 10 (SysOpen "/dev/da0" fl') w')))
    as Hfd by (intros fl w fl' w'; simpl; lia).
  assert (1 <= 20)%nat as H1 by lia.
  assert (Z.to_nat (2 * 10) <= 20)%nat as H2 by lia.
  split; [exact Hos|].
  exact (faultless_run_succeeds (Examples.steady_os 10)
     Examples.EINPROGRESS_bsd Examples.SIGEV_NONE_bsd Examples.O_RDONLY_bsd
     Examples.O_DIRECT_bsd Examples.O_WRONLY_bsd Examples.DIOCGMEDIASIZE_bsd
     Examples.sizeof_aiocb_bsd Examples.sizeof_ptr_bsd 10
     "ashred" "/dev/da0" 20 (Examples.init_state 0 [])
     Hos HM Hfd H1 H2).
Defined.

Lemma size_error_code_witness :
  last (trace (snd sizeless)) = Some (SysFstat 4, Fail Examples.EIO) /\
  (fst sizeless = Some (ret_of (Fail Examples.EIO)) /\
   ret_of (Fail Examples.EIO) <> 0 /\
   asks_size 4 Examples.DIOCGMEDIASIZE_bsd (SysFstat 4, Fail Examples.EIO) /\
   (forall e, Fail Examples.EIO = Fail e -> fst sizeless = Some (-1))).
Proof.
  assert (last (trace (snd sizeless)) =
          Some (SysFstat 4, Fail Examples.EIO)) as L
    by (vm_compute; reflexivity).
  split; [exact L|].
  exact (size_error_code (Examples.failing_os 300000 Examples.bad_fstat)
     Examples.EINPROGRESS_bsd Examples.SIGEV_NONE_bsd Examples.O_RDONLY_bsd
     Examples.O_DIRECT_bsd Examples.DIOCGMEDIASIZE_bsd
     Examples.sizeof_aiocb_bsd Examples.sizeof_ptr_bsd 4 20
     (Examples.init_state 0 []) (fst sizeless) (snd sizeless)
     (trace (snd sizeless)) (SysFstat 4) (Fail Examples.EIO)
     (surjective_pairing sizeless) eq_refl L I).
Defined.

Lemma errors_are_announced_witness :
  exists r1 evs,
    trace (snd unflushed) =
      trace start_state ++
      (SysMalloc (Z.of_nat (length (bl start_state)) *
                  Examples.sizeof_ptr_bsd), r1) :: evs /\
    ((Forall (fun ev => ~ is_printf ev) evs /\
      exists r, last evs = Some (SysFsync 4, r) /\ ret_of r = 0) \/
     (-1 = -1 /\
      exists pre c r m a rp tl,
        evs = pre ++ (c, r) :: (SysPrintf m a, rp) :: tl /\
        Forall (fun ev => ~ is_printf ev) pre /\
        announces 4 c r m a /\
        (tl = [] \/ exists r2, tl = [(SysFree (ptr_of r1), r2)]))).
Proof.
  assert (unflushed = (Some (-1), snd unflushed)) as E
    by (vm_compute; reflexivity).
  exact (errors_are_announced (Examples.flush_fail_os 10)
           Examples.EINPROGRESS_bsd Examples.sizeof_ptr_bsd 3 4 10 20
           start_state (-1) (snd unflushed) E).
Defined.

Lemma failures_are_announced_witness :
  snd on_sizeless = (Some (-1), snd (snd on_sizeless)) /\
  ((fst on_sizeless = [usage] /\ trace (snd (snd on_sizeless)) = [] /\
    -1 = -1 /\ length ["ashred"; "/dev/da0"]%string <> 2%nat) \/
   (fst on_sizeless = [] /\
    exists prog filename rt,
      ["ashred"; "/dev/da0"]%string = [prog; filename] /\
      ((ret_of rt = -1 /\
        trace (snd (snd on_sizeless)) =
          [(SysOpen filename Examples.O_WRONLY_bsd, rt)] /\
        forall e, rt = Fail e -> -1 = e) \/
       (ret_of rt <> -1 /\
        exists mid rc rp,
          trace (snd (snd on_sizeless)) =
            (SysOpen filename Examples.O_WRONLY_bsd, rt) :: mid ++
            [(SysClose (ret_of rt), rc);
             (SysPrintf MsgShredFileFailed [-1; -1], rp)])))).
Proof.
  assert (on_sizeless = (fst on_sizeless, (Some (-1), snd (snd on_sizeless))))
    as E by (vm_compute; reflexivity).
  assert (-1 <> 0) as Hv by lia.
  split; [vm_compute; reflexivity|].
  exact (failures_are_announced
     (Examples.failing_os 300000 Examples.bad_fstat)
     Examples.EINPROGRESS_bsd Examples.SIGEV_NONE_bsd Examples.O_RDONLY_bsd
     Examples.O_DIRECT_bsd Examples.O_WRONLY_bsd Examples.DIOCGMEDIASIZE_bsd
     Examples.sizeof_aiocb_bsd Examples.sizeof_ptr_bsd
     ["ashred"; "/dev/da0"]%string 20 (Examples.init_state 0 [])
     (fst on_sizeless) (-1) (snd (snd on_sizeless))
     (trace (snd (snd on_sizeless))) E Hv eq_refl).
Defined.

Lemma success_releases_witness :
  last (trace (snd whole_file)) = Some (SysPrintf MsgSummary [300000], Ok 0) /\
  (fst whole_file = Some 0 /\
   exists randfd array bufs list,
     opened (trace (snd whole_file)) = [randfd] /\
     allocated (trace (snd whole_file)) = array :: bufs ++ [list] /\
     length bufs = 8%nat /\
     Examples.releases (trace (snd whole_file)) =
       SysFree list :: SysClose randfd :: map SysFree bufs).
Proof.
  assert (last (trace (snd whole_file)) =
          Some (SysPrintf MsgSummary [300000], Ok 0)) as L
    by (vm_compute; reflexivity).
  split; [exact L|].
  exact (success_releases (Examples.prompt_os 300000)
     Examples.EINPROGRESS_bsd Examples.SIGEV_NONE_bsd Examples.O_RDONLY_bsd
     Examples.O_DIRECT_bsd Examples.DIOCGMEDIASIZE_bsd
     Examples.sizeof_aiocb_bsd Examples.sizeof_ptr_bsd 4 20
     (Examples.init_state 0 []) (fst whole_file) (snd whole_file)
     (trace (snd whole_file)) [300000] (Ok 0)
     (surjective_pairing whole_file) eq_refl L).
Defined.
